(** * SFS, the Shark File System: a shallow embedding of the engine
      (sfs-disk.c, sfs-api.c) and of the offline checker (sfs-fsck.c).

    The mapped disk image is an array of 512-byte blocks; block 0 is the
    super block.  C integers are [Z] with the wrap-around of their width
    written out where the code can reach it; pointers into the mapping are
    block ids (or directory slots), NULL is [None]. *)

From Stdlib Require Import ZArith Lia List Strings.Byte.
From stdpp Require Import base tactics option list numbers strings gmap.

Open Scope Z_scope.

(** ** Outcomes of C code *)

(** A C function either returns, or stops in [abort()] (a failed [assert]),
    or makes an invalid memory access, or - in the model only - exhausts
    the iteration bound given to one of its loops. *)
Inductive outcome (A : Type) : Type :=
| Ret (a : A)
| Abort
| Fault
| Timeout.
Arguments Ret {A} a.
Arguments Abort {A}.
Arguments Fault {A}.
Arguments Timeout {A}.

#[global] Instance outcome_ret : MRet outcome := fun A a => Ret a.
#[global] Instance outcome_bind : MBind outcome := fun A B f m =>
  match m with
  | Ret a => f a
  | Abort => Abort
  | Fault => Fault
  | Timeout => Timeout
  end.

(** [assert(c)] *)
Definition assert (c : bool) : outcome unit := if c then Ret tt else Abort.

(** A load through a pointer that may be outside the array. *)
Definition deref {A} (o : option A) : outcome A :=
  match o with Some a => Ret a | None => Fault end.

(** ** Constants of sfs-disk.h and of the engine *)

Definition SFS_BLOCK_SIZE : Z := 512.
Definition BLOCK_DATA_SIZE : Z := 500.
Definition SFS_FILE_NAME_SIZE_LIMIT : Z := 24.
Definition DIR_ENTRIES_PER_BLOCK : Z := 15.
Definition FILE_COUNT_LIMIT : Z := DIR_ENTRIES_PER_BLOCK.
Definition OPEN_FILE_LIMIT : Z := 32.
Definition UINT32_MAX : Z := 4294967295.
Definition SFS_MAX_DISK_SIZE : Z := (UINT32_MAX + 1) * SFS_BLOCK_SIZE.
Definition SFS_MAX_FILE_SIZE : Z := UINT32_MAX.

Definition SFS_DISK_MAGIC : list byte := [x53; x46; x53; xb2; xb1; xb3; x01; x00].
Definition SFS_BLOCK_TYPE_FREE : list byte := [x53; x46; x55; xf5].
Definition SFS_BLOCK_TYPE_FILE : list byte := [x53; x46; x46; xe6].
Definition SFS_BLOCK_TYPE_DIR : list byte := [x53; x46; x44; xe4].

(** errno values of the host (Linux), as the engine negates them. *)
Definition ENOENT : Z := 2.
Definition EBADF : Z := 9.
Definition ENOMEM : Z := 12.
Definition EBUSY : Z := 16.
Definition EINVAL : Z := 22.
Definition EMFILE : Z := 24.
Definition EFBIG : Z := 27.
Definition ENOSPC : Z := 28.
Definition ENAMETOOLONG : Z := 36.
Definition ENOSYS : Z := 38.
Definition ENOMEDIUM : Z := 123.

(** Arithmetic of [uint32_t], [size_t] (64 bits) and the cast to [ssize_t]. *)
Definition u32 (x : Z) : Z := x mod 2 ^ 32.
Definition u64 (x : Z) : Z := x mod 2 ^ 64.
Definition to_ssize (x : Z) : Z := if decide (x < 2 ^ 63) then x else x - 2 ^ 64.

#[global] Instance byte_eq_dec : EqDecision byte := Byte.byte_eq_dec.

(** ** On-disk structures *)

Record sfs_block_hdr_t := {
  type : list byte;
  prev_block : Z;
  next_block : Z
}.

Record sfs_block_file_t := {
  h : sfs_block_hdr_t;
  data : list byte
}.

Record sfs_dir_entry_t := {
  first_block : Z;
  size : Z;
  name : list byte
}.

Record sfs_filesystem_t := {
  magic : list byte;
  n_blocks : Z;
  freelist : Z;
  next_rootdir : Z;
  files : list sfs_dir_entry_t
}.

(** The mapping: [diskBlocks].  Entry 0 of the array is the super block,
    kept in [super]; [blocks] keeps a placeholder there, so that the index
    of a block in the list is its id.  [diskSizeInBytes] is
    [512 * length blocks]. *)
Record image := {
  super : sfs_filesystem_t;
  blocks : list sfs_block_file_t
}.

#[global] Instance hdr_eq_dec : EqDecision sfs_block_hdr_t.
Proof. solve_decision. Defined.
#[global] Instance block_eq_dec : EqDecision sfs_block_file_t.
Proof. solve_decision. Defined.
#[global] Instance dir_entry_eq_dec : EqDecision sfs_dir_entry_t.
Proof. solve_decision. Defined.
#[global] Instance filesystem_eq_dec : EqDecision sfs_filesystem_t.
Proof. solve_decision. Defined.
#[global] Instance image_eq_dec : EqDecision image.
Proof. solve_decision. Defined.

(** Field updates *)
Definition set_type (ty : list byte) (b : sfs_block_file_t) : sfs_block_file_t :=
  {| h := {| type := ty; prev_block := prev_block (h b); next_block := next_block (h b) |};
     data := data b |}.
Definition set_prev (p : Z) (b : sfs_block_file_t) : sfs_block_file_t :=
  {| h := {| type := type (h b); prev_block := p; next_block := next_block (h b) |};
     data := data b |}.
Definition set_next (n : Z) (b : sfs_block_file_t) : sfs_block_file_t :=
  {| h := {| type := type (h b); prev_block := prev_block (h b); next_block := n |};
     data := data b |}.
Definition set_data (dt : list byte) (b : sfs_block_file_t) : sfs_block_file_t :=
  {| h := h b; data := dt |}.

Definition set_freelist (f : Z) (d : image) : image :=
  {| super := {| magic := magic (super d); n_blocks := n_blocks (super d);
                 freelist := f; next_rootdir := next_rootdir (super d);
                 files := files (super d) |};
     blocks := blocks d |}.
Definition set_files (fs : list sfs_dir_entry_t) (d : image) : image :=
  {| super := {| magic := magic (super d); n_blocks := n_blocks (super d);
                 freelist := freelist (super d); next_rootdir := next_rootdir (super d);
                 files := fs |};
     blocks := blocks d |}.

(** Reading and writing the block a (non-null) block pointer refers to. *)
Definition load (d : image) (id : Z) : outcome sfs_block_file_t :=
  deref (blocks d !! Z.to_nat id).
Definition store (d : image) (id : Z) (b : sfs_block_file_t) : image :=
  {| super := super d; blocks := <[Z.to_nat id := b]> (blocks d) |}.

(** ** Block layer (sfs-disk.c) *)

(** [setBlockType] *)
Definition setBlockType (d : image) (id : Z) (ty : list byte) : outcome image :=
  b ← load d id; Ret (store d id (set_type ty b)).

(** [accessBlock]: the pointer to block [id], NULL for id 0. *)
Definition accessBlock (d : image) (id : Z) : outcome (option Z) :=
  _ ← assert (bool_decide (id < Z.of_nat (length (blocks d))));
  Ret (if decide (id = 0) then None else Some id).

(** [accessFreeBlock] *)
Definition accessFreeBlock (d : image) (id : Z) : outcome (option Z) :=
  p ← accessBlock d id;
  match p with
  | Some b =>
      blk ← load d b;
      _ ← assert (bool_decide (type (h blk) = SFS_BLOCK_TYPE_FREE));
      Ret (Some b)
  | None => Ret None
  end.

(** [accessFileBlock] *)
Definition accessFileBlock (d : image) (id : Z) : outcome (option Z) :=
  p ← accessBlock d id;
  match p with
  | Some b =>
      blk ← load d b;
      _ ← assert (bool_decide (type (h blk) = SFS_BLOCK_TYPE_FILE));
      Ret (Some b)
  | None => Ret None
  end.

(** [idOfBlock]: a null pointer lies below the mapping and fails the
    assertion [p >= base]. *)
Definition idOfBlock (p : option Z) : outcome Z :=
  match p with Some id => Ret id | None => Abort end.

(** ** Internal subroutines of the engine *)

(** [roundUp] on [size_t]. *)
Definition roundUp (size n : Z) : Z :=
  let size := if decide (size = 0) then 1 else size in
  u64 (n * (u64 (size + (n - 1)) / n)).

Definition sizeMin (a b : Z) : Z := if decide (a < b) then a else b.

(** The first loop of [allocateBlocks], [k] iterations to go: the id of
    the last block to allocate, or [None] when the list ran out. *)
Fixpoint alloc_walk (k : nat) (d : image) (last_alloc_id : Z) : outcome (option Z) :=
  match k with
  | O => Ret (Some last_alloc_id)
  | S k' =>
      last_alloc_blk ← load d last_alloc_id;
      if decide (next_block (h last_alloc_blk) = 0) then Ret None
      else
        let last_alloc_id := next_block (h last_alloc_blk) in
        p ← accessFreeBlock d last_alloc_id;
        match p with
        | Some id => alloc_walk k' d id
        | None => Fault
        end
  end.

(** The last loop of [allocateBlocks]: retag the detached chain. *)
Fixpoint alloc_retag (fuel : nat) (d : image) (b : option Z) (ty : list byte)
  : outcome image :=
  match b with
  | None => Ret d
  | Some id =>
      match fuel with
      | O => Timeout
      | S fuel' =>
          d1 ← setBlockType d id ty;
          blk ← load d1 id;
          nb ← accessFreeBlock d1 (next_block (h blk));
          alloc_retag fuel' d1 nb ty
      end
  end.

(** [allocateBlocks]: the id of the first allocated block (0 on failure)
    and the image afterwards. *)
Definition allocateBlocks (n : Z) (ty : list byte) (d : image) : outcome (Z * image) :=
  if decide (freelist (super d) = 0 ∨ n = 0) then Ret (0, d)
  else
    let first_alloc_id := freelist (super d) in
    first_alloc_blk ← accessFreeBlock d first_alloc_id;
    match first_alloc_blk with
    | None => Fault
    | Some first =>
        w ← alloc_walk (Z.to_nat (n - 1)) d first;
        match w with
        | None => Ret (0, d)
        | Some last_alloc_id =>
            last_alloc_blk ← load d last_alloc_id;
            let next_free_id := next_block (h last_alloc_blk) in
            d1 ← (if decide (next_free_id ≠ 0) then
                    next_free_blk ← accessFreeBlock d next_free_id;
                    match next_free_blk with
                    | None => Fault
                    | Some nf =>
                        nfb ← load d nf;
                        let d' := store d nf (set_prev 0 nfb) in
                        lb ← load d' last_alloc_id;
                        Ret (store d' last_alloc_id (set_next 0 lb))
                    end
                  else Ret d);
            let d2 := set_freelist next_free_id d1 in
            d3 ← alloc_retag (Z.to_nat n) d2 (Some first) ty;
            Ret (first_alloc_id, d3)
        end
    end.

(** The loop of [freeBlocks]: retag from [b] to the end of the chain and
    return the last block. *)
Fixpoint free_walk (fuel : nat) (d : image) (b : Z) : outcome (image * Z) :=
  match fuel with
  | O => Timeout
  | S fuel' =>
      blk ← load d b;
      _ ← assert (bool_decide (type (h blk) ≠ SFS_BLOCK_TYPE_FREE));
      d1 ← setBlockType d b SFS_BLOCK_TYPE_FREE;
      if decide (next_block (h blk) = 0) then Ret (d1, b)
      else
        p ← accessBlock d1 (next_block (h blk));
        match p with
        | Some nb => free_walk fuel' d1 nb
        | None => Fault
        end
  end.

(** [freeBlocks] *)
Definition freeBlocks (first_block : Z) (d : image) : outcome image :=
  p ← accessBlock d first_block;
  match p with
  | None => Fault
  | Some b =>
      blk ← load d b;
      d1 ← (if decide (prev_block (h blk) ≠ 0) then
              pp ← accessBlock d (prev_block (h blk));
              match pp with
              | None => Fault
              | Some pid =>
                  pb ← load d pid;
                  let d' := store d pid (set_next 0 pb) in
                  blk' ← load d' b;
                  Ret (store d' b (set_prev 0 blk'))
              end
            else Ret d);
      '(d2, last) ← free_walk (length (blocks d)) d1 b;
      lb ← load d2 last;
      let d3 := store d2 last (set_next (freelist (super d2)) lb) in
      Ret (set_freelist first_block d3)
  end.

(** ** In-memory tables of the engine *)

(** A v-node ("open file table" entry of the source).  [diskFile] points
    into the mapping: it is the number of the mapping it was taken from
    and the directory slot it addresses. *)
Record sfs_mem_file_t := {
  refCount : Z;
  fileEntryIdx : Z;
  diskFile : nat * Z
}.

(** A descriptor.  [fileEntry] is the address of the v-node on the heap. *)
Record sfs_mem_filedesc_t := {
  fileEntry : nat;
  startBlock : Z;
  currBlock : Z;
  currPos : Z
}.

(** The engine: the mapping ([None] is [diskBlocks == NULL]), the heap of
    malloc'ed v-nodes, the two static tables, and the files of the host. *)
Record state := {
  diskBlocks : option image;
  mapping : nat;
  mapped_path : string;
  vnodes : gmap nat sfs_mem_file_t;
  openFileTable : list (option nat);
  openFileDescTable : list (option sfs_mem_filedesc_t);
  host : gmap string image
}.

Definition set_disk (d : image) (s : state) : state :=
  {| diskBlocks := Some d; mapping := mapping s; mapped_path := mapped_path s;
     vnodes := vnodes s; openFileTable := openFileTable s;
     openFileDescTable := openFileDescTable s; host := host s |}.
Definition set_vnodes (vs : gmap nat sfs_mem_file_t) (s : state) : state :=
  {| diskBlocks := diskBlocks s; mapping := mapping s; mapped_path := mapped_path s;
     vnodes := vs; openFileTable := openFileTable s;
     openFileDescTable := openFileDescTable s; host := host s |}.
Definition set_openFileTable (t : list (option nat)) (s : state) : state :=
  {| diskBlocks := diskBlocks s; mapping := mapping s; mapped_path := mapped_path s;
     vnodes := vnodes s; openFileTable := t;
     openFileDescTable := openFileDescTable s; host := host s |}.
Definition set_openFileDescTable (t : list (option sfs_mem_filedesc_t)) (s : state) : state :=
  {| diskBlocks := diskBlocks s; mapping := mapping s; mapped_path := mapped_path s;
     vnodes := vnodes s; openFileTable := openFileTable s;
     openFileDescTable := t; host := host s |}.

(** The program as loaded: nothing mapped, both tables all NULL. *)
Definition init_state (hst : gmap string image) : state :=
  {| diskBlocks := None; mapping := O; mapped_path := EmptyString;
     vnodes := ∅;
     openFileTable := replicate (Z.to_nat FILE_COUNT_LIMIT) None;
     openFileDescTable := replicate (Z.to_nat OPEN_FILE_LIMIT) None;
     host := hst |}.

(** [accessSuperBlock] *)
Definition accessSuperBlock (s : state) : outcome image :=
  match diskBlocks s with Some d => Ret d | None => Abort end.

(** [getSFSStatus] *)
Definition getSFSStatus (s : state) : Z :=
  match diskBlocks s with Some _ => 0 | None => - EINVAL end.

(** Loads and stores through [diskFile]: valid only while the mapping the
    pointer was taken from is still in place. *)
Definition diskFile_get (s : state) (p : nat * Z) : outcome sfs_dir_entry_t :=
  match diskBlocks s with
  | Some d =>
      if decide (p.1 = mapping s) then deref (files (super d) !! Z.to_nat p.2)
      else Fault
  | None => Fault
  end.

Definition diskFile_set_size (s : state) (p : nat * Z) (sz : Z) : outcome state :=
  match diskBlocks s with
  | Some d =>
      if decide (p.1 = mapping s) then
        e ← deref (files (super d) !! Z.to_nat p.2);
        Ret (set_disk (set_files (<[Z.to_nat p.2 :=
               {| first_block := first_block e; size := sz; name := name e |}]>
               (files (super d))) d) s)
      else Fault
  | None => Fault
  end.

(** C strings.  An argument string is given by its bytes; it ends at the
    first NUL or at the end of the list. *)
Fixpoint cstr (l : list byte) : list byte :=
  match l with
  | [] => []
  | c :: l' => if decide (c = x00) then [] else c :: cstr l'
  end.

Definition strlen (l : list byte) : Z := Z.of_nat (length (cstr l)).

(** [strcmp(a, b) == 0] where [a] is an array on disk: comparing on past
    the end of the array is an invalid access. *)
Fixpoint strcmp_eq (a b : list byte) : outcome bool :=
  match a with
  | [] => Fault
  | x :: a' =>
      let y := hd x00 b in
      if decide (x = y) then
        if decide (x = x00) then Ret true else strcmp_eq a' (tl b)
      else Ret false
  end.

(** The first NULL entry of a table, scanning from index [idx]. *)
Fixpoint first_null {A} (tbl : list (option A)) (idx : Z) : option Z :=
  match tbl with
  | [] => None
  | None :: _ => Some idx
  | Some _ :: t => first_null t (idx + 1)
  end.

(** [addOpenFileEntry].  [m1] and [m2] tell whether the malloc of the
    descriptor and of the v-node succeed. *)
Definition addOpenFileEntry (entryIndex : Z) (m1 m2 : bool) (s : state)
  : outcome (Z * state) :=
  match first_null (take (Z.to_nat OPEN_FILE_LIMIT) (openFileDescTable s)) 0 with
  | None => Ret (- EMFILE, s)
  | Some fd =>
      if negb m1 then Ret (- ENOMEM, s)
      else
        slot ← deref (openFileTable s !! Z.to_nat entryIndex);
        r ← match slot with
            | Some a => Ret (Some (a, s))
            | None =>
                if negb m2 then Ret None
                else
                  _ ← accessSuperBlock s;
                  let a := fresh (dom (vnodes s)) in
                  let v := {| refCount := 0; fileEntryIdx := entryIndex;
                              diskFile := (mapping s, entryIndex) |} in
                  Ret (Some (a, set_openFileTable
                                  (<[Z.to_nat entryIndex := Some a]> (openFileTable s))
                                  (set_vnodes (<[a := v]> (vnodes s)) s)))
            end;
        match r with
        | None => Ret (- ENOMEM, s)
        | Some (a, s1) =>
            v ← deref (vnodes s1 !! a);
            let v' := {| refCount := u32 (refCount v + 1);
                         fileEntryIdx := fileEntryIdx v; diskFile := diskFile v |} in
            let s2 := set_vnodes (<[a := v']> (vnodes s1)) s1 in
            e ← diskFile_get s2 (diskFile v');
            let memDescFile := {| fileEntry := a; startBlock := first_block e;
                                  currBlock := first_block e; currPos := 0 |} in
            Ret (fd, set_openFileDescTable
                       (<[Z.to_nat fd := Some memDescFile]> (openFileDescTable s2)) s2)
        end
  end.

(** [createFile] *)
Definition createFile (fileName : list byte) (emptyIndex : Z) (m1 m2 : bool) (s : state)
  : outcome (Z * state) :=
  d ← accessSuperBlock s;
  '(startBlock, d1) ← allocateBlocks 1 SFS_BLOCK_TYPE_FILE d;
  if decide (startBlock = 0) then Ret (- ENOSPC, set_disk d1 s)
  else
    let len := strlen fileName in
    _ ← assert (bool_decide (len + 1 ≤ SFS_FILE_NAME_SIZE_LIMIT));
    _ ← deref (files (super d1) !! Z.to_nat emptyIndex);
    let sfe := {| first_block := startBlock; size := 0;
                  name := cstr fileName ++
                          replicate (Z.to_nat (SFS_FILE_NAME_SIZE_LIMIT - len)) x00 |} in
    let d2 := set_files (<[Z.to_nat emptyIndex := sfe]> (files (super d1))) d1 in
    addOpenFileEntry emptyIndex m1 m2 (set_disk d2 s).

(** The directory scan of [sfs_open], [k] slots to go: the slot of the
    file ([inl]) or the first empty slot seen, -1 if none ([inr]). *)
Fixpoint open_scan (k : nat) (d : image) (fileName : list byte) (fileEntry emptyEntry : Z)
  : outcome (Z + Z) :=
  match k with
  | O => Ret (inr emptyEntry)
  | S k' =>
      e ← deref (files (super d) !! Z.to_nat fileEntry);
      if decide (first_block e ≠ 0) then
        c ← strcmp_eq (name e) fileName;
        if (c : bool) then Ret (inl fileEntry)
        else open_scan k' d fileName (fileEntry + 1) emptyEntry
      else
        open_scan k' d fileName (fileEntry + 1)
          (if decide (emptyEntry = -1) then fileEntry else emptyEntry)
  end.

(** [sfs_open] *)
Definition sfs_open (fileName : list byte) (m1 m2 : bool) (s : state)
  : outcome (Z * state) :=
  if decide (Z.min (strlen fileName) (SFS_FILE_NAME_SIZE_LIMIT + 1) + 1
             > SFS_FILE_NAME_SIZE_LIMIT) then Ret (- ENAMETOOLONG, s)
  else if decide (getSFSStatus s < 0) then Ret (- ENOMEDIUM, s)
  else
    d ← accessSuperBlock s;
    r ← open_scan (Z.to_nat FILE_COUNT_LIMIT) d fileName 0 (-1);
    match r with
    | inl fileEntry => addOpenFileEntry fileEntry m1 m2 s
    | inr emptyEntry =>
        if decide (emptyEntry = -1) then Ret (- ENOSPC, s)
        else createFile fileName emptyEntry m1 m2 s
    end.

(** [sfs_close] *)
Definition sfs_close (fd : Z) (s : state) : outcome state :=
  if decide (fd < 0 ∨ fd > OPEN_FILE_LIMIT) then Ret s
  else
    t ← deref (openFileDescTable s !! Z.to_nat fd);
    match t with
    | None => Ret s
    | Some tFile =>
        let a := fileEntry tFile in
        let s1 := set_openFileDescTable (<[Z.to_nat fd := None]> (openFileDescTable s)) s in
        v ← deref (vnodes s1 !! a);
        let v' := {| refCount := u32 (refCount v - 1);
                     fileEntryIdx := fileEntryIdx v; diskFile := diskFile v |} in
        if decide (refCount v' > 0) then Ret (set_vnodes (<[a := v']> (vnodes s1)) s1)
        else
          let idx := fileEntryIdx v' in
          let s2 := set_vnodes (delete a (vnodes s1)) s1 in
          _ ← deref (openFileTable s2 !! Z.to_nat idx);
          Ret (set_openFileTable (<[Z.to_nat idx := None]> (openFileTable s2)) s2)
    end.

(** The copy loop of [sfs_read].  [buf] collects the bytes copied so far;
    the result is the buffer and the block the loop stopped in. *)
Fixpoint read_loop (fuel : nat) (d : image) (diskBlock : option Z)
    (blockPos chunkSize toRead : Z) (buf : list byte)
  : outcome (list byte * option Z) :=
  match fuel with
  | O => Timeout
  | S fuel' =>
      '(buf1, toRead1) ←
        (if decide (chunkSize > 0) then
           match diskBlock with
           | None => Fault
           | Some b =>
               blk ← load d b;
               Ret (buf ++ take (Z.to_nat chunkSize) (drop (Z.to_nat blockPos) (data blk)),
                    u64 (toRead - chunkSize))
           end
         else Ret (buf, toRead));
      if decide (toRead1 = 0) then Ret (buf1, diskBlock)
      else
        match diskBlock with
        | None => Fault
        | Some b =>
            blk ← load d b;
            nb ← accessFileBlock d (next_block (h blk));
            _ ← assert (bool_decide (nb ≠ None));
            read_loop fuel' d nb 0 (sizeMin BLOCK_DATA_SIZE toRead1) toRead1 buf1
        end
  end.

(** [sfs_read]: the return value, the bytes stored into the caller's
    buffer, and the state. *)
Definition sfs_read (fd : Z) (len : Z) (s : state) : outcome (Z * list byte * state) :=
  if decide (fd < 0 ∨ fd > OPEN_FILE_LIMIT) then Ret (- EBADF, [], s)
  else
    t ← deref (openFileDescTable s !! Z.to_nat fd);
    match t with
    | None => Ret (- EBADF, [], s)
    | Some tFile =>
        v ← deref (vnodes s !! fileEntry tFile);
        e ← diskFile_get s (diskFile v);
        let fileSize := size e in
        let currPos := currPos tFile in
        _ ← assert (bool_decide (currPos ≤ fileSize));
        let totalToRead := sizeMin (u64 (fileSize - currPos)) len in
        d ← accessSuperBlock s;
        diskBlock ← accessFileBlock d (currBlock tFile);
        let blockPos := currPos mod BLOCK_DATA_SIZE in
        let chunkSize :=
          sizeMin (u64 (roundUp currPos BLOCK_DATA_SIZE - currPos)) totalToRead in
        '(buf, last) ← read_loop (Z.to_nat (totalToRead / BLOCK_DATA_SIZE + 2))
                           d diskBlock blockPos chunkSize totalToRead [];
        id ← idOfBlock last;
        let tFile' := {| fileEntry := fileEntry tFile; startBlock := startBlock tFile;
                         currBlock := id; currPos := u64 (currPos + totalToRead) |} in
        Ret (to_ssize totalToRead, buf,
             set_openFileDescTable (<[Z.to_nat fd := Some tFile']> (openFileDescTable s)) s)
    end.

(** The copy loop of [sfs_write]. *)
Fixpoint write_loop (fuel : nat) (d : image) (diskBlock : option Z)
    (blockPos chunkSize toWrite : Z) (buf : list byte) (firstNewId : Z)
  : outcome (image * option Z) :=
  match fuel with
  | O => Timeout
  | S fuel' =>
      '(d1, buf1, toWrite1) ←
        (if decide (chunkSize > 0) then
           match diskBlock with
           | None => Fault
           | Some b =>
               blk ← load d b;
               let dt := take (Z.to_nat blockPos) (data blk)
                         ++ take (Z.to_nat chunkSize) buf
                         ++ drop (Z.to_nat (blockPos + chunkSize)) (data blk) in
               Ret (store d b (set_data dt blk), drop (Z.to_nat chunkSize) buf,
                    u64 (toWrite - chunkSize))
           end
         else Ret (d, buf, toWrite));
      if decide (toWrite1 = 0) then Ret (d1, diskBlock)
      else
        match diskBlock with
        | None => Fault
        | Some b =>
            blk ← load d1 b;
            nextBlock ← accessFileBlock d1 (next_block (h blk));
            match nextBlock with
            | Some nb =>
                write_loop fuel' d1 (Some nb) 0 (sizeMin BLOCK_DATA_SIZE toWrite1)
                  toWrite1 buf1 firstNewId
            | None =>
                _ ← assert (bool_decide (firstNewId ≠ 0));
                nextBlock ← accessFileBlock d1 firstNewId;
                match nextBlock with
                | None => Fault
                | Some nb =>
                    blk' ← load d1 b;
                    let d2 := store d1 b (set_next firstNewId blk') in
                    nblk ← load d2 nb;
                    id ← idOfBlock (Some b);
                    let d3 := store d2 nb (set_prev id nblk) in
                    write_loop fuel' d3 (Some nb) 0 (sizeMin BLOCK_DATA_SIZE toWrite1)
                      toWrite1 buf1 0
                end
            end
        end
  end.

(** The growth step of [sfs_write]: an error to return, or the first new
    block (0 if the file need not grow); in both cases with the image as
    the step leaves it. *)
Definition write_grow (fileAllocSize endPos : Z) (d : image)
  : outcome (Z * image + Z * image) :=
  if decide (endPos > fileAllocSize) then
    let fileNewAllocSize := roundUp endPos BLOCK_DATA_SIZE in
    if decide (fileNewAllocSize > SFS_MAX_FILE_SIZE) then Ret (inl (- EFBIG, d))
    else
      let addlBlocks := u32 (u64 (fileNewAllocSize - fileAllocSize) / BLOCK_DATA_SIZE) in
      _ ← assert (bool_decide (1 ≤ addlBlocks));
      '(firstNewId, d1) ← allocateBlocks addlBlocks SFS_BLOCK_TYPE_FILE d;
      if decide (firstNewId = 0) then Ret (inl (- ENOSPC, d1))
      else Ret (inr (firstNewId, d1))
  else Ret (inr (0, d)).

(** [sfs_write]; [len] is the length of [buf]. *)
Definition sfs_write (fd : Z) (buf : list byte) (s : state) : outcome (Z * state) :=
  let len := Z.of_nat (length buf) in
  if decide (fd < 0 ∨ fd > OPEN_FILE_LIMIT) then Ret (- EBADF, s)
  else
    t ← deref (openFileDescTable s !! Z.to_nat fd);
    match t with
    | None => Ret (- EBADF, s)
    | Some tFile =>
        v ← deref (vnodes s !! fileEntry tFile);
        e ← diskFile_get s (diskFile v);
        let fileSize := size e in
        let currPos := currPos tFile in
        _ ← assert (bool_decide (currPos ≤ fileSize));
        let fileAllocSize := roundUp fileSize BLOCK_DATA_SIZE in
        let endPos := u64 (len + currPos) in
        d ← accessSuperBlock s;
        g ← write_grow fileAllocSize endPos d;
        match g with
        | inl (err, d1) => Ret (err, set_disk d1 s)
        | inr (firstNewId, d1) =>
            diskBlock ← accessFileBlock d1 (currBlock tFile);
            let blockPos := currPos mod BLOCK_DATA_SIZE in
            let chunkSize :=
              sizeMin (u64 (roundUp currPos BLOCK_DATA_SIZE - currPos)) len in
            '(d2, last) ← write_loop (Z.to_nat (len / BLOCK_DATA_SIZE + 2))
                            d1 diskBlock blockPos chunkSize len buf firstNewId;
            id ← idOfBlock last;
            let tFile' := {| fileEntry := fileEntry tFile; startBlock := startBlock tFile;
                             currBlock := id; currPos := endPos |} in
            let s1 := set_openFileDescTable
                        (<[Z.to_nat fd := Some tFile']> (openFileDescTable s))
                        (set_disk d2 s) in
            s2 ← (if decide (endPos > fileSize) then
                    _ ← assert (bool_decide (endPos < SFS_MAX_FILE_SIZE));
                    diskFile_set_size s1 (diskFile v) (u32 endPos)
                  else Ret s1);
            Ret (to_ssize len, s2)
        end
    end.

(** [sfs_getpos], [sfs_seek] and [sfs_rename] are left to the student. *)
Definition sfs_getpos (fd : Z) : Z := - ENOSYS.
Definition sfs_seek (fd delta : Z) : Z := - ENOSYS.
Definition sfs_rename (old_name new_name : list byte) : Z := - ENOSYS.

(** The directory scan of [sfs_remove], [k] slots to go. *)
Fixpoint remove_scan (k : nat) (s : state) (d : image) (nm : list byte) (fileEntry : Z)
  : outcome (Z * state) :=
  match k with
  | O => Ret (- ENOENT, s)
  | S k' =>
      e ← deref (files (super d) !! Z.to_nat fileEntry);
      if decide (first_block e ≠ 0) then
        c ← strcmp_eq (name e) nm;
        if (c : bool) then
          t ← deref (openFileTable s !! Z.to_nat fileEntry);
          match t with
          | Some _ => Ret (- EBUSY, s)
          | None =>
              let firstBlock := first_block e in
              let d1 := set_files (<[Z.to_nat fileEntry :=
                          {| first_block := 0; size := size e; name := name e |}]>
                          (files (super d))) d in
              d2 ← freeBlocks firstBlock d1;
              Ret (0, set_disk d2 s)
          end
        else remove_scan k' s d nm (fileEntry + 1)
      else remove_scan k' s d nm (fileEntry + 1)
  end.

(** [sfs_remove] *)
Definition sfs_remove (nm : list byte) (s : state) : outcome (Z * state) :=
  if decide (strlen nm + 1 > SFS_FILE_NAME_SIZE_LIMIT) then Ret (- ENAMETOOLONG, s)
  else if decide (getSFSStatus s < 0) then Ret (- ENOMEDIUM, s)
  else
    d ← accessSuperBlock s;
    remove_scan (Z.to_nat FILE_COUNT_LIMIT) s d nm 0.

(** [strlen] of an array on disk. *)
Definition strlen_disk (a : list byte) : outcome Z :=
  if decide (x00 ∈ a) then Ret (strlen a) else Fault.

(** The loop of [sfs_list]: return value, new cookie, name written. *)
Fixpoint list_scan (fuel : nat) (d : image) (cookie next_file_slot filename_space : Z)
  : outcome (Z * Z * list byte) :=
  match fuel with
  | O => Timeout
  | S fuel' =>
      if decide (next_file_slot < FILE_COUNT_LIMIT) then
        e ← deref (files (super d) !! Z.to_nat next_file_slot);
        if decide (first_block e ≠ 0) then
          len ← strlen_disk (name e);
          if decide (len + 1 > filename_space) then Ret (- ENAMETOOLONG, cookie, [])
          else Ret (0, u64 (next_file_slot + 1), cstr (name e) ++ [x00])
        else list_scan fuel' d cookie (u64 (next_file_slot + 1)) filename_space
      else Ret (1, 0, [])
  end.

(** [sfs_list]; the cookie is the slot number, NULL is 0. *)
Definition sfs_list (cookie filename_space : Z) (s : state) : outcome (Z * Z * list byte) :=
  if decide (filename_space = 0) then Ret (- EINVAL, cookie, [])
  else if decide (getSFSStatus s < 0) then Ret (- ENOMEDIUM, cookie, [])
  else
    d ← accessSuperBlock s;
    list_scan (S (Z.to_nat FILE_COUNT_LIMIT)) d cookie cookie filename_space.

(** ** Volume lifecycle (sfs-disk.c) *)

(** What the host does with the calls a lifecycle function makes: all
    succeed, or one of them fails with an errno (which is not 0). *)
Inductive host_io :=
| IoOk
| IoOpenFails (e : positive)
| IoTruncFails (e : positive)
| IoStatFails (e : positive)
| IoReadFails (e : positive)
| IoMapFails (e : positive).

Definition zero_block : sfs_block_file_t :=
  {| h := {| type := [x00; x00; x00; x00]; prev_block := 0; next_block := 0 |};
     data := replicate (Z.to_nat BLOCK_DATA_SIZE) x00 |}.
Definition zero_dir_entry : sfs_dir_entry_t :=
  {| first_block := 0; size := 0;
     name := replicate (Z.to_nat SFS_FILE_NAME_SIZE_LIMIT) x00 |}.
Definition zero_super : sfs_filesystem_t :=
  {| magic := replicate 8 x00; n_blocks := 0; freelist := 0; next_rootdir := 0;
     files := replicate (Z.to_nat DIR_ENTRIES_PER_BLOCK) zero_dir_entry |}.

(** A file of [n] blocks, every byte NUL; the empty file for [n = 0]. *)
Definition zero_image (n : nat) : image :=
  {| super := zero_super; blocks := replicate n zero_block |}.

(** Size in bytes of a file of the host. *)
Definition st_size (im : image) : Z := SFS_BLOCK_SIZE * Z.of_nat (length (blocks im)).

(** The loop of [sfs_format]. *)
Fixpoint format_loop (fuel : nat) (d : image) (idx n_blocks : Z) : outcome image :=
  match fuel with
  | O => Timeout
  | S fuel' =>
      if decide (idx < n_blocks) then
        p ← accessBlock d idx;
        match p with
        | None => Fault
        | Some currBlock =>
            d1 ← setBlockType d currBlock SFS_BLOCK_TYPE_FREE;
            b1 ← load d1 currBlock;
            let d2 := store d1 currBlock (set_prev (u32 (idx - 1)) b1) in
            b2 ← load d2 currBlock;
            let d3 := store d2 currBlock
                        (set_next (if decide (u32 (idx + 1) = n_blocks) then 0
                                   else u32 (idx + 1)) b2) in
            format_loop fuel' d3 (u32 (idx + 1)) n_blocks
        end
      else Ret d
  end.

Definition set_mapping (d : image) (path : string) (s : state) : state :=
  {| diskBlocks := Some d; mapping := S (mapping s); mapped_path := path;
     vnodes := vnodes s; openFileTable := openFileTable s;
     openFileDescTable := openFileDescTable s; host := host s |}.
Definition set_host (hst : gmap string image) (s : state) : state :=
  {| diskBlocks := diskBlocks s; mapping := mapping s; mapped_path := mapped_path s;
     vnodes := vnodes s; openFileTable := openFileTable s;
     openFileDescTable := openFileDescTable s; host := hst |}.

(** [sfs_format]; [pagesize] is [sysconf(_SC_PAGESIZE)]. *)
Definition sfs_format (pagesize : Z) (diskName : string) (diskSize : Z) (io : host_io)
    (s : state) : outcome (Z * state) :=
  _ ← assert (bool_decide (pagesize ≠ 2 ^ 64 - 1));
  _ ← assert (bool_decide (pagesize mod SFS_BLOCK_SIZE = 0));
  if decide (diskSize = 0) then Ret (- EINVAL, s)
  else if decide (pagesize = 0) then Fault
  else if decide (diskSize mod pagesize ≠ 0) then Ret (- EINVAL, s)
  else if decide (diskSize > SFS_MAX_DISK_SIZE) then Ret (- EFBIG, s)
  else if decide (diskBlocks s ≠ None) then Ret (- EBUSY, s)
  else
    match io with
    | IoOpenFails e => Ret (- Z.pos e, s)
    | IoTruncFails e => Ret (- Z.pos e, set_host (<[diskName := zero_image 0]> (host s)) s)
    | IoMapFails e =>
        Ret (- Z.pos e, set_host (<[diskName :=
                     zero_image (Z.to_nat (diskSize / SFS_BLOCK_SIZE))]> (host s)) s)
    | _ =>
        let n_blocks := diskSize / SFS_BLOCK_SIZE in
        let d0 := zero_image (Z.to_nat n_blocks) in
        let s1 := set_mapping d0 diskName (set_host (<[diskName := d0]> (host s)) s) in
        _ ← assert (bool_decide (n_blocks ≤ UINT32_MAX));
        let d1 := {| super := {| magic := SFS_DISK_MAGIC; n_blocks := u32 n_blocks;
                                 freelist := 1; next_rootdir := next_rootdir (super d0);
                                 files := files (super d0) |};
                     blocks := blocks d0 |} in
        d2 ← format_loop (Z.to_nat n_blocks) d1 1 n_blocks;
        Ret (0, set_disk d2 s1)
    end.

(** [sfs_mount] *)
Definition sfs_mount (pagesize : Z) (diskName : string) (io : host_io) (s : state)
  : outcome (Z * state) :=
  if decide (diskBlocks s ≠ None) then Ret (- EBUSY, s)
  else
    match io, host s !! diskName with
    | IoOpenFails e, _ => Ret (- Z.pos e, s)
    | _, None => Ret (- ENOENT, s)
    | IoStatFails e, _ => Ret (- Z.pos e, s)
    | _, Some im =>
        if decide (st_size im > SFS_MAX_DISK_SIZE) then Ret (- EFBIG, s)
        else
          _ ← assert (bool_decide (pagesize ≠ 2 ^ 64 - 1));
          _ ← assert (bool_decide (pagesize mod SFS_BLOCK_SIZE = 0));
          if decide (pagesize = 0) then Fault
          else if decide (st_size im mod pagesize ≠ 0) then Ret (- EINVAL, s)
          else
            match io with
            | IoReadFails e => Ret (- Z.pos e, s)
            | _ =>
                if decide (st_size im = 0 ∨ magic (super im) ≠ SFS_DISK_MAGIC)
                then Ret (- EINVAL, s)
                else
                  match io with
                  | IoMapFails e => Ret (- Z.pos e, s)
                  | _ => Ret (0, set_mapping im diskName s)
                  end
            end
    end.

(** [sfs_unmount].  The length given to munmap is computed in 32 bits;
    munmap rejects a length of 0.  The bytes of the mapping are those of
    the file from then on. *)
Definition sfs_unmount (s : state) : outcome (Z * state) :=
  match diskBlocks s with
  | None => Ret (0, s)
  | Some d =>
      let diskSize := u32 (n_blocks (super d) * SFS_BLOCK_SIZE) in
      let s' := {| diskBlocks := None; mapping := mapping s; mapped_path := mapped_path s;
                   vnodes := vnodes s; openFileTable := openFileTable s;
                   openFileDescTable := openFileDescTable s;
                   host := <[mapped_path s := d]> (host s) |} in
      Ret (if decide (diskSize = 0) then - EINVAL else 0, s')
  end.

(** ** The API as a transition system *)

Inductive call :=
| Format (diskName : string) (diskSize : Z) (io : host_io)
| Mount (diskName : string) (io : host_io)
| Unmount
| Open (fileName : list byte) (m1 m2 : bool)
| Close (fd : Z)
| Read (fd len : Z)
| Write (fd : Z) (buf : list byte)
| Getpos (fd : Z)
| Seek (fd delta : Z)
| Remove (nm : list byte)
| Rename (old_name new_name : list byte)
| List (cookie filename_space : Z).

(** What a call hands back: its return value and the bytes it stored into
    the caller's buffer ([sfs_list] also returns the cookie, first). *)
Definition step (pagesize : Z) (c : call) (s : state) : outcome (Z * list byte * state) :=
  match c with
  | Format p n io => '(r, s') ← sfs_format pagesize p n io s; Ret (r, [], s')
  | Mount p io => '(r, s') ← sfs_mount pagesize p io s; Ret (r, [], s')
  | Unmount => '(r, s') ← sfs_unmount s; Ret (r, [], s')
  | Open f m1 m2 => '(r, s') ← sfs_open f m1 m2 s; Ret (r, [], s')
  | Close fd => s' ← sfs_close fd s; Ret (0, [], s')
  | Read fd len => sfs_read fd len s
  | Write fd buf => '(r, s') ← sfs_write fd buf s; Ret (r, [], s')
  | Getpos fd => Ret (sfs_getpos fd, [], s)
  | Seek fd delta => Ret (sfs_seek fd delta, [], s)
  | Remove nm => '(r, s') ← sfs_remove nm s; Ret (r, [], s')
  | Rename o n => Ret (sfs_rename o n, [], s)
  | List ck sp => '(r, _, out) ← sfs_list ck sp s; Ret (r, out, s)
  end.

(** Run a sequence of calls, collecting what each one returned. *)
Fixpoint run (pagesize : Z) (cs : list call) (s : state)
  : outcome (list (Z * list byte) * state) :=
  match cs with
  | [] => Ret ([], s)
  | c :: cs' =>
      '(r, out, s1) ← step pagesize c s;
      '(rs, s2) ← run pagesize cs' s1;
      Ret ((r, out) :: rs, s2)
  end.

(** ** The consistency checker (sfs-fsck.c) *)

Module Fsck.

(** Codes of the bytemap. *)
Definition B_end_of_disk : Z := 0.
Definition B_unvisited : Z := 1.
Definition B_corrupt : Z := 2.
Definition B_super : Z := 3.
Definition B_free : Z := 4.
Definition B_rootdir : Z := 5.
Definition B_file0 : Z := 6.

Definition u8 (x : Z) : Z := x mod 256.

(** [map_disk_image]: the status and, when it is 0, the mapped image. *)
Definition map_disk_image (pagesize : Z) (f : option image) (io : host_io)
  : outcome (Z * option image) :=
  match io, f with
  | IoOpenFails _, _ | _, None => Ret (-1, None)
  | IoStatFails _, _ => Ret (-1, None)
  | _, Some im =>
      if decide (st_size im = 0) then Ret (1, None)
      else if decide (st_size im > 2 ^ 63 - 1 ∨ st_size im > SFS_MAX_DISK_SIZE)
      then Ret (-1, None)
      else
        _ ← assert (bool_decide (pagesize ≠ 2 ^ 64 - 1));
        _ ← assert (bool_decide (pagesize mod SFS_BLOCK_SIZE = 0));
        if decide (pagesize = 0) then Fault
        else if decide (st_size im mod pagesize ≠ 0) then Ret (-1, None)
        else
          match io with
          | IoMapFails _ => Ret (-1, None)
          | _ => Ret (0, Some im)
          end
  end.

(** [get_block] for a nonzero id. *)
Definition get_block (im : image) (id : Z) : outcome sfs_block_file_t :=
  if decide (id > n_blocks (super im)) then Abort else load im id.

(** The loop of [check_blocklist]: status, bytemap, and the number of
    blocks when the end of the loop was reached. *)
Fixpoint check_blocklist_loop (fuel : nat) (im : image) (bytemap : list Z)
    (list_type : Z) (expected_block_type : list byte)
    (cur_id prev_id n status : Z) : outcome (Z * list Z * option Z) :=
  match fuel with
  | O => Timeout
  | S fuel' =>
      if decide (cur_id = 0) then Ret (status, bytemap, Some n)
      else if decide (cur_id > n_blocks (super im)) then Ret (1, bytemap, None)
      else
        c ← deref (bytemap !! Z.to_nat cur_id);
        if decide (c = list_type) then Ret (1, bytemap, None)
        else if decide (c ≠ B_unvisited) then Ret (1, bytemap, None)
        else
          cur_blk ← get_block im cur_id;
          let '(bytemap1, status1) :=
            if decide (type (h cur_blk) ≠ expected_block_type)
            then (<[Z.to_nat cur_id := B_corrupt]> bytemap, 1)
            else (<[Z.to_nat cur_id := list_type]> bytemap, status) in
          let status2 :=
            if decide (prev_block (h cur_blk) ≠ prev_id) then 1 else status1 in
          check_blocklist_loop fuel' im bytemap1 list_type expected_block_type
            (next_block (h cur_blk)) cur_id (u32 (n + 1)) status2
  end.

(** [check_blocklist] *)
Definition check_blocklist (im : image) (bytemap : list Z) (first_id list_type : Z)
  : outcome (Z * list Z * option Z) :=
  expected_block_type ←
    (if decide (list_type = B_free) then Ret SFS_BLOCK_TYPE_FREE
     else if decide (list_type = B_rootdir) then Ret SFS_BLOCK_TYPE_DIR
     else if decide (list_type >= B_file0) then Ret SFS_BLOCK_TYPE_FILE
     else Abort);
  check_blocklist_loop (length bytemap) im bytemap list_type expected_block_type
    first_id 0 0 0.

(** [check_superblock]; [m] tells whether malloc succeeds. *)
Definition check_superblock (im : image) (image_size : Z) (m : bool)
  : outcome (Z * list Z) :=
  if decide (magic (super im) ≠ SFS_DISK_MAGIC) then Ret (-1, [])
  else if decide (n_blocks (super im) * SFS_BLOCK_SIZE ≠ image_size) then Ret (-1, [])
  else if negb m then Ret (-1, [])
  else
    let bytemap := B_super :: replicate (Z.to_nat (n_blocks (super im) - 1)) B_unvisited
                   ++ [B_end_of_disk] in
    '(st, bytemap1, _) ← check_blocklist im bytemap (freelist (super im)) B_free;
    if decide (st ≠ 0) then Ret (-1, bytemap1)
    else
      '(st, bytemap2, _) ← check_blocklist im bytemap1 (next_rootdir (super im)) B_rootdir;
      if decide (st ≠ 0) then Ret (-1, bytemap2)
      else Ret (0, bytemap2).

(** The scan of a name field: [saw_nonnul], [saw_nul], [name_err]. *)
Fixpoint name_scan (nm : list byte) (saw_nonnul saw_nul : bool) : bool * bool * bool :=
  match nm with
  | [] => (saw_nonnul, saw_nul, false)
  | c :: nm' =>
      if decide (c ≠ x00) then
        if saw_nul then (saw_nonnul, saw_nul, true)
        else name_scan nm' true saw_nul
      else name_scan nm' saw_nonnul true
  end.

Definition name_err (nm : list byte) : bool :=
  let '(saw_nonnul, saw_nul, err) :=
    name_scan (take (Z.to_nat SFS_FILE_NAME_SIZE_LIMIT) nm) false false in
  let err := err || negb saw_nonnul in
  err || negb saw_nul.

(** [check_directory_entries]: status, bytemap and the next file tag. *)
Fixpoint check_directory_entries (im : image) (fs : list sfs_dir_entry_t)
    (bytemap : list Z) (file_tag status : Z) : outcome (Z * list Z * Z) :=
  match fs with
  | [] => Ret (status, bytemap, file_tag)
  | e :: fs' =>
      if decide (first_block e = 0) then
        check_directory_entries im fs' bytemap file_tag status
      else
        let status1 := Z.lor status (if name_err (name e) then 1 else 0) in
        '(list_err, bytemap1, nblocks) ←
          check_blocklist im bytemap (first_block e) file_tag;
        let status2 := Z.lor status1 list_err in
        let status3 :=
          if decide (list_err = 0) then
            let exp_nblocks :=
              if decide (size e ≠ 0)
              then u32 (u32 (size e + BLOCK_DATA_SIZE) - 1) / BLOCK_DATA_SIZE
              else 1 in
            if decide (exp_nblocks ≠ default 0 nblocks) then 1 else status2
          else status2 in
        let file_tag1 := u8 (file_tag + 1) in
        let status4 := if decide (file_tag1 = 0) then 1 else status3 in
        check_directory_entries im fs' bytemap1 file_tag1 status4
  end.

(** Little-endian fields of a directory block, read from its data area
    (which starts 12 bytes into the block; the entries start at byte 32). *)
Definition le32 (l : list byte) : Z :=
  foldr (fun b acc => Z.of_N (Byte.to_N b) + 256 * acc) 0 (take 4 l).

Definition dir_entry_at (dt : list byte) (i : nat) : sfs_dir_entry_t :=
  let raw := take 32 (drop (20 + 32 * i) dt) in
  {| first_block := le32 raw; size := le32 (drop 4 raw); name := drop 8 raw |}.

Definition dir_block_files (b : sfs_block_file_t) : list sfs_dir_entry_t :=
  map (dir_entry_at (data b)) (seq 0 (Z.to_nat DIR_ENTRIES_PER_BLOCK)).

(** The loop of [check_root_directory] over the extended directory. *)
Fixpoint check_root_chain (fuel : nat) (im : image) (b : Z) (bytemap : list Z)
    (file_tag status : Z) : outcome (Z * list Z) :=
  match fuel with
  | O => Timeout
  | S fuel' =>
      if decide (b = 0) then Ret (status, bytemap)
      else
        dh ← get_block im b;
        '(st, bytemap1, file_tag1) ←
          check_directory_entries im (dir_block_files dh) bytemap file_tag 0;
        check_root_chain fuel' im (next_block (h dh)) bytemap1 file_tag1
          (Z.lor status st)
  end.

(** [check_root_directory] *)
Definition check_root_directory (im : image) (bytemap : list Z) : outcome (Z * list Z) :=
  '(status, bytemap1, file_tag) ←
    check_directory_entries im
      (take (Z.to_nat DIR_ENTRIES_PER_BLOCK) (files (super im))) bytemap B_file0 0;
  check_root_chain (S (length (blocks im))) im (next_rootdir (super im))
    bytemap1 file_tag status.

(** [check_for_lost_blocks]: [strchr] walks the bytemap as a C string. *)
Fixpoint check_for_lost_blocks (im : image) (bytemap : list Z) (i status : Z)
  : outcome Z :=
  match bytemap with
  | [] => Fault
  | c :: bytemap' =>
      if decide (c = B_end_of_disk) then Ret status
      else if decide (c = B_unvisited) then
        _ ← get_block im i;
        check_for_lost_blocks im bytemap' (i + 1) 1
      else check_for_lost_blocks im bytemap' (i + 1) status
  end.

(** [main], after the command line has been parsed: the exit status for
    the image file [f]. *)
Definition fsck (pagesize : Z) (f : option image) (io : host_io) (m : bool) : outcome Z :=
  '(st, mp) ← map_disk_image pagesize f io;
  match mp with
  | Some im =>
      if decide (st ≠ 0) then Ret 1
      else
        '(st, bytemap) ← check_superblock im (st_size im) m;
        if decide (st ≠ 0) then Ret 1
        else
          '(status, bytemap1) ← check_root_directory im bytemap;
          lost ← check_for_lost_blocks im bytemap1 0 0;
          Ret (Z.lor status lost)
  | None => Ret 1
  end.

End Fsck.

(** * Properties *)

(** ** Basic facts about the monad, loads and stores *)

Lemma bind_Ret {A B} (a : A) (f : A → outcome B) : (Ret a ≫= f) = f a.
Proof. reflexivity. Qed.

Lemma bind_Ret_inv {A B} (m : outcome A) (f : A → outcome B) (b : B) :
  m ≫= f = Ret b → ∃ a, m = Ret a ∧ f a = Ret b.
Proof. destruct m; try discriminate. intros H. eauto. Qed.

Lemma assert_true (c : bool) : c = true → assert c = Ret tt.
Proof. intros ->. reflexivity. Qed.

Lemma assert_decide (P : Prop) `{Decision P} : P → assert (bool_decide P) = Ret tt.
Proof. intros HP. apply assert_true. by apply bool_decide_eq_true. Qed.

Lemma assert_Ret_inv (P : Prop) `{Decision P} u : assert (bool_decide P) = Ret u → P.
Proof.
  unfold assert. destruct (bool_decide P) eqn:E; [|discriminate].
  intros _. by apply bool_decide_eq_true in E.
Qed.

Lemma load_Ret d id b : load d id = Ret b ↔ blocks d !! Z.to_nat id = Some b.
Proof.
  unfold load, deref. destruct (blocks d !! Z.to_nat id); split; intros H;
    try discriminate; congruence.
Qed.

Lemma load_store_eq d id b :
  (Z.to_nat id < length (blocks d))%nat → load (store d id b) id = Ret b.
Proof. intros Hl. apply load_Ret. simpl. by apply list_lookup_insert_eq. Qed.

Lemma load_store_ne d id id' b :
  Z.to_nat id ≠ Z.to_nat id' → load (store d id b) id' = load d id'.
Proof. intros Hne. unfold load. simpl. by rewrite list_lookup_insert_ne. Qed.

Lemma store_store_eq d id b1 b2 : store (store d id b1) id b2 = store d id b2.
Proof. unfold store. simpl. by rewrite list_insert_insert_eq. Qed.

Lemma length_store d id b : length (blocks (store d id b)) = length (blocks d).
Proof. simpl. apply length_insert. Qed.

Lemma super_store d id b : super (store d id b) = super d.
Proof. reflexivity. Qed.

Lemma accessBlock_Ret d id :
  id < Z.of_nat (length (blocks d)) → id ≠ 0 → accessBlock d id = Ret (Some id).
Proof.
  intros Hlt Hne. unfold accessBlock. rewrite assert_decide by done.
  simpl. by rewrite decide_False.
Qed.

Lemma u32_small x : 0 ≤ x < 2 ^ 32 → u32 x = x.
Proof. intros Hx. unfold u32. by apply Z.mod_small. Qed.

Lemma u64_small x : 0 ≤ x < 2 ^ 64 → u64 x = x.
Proof. intros Hx. unfold u64. by apply Z.mod_small. Qed.

(** ** Formatting *)

(** The block [sfs_format] leaves at position [j] of a volume of [n]
    blocks. *)
Definition formatted_block (n j : Z) (b0 : sfs_block_file_t) : sfs_block_file_t :=
  {| h := {| type := SFS_BLOCK_TYPE_FREE; prev_block := j - 1;
             next_block := if decide (j + 1 = n) then 0 else j + 1 |};
     data := data b0 |}.

Lemma format_loop_spec fuel : ∀ d idx n,
  1 ≤ idx ≤ n → n ≤ UINT32_MAX → Z.of_nat (length (blocks d)) = n →
  n - idx < Z.of_nat fuel →
  ∃ d', format_loop fuel d idx n = Ret d' ∧ super d' = super d ∧
        length (blocks d') = length (blocks d) ∧
        (∀ j, idx ≤ j < n → ∃ b0, blocks d !! Z.to_nat j = Some b0 ∧
                 blocks d' !! Z.to_nat j = Some (formatted_block n j b0)) ∧
        (∀ j, 0 ≤ j < idx → blocks d' !! Z.to_nat j = blocks d !! Z.to_nat j).
Proof.
  induction fuel as [|fuel IH]; intros d idx n Hidx Hn Hlen Hfuel; [lia|].
  simpl. destruct (decide (idx < n)) as [Hlt|Hge].
  - rewrite accessBlock_Ret by lia. rewrite bind_Ret.
    destruct (lookup_lt_is_Some_2 (blocks d) (Z.to_nat idx)) as [b0 Hb0]; [lia|].
    unfold setBlockType. rewrite (proj2 (load_Ret _ _ _) Hb0), !bind_Ret.
    rewrite load_store_eq by lia. rewrite bind_Ret, store_store_eq.
    rewrite load_store_eq by lia. rewrite bind_Ret, store_store_eq.
    unfold UINT32_MAX in Hn.
    rewrite !(u32_small (idx + 1)), (u32_small (idx - 1)) by lia.
    edestruct (IH (store d idx (set_next (if decide (idx + 1 = n) then 0 else idx + 1)
                                  (set_prev (idx - 1) (set_type SFS_BLOCK_TYPE_FREE b0))))
                 (idx + 1) n) as (d' & Hrun & Hsup & Hlen' & Hin & Hout);
      [lia | done | rewrite length_store; lia | lia |].
    exists d'. split; [exact Hrun|]. split; [by rewrite Hsup|].
    split; [by rewrite Hlen', length_store|]. split.
    + intros j Hj. destruct (decide (j = idx)) as [->|Hne].
      * exists b0. split; [done|]. rewrite Hout by lia. simpl.
        rewrite list_lookup_insert_eq by lia. reflexivity.
      * destruct (Hin j) as (b1 & Hb1 & Hb1'); [lia|]. exists b1. split; [|done].
        simpl in Hb1. rewrite list_lookup_insert_ne in Hb1 by lia. done.
    + intros j Hj. rewrite Hout by lia. simpl.
      rewrite list_lookup_insert_ne by lia. done.
  - exists d. split; [done|]. split; [done|]. split; [done|]. split; [|done].
    intros j Hj. lia.
Qed.

(** C4: after a successful [sfs_format(path, size)] the super block has
    [n_blocks = size / 512], [freelist = 1] and [next_rootdir = 0], and
    every block [i] of [1 .. n_blocks - 1] is tagged FREE, with
    [prev = i - 1] and [next = i + 1], except that the last one has
    [next = 0].  ([pagesize] and [diskSize] are [size_t] values.) *)
Theorem sfs_format_layout pagesize diskName diskSize io s s' :
  0 ≤ pagesize < 2 ^ 64 → 0 ≤ diskSize < 2 ^ 64 →
  sfs_format pagesize diskName diskSize io s = Ret (0, s') →
  ∃ d, diskBlocks s' = Some d ∧
       n_blocks (super d) = diskSize / 512 ∧
       freelist (super d) = 1 ∧
       next_rootdir (super d) = 0 ∧
       ∀ i, 1 ≤ i < n_blocks (super d) →
         ∃ b, blocks d !! Z.to_nat i = Some b ∧
              type (h b) = SFS_BLOCK_TYPE_FREE ∧
              prev_block (h b) = i - 1 ∧
              next_block (h b) = (if decide (i = n_blocks (super d) - 1) then 0 else i + 1).
Proof.
  unfold sfs_format. intros Hpage Hsize H.
  apply bind_Ret_inv in H as (u1 & _ & H). apply bind_Ret_inv in H as (u2 & Hpg & H).
  apply assert_Ret_inv in Hpg.
  repeat (match type of H with (if decide ?P then _ else _) = _ => destruct (decide P) end);
    try (by inversion H).
  destruct io; try (by inversion H).
  all: apply bind_Ret_inv in H as (u3 & Hn & H); apply assert_Ret_inv in Hn.
  all: apply bind_Ret_inv in H as (d2 & Hloop & H); inversion H; subst; clear H.
  all: set (nb := diskSize / SFS_BLOCK_SIZE) in *.
  all: assert (Hn1 : 1 ≤ nb) by
    (unfold nb, SFS_BLOCK_SIZE in *;
     assert (Hp : pagesize = 512 * (pagesize / 512))
       by (rewrite (Z.div_mod pagesize 512) at 1 by lia; lia);
     assert (Hd : diskSize = pagesize * (diskSize / pagesize))
       by (rewrite (Z.div_mod diskSize pagesize) at 1 by lia; lia);
     assert (0 < diskSize / 512); [apply Z.div_str_pos; nia | lia]).
  all: match type of Hloop with format_loop _ ?d1 _ _ = _ =>
    destruct (format_loop_spec (Z.to_nat nb) d1 1 nb) as (d' & Hrun & Hsup & Hlen & Hin & _)
  end; [lia | done | simpl; rewrite length_replicate; lia | lia |].
  all: rewrite Hrun in Hloop; inversion Hloop; subst d'; clear Hloop.
  all: exists d2; split; [done|]; rewrite Hsup; simpl.
  all: unfold UINT32_MAX in Hn; rewrite u32_small by lia.
  all: split; [done|]; split; [done|]; split; [done|].
  all: intros i Hi; destruct (Hin i) as (b0 & _ & Hb); [lia|].
  all: eexists; split; [exact Hb|]; simpl; split; [done|]; split; [done|].
  all: fold nb; repeat case_decide; lia.
Qed.

(** Scenario S1: a 4 KiB volume formatted on a host with 4 KiB pages. *)
Definition formatted_4k : state :=
  match sfs_format 4096 "d" 4096 IoOk (init_state ∅) with
  | Ret (_, s) => s
  | _ => init_state ∅
  end.

Lemma sfs_format_layout_witness :
  ∃ d, diskBlocks formatted_4k = Some d ∧
       n_blocks (super d) = 4096 / 512 ∧
       freelist (super d) = 1 ∧
       next_rootdir (super d) = 0 ∧
       ∀ i, 1 ≤ i < n_blocks (super d) →
         ∃ b, blocks d !! Z.to_nat i = Some b ∧
              type (h b) = SFS_BLOCK_TYPE_FREE ∧
              prev_block (h b) = i - 1 ∧
              next_block (h b) = (if decide (i = n_blocks (super d) - 1) then 0 else i + 1).
Proof.
  apply (sfs_format_layout 4096 "d" 4096 IoOk (init_state ∅)); [lia | lia |].
  vm_compute. reflexivity.
Defined.

Example format_4k_blocks :
  (λ d, (n_blocks (super d), freelist (super d),
         (λ b, (prev_block (h b), next_block (h b))) <$> blocks d !! 1%nat,
         (λ b, (prev_block (h b), next_block (h b))) <$> blocks d !! 7%nat))
    <$> diskBlocks formatted_4k
  = Some (8, 1, Some (0, 2), Some (6, 0)).
Proof. vm_compute. reflexivity. Qed.

(** ** Block lists and their linkage *)

(** The ids met by following [next_block] from [id], at most [fuel] of
    them. *)
Fixpoint list_from (fuel : nat) (d : image) (id : Z) : list Z :=
  match fuel with
  | O => []
  | S fuel' =>
      if decide (id = 0) then []
      else
        match blocks d !! Z.to_nat id with
        | Some b => id :: list_from fuel' d (next_block (h b))
        | None => [id]
        end
  end.

(** Doubly-linked consistency of the list [l], whose head follows block
    [p] (0 at a list head): each block's [prev] is its predecessor. *)
Fixpoint prev_linked (d : image) (p : Z) (l : list Z) : bool :=
  match l with
  | [] => true
  | x :: l' =>
      match blocks d !! Z.to_nat x with
      | Some b => bool_decide (prev_block (h b) = p) && prev_linked d x l'
      | None => false
      end
  end.

(** The free list of an image and the chain of the file in slot [i]. *)
Definition free_list (d : image) : list Z :=
  list_from (length (blocks d)) d (freelist (super d)).
Definition file_chain (d : image) (i : nat) : list Z :=
  match files (super d) !! i with
  | Some e => list_from (length (blocks d)) d (first_block e)
  | None => []
  end.

(** ** Removing a file onto a non-empty free list *)

(** Format a 4 KiB volume, create the file "a", close it, remove it. *)
Definition remove_trace : list call :=
  [Format "d" 4096 IoOk; Open [x61] true true; Close 0; Remove [x61]].

Definition after_remove : state :=
  match run 4096 remove_trace (init_state ∅) with
  | Ret (_, s) => s
  | _ => init_state ∅
  end.

(** C1: every call of the trace succeeds, yet the free list 1, 2, ..., 7
    it leaves is not doubly linked: block 1 has [next = 2] while block 2
    still has [prev = 0]. *)
Theorem remove_breaks_linkage :
  run 4096 remove_trace (init_state ∅)
    = Ret ([(0, []); (0, []); (0, []); (0, [])], after_remove) ∧
  ∃ d b1 b2, diskBlocks after_remove = Some d ∧
    free_list d = [1; 2; 3; 4; 5; 6; 7] ∧
    blocks d !! 1%nat = Some b1 ∧ next_block (h b1) = 2 ∧
    blocks d !! 2%nat = Some b2 ∧ prev_block (h b2) = 0 ∧
    prev_linked d 0 (free_list d) = false.
Proof.
  split; [vm_compute; reflexivity|].
  destruct (diskBlocks after_remove) as [d|] eqn:Hd; [|vm_compute in Hd; discriminate].
  exists d.
  destruct (blocks d !! 1%nat) as [b1|] eqn:H1;
    [|vm_compute in Hd; inversion Hd; subst d; vm_compute in H1; discriminate].
  destruct (blocks d !! 2%nat) as [b2|] eqn:H2;
    [|vm_compute in Hd; inversion Hd; subst d; vm_compute in H2; discriminate].
  exists b1, b2. vm_compute in Hd. inversion Hd; subst d; clear Hd.
  vm_compute in H1. inversion H1; subst b1; clear H1.
  vm_compute in H2. inversion H2; subst b2; clear H2.
  repeat split; vm_compute; reflexivity.
Qed.

(** C2: the same trace followed by [sfs_unmount] succeeds as well, and the
    checker, run on the image file it leaves, exits with status 1. *)
Theorem fsck_rejects_after_remove :
  ∃ s, run 4096 (remove_trace ++ [Unmount]) (init_state ∅)
         = Ret ([(0, []); (0, []); (0, []); (0, []); (0, [])], s) ∧
       Fsck.fsck 4096 (host s !! "d") IoOk true = Ret 1.
Proof.
  destruct (run 4096 (remove_trace ++ [Unmount]) (init_state ∅)) as [[rs s]| | |] eqn:Hr;
    try (vm_compute in Hr; discriminate).
  exists s. vm_compute in Hr. inversion Hr; subst; clear Hr.
  split; vm_compute; reflexivity.
Qed.

(** ** Descriptors out of range *)

(** C8: descriptor 32 passes the range check of [sfs_close], [sfs_read]
    and [sfs_write], which then index the 32-entry descriptor table at
    position 32. *)
Theorem fd_32_reads_past_table :
  length (openFileDescTable (init_state ∅)) = 32%nat ∧
  sfs_close 32 (init_state ∅) = Fault ∧
  sfs_read 32 1 (init_state ∅) = Fault ∧
  sfs_write 32 [x00] (init_state ∅) = Fault.
Proof. repeat split; vm_compute; reflexivity. Qed.

(** Every other descriptor outside the table is refused. *)
Lemma sfs_close_out_of_range fd s :
  fd < 0 ∨ OPEN_FILE_LIMIT < fd → sfs_close fd s = Ret s.
Proof. intros Hfd. unfold sfs_close. rewrite decide_True; [done|lia]. Qed.

Lemma sfs_read_out_of_range fd len s :
  fd < 0 ∨ OPEN_FILE_LIMIT < fd → sfs_read fd len s = Ret (- EBADF, [], s).
Proof. intros Hfd. unfold sfs_read. rewrite decide_True; [done|lia]. Qed.

Lemma sfs_write_out_of_range fd buf s :
  fd < 0 ∨ OPEN_FILE_LIMIT < fd → sfs_write fd buf s = Ret (- EBADF, s).
Proof. intros Hfd. unfold sfs_write. rewrite decide_True; [done|lia]. Qed.

(** An unused slot of the table is refused too. *)
Lemma sfs_unused_fd fd len buf s :
  0 ≤ fd → openFileDescTable s !! Z.to_nat fd = Some None →
  sfs_close fd s = Ret s ∧ sfs_read fd len s = Ret (- EBADF, [], s) ∧
  sfs_write fd buf s = Ret (- EBADF, s).
Proof.
  intros Hfd Hslot. unfold sfs_close, sfs_read, sfs_write.
  destruct (decide (fd < 0 ∨ fd > OPEN_FILE_LIMIT)); [done|].
  rewrite Hslot. done.
Qed.

(** ** Chains of blocks *)

(** [seg d id l t]: following [next_block] from [id] visits exactly the
    blocks [l], all inside the image, and then reaches [t]. *)
Fixpoint seg (d : image) (id : Z) (l : list Z) (t : Z) : Prop :=
  match l with
  | [] => id = t
  | x :: l' =>
      id = x ∧ 0 < x ∧
      ∃ b, blocks d !! Z.to_nat x = Some b ∧ seg d (next_block (h b)) l' t
  end.

(** A chain is a segment that ends the list. *)
Definition chain (d : image) (id : Z) (l : list Z) : Prop := seg d id l 0.

(** Every block of [l] carries the type tag [ty]. *)
Definition typed (d : image) (ty : list byte) (l : list Z) : Prop :=
  ∀ x, x ∈ l → ∃ b, blocks d !! Z.to_nat x = Some b ∧ type (h b) = ty.

Lemma seg_pos d id l t x : seg d id l t → x ∈ l → 0 < x.
Proof.
  revert id. induction l as [|y l IH]; intros id Hc Hx; [by apply elem_of_nil in Hx|].
  destruct Hc as (-> & Hy & b & Hb & Hc). apply elem_of_cons in Hx as [->|Hx]; [done|].
  eauto.
Qed.

Lemma seg_lookup d id l t x :
  seg d id l t → x ∈ l → ∃ b, blocks d !! Z.to_nat x = Some b.
Proof.
  revert id. induction l as [|y l IH]; intros id Hc Hx; [by apply elem_of_nil in Hx|].
  destruct Hc as (-> & Hy & b & Hb & Hc). apply elem_of_cons in Hx as [->|Hx]; eauto.
Qed.

Lemma seg_bound d id l t x :
  seg d id l t → x ∈ l → 0 < x < Z.of_nat (length (blocks d)).
Proof.
  intros Hc Hx. split; [by eapply seg_pos|].
  destruct (seg_lookup _ _ _ _ _ Hc Hx) as [b Hb].
  apply lookup_lt_Some in Hb. lia.
Qed.

Lemma seg_app d l1 : ∀ id l2 t,
  seg d id (l1 ++ l2) t ↔ ∃ m, seg d id l1 m ∧ seg d m l2 t.
Proof.
  induction l1 as [|x l1 IH]; intros id l2 t; simpl.
  - split; [eauto|]. by intros (m & -> & H).
  - split.
    + intros (-> & Hx & b & Hb & Hs). apply IH in Hs as (m & H1 & H2).
      exists m. eauto 10.
    + intros (m & (-> & Hx & b & Hb & H1) & H2). split; [done|]. split; [done|].
      exists b. split; [done|]. apply IH. eauto.
Qed.

Lemma seg_snoc d id l x t :
  seg d id (l ++ [x]) t ↔
  seg d id l x ∧ 0 < x ∧ ∃ b, blocks d !! Z.to_nat x = Some b ∧ next_block (h b) = t.
Proof.
  rewrite seg_app. simpl. split.
  - intros (m & H1 & -> & Hx & b & Hb & Ht). eauto 10.
  - intros (H1 & Hx & b & Hb & Ht). exists x. eauto 10.
Qed.

Lemma chain_det d l1 : ∀ id l2, chain d id l1 → chain d id l2 → l1 = l2.
Proof.
  unfold chain. induction l1 as [|x l1 IH]; intros id [|y l2] H1 H2; simpl in *.
  - done.
  - destruct H2 as (-> & Hy & _). lia.
  - destruct H1 as (-> & Hx & _). lia.
  - destruct H1 as (-> & Hx & b & Hb & H1), H2 as (<- & _ & b' & Hb' & H2).
    rewrite Hb in Hb'. inversion Hb'; subst b'. f_equal. eauto.
Qed.

Lemma chain_NoDup d l : ∀ id, chain d id l → NoDup l.
Proof.
  induction l as [|x l IH]; intros id Hc; [constructor|].
  pose proof Hc as (-> & Hx & b & Hb & Hc').
  constructor; [|by eapply IH]. intros Hin.
  apply list_elem_of_split in Hin as (l1 & l2 & ->).
  change (x :: l1 ++ x :: l2) with ((x :: l1) ++ x :: l2) in Hc.
  apply seg_app in Hc as (m & H1 & H2). pose proof H2 as (-> & _).
  assert (Hc : chain d x ((x :: l1) ++ x :: l2)) by (apply seg_app; eauto).
  pose proof (chain_det _ _ _ _ Hc H2) as Heq.
  apply (f_equal length) in Heq. simpl in Heq. rewrite length_app in Heq.
  simpl in Heq. lia.
Qed.

(** A segment only depends on the [next_block] fields of its blocks. *)
Lemma seg_ext d d' l : ∀ id t,
  (∀ x, x ∈ l → ∀ b, blocks d !! Z.to_nat x = Some b →
        ∃ b', blocks d' !! Z.to_nat x = Some b' ∧ next_block (h b') = next_block (h b)) →
  seg d id l t → seg d' id l t.
Proof.
  induction l as [|x l IH]; intros id t Hsame Hc; [done|].
  destruct Hc as (-> & Hx & b & Hb & Hc).
  destruct (Hsame x ltac:(left) b Hb) as (b' & Hb' & Hn).
  simpl. split; [done|]. split; [done|]. exists b'. split; [done|].
  rewrite Hn. apply IH; [|done]. intros y Hy. apply Hsame. by right.
Qed.

Lemma typed_ext d d' ty l :
  (∀ x, x ∈ l → ∀ b, blocks d !! Z.to_nat x = Some b →
        ∃ b', blocks d' !! Z.to_nat x = Some b' ∧ type (h b') = type (h b)) →
  typed d ty l → typed d' ty l.
Proof.
  intros Hsame Ht x Hx. destruct (Ht x Hx) as (b & Hb & Hty).
  destruct (Hsame x Hx b Hb) as (b' & Hb' & Hty'). exists b'. split; [done|]. congruence.
Qed.

Lemma typed_app d ty l1 l2 : typed d ty (l1 ++ l2) ↔ typed d ty l1 ∧ typed d ty l2.
Proof.
  unfold typed. split.
  - intros H. split; intros x Hx; apply H; apply elem_of_app; eauto.
  - intros [H1 H2] x Hx. apply elem_of_app in Hx as [Hx|Hx]; eauto.
Qed.

(** Blocks are told apart by their ids. *)
Lemma to_nat_inj_pos x y : 0 < x → 0 < y → Z.to_nat x = Z.to_nat y → x = y.
Proof. lia. Qed.

(** Storing into a block outside a segment, or keeping [next_block]. *)
Lemma seg_store_other d id l t x b :
  0 < x → x ∉ l → seg d id l t → seg (store d x b) id l t.
Proof.
  intros Hx Hnin Hs. eapply seg_ext; [|exact Hs].
  intros y Hy by' Hby. exists by'. split; [|done]. simpl.
  rewrite list_lookup_insert_ne; [done|]. intros Heq.
  apply Hnin. pose proof (seg_pos _ _ _ _ _ Hs Hy).
  by rewrite (to_nat_inj_pos x y).
Qed.

Lemma typed_store_other d ty l x b :
  0 < x → x ∉ l → (∀ y, y ∈ l → 0 < y) → typed d ty l → typed (store d x b) ty l.
Proof.
  intros Hx Hnin Hpos Ht. eapply typed_ext; [|exact Ht].
  intros y Hy by' Hby. exists by'. split; [|done]. simpl.
  rewrite list_lookup_insert_ne; [done|]. intros Heq.
  apply Hnin. by rewrite (to_nat_inj_pos x y) by eauto.
Qed.

Lemma chain_list_from d l : ∀ id fuel,
  chain d id l → (length l ≤ fuel)%nat → list_from (S fuel) d id = l.
Proof.
  unfold chain. induction l as [|x l IH]; intros id fuel Hc Hf.
  - simpl in Hc. subst. done.
  - destruct Hc as (-> & Hx & b & Hb & Hc). simpl in Hf.
    destruct fuel as [|fuel]; [lia|].
    change (list_from (S (S fuel)) d x) with
      (if decide (x = 0) then [] else
         match blocks d !! Z.to_nat x with
         | Some b => x :: list_from (S fuel) d (next_block (h b))
         | None => [x]
         end).
    rewrite decide_False by lia. rewrite Hb. f_equal. apply IH; [done|lia].
Qed.

(** ** The allocator *)

(** The pointer [accessBlock] returns for an id in range. *)
Definition ptr (id : Z) : option Z := if decide (id = 0) then None else Some id.

Lemma accessFreeBlock_Ret d x b :
  blocks d !! Z.to_nat x = Some b → 0 < x → type (h b) = SFS_BLOCK_TYPE_FREE →
  accessFreeBlock d x = Ret (Some x).
Proof.
  intros Hb Hx Hty. unfold accessFreeBlock.
  apply lookup_lt_Some in Hb as Hlt.
  rewrite accessBlock_Ret by lia. rewrite bind_Ret.
  rewrite (proj2 (load_Ret _ _ _) Hb), bind_Ret.
  rewrite assert_decide by done. done.
Qed.

Lemma accessFreeBlock_null d : blocks d ≠ [] → accessFreeBlock d 0 = Ret None.
Proof.
  intros Hne. unfold accessFreeBlock, accessBlock.
  rewrite assert_decide; [done|]. destruct (blocks d); [done|]. simpl. lia.
Qed.

Lemma alloc_walk_enough d k : ∀ x l y,
  chain d x (x :: l) → typed d SFS_BLOCK_TYPE_FREE (x :: l) →
  (x :: l) !! k = Some y → alloc_walk k d x = Ret (Some y).
Proof.
  unfold chain. induction k as [|k IH]; intros x l y Hc Ht Hk.
  - simpl in *. by inversion Hk.
  - destruct Hc as (_ & Hx & b & Hb & Hc). simpl in Hk.
    destruct l as [|z l]; [done|]. simpl.
    rewrite (proj2 (load_Ret _ _ _) Hb), bind_Ret.
    pose proof Hc as (Hz & Hz0 & bz & Hbz & Hcz).
    rewrite decide_False by lia. rewrite Hz.
    destruct (Ht z) as (bz' & Hbz' & Hty); [by right; left|].
    rewrite (accessFreeBlock_Ret _ _ _ Hbz' Hz0 Hty), bind_Ret.
    apply (IH z l y); [by rewrite Hz in Hc | | done].
    intros w Hw. apply Ht. by right.
Qed.

Lemma alloc_walk_short d k : ∀ x l,
  chain d x (x :: l) → typed d SFS_BLOCK_TYPE_FREE (x :: l) →
  (length l < k)%nat → alloc_walk k d x = Ret None.
Proof.
  unfold chain. induction k as [|k IH]; intros x l Hc Ht Hk; [lia|].
  destruct Hc as (_ & Hx & b & Hb & Hc). simpl.
  rewrite (proj2 (load_Ret _ _ _) Hb), bind_Ret.
  destruct l as [|z l].
  - simpl in Hc. by rewrite decide_True.
  - pose proof Hc as (Hz & Hz0 & bz & Hbz & Hcz).
    rewrite decide_False by lia. rewrite Hz.
    destruct (Ht z) as (bz' & Hbz' & Hty); [by right; left|].
    rewrite (accessFreeBlock_Ret _ _ _ Hbz' Hz0 Hty), bind_Ret.
    apply (IH z l); [by rewrite Hz in Hc | | simpl in Hk; lia].
    intros w Hw. apply Ht. by right.
Qed.

Lemma alloc_retag_spec ty l : ∀ d id fuel,
  chain d id l → typed d SFS_BLOCK_TYPE_FREE l → blocks d ≠ [] →
  (length l ≤ fuel)%nat →
  ∃ d', alloc_retag fuel d (ptr id) ty = Ret d' ∧ super d' = super d ∧
        length (blocks d') = length (blocks d) ∧
        (∀ x, x ∈ l → ∃ b, blocks d !! Z.to_nat x = Some b ∧
                           blocks d' !! Z.to_nat x = Some (set_type ty b)) ∧
        (∀ i, (∀ x, x ∈ l → Z.to_nat x ≠ i) → blocks d' !! i = blocks d !! i).
Proof.
  induction l as [|x l IH]; intros d id fuel Hc Ht Hne Hf; unfold chain in Hc.
  - simpl in Hc. subst id. exists d.
    split; [by destruct fuel|]. split; [done|]. split; [done|].
    split; [|done]. intros x Hx. by apply elem_of_nil in Hx.
  - pose proof (chain_NoDup _ _ _ Hc) as Hnd. apply NoDup_cons in Hnd as [Hxl Hnd].
    pose proof (λ y, seg_pos _ _ _ _ y Hc) as Hpos.
    destruct Hc as (-> & Hx & b & Hb & Hc).
    destruct fuel as [|fuel]; [simpl in Hf; lia|].
    unfold ptr. rewrite decide_False by lia. simpl.
    unfold setBlockType. rewrite (proj2 (load_Ret _ _ _) Hb), !bind_Ret.
    apply lookup_lt_Some in Hb as Hlt.
    rewrite load_store_eq by done. rewrite bind_Ret. simpl.
    set (d1 := store d x (set_type ty b)).
    assert (Hc1 : chain d1 (next_block (h b)) l).
    { eapply seg_ext; [|exact Hc]. intros y Hy by' Hby. exists by'. split; [|done].
      unfold d1. simpl. rewrite list_lookup_insert_ne; [done|].
      intros Heq. apply Hxl. assert (0 < y) by (apply Hpos; by right).
      assert (x = y) by lia. by subst. }
    assert (Ht1 : typed d1 SFS_BLOCK_TYPE_FREE l).
    { eapply typed_ext; [|intros y Hy; apply Ht; by right].
      intros y Hy by' Hby. exists by'. split; [|done].
      unfold d1. simpl. rewrite list_lookup_insert_ne; [done|].
      intros Heq. apply Hxl. assert (0 < y) by (apply Hpos; by right).
      assert (x = y) by lia. by subst. }
    assert (Hacc : accessFreeBlock d1 (next_block (h b)) = Ret (ptr (next_block (h b)))).
    { destruct l as [|y l].
      - simpl in Hc1. rewrite Hc1. apply accessFreeBlock_null.
        unfold d1. simpl. intros Hnil. apply (f_equal length) in Hnil.
        rewrite length_insert in Hnil. simpl in Hnil. lia.
      - pose proof Hc1 as (Hy & Hy0 & _). destruct (Ht1 y) as (by' & Hby & Hty); [by left|].
        rewrite Hy. unfold ptr. rewrite decide_False by lia.
        by eapply accessFreeBlock_Ret. }
    rewrite Hacc, bind_Ret.
    destruct (IH d1 (next_block (h b)) fuel Hc1 Ht1) as (d' & Hrun & Hsup & Hlen & Hin & Hout).
    { unfold d1. simpl. intros Hnil. apply (f_equal length) in Hnil.
      rewrite length_insert in Hnil. destruct (blocks d); simpl in *; [done|lia]. }
    { simpl in Hf. lia. }
    exists d'. split; [done|]. split; [by rewrite Hsup|].
    split; [by rewrite Hlen; unfold d1; rewrite length_store|]. split.
    + intros y Hy. apply elem_of_cons in Hy as [->|Hy].
      * exists b. split; [done|]. rewrite Hout.
        -- unfold d1. simpl. by rewrite list_lookup_insert_eq.
        -- intros z Hz Heq. apply Hxl. assert (0 < z) by (apply Hpos; by right).
           assert (x = z) by lia. by subst.
      * destruct (Hin y Hy) as (by' & Hby & Hby'). exists by'. split; [|done].
        unfold d1 in Hby. simpl in Hby. rewrite list_lookup_insert_ne in Hby; [done|].
        intros Heq. apply Hxl. assert (0 < y) by (apply Hpos; by right).
        assert (x = y) by lia. by subst.
    + intros i Hi. rewrite Hout.
      * unfold d1. simpl. rewrite list_lookup_insert_ne; [done|]. apply Hi. by left.
      * intros z Hz. apply Hi. by right.
Qed.

Lemma seg_same d d' l id t :
  (∀ x, x ∈ l → blocks d' !! Z.to_nat x = blocks d !! Z.to_nat x) →
  seg d id l t → seg d' id l t.
Proof.
  intros Hsame. apply seg_ext. intros x Hx b Hb. exists b. by rewrite Hsame.
Qed.

Lemma typed_same d d' ty l :
  (∀ x, x ∈ l → blocks d' !! Z.to_nat x = blocks d !! Z.to_nat x) →
  typed d ty l → typed d' ty l.
Proof.
  intros Hsame. apply typed_ext. intros x Hx b Hb. exists b. by rewrite Hsame.
Qed.

Lemma take_snoc_lookup {A} (l : list A) k x :
  l !! k = Some x → take (S k) l = take k l ++ [x].
Proof. intros H. by apply take_S_r. Qed.

(** What a successful [allocateBlocks] leaves: the first [n] blocks of the
    free list [fl] form a chain of their own with the new tag, the rest
    is the free list, and nothing else has changed. *)
Lemma allocateBlocks_success d fl n ty :
  chain d (freelist (super d)) fl → typed d SFS_BLOCK_TYPE_FREE fl →
  1 ≤ n ≤ Z.of_nat (length fl) →
  ∃ d', allocateBlocks n ty d = Ret (freelist (super d), d') ∧
    chain d' (freelist (super d)) (take (Z.to_nat n) fl) ∧
    typed d' ty (take (Z.to_nat n) fl) ∧
    chain d' (freelist (super d')) (drop (Z.to_nat n) fl) ∧
    typed d' SFS_BLOCK_TYPE_FREE (drop (Z.to_nat n) fl) ∧
    (∀ b, freelist (super d') ≠ 0 →
          blocks d' !! Z.to_nat (freelist (super d')) = Some b → prev_block (h b) = 0) ∧
    length (blocks d') = length (blocks d) ∧
    files (super d') = files (super d) ∧
    magic (super d') = magic (super d) ∧
    n_blocks (super d') = n_blocks (super d) ∧
    next_rootdir (super d') = next_rootdir (super d) ∧
    (∀ i, (∀ x, x ∈ fl → Z.to_nat x ≠ i) → blocks d' !! i = blocks d !! i) ∧
    (∀ i b, blocks d !! i = Some b → ∃ b', blocks d' !! i = Some b' ∧ data b' = data b).
Proof.
  intros Hc Ht Hn.
  pose proof (chain_NoDup _ _ _ Hc) as Hnd.
  pose proof (λ y, seg_pos _ _ _ _ y Hc) as Hpos.
  assert (Hinj : ∀ x y, x ∈ fl → y ∈ fl → Z.to_nat x = Z.to_nat y → x = y).
  { intros x y Hx Hy. apply to_nat_inj_pos; eauto. }
  destruct (lookup_lt_is_Some_2 fl (Z.to_nat (n - 1))) as [last Hlast]; [lia|].
  assert (Hsplit : fl = take (Z.to_nat n) fl ++ drop (Z.to_nat n) fl)
    by (by rewrite take_drop).
  assert (HA : take (Z.to_nat n) fl = take (Z.to_nat (n - 1)) fl ++ [last]).
  { replace (Z.to_nat n) with (S (Z.to_nat (n - 1))) by lia. by apply take_S_r. }
  remember (take (Z.to_nat (n - 1)) fl) as A0 eqn:HA0.
  remember (drop (Z.to_nat n) fl) as R eqn:HR0.
  rewrite HA in Hsplit. rewrite HA.
  assert (Hfirst : ∃ fl', fl = freelist (super d) :: fl').
  { destruct fl as [|x fl']; [simpl in Hn; lia|]. destruct Hc as (-> & _). eauto. }
  destruct Hfirst as [fl' Hfl'].
  assert (Hf0 : 0 < freelist (super d)) by (apply Hpos; rewrite Hfl'; by left).
  unfold allocateBlocks. rewrite decide_False by lia.
  destruct (Ht (freelist (super d))) as (bf & Hbf & Hbfty); [rewrite Hfl'; by left|].
  rewrite (accessFreeBlock_Ret _ _ _ Hbf Hf0 Hbfty), bind_Ret.
  rewrite (alloc_walk_enough d (Z.to_nat (n - 1)) (freelist (super d)) fl' last);
    [|by rewrite <- Hfl'..].
  rewrite bind_Ret.
  pose proof Hc as Hc0. unfold chain in Hc0. rewrite Hsplit in Hc0.
  apply seg_app in Hc0 as (m & HsA & HsR).
  apply seg_snoc in HsA as (HsA0 & Hl0 & bl & Hbl & Hblm).
  rewrite (proj2 (load_Ret _ _ _) Hbl), bind_Ret. rewrite Hblm.
  assert (HlA0 : last ∉ A0).
  { intros Hin. rewrite Hsplit in Hnd. apply NoDup_app in Hnd as (Hnd & _ & _).
    apply NoDup_app in Hnd as (_ & Hnd & _). apply (Hnd last Hin). by left. }
  assert (HlR : last ∉ R).
  { intros Hin. rewrite Hsplit in Hnd. apply NoDup_app in Hnd as (_ & Hnd & _).
    apply (Hnd last); [|done]. apply elem_of_app. right. by left. }
  assert (HA0R : ∀ x, x ∈ A0 → x ∉ R).
  { intros x Hx Hin. rewrite Hsplit in Hnd. apply NoDup_app in Hnd as (_ & Hnd & _).
    apply (Hnd x); [|done]. apply elem_of_app. by left. }
  assert (HinA0 : ∀ x, x ∈ A0 → x ∈ fl).
  { intros x Hx. rewrite Hsplit. apply elem_of_app. left. apply elem_of_app. by left. }
  assert (HinR : ∀ x, x ∈ R → x ∈ fl).
  { intros x Hx. rewrite Hsplit. apply elem_of_app. by right. }
  assert (Hinl : last ∈ fl).
  { rewrite Hsplit. apply elem_of_app. left. apply elem_of_app. right. by left. }
  assert (Hlen0 : blocks d ≠ []).
  { intros Hnil. rewrite Hnil in Hbl. by rewrite lookup_nil in Hbl. }
  (* the image after the detachment *)
  assert (∃ d1, (if decide (m ≠ 0) then
                   next_free_blk ← accessFreeBlock d m;
                   match next_free_blk with
                   | None => Fault
                   | Some nf =>
                       nfb ← load d nf;
                       let d' := store d nf (set_prev 0 nfb) in
                       lb ← load d' last;
                       Ret (store d' last (set_next 0 lb))
                   end
                 else Ret d) = Ret d1 ∧
          super d1 = super d ∧ length (blocks d1) = length (blocks d) ∧
          seg d1 (freelist (super d)) (A0 ++ [last]) 0 ∧
          seg d1 m R 0 ∧ typed d1 SFS_BLOCK_TYPE_FREE fl ∧
          (∀ b, m ≠ 0 → blocks d1 !! Z.to_nat m = Some b → prev_block (h b) = 0) ∧
          (∀ i, (∀ x, x ∈ fl → Z.to_nat x ≠ i) → blocks d1 !! i = blocks d !! i) ∧
          (∀ i b, blocks d !! i = Some b → ∃ b', blocks d1 !! i = Some b' ∧ data b' = data b))
    as (d1 & Hd1 & Hsup1 & Hlen1 & HsA1 & HsR1 & Ht1 & Hprev1 & Hout1 & Hdata1).
  { destruct (decide (m ≠ 0)) as [Hm|Hm].
    - destruct R as [|nf R'] eqn:HR; [simpl in HsR; lia|].
      destruct HsR as (-> & Hnf0 & bnf & Hbnf & HsR').
      destruct (Ht nf) as (bnf' & Hbnf' & Hnfty); [apply HinR; by left|].
      rewrite Hbnf in Hbnf'. inversion Hbnf'; subst bnf'; clear Hbnf'.
      rewrite (accessFreeBlock_Ret _ _ _ Hbnf Hnf0 Hnfty), bind_Ret.
      rewrite (proj2 (load_Ret _ _ _) Hbnf), bind_Ret. simpl.
      assert (Hne : Z.to_nat nf ≠ Z.to_nat last).
      { intros Heq. apply HlR. apply Hinj in Heq; [subst; by left| |done].
        apply HinR. by left. }
      rewrite load_store_ne by done.
      rewrite (proj2 (load_Ret _ _ _) Hbl), bind_Ret.
      eexists. split; [done|]. split; [done|].
      split; [by rewrite !length_store|].
      assert (HnfR' : nf ∉ R').
      { pose proof (chain_NoDup d (nf :: R') nf) as HndR.
        apply NoDup_cons in HndR as [H1 _]; [done|].
        unfold chain. simpl. eauto 10. }
      split; [|split; [|split; [|split; [|split]]]].
      + apply seg_snoc. split; [|split; [done|]].
        * apply seg_store_other; [done|done|].
          apply seg_store_other; [done| |done].
          intros Hin. apply HA0R in Hin. apply Hin. by left.
        * eexists. split; [simpl; apply list_lookup_insert_eq|done].
          rewrite length_insert. by apply lookup_lt_Some in Hbl.
      + simpl. split; [done|]. split; [done|].
        exists (set_prev 0 bnf). split.
        * rewrite list_lookup_insert_ne by done.
          apply list_lookup_insert_eq. by apply lookup_lt_Some in Hbnf.
        * simpl. apply seg_store_other; [done| |].
          { intros Hin. apply HlR. by right. }
          apply seg_store_other; [done|done|done].
      + intros x Hx. destruct (Ht x Hx) as (bx & Hbx & Hxty). simpl.
        destruct (decide (x = last)) as [->|Hxl].
        * eexists. split; [apply list_lookup_insert_eq|].
          -- rewrite length_insert. by apply lookup_lt_Some in Hbl.
          -- simpl. rewrite Hbl in Hbx. by inversion Hbx; subst.
        * rewrite list_lookup_insert_ne by (intros Heq; apply Hxl; symmetry; by apply Hinj).
          destruct (decide (x = nf)) as [->|Hxnf].
          -- eexists. split; [apply list_lookup_insert_eq; by apply lookup_lt_Some in Hbnf|].
             simpl. rewrite Hbnf in Hbx. by inversion Hbx; subst.
          -- rewrite list_lookup_insert_ne; [eauto|].
             intros Heq; apply Hxnf; symmetry; apply Hinj; [apply HinR; by left|done|done].
      + intros b _ Hb. simpl in Hb. rewrite list_lookup_insert_ne in Hb by done.
        rewrite list_lookup_insert_eq in Hb by (by apply lookup_lt_Some in Hbnf).
        by inversion Hb.
      + intros i Hi. simpl. rewrite !list_lookup_insert_ne; [done| |].
        * apply Hi. apply HinR. by left.
        * by apply Hi.
      + intros i b Hb. simpl.
        destruct (decide (i = Z.to_nat last)) as [->|Hil].
        * eexists. split; [apply list_lookup_insert_eq|].
          -- rewrite length_insert. by apply lookup_lt_Some in Hbl.
          -- simpl. rewrite Hbl in Hb. by inversion Hb.
        * rewrite list_lookup_insert_ne by done.
          destruct (decide (i = Z.to_nat nf)) as [->|Hinf].
          -- eexists. split; [apply list_lookup_insert_eq; by apply lookup_lt_Some in Hbnf|].
             simpl. rewrite Hbnf in Hb. by inversion Hb.
          -- rewrite list_lookup_insert_ne by done. eauto.
    - assert (m = 0) as -> by (destruct (decide (m = 0)); [done|contradiction]).
      exists d. split; [done|]. split; [done|]. split; [done|].
      split; [apply seg_snoc; eauto 10|]. split; [done|]. split; [done|].
      split; [done|]. split; [done|]. eauto. }
  cbv zeta in Hd1. rewrite Hd1, bind_Ret.
  set (d2 := set_freelist m d1).
  destruct (alloc_retag_spec ty (A0 ++ [last]) d2 (freelist (super d)) (Z.to_nat n))
    as (d3 & Hrun & Hsup3 & Hlen3 & Hin3 & Hout3).
  { eapply seg_same; [|exact HsA1]. done. }
  { intros x Hx. apply Ht1. rewrite Hsplit. apply elem_of_app. by left. }
  { unfold d2. simpl. intros Hnil. apply Hlen0. apply (f_equal length) in Hnil.
    rewrite Hlen1 in Hnil. by destruct (blocks d). }
  { rewrite length_app, HA0, length_take. simpl. lia. }
  unfold ptr in Hrun. rewrite decide_False in Hrun by lia.
  rewrite Hrun, bind_Ret. exists d3. split; [done|].
  assert (HAR : ∀ x, x ∈ A0 ++ [last] → x ∉ R).
  { intros x Hx. apply elem_of_app in Hx as [Hx|Hx]; [by apply HA0R|].
    apply list_elem_of_singleton in Hx. by subst. }
  assert (HsameR : ∀ x, x ∈ R → blocks d3 !! Z.to_nat x = blocks d1 !! Z.to_nat x).
  { intros x Hx. apply Hout3. intros y Hy Heq.
    apply (HAR y Hy). apply Hinj in Heq; [by subst| |by apply HinR].
    rewrite Hsplit. apply elem_of_app. by left. }
  rewrite Hsup3. simpl.
  split; [|split; [|split; [|split; [|split; [|split; [|split; [|split;
            [|split; [|split; [|split]]]]]]]]]].
  - eapply seg_ext; [|exact HsA1]. intros x Hx b Hb.
    destruct (Hin3 x Hx) as (b0 & Hb0 & Hb3). exists (set_type ty b0). split; [done|].
    unfold d2 in Hb0. simpl in Hb0. rewrite Hb in Hb0. by inversion Hb0.
  - intros x Hx. destruct (Hin3 x Hx) as (b0 & Hb0 & Hb3). by exists (set_type ty b0).
  - eapply seg_same; [|exact HsR1]. done.
  - eapply typed_same; [exact HsameR|]. intros x Hx. apply Ht1. by apply HinR.
  - intros b Hm Hb. apply (Hprev1 b Hm). rewrite <- HsameR; [done|].
    destruct R as [|nf R']; [simpl in HsR1; lia|]. destruct HsR1 as (-> & _). by left.
  - by rewrite Hlen3.
  - by rewrite Hsup1.
  - by rewrite Hsup1.
  - by rewrite Hsup1.
  - by rewrite Hsup1.
  - intros i Hi. rewrite Hout3.
    + by apply Hout1.
    + intros x Hx. apply Hi. rewrite Hsplit. apply elem_of_app. by left.
  - intros i b Hb. destruct (Hdata1 i b Hb) as (b1 & Hb1 & Hdt).
    destruct (decide (i ∈ Z.to_nat <$> (A0 ++ [last]))) as [Hi|Hno].
    + apply list_elem_of_fmap in Hi as (x & -> & Hx).
      destruct (Hin3 x Hx) as (b0 & Hb0 & Hb3). exists (set_type ty b0). split; [done|].
      unfold d2 in Hb0. simpl in Hb0. rewrite Hb1 in Hb0. inversion Hb0; subst. done.
    + exists b1. split; [|done]. rewrite Hout3; [done|]. intros x Hx Heq. apply Hno.
      apply list_elem_of_fmap. eauto.
Qed.

Lemma allocateBlocks_failure d fl n ty :
  chain d (freelist (super d)) fl → typed d SFS_BLOCK_TYPE_FREE fl → 0 ≤ n →
  n = 0 ∨ Z.of_nat (length fl) < n → allocateBlocks n ty d = Ret (0, d).
Proof.
  intros Hc Ht Hn0 Hn. unfold allocateBlocks.
  destruct (decide (freelist (super d) = 0 ∨ n = 0)) as [|Hno]; [done|].
  destruct fl as [|x fl'].
  { unfold chain in Hc. simpl in Hc. tauto. }
  pose proof Hc as (Hx & Hx0 & b & Hb & Hc').
  destruct (Ht x) as (b' & Hb' & Hty); [by left|].
  rewrite Hx, (accessFreeBlock_Ret _ _ _ Hb' Hx0 Hty), bind_Ret.
  rewrite (alloc_walk_short d (Z.to_nat (n - 1)) x fl'); [done| |done|].
  - by rewrite Hx in Hc.
  - destruct Hn as [?|Hn]; [tauto|]. simpl in Hn. lia.
Qed.

(** Executable checks of [chain] and [typed], for concrete images. *)
Fixpoint chainb (d : image) (id : Z) (l : list Z) : bool :=
  match l with
  | [] => bool_decide (id = 0)
  | x :: l' =>
      bool_decide (id = x) && bool_decide (0 < x) &&
      match blocks d !! Z.to_nat x with
      | Some b => chainb d (next_block (h b)) l'
      | None => false
      end
  end.

Definition typedb (d : image) (ty : list byte) (l : list Z) : bool :=
  forallb (λ x, match blocks d !! Z.to_nat x with
                | Some b => bool_decide (type (h b) = ty)
                | None => false
                end) l.

Lemma chainb_chain d l : ∀ id, chainb d id l = true → chain d id l.
Proof.
  unfold chain. induction l as [|x l IH]; intros id H; simpl in *.
  - by apply bool_decide_eq_true in H.
  - apply andb_prop in H as [H H3]. apply andb_prop in H as [H1 H2].
    apply bool_decide_eq_true in H1, H2.
    destruct (blocks d !! Z.to_nat x) as [b|]; [|done]. eauto 10.
Qed.

Lemma typedb_typed d ty l : typedb d ty l = true → typed d ty l.
Proof.
  unfold typedb. rewrite forallb_forall. intros H x Hx.
  apply list_elem_of_In in Hx. specialize (H x Hx).
  destruct (blocks d !! Z.to_nat x) as [b|]; [|done].
  apply bool_decide_eq_true in H. eauto.
Qed.

(** C3: [allocateBlocks(n, tag)] is all-or-nothing.  With [fl] the free
    list: for [n = 0], an empty list or fewer than [n] free blocks it
    returns 0 and the image is unchanged; otherwise it returns the old
    head, the first [n] blocks of [fl] are a chain of their own (ending in
    [next = 0]) carrying [tag], and the free list is the rest of [fl] in
    the same order, its head having [prev = 0]. *)
Theorem allocateBlocks_all_or_nothing d fl n ty :
  chain d (freelist (super d)) fl → typed d SFS_BLOCK_TYPE_FREE fl →
  0 ≤ n < 2 ^ 32 →
  (n = 0 ∨ fl = [] ∨ Z.of_nat (length fl) < n → allocateBlocks n ty d = Ret (0, d)) ∧
  (1 ≤ n ≤ Z.of_nat (length fl) →
   ∃ d', allocateBlocks n ty d = Ret (hd 0 fl, d') ∧
     chain d' (hd 0 fl) (take (Z.to_nat n) fl) ∧
     typed d' ty (take (Z.to_nat n) fl) ∧
     freelist (super d') = hd 0 (drop (Z.to_nat n) fl) ∧
     chain d' (freelist (super d')) (drop (Z.to_nat n) fl) ∧
     typed d' SFS_BLOCK_TYPE_FREE (drop (Z.to_nat n) fl) ∧
     (∀ b, freelist (super d') ≠ 0 →
           blocks d' !! Z.to_nat (freelist (super d')) = Some b → prev_block (h b) = 0)).
Proof.
  intros Hc Ht Hn. split.
  - intros Hfail. apply (allocateBlocks_failure d fl); [done|done|lia|].
    destruct Hfail as [?|[->|?]]; [by left| |by right].
    destruct (decide (n = 0)); [by left|right; simpl; lia].
  - intros Hok.
    destruct (allocateBlocks_success d fl n ty Hc Ht Hok)
      as (d' & Hrun & HcA & HtA & HcR & HtR & Hprev & _).
    assert (Hhd : hd 0 fl = freelist (super d)).
    { destruct fl as [|x fl']; [simpl in Hok; lia|]. by destruct Hc as (-> & _). }
    exists d'. rewrite Hhd. split; [done|]. split; [done|]. split; [done|].
    split; [|done].
    unfold chain in HcR. destruct (drop (Z.to_nat n) fl) as [|y R]; [done|].
    by destruct HcR as (-> & _).
Qed.

(** The image of scenario S1. *)
Definition image_4k : image := default (zero_image 0) (diskBlocks formatted_4k).

Lemma allocateBlocks_all_or_nothing_witness :
  (2 = 0 ∨ [1; 2; 3; 4; 5; 6; 7] = [] ∨ Z.of_nat (length [1; 2; 3; 4; 5; 6; 7]) < 2 →
   allocateBlocks 2 SFS_BLOCK_TYPE_FILE image_4k = Ret (0, image_4k)) ∧
  (1 ≤ 2 ≤ Z.of_nat (length [1; 2; 3; 4; 5; 6; 7]) →
   ∃ d', allocateBlocks 2 SFS_BLOCK_TYPE_FILE image_4k = Ret (hd 0 [1; 2; 3; 4; 5; 6; 7], d') ∧
     chain d' (hd 0 [1; 2; 3; 4; 5; 6; 7]) (take (Z.to_nat 2) [1; 2; 3; 4; 5; 6; 7]) ∧
     typed d' SFS_BLOCK_TYPE_FILE (take (Z.to_nat 2) [1; 2; 3; 4; 5; 6; 7]) ∧
     freelist (super d') = hd 0 (drop (Z.to_nat 2) [1; 2; 3; 4; 5; 6; 7]) ∧
     chain d' (freelist (super d')) (drop (Z.to_nat 2) [1; 2; 3; 4; 5; 6; 7]) ∧
     typed d' SFS_BLOCK_TYPE_FREE (drop (Z.to_nat 2) [1; 2; 3; 4; 5; 6; 7]) ∧
     (∀ b, freelist (super d') ≠ 0 →
           blocks d' !! Z.to_nat (freelist (super d')) = Some b → prev_block (h b) = 0)).
Proof.
  apply (allocateBlocks_all_or_nothing image_4k [1; 2; 3; 4; 5; 6; 7] 2 SFS_BLOCK_TYPE_FILE).
  - apply chainb_chain. vm_compute. reflexivity.
  - apply typedb_typed. vm_compute. reflexivity.
  - lia.
Defined.

(** ** Freeing a chain *)

Lemma NoDup_bounded_length (l : list Z) (n : nat) :
  NoDup l → (∀ x, x ∈ l → 0 < x < Z.of_nat n) → (length l < n)%nat ∨ l = [].
Proof.
  intros Hnd Hb. destruct l as [|y l]; [by right|]. left.
  assert (Hsub : (Z.to_nat <$> (y :: l)) ⊆+ seq 1 (n - 1)).
  { apply NoDup_submseteq.
    - apply NoDup_fmap_2_strong; [|done].
      intros a b Ha Hb' Hab. apply to_nat_inj_pos; [apply Hb..|]; done.
    - intros i Hi. apply list_elem_of_fmap in Hi as (x & -> & Hx).
      apply elem_of_seq. specialize (Hb x Hx). lia. }
  apply submseteq_length in Hsub. rewrite length_fmap, length_seq in Hsub.
  specialize (Hb y ltac:(left)). simpl in *. lia.
Qed.

Lemma last_cons {A} (l : list A) : ∀ z x, List.last (z :: l) x = List.last l z.
Proof.
  induction l as [|w l IH]; intros z x; [done|].
  change (List.last (z :: w :: l) x) with (List.last (w :: l) x).
  by rewrite !IH.
Qed.

Lemma free_walk_spec l : ∀ d x fuel,
  chain d x (x :: l) →
  (∀ y, y ∈ x :: l → ∀ b, blocks d !! Z.to_nat y = Some b → type (h b) ≠ SFS_BLOCK_TYPE_FREE) →
  (length l < fuel)%nat →
  ∃ d', free_walk fuel d x = Ret (d', List.last l x) ∧ super d' = super d ∧
        length (blocks d') = length (blocks d) ∧
        (∀ y, y ∈ x :: l → ∃ b, blocks d !! Z.to_nat y = Some b ∧
              blocks d' !! Z.to_nat y = Some (set_type SFS_BLOCK_TYPE_FREE b)) ∧
        (∀ i, (∀ y, y ∈ x :: l → Z.to_nat y ≠ i) → blocks d' !! i = blocks d !! i).
Proof.
  induction l as [|z l IH]; intros d x fuel Hc Hty Hf.
  - destruct Hc as (_ & Hx & b & Hb & Hn). simpl in Hn.
    destruct fuel as [|fuel]; [lia|]. simpl.
    rewrite (proj2 (load_Ret _ _ _) Hb), bind_Ret.
    rewrite assert_decide by (by eapply Hty; [left|]). rewrite bind_Ret.
    unfold setBlockType. rewrite (proj2 (load_Ret _ _ _) Hb), !bind_Ret.
    rewrite decide_True by done.
    eexists. split; [done|]. split; [done|]. split; [by rewrite length_store|]. split.
    + intros y Hy. apply list_elem_of_singleton in Hy as ->. exists b. split; [done|].
      simpl. apply list_lookup_insert_eq. by apply lookup_lt_Some in Hb.
    + intros i Hi. simpl. rewrite list_lookup_insert_ne; [done|]. apply Hi. by left.
  - pose proof (chain_NoDup _ _ _ Hc) as Hnd. apply NoDup_cons in Hnd as [Hxl Hnd].
    pose proof (λ y, seg_pos _ _ _ _ y Hc) as Hpos.
    destruct Hc as (_ & Hx & b & Hb & Hc).
    pose proof Hc as (Hz & Hz0 & bz & Hbz & Hcz).
    destruct fuel as [|fuel]; [lia|]. simpl in Hf.
    change (free_walk (S fuel) d x) with
      (blk ← load d x;
       _ ← assert (bool_decide (type (h blk) ≠ SFS_BLOCK_TYPE_FREE));
       d1 ← setBlockType d x SFS_BLOCK_TYPE_FREE;
       if decide (next_block (h blk) = 0) then Ret (d1, x)
       else
         p ← accessBlock d1 (next_block (h blk));
         match p with
         | Some nb => free_walk fuel d1 nb
         | None => Fault
         end).
    rewrite (proj2 (load_Ret _ _ _) Hb), bind_Ret.
    rewrite assert_decide by (by eapply Hty; [left|]). rewrite bind_Ret.
    unfold setBlockType. rewrite (proj2 (load_Ret _ _ _) Hb), !bind_Ret.
    rewrite decide_False by lia.
    set (d1 := store d x (set_type SFS_BLOCK_TYPE_FREE b)).
    assert (Hxz : Z.to_nat x ≠ Z.to_nat z).
    { intros Heq. apply Hxl. apply to_nat_inj_pos in Heq; [subst; by left|done|done]. }
    rewrite accessBlock_Ret; [|unfold d1; rewrite length_store, Hz;
                                apply lookup_lt_Some in Hbz; lia|lia].
    rewrite bind_Ret, Hz.
    destruct (IH d1 z fuel) as (d' & Hrun & Hsup & Hlen & Hin & Hout).
    { rewrite Hz in Hc. unfold chain, d1. apply seg_store_other; [done|done|done]. }
    { intros y Hy by' Hby. unfold d1 in Hby. simpl in Hby.
      rewrite list_lookup_insert_ne in Hby.
      - eapply Hty; [|done]. by right.
      - intros Heq. apply Hxl. apply to_nat_inj_pos in Heq; [by subst|done|].
        apply Hpos. by right. }
    { lia. }
    exists d'. split.
    { rewrite Hrun. by rewrite (last_cons l z x). }
    split; [by rewrite Hsup|]. split; [by rewrite Hlen; unfold d1; rewrite length_store|].
    split.
    + intros y Hy. apply elem_of_cons in Hy as [->|Hy].
      * exists b. split; [done|]. rewrite Hout.
        -- unfold d1. simpl. apply list_lookup_insert_eq. by apply lookup_lt_Some in Hb.
        -- intros w Hw Heq. apply Hxl. apply to_nat_inj_pos in Heq; [by subst| |done].
           apply Hpos. by right.
      * destruct (Hin y Hy) as (by' & Hby & Hby'). exists by'. split; [|done].
        unfold d1 in Hby. simpl in Hby. rewrite list_lookup_insert_ne in Hby; [done|].
        intros Heq. apply Hxl. apply to_nat_inj_pos in Heq; [by subst|done|].
        apply Hpos. by right.
    + intros i Hi. rewrite Hout.
      * unfold d1. simpl. rewrite list_lookup_insert_ne; [done|]. apply Hi. by left.
      * intros w Hw. apply Hi. by right.
Qed.

(** [freeBlocks] on the chain [c] of a file (its first block has no
    predecessor): the chain is retagged and put in front of the free
    list [fl]. *)
Lemma freeBlocks_spec d first c fl :
  chain d first c → c ≠ [] →
  (∀ y, y ∈ c → ∀ b, blocks d !! Z.to_nat y = Some b → type (h b) ≠ SFS_BLOCK_TYPE_FREE) →
  (∀ b, blocks d !! Z.to_nat first = Some b → prev_block (h b) = 0) →
  chain d (freelist (super d)) fl → (∀ y, y ∈ c → y ∉ fl) →
  ∃ d', freeBlocks first d = Ret d' ∧
        freelist (super d') = first ∧
        chain d' first (c ++ fl) ∧
        typed d' SFS_BLOCK_TYPE_FREE c ∧
        length (blocks d') = length (blocks d) ∧
        files (super d') = files (super d) ∧
        magic (super d') = magic (super d) ∧
        n_blocks (super d') = n_blocks (super d) ∧
        next_rootdir (super d') = next_rootdir (super d) ∧
        (∀ i, (∀ y, y ∈ c → Z.to_nat y ≠ i) → blocks d' !! i = blocks d !! i) ∧
        (∀ i b, blocks d !! i = Some b → ∃ b', blocks d' !! i = Some b' ∧ data b' = data b).
Proof.
  intros Hc Hne Hty Hprev Hfl Hdisj.
  destruct c as [|x l]; [done|]. clear Hne.
  pose proof (chain_NoDup _ _ _ Hc) as Hnd.
  pose proof (λ y, seg_bound _ _ _ _ y Hc) as Hbound.
  pose proof Hc as (-> & Hx & b & Hb & Hc').
  unfold freeBlocks. rewrite accessBlock_Ret; [|apply lookup_lt_Some in Hb; lia|lia].
  rewrite bind_Ret, (proj2 (load_Ret _ _ _) Hb), bind_Ret.
  rewrite (Hprev b Hb). destruct (decide (0 ≠ 0)) as [Hbad|_]; [done|]. rewrite bind_Ret.
  destruct (free_walk_spec l d x (length (blocks d)) Hc Hty)
    as (d2 & Hrun & Hsup & Hlen & Hin & Hout).
  { destruct (NoDup_bounded_length (x :: l) (length (blocks d)) Hnd Hbound) as [H|H];
      [simpl in H; lia|done]. }
  rewrite Hrun, bind_Ret.
  set (lst := List.last l x).
  assert (Hlst : ∃ l0, x :: l = l0 ++ [lst]).
  { unfold lst. clear. revert x. induction l as [|z l IH]; intros x.
    - by exists [].
    - destruct (IH z) as [l0 Hl0]. exists (x :: l0).
      rewrite (last_cons l z x). simpl. by rewrite <- Hl0. }
  destruct Hlst as [l0 Hl0].
  assert (Hlin : lst ∈ x :: l) by (rewrite Hl0; apply elem_of_app; right; by left).
  destruct (Hin lst Hlin) as (bl & Hbl & Hbl2).
  rewrite (proj2 (load_Ret _ _ _) Hbl2), bind_Ret. rewrite Hsup.
  assert (Hl0nd : lst ∉ l0).
  { rewrite Hl0 in Hnd. apply NoDup_app in Hnd as (_ & Hnd & _). intros Hin'.
    apply (Hnd lst Hin'). by left. }
  assert (Hpos : ∀ y, y ∈ x :: l → 0 < y) by (intros y Hy; apply Hbound in Hy; lia).
  eexists. split; [done|]. simpl. split; [done|].
  assert (Hc2 : seg d2 x (l0 ++ [lst]) 0).
  { rewrite <- Hl0. eapply seg_ext; [|exact Hc]. intros y Hy by' Hby.
    destruct (Hin y Hy) as (b0 & Hb0 & Hb0'). rewrite Hby in Hb0. inversion Hb0; subst.
    eauto. }
  apply seg_snoc in Hc2 as (Hc2 & Hl & bl2 & Hbl2' & _).
  split; [|split; [|split; [|split; [|split; [|split; [|split; [|split]]]]]]].
  - unfold chain. change (x :: l ++ fl) with ((x :: l) ++ fl).
    rewrite Hl0, <- app_assoc. apply seg_app. exists lst. split.
    + eapply seg_same; [|apply (seg_store_other d2 x l0 lst lst
               (set_next (freelist (super d)) (set_type SFS_BLOCK_TYPE_FREE bl))
               Hl Hl0nd Hc2)]. done.
    + simpl. split; [done|]. split; [done|]. eexists. split.
      * apply list_lookup_insert_eq. rewrite Hlen. by apply lookup_lt_Some in Hbl.
      * simpl. eapply seg_ext; [|exact Hfl]. intros y Hy by' Hby. exists by'. split; [|done].
        simpl. rewrite list_lookup_insert_ne.
        -- rewrite Hout; [done|]. intros w Hw Heq. apply (Hdisj w Hw).
           apply to_nat_inj_pos in Heq; [by subst|by apply Hpos|].
           eapply seg_pos; [exact Hfl|done].
        -- intros Heq. apply (Hdisj lst Hlin).
           apply to_nat_inj_pos in Heq; [by subst|done|].
           eapply seg_pos; [exact Hfl|done].
  - intros y Hy. destruct (Hin y Hy) as (b0 & Hb0 & Hb0').
    destruct (decide (y = lst)) as [->|Hyl].
    + eexists. split; [apply list_lookup_insert_eq|].
      * rewrite Hlen. by apply lookup_lt_Some in Hbl.
      * done.
    + exists (set_type SFS_BLOCK_TYPE_FREE b0). split; [|done].
      simpl; rewrite list_lookup_insert_ne; [done|]. intros Heq. apply Hyl.
      symmetry. apply to_nat_inj_pos; [by apply Hpos..|done].
  - by rewrite length_insert.
  - by rewrite Hsup.
  - by rewrite Hsup.
  - by rewrite Hsup.
  - by rewrite Hsup.
  - intros i Hi. simpl; rewrite list_lookup_insert_ne by (by apply Hi). by apply Hout.
  - intros i b0 Hb0.
    destruct (decide (i ∈ Z.to_nat <$> (x :: l))) as [Hi|Hno].
    + apply list_elem_of_fmap in Hi as (y & -> & Hy).
      destruct (Hin y Hy) as (b1 & Hb1 & Hb1'). rewrite Hb0 in Hb1. inversion Hb1; subst b1.
      destruct (decide (y = lst)) as [->|Hyl].
      * eexists. split; [apply list_lookup_insert_eq|].
        -- rewrite Hlen. by apply lookup_lt_Some in Hbl.
        -- simpl. rewrite Hbl in Hb0. by inversion Hb0.
      * exists (set_type SFS_BLOCK_TYPE_FREE b0). split; [|done].
        simpl; rewrite list_lookup_insert_ne; [done|].
        intros Heq. apply Hyl. symmetry. apply to_nat_inj_pos; [by apply Hpos..|done].
    + exists b0. split; [|done]. simpl; rewrite list_lookup_insert_ne.
      * rewrite Hout; [done|]. intros y Hy Heq. apply Hno. apply list_elem_of_fmap. eauto.
      * intros Heq. apply Hno. apply list_elem_of_fmap. eauto.
Qed.

(** ** Removing a file *)

(** Slot [j] of the directory is unused or holds another name. *)
Definition no_match (d : image) (nm : list byte) (j : nat) : Prop :=
  ∃ e, files (super d) !! j = Some e ∧
       (first_block e = 0 ∨ strcmp_eq (name e) nm = Ret false).

(** Slot [i] holds [e], the first live entry named [nm]. *)
Definition first_match (d : image) (nm : list byte) (i : nat) (e : sfs_dir_entry_t) : Prop :=
  (i < Z.to_nat FILE_COUNT_LIMIT)%nat ∧
  files (super d) !! i = Some e ∧ first_block e ≠ 0 ∧
  strcmp_eq (name e) nm = Ret true ∧
  ∀ j, (j < i)%nat → no_match d nm j.

Lemma remove_scan_skip s d nm k : ∀ i k',
  (∀ j, (i ≤ j < i + k)%nat → no_match d nm j) →
  remove_scan (k + k') s d nm (Z.of_nat i) = remove_scan k' s d nm (Z.of_nat (i + k)).
Proof.
  induction k as [|k IH]; intros i k' Hno.
  - simpl. by rewrite Nat.add_0_r.
  - destruct (Hno i ltac:(lia)) as (e & He & Hskip).
    simpl. rewrite Nat2Z.id, He. simpl.
    replace (Z.of_nat i + 1) with (Z.of_nat (S i)) by lia.
    replace (i + S k)%nat with (S i + k)%nat by lia.
    destruct (decide (first_block e ≠ 0)) as [Hlive|Hfree].
    + destruct Hskip as [?|Hcmp]; [done|]. rewrite Hcmp. simpl.
      apply IH. intros j Hj. apply Hno. lia.
    + apply IH. intros j Hj. apply Hno. lia.
Qed.

(** What [sfs_remove] does: with a name of 24 bytes or more, with no
    volume mounted, and with a name of at most 23 bytes on the mounted
    image. *)
Definition remove_contract (s : state) (nm : list byte) : Prop :=
  (strlen nm + 1 > SFS_FILE_NAME_SIZE_LIMIT →
     sfs_remove nm s = Ret (- ENAMETOOLONG, s)) ∧
  (strlen nm + 1 ≤ SFS_FILE_NAME_SIZE_LIMIT → diskBlocks s = None →
     sfs_remove nm s = Ret (- ENOMEDIUM, s)) ∧
  ∀ d, strlen nm + 1 ≤ SFS_FILE_NAME_SIZE_LIMIT → diskBlocks s = Some d →
    (∀ i e a, first_match d nm i e → openFileTable s !! i = Some (Some a) →
       sfs_remove nm s = Ret (- EBUSY, s)) ∧
    ((∀ j, (j < Z.to_nat FILE_COUNT_LIMIT)%nat → no_match d nm j) →
       sfs_remove nm s = Ret (- ENOENT, s)) ∧
    (∀ i e c fl, first_match d nm i e → openFileTable s !! i = Some None →
       chain d (first_block e) c → typed d SFS_BLOCK_TYPE_FILE c →
       (∀ b, blocks d !! Z.to_nat (first_block e) = Some b → prev_block (h b) = 0) →
       chain d (freelist (super d)) fl → (∀ y, y ∈ c → y ∉ fl) →
       ∃ d', sfs_remove nm s = Ret (0, set_disk d' s) ∧
         files (super d') =
           <[i := {| first_block := 0; size := size e; name := name e |}]> (files (super d)) ∧
         typed d' SFS_BLOCK_TYPE_FREE c ∧
         freelist (super d') = first_block e ∧
         chain d' (freelist (super d')) (c ++ fl) ∧
         (∀ j, (∀ y, y ∈ c → Z.to_nat y ≠ j) → blocks d' !! j = blocks d !! j)).

(** C7, as the code has it.  [sfs_remove] rejects a name of 24 bytes or
    more with -ENAMETOOLONG and, with a shorter name, an engine without a
    mounted volume with -ENOMEDIUM, before it looks at the directory; the
    state is as it was.  For a name of at most 23 bytes and a mounted
    volume it returns -EBUSY and changes nothing when the first live
    entry with that name has a v-node, returns -ENOENT when no live entry
    has that name, and otherwise clears the entry's [first_block], retags
    the file's whole chain FREE, puts it in front of the free list and
    returns 0. *)
Theorem sfs_remove_cases s nm : remove_contract s nm.
Proof.
  split; [|split].
  { intros Hlong. unfold sfs_remove. by rewrite decide_True. }
  { intros Hlen Hd. unfold sfs_remove. rewrite decide_False by lia.
    unfold getSFSStatus. rewrite Hd. by rewrite decide_True. }
  intros d Hlen Hd.
  assert (Hstart : sfs_remove nm s = remove_scan (Z.to_nat FILE_COUNT_LIMIT) s d nm 0).
  { unfold sfs_remove. rewrite decide_False by lia.
    unfold getSFSStatus, accessSuperBlock. rewrite Hd. by rewrite decide_False. }
  assert (Hfound : ∀ i e, first_match d nm i e →
    sfs_remove nm s =
      t ← deref (openFileTable s !! i);
      match t with
      | Some _ => Ret (- EBUSY, s)
      | None =>
          d2 ← freeBlocks (first_block e)
                 (set_files (<[i := {| first_block := 0; size := size e; name := name e |}]>
                               (files (super d))) d);
          Ret (0, set_disk d2 s)
      end).
  { intros i e (Hi & He & Hlive & Hcmp & Hno). rewrite Hstart.
    replace (Z.to_nat FILE_COUNT_LIMIT) with (i + S (Z.to_nat FILE_COUNT_LIMIT - S i))%nat
      by lia.
    rewrite (remove_scan_skip s d nm i 0) by (intros j Hj; apply Hno; lia).
    simpl. rewrite Nat2Z.id, He. simpl. rewrite decide_True by done.
    rewrite Hcmp. simpl. done. }
  split; [|split].
  - intros i e a Hm Ht. rewrite (Hfound i e Hm), Ht. done.
  - intros Hno. rewrite Hstart.
    replace (Z.to_nat FILE_COUNT_LIMIT) with (Z.to_nat FILE_COUNT_LIMIT + 0)%nat at 1 by lia.
    rewrite (remove_scan_skip s d nm _ 0 0); [done|]. intros j Hj. apply Hno. lia.
  - intros i e c fl Hm Ht Hc Hty Hprev Hfl Hdisj.
    rewrite (Hfound i e Hm), Ht. simpl.
    destruct Hm as (Hi & He & Hlive & Hcmp & Hno).
    set (d1 := set_files _ d).
    destruct (freeBlocks_spec d1 (first_block e) c fl)
      as (d' & Hrun & Hfree & Hch & Hty' & Hlen' & Hfiles & _ & _ & _ & Hout & _).
    + eapply seg_same; [|exact Hc]. done.
    + intros ->. unfold chain in Hc. simpl in Hc. done.
    + intros y Hy b Hb Hfree. destruct (Hty y Hy) as (b' & Hb' & Hfile).
      unfold d1 in Hb. simpl in Hb. rewrite Hb in Hb'. inversion Hb'; subst b'.
      rewrite Hfile in Hfree. discriminate.
    + exact Hprev.
    + eapply seg_same; [|exact Hfl]. done.
    + exact Hdisj.
    + rewrite Hrun. simpl. exists d'. split; [done|]. split; [by rewrite Hfiles|].
      split; [done|]. split; [done|]. split; [by rewrite Hfree|]. exact Hout.
Qed.

(** Scenario: the file [a], alone on a 4 KiB volume, first open, then
    closed.  The calls of [sfs_remove] below meet each of the five
    cases. *)
Definition file_open : state :=
  match run 4096 [Format "d" 4096 IoOk; Open [x61] true true] (init_state ∅) with
  | Ret (_, s) => s
  | _ => init_state ∅
  end.
Definition file_closed : state :=
  match run 4096 [Format "d" 4096 IoOk; Open [x61] true true; Close 0] (init_state ∅) with
  | Ret (_, s) => s
  | _ => init_state ∅
  end.
Definition image_closed : image := default (zero_image 0) (diskBlocks file_closed).
Definition entry_a : sfs_dir_entry_t :=
  {| first_block := 1; size := 0; name := x61 :: replicate 23 x00 |}.

Lemma first_match_a : first_match image_closed [x61] 0 entry_a.
Proof.
  split; [vm_compute; lia|]. split; [vm_compute; reflexivity|].
  split; [discriminate|]. split; [vm_compute; reflexivity|]. intros j Hj. lia.
Defined.

Lemma sfs_remove_cases_witness :
  sfs_remove [x61] file_open = Ret (- EBUSY, file_open) ∧
  sfs_remove [x62] file_closed = Ret (- ENOENT, file_closed) ∧
  (∃ d', sfs_remove [x61] file_closed = Ret (0, set_disk d' file_closed) ∧
     files (super d') =
       <[O := {| first_block := 0; size := 0; name := x61 :: replicate 23 x00 |}]>
         (files (super image_closed)) ∧
     typed d' SFS_BLOCK_TYPE_FREE [1] ∧
     freelist (super d') = 1 ∧
     chain d' (freelist (super d')) [1; 2; 3; 4; 5; 6; 7] ∧
     (∀ j, (∀ y, y ∈ [1] → Z.to_nat y ≠ j) → blocks d' !! j = blocks image_closed !! j)) ∧
  sfs_remove (replicate 24 x61) file_closed = Ret (- ENAMETOOLONG, file_closed) ∧
  sfs_remove [x61] (init_state ∅) = Ret (- ENOMEDIUM, init_state ∅).
Proof.
  split; [|split; [|split; [|split]]].
  - destruct (sfs_remove_cases file_open [x61]) as (_ & _ & H).
    destruct (H image_closed) as (Hbusy & _ & _);
      [vm_compute; discriminate|vm_compute; reflexivity|].
    apply (Hbusy O entry_a O); [|vm_compute; reflexivity].
    exact first_match_a.
  - destruct (sfs_remove_cases file_closed [x62]) as (_ & _ & H).
    destruct (H image_closed) as (_ & Hnone & _);
      [vm_compute; discriminate|vm_compute; reflexivity|].
    apply Hnone. intros j Hj.
    exists (if decide (j = O) then entry_a else zero_dir_entry).
    do 15 (destruct j as [|j];
      [split; [vm_compute; reflexivity|first [left; reflexivity|right; vm_compute; reflexivity]]|]).
    vm_compute in Hj. lia.
  - destruct (sfs_remove_cases file_closed [x61]) as (_ & _ & H).
    destruct (H image_closed) as (_ & _ & Hok);
      [vm_compute; discriminate|vm_compute; reflexivity|].
    apply (Hok O entry_a [1] [2; 3; 4; 5; 6; 7]).
    + exact first_match_a.
    + vm_compute. reflexivity.
    + apply chainb_chain. vm_compute. reflexivity.
    + apply typedb_typed. vm_compute. reflexivity.
    + intros b Hb. vm_compute in Hb. inversion Hb. reflexivity.
    + apply chainb_chain. vm_compute. reflexivity.
    + intros y Hy Hin. apply list_elem_of_singleton in Hy. subst y.
      repeat (apply elem_of_cons in Hin as [Hin|Hin]; [discriminate|]).
      by apply elem_of_nil in Hin.
  - destruct (sfs_remove_cases file_closed (replicate 24 x61)) as (H & _).
    apply H. vm_compute. reflexivity.
  - destruct (sfs_remove_cases (init_state ∅) [x61]) as (_ & H & _).
    apply H; [vm_compute; discriminate|vm_compute; reflexivity].
Defined.

(** C7 as stated fails for a name of 24 bytes: no live entry has that
    name (the directory of the fresh volume has no live entry at all), and
    [sfs_remove] returns -ENAMETOOLONG, not -ENOENT. *)
Lemma sfs_remove_long_name :
  (∀ j e, files (super image_4k) !! j = Some e → first_block e = 0) ∧
  diskBlocks formatted_4k = Some image_4k ∧
  sfs_remove (replicate 24 x61) formatted_4k = Ret (- ENAMETOOLONG, formatted_4k) ∧
  ¬ (∃ s', sfs_remove (replicate 24 x61) formatted_4k = Ret (- ENOENT, s')).
Proof.
  split; [|split; [|split]].
  - intros j e He. apply list_elem_of_lookup_2 in He.
    revert e He. apply Forall_forall. vm_compute. repeat constructor.
  - vm_compute. reflexivity.
  - vm_compute. reflexivity.
  - intros [s' Hs']. vm_compute in Hs'. discriminate.
Qed.

(** ** The open-file tables *)

(** The v-node each descriptor slot points to. *)
Definition desc_fe (o : option sfs_mem_filedesc_t) : option nat := fileEntry <$> o.
Definition fe_table (s : state) : list (option nat) := desc_fe <$> openFileDescTable s.

(** Number of descriptors pointing to the v-node at address [a]. *)
Fixpoint count_refs (a : nat) (fes : list (option nat)) : Z :=
  match fes with
  | [] => 0
  | o :: fes' => (if decide (o = Some a) then 1 else 0) + count_refs a fes'
  end.

(** The directory index a descriptor references, through its v-node. *)
Definition desc_index (s : state) (t : sfs_mem_filedesc_t) : option Z :=
  fileEntryIdx <$> vnodes s !! fileEntry t.

(** Number of descriptors referencing directory index [i]. *)
Fixpoint count_index (s : state) (i : Z) (tbl : list (option sfs_mem_filedesc_t)) : Z :=
  match tbl with
  | [] => 0
  | o :: tbl' =>
      (if decide (o ≫= desc_index s = Some i) then 1 else 0) + count_index s i tbl'
  end.

(** The v-node table and the descriptor table agree. *)
Record tables_inv (s : state) : Prop := {
  ti_len_files : length (openFileTable s) = Z.to_nat FILE_COUNT_LIMIT;
  ti_len_descs : length (openFileDescTable s) = Z.to_nat OPEN_FILE_LIMIT;
  ti_slot : ∀ i a, openFileTable s !! i = Some (Some a) →
      ∃ v, vnodes s !! a = Some v ∧ fileEntryIdx v = Z.of_nat i ∧
           refCount v = count_refs a (fe_table s) ∧ 0 < refCount v;
  ti_vnode : ∀ a v, vnodes s !! a = Some v →
      0 ≤ fileEntryIdx v ∧ openFileTable s !! Z.to_nat (fileEntryIdx v) = Some (Some a);
  ti_desc : ∀ fd a, fe_table s !! fd = Some (Some a) → is_Some (vnodes s !! a)
}.

(** I7/P5 in the words of the specification: slot [i] of the v-node table
    is occupied iff some descriptor references index [i], and then its
    reference count is the number of such descriptors. *)
Definition refcount_claim (s : state) : Prop :=
  ∀ i, (i < Z.to_nat FILE_COUNT_LIMIT)%nat →
    let n := count_index s (Z.of_nat i) (openFileDescTable s) in
    match openFileTable s !! i with
    | Some (Some a) => ∃ v, vnodes s !! a = Some v ∧ refCount v = n ∧ 1 ≤ n
    | Some None => n = 0
    | None => False
    end.

Lemma count_refs_nonneg a fes : 0 ≤ count_refs a fes.
Proof. induction fes as [|o fes IH]; simpl; [done|]. case_decide; lia. Qed.

Lemma count_refs_le a fes : count_refs a fes ≤ Z.of_nat (length fes).
Proof. induction fes as [|o fes IH]; simpl; [done|]. case_decide; lia. Qed.

Lemma count_refs_insert a fes : ∀ fd o o',
  fes !! fd = Some o →
  count_refs a (<[fd := o']> fes) =
    count_refs a fes - (if decide (o = Some a) then 1 else 0)
                     + (if decide (o' = Some a) then 1 else 0).
Proof.
  induction fes as [|x fes IH]; intros fd o o' Hfd; [done|].
  destruct fd as [|fd]; simpl in *.
  - inversion Hfd; subst. lia.
  - rewrite (IH fd o o' Hfd). lia.
Qed.

Lemma count_refs_zero a fes : (∀ fd, fes !! fd ≠ Some (Some a)) → count_refs a fes = 0.
Proof.
  induction fes as [|x fes IH]; intros Hno; [done|]. simpl.
  rewrite decide_False by (intros ->; by apply (Hno O)).
  rewrite IH; [done|]. intros fd. apply (Hno (S fd)).
Qed.

Lemma count_refs_pos a fes fd : fes !! fd = Some (Some a) → 0 < count_refs a fes.
Proof.
  revert fd. induction fes as [|x fes IH]; intros fd Hfd; [done|].
  destruct fd as [|fd]; simpl in *.
  - inversion Hfd; subst. rewrite decide_True by done. pose proof (count_refs_nonneg a fes). lia.
  - specialize (IH fd Hfd). case_decide; lia.
Qed.

Lemma count_index_refs s i a tbl :
  (∀ t, Some t ∈ tbl → desc_index s t = Some i ↔ fileEntry t = a) →
  count_index s i tbl = count_refs a (desc_fe <$> tbl).
Proof.
  induction tbl as [|o tbl IH]; intros Hiff; [done|]. simpl.
  rewrite IH by (intros t Ht; apply Hiff; by right). f_equal.
  destruct o as [t|]; simpl.
  - specialize (Hiff t ltac:(left)). repeat case_decide; try done.
    + exfalso. apply H0. f_equal. by apply Hiff.
    + exfalso. apply H. apply Hiff. by inversion H0.
  - repeat case_decide; done.
Qed.

Lemma count_index_zero s i tbl :
  (∀ t, Some t ∈ tbl → desc_index s t ≠ Some i) → count_index s i tbl = 0.
Proof.
  induction tbl as [|o tbl IH]; intros Hno; [done|]. simpl.
  rewrite IH by (intros t Ht; apply Hno; by right).
  destruct o as [t|]; simpl.
  - case_decide as Hd; [|done]. exfalso. by apply (Hno t); [left|].
  - try case_decide; done.
Qed.

Lemma fe_table_lookup s fd t :
  openFileDescTable s !! fd = Some (Some t) → fe_table s !! fd = Some (Some (fileEntry t)).
Proof. intros H. unfold fe_table. by rewrite list_lookup_fmap, H. Qed.

Lemma tables_inv_claim s : tables_inv s → refcount_claim s.
Proof.
  intros [Hlf Hld Hslot Hvn Hdesc] i Hi. simpl.
  destruct (lookup_lt_is_Some_2 (openFileTable s) i) as [o Ho]; [lia|].
  rewrite Ho. destruct o as [a|].
  - destruct (Hslot i a Ho) as (v & Hv & Hidx & Hrc & Hpos).
    exists v. split; [done|].
    rewrite (count_index_refs s (Z.of_nat i) a).
    + fold (fe_table s). lia.
    + intros t Ht. apply list_elem_of_lookup in Ht as [fd Hfd]. unfold desc_index. split.
      * intros Hdi. destruct (vnodes s !! fileEntry t) as [v'|] eqn:Hv'; [|done].
        simpl in Hdi. inversion Hdi as [Hidx'].
        destruct (Hvn _ _ Hv') as [_ Hslot']. rewrite Hidx', Nat2Z.id, Ho in Hslot'.
        by inversion Hslot'.
      * intros <-. rewrite Hv. simpl. by rewrite Hidx.
  - apply count_index_zero. intros t Ht Hdi. unfold desc_index in Hdi.
    destruct (vnodes s !! fileEntry t) as [v'|] eqn:Hv'; [|done].
    simpl in Hdi. inversion Hdi as [Hidx'].
    destruct (Hvn _ _ Hv') as [_ Hslot']. rewrite Hidx', Nat2Z.id, Ho in Hslot'. done.
Qed.

Lemma tables_inv_init hst : tables_inv (init_state hst).
Proof.
  split.
  - reflexivity.
  - reflexivity.
  - intros i a H.
    change (replicate (Z.to_nat FILE_COUNT_LIMIT) (@None nat) !! i = Some (Some a)) in H.
    apply lookup_replicate in H as [H _]. done.
  - intros a v H. change (vnodes (init_state hst)) with (∅ : gmap nat sfs_mem_file_t) in H.
    by rewrite lookup_empty in H.
  - intros fd a H. unfold fe_table in H. rewrite list_lookup_fmap in H.
    change (openFileDescTable (init_state hst))
      with (replicate (Z.to_nat OPEN_FILE_LIMIT) (@None sfs_mem_filedesc_t)) in H.
    destruct (replicate _ _ !! fd) as [o|] eqn:Ho; [|done].
    apply lookup_replicate in Ho as [-> _]. done.
Qed.

(** Calls that keep the v-nodes, the v-node table and the v-node of every
    descriptor keep the invariant. *)
Definition same_tables (s s' : state) : Prop :=
  vnodes s' = vnodes s ∧ openFileTable s' = openFileTable s ∧
  fe_table s' = fe_table s ∧
  length (openFileDescTable s') = length (openFileDescTable s).

Lemma same_tables_refl s : same_tables s s.
Proof. done. Qed.

Lemma same_tables_trans s1 s2 s3 : same_tables s1 s2 → same_tables s2 s3 → same_tables s1 s3.
Proof. intros (?&?&?&?) (?&?&?&?). repeat split; congruence. Qed.

Lemma tables_inv_same s s' : same_tables s s' → tables_inv s → tables_inv s'.
Proof.
  intros (Hv & Ht & Hfe & Hl) [Hlf Hld Hslot Hvn Hdesc].
  split; rewrite ?Hv, ?Ht, ?Hfe, ?Hl; done.
Qed.

Lemma same_tables_set_disk d s : same_tables s (set_disk d s).
Proof. done. Qed.

Lemma same_tables_update_desc s fd t t' :
  openFileDescTable s !! fd = Some (Some t) → fileEntry t' = fileEntry t →
  same_tables s (set_openFileDescTable (<[fd := Some t']> (openFileDescTable s)) s).
Proof.
  intros Hfd Hfe. repeat split; simpl.
  - unfold fe_table. simpl. rewrite list_fmap_insert. simpl. rewrite Hfe.
    apply list_insert_id. by rewrite list_lookup_fmap, Hfd.
  - by rewrite length_insert.
Qed.

(** Inversion of a computation that returned. *)
Ltac inv_step H :=
  match type of H with
  | Ret _ = Ret _ => inversion H; subst; clear H
  | Abort = Ret _ => discriminate H
  | Fault = Ret _ => discriminate H
  | Timeout = Ret _ => discriminate H
  | (_ ≫= _) = Ret _ =>
      let x := fresh "x" in let Hx := fresh "Hx" in
      apply bind_Ret_inv in H as (x & Hx & H); cbv beta in H
  | (if decide ?P then _ else _) = Ret _ => destruct (decide P)
  | (if negb ?b then _ else _) = Ret _ => destruct b; simpl in H
  | (if ?b then _ else _) = Ret _ => destruct b eqn:?
  | (match ?o with _ => _ end) = Ret _ => destruct o eqn:?
  end.
Ltac inv_ret H := repeat inv_step H.

Lemma deref_Ret {A} (o : option A) a : deref o = Ret a → o = Some a.
Proof. destruct o; simpl; congruence. Qed.

Lemma sfs_format_tables pagesize p n io s r s' :
  sfs_format pagesize p n io s = Ret (r, s') → same_tables s s'.
Proof. unfold sfs_format. intros H. inv_ret H; done. Qed.

Lemma sfs_mount_tables pagesize p io s r s' :
  sfs_mount pagesize p io s = Ret (r, s') → same_tables s s'.
Proof. unfold sfs_mount. intros H. inv_ret H; done. Qed.

Lemma sfs_unmount_tables s r s' : sfs_unmount s = Ret (r, s') → same_tables s s'.
Proof. unfold sfs_unmount. intros H. inv_ret H; done. Qed.

Lemma sfs_read_tables fd len s r out s' :
  sfs_read fd len s = Ret (r, out, s') → same_tables s s'.
Proof.
  unfold sfs_read. intros H. inv_ret H; try done.
  eapply (same_tables_update_desc s _ s0); [by apply deref_Ret|done].
Qed.

Lemma diskFile_set_size_tables s p sz s' :
  diskFile_set_size s p sz = Ret s' → same_tables s s'.
Proof. unfold diskFile_set_size. intros H. inv_ret H; done. Qed.

Lemma sfs_write_tables fd buf s r s' :
  sfs_write fd buf s = Ret (r, s') → same_tables s s'.
Proof.
  unfold sfs_write. intros H. inv_ret H; try done.
  match goal with Hs : (if decide _ then _ else _) = Ret _ |- _ => inv_ret Hs end.
  - eapply same_tables_trans; [|eapply diskFile_set_size_tables; eassumption].
    eapply same_tables_trans; [apply (same_tables_set_disk i0)|].
    eapply (same_tables_update_desc (set_disk i0 s) _ s0); [by apply deref_Ret|done].
  - eapply same_tables_trans; [apply (same_tables_set_disk i0)|].
    eapply (same_tables_update_desc (set_disk i0 s) _ s0); [by apply deref_Ret|done].
Qed.

Lemma remove_scan_tables k : ∀ s0 s d nm i r s',
  same_tables s0 s →
  remove_scan k s d nm i = Ret (r, s') → same_tables s0 s'.
Proof.
  induction k as [|k IH]; intros s0 s d nm i r s' Hs H; simpl in H.
  - by inv_ret H.
  - inv_ret H; try done; eauto.
Qed.

Lemma sfs_remove_tables nm s r s' : sfs_remove nm s = Ret (r, s') → same_tables s s'.
Proof.
  unfold sfs_remove. intros H. inv_ret H; try done.
  eapply remove_scan_tables; [|eassumption]. done.
Qed.

Lemma first_null_spec {A} (tbl : list (option A)) : ∀ idx fd,
  first_null tbl idx = Some fd → ∃ k, fd = idx + Z.of_nat k ∧ tbl !! k = Some None.
Proof.
  induction tbl as [|o tbl IH]; intros idx fd H; [done|]. simpl in H.
  destruct o as [x|].
  - destruct (IH _ _ H) as (k & -> & Hk). exists (S k). split; [lia|done].
  - inversion H; subst. exists O. split; [lia|done].
Qed.

Lemma fe_table_insert s fd t :
  fe_table (set_openFileDescTable (<[fd := Some t]> (openFileDescTable s)) s)
  = <[fd := Some (fileEntry t)]> (fe_table s).
Proof. unfold fe_table. simpl. by rewrite list_fmap_insert. Qed.

Lemma fe_table_None s fd :
  openFileDescTable s !! fd = Some None → fe_table s !! fd = Some None.
Proof. intros H. unfold fe_table. by rewrite list_lookup_fmap, H. Qed.

Lemma length_fe_table s : length (fe_table s) = length (openFileDescTable s).
Proof. unfold fe_table. by rewrite length_fmap. Qed.

(** One more descriptor for an existing v-node. *)
Lemma tables_inv_add_ref s i a v fd t :
  tables_inv s → openFileTable s !! i = Some (Some a) → vnodes s !! a = Some v →
  openFileDescTable s !! fd = Some None → fileEntry t = a →
  tables_inv
    (set_openFileDescTable (<[fd := Some t]> (openFileDescTable s))
       (set_vnodes (<[a := {| refCount := u32 (refCount v + 1);
                              fileEntryIdx := fileEntryIdx v;
                              diskFile := diskFile v |}]> (vnodes s)) s)).
Proof.
  intros [Hlf Hld Hslot Hvn Hdesc] Hi Hv Hfd Hfe.
  pose proof (fe_table_None _ _ Hfd) as Hfd'.
  assert (Hfes : fe_table (set_openFileDescTable (<[fd := Some t]> (openFileDescTable s))
                   (set_vnodes (<[a := {| refCount := u32 (refCount v + 1);
                              fileEntryIdx := fileEntryIdx v;
                              diskFile := diskFile v |}]> (vnodes s)) s))
                 = <[fd := Some a]> (fe_table s)).
  { unfold fe_table. simpl. rewrite list_fmap_insert. simpl. by rewrite Hfe. }
  destruct (Hslot i a Hi) as (v0 & Hv0 & Hidx & Hrc & Hpos).
  rewrite Hv in Hv0. inversion Hv0; subst v0; clear Hv0.
  assert (Hrc32 : u32 (refCount v + 1) = refCount v + 1).
  { apply u32_small. pose proof (count_refs_le a (fe_table s)).
    rewrite length_fe_table, Hld in H. unfold OPEN_FILE_LIMIT in H. lia. }
  split.
  - done.
  - simpl. by rewrite length_insert.
  - intros j a' Hj. rewrite Hfes. simpl in Hj |- *.
    rewrite (count_refs_insert a' (fe_table s) fd None (Some a) Hfd').
    rewrite (decide_False (P := None = Some a')) by done.
    destruct (decide (a' = a)) as [->|Hne].
    + rewrite lookup_insert_eq. eexists. split; [done|]. simpl.
      rewrite decide_True by done.
      destruct (Hslot j a Hj) as (v1 & Hv1 & Hidx1 & _). rewrite Hv in Hv1.
      inversion Hv1; subst v1. split; [done|]. lia.
    + rewrite lookup_insert_ne by done.
      rewrite decide_False by congruence.
      destruct (Hslot j a' Hj) as (v1 & Hv1 & Hidx1 & Hrc1 & Hpos1).
      exists v1. split; [done|]. split; [done|]. split; [lia|done].
  - intros a' v' Hv'. simpl in Hv' |- *.
    destruct (decide (a' = a)) as [->|Hne].
    + rewrite lookup_insert_eq in Hv'. inversion Hv'; subst v'. simpl. by apply Hvn.
    + rewrite lookup_insert_ne in Hv' by done. by apply Hvn.
  - intros fd' a' Hfd''. rewrite Hfes in Hfd''. simpl.
    destruct (decide (fd' = fd)) as [->|Hne].
    + rewrite list_lookup_insert_eq in Hfd''
        by (rewrite length_fe_table; by apply lookup_lt_Some in Hfd).
      inversion Hfd''; subst a'. rewrite lookup_insert_eq. eauto.
    + rewrite list_lookup_insert_ne in Hfd'' by done.
      destruct (Hdesc fd' a' Hfd'') as [v1 Hv1].
      destruct (decide (a' = a)) as [->|Hne'].
      * rewrite lookup_insert_eq. eauto.
      * rewrite lookup_insert_ne by done. eauto.
Qed.

(** A new v-node in an empty slot. *)
Lemma tables_inv_new_vnode s i a v0 :
  tables_inv s → openFileTable s !! i = Some None → vnodes s !! a = None →
  fileEntryIdx v0 = Z.of_nat i → refCount v0 = 0 →
  ∀ fd t, openFileDescTable s !! fd = Some None → fileEntry t = a →
  tables_inv
    (set_openFileDescTable (<[fd := Some t]> (openFileDescTable s))
       (set_vnodes (<[a := {| refCount := u32 (refCount v0 + 1);
                              fileEntryIdx := fileEntryIdx v0;
                              diskFile := diskFile v0 |}]> (<[a := v0]> (vnodes s)))
          (set_openFileTable (<[i := Some a]> (openFileTable s))
             (set_vnodes (<[a := v0]> (vnodes s)) s)))).
Proof.
  intros [Hlf Hld Hslot Hvn Hdesc] Hi Ha Hidx0 Hrc0 fd t Hfd Hfe.
  pose proof (fe_table_None _ _ Hfd) as Hfd'.
  match goal with |- tables_inv ?s1 => set (s' := s1) end.
  assert (Hfes : fe_table s' = <[fd := Some a]> (fe_table s)).
  { unfold fe_table. simpl. rewrite list_fmap_insert. simpl. by rewrite Hfe. }
  assert (Hcount0 : count_refs a (fe_table s) = 0).
  { apply count_refs_zero. intros fd' Hfd''. destruct (Hdesc _ _ Hfd'') as [v1 Hv1].
    by rewrite Ha in Hv1. }
  assert (Hvs : vnodes s' = <[a := {| refCount := 1; fileEntryIdx := Z.of_nat i;
                                      diskFile := diskFile v0 |}]> (vnodes s)).
  { unfold s'. simpl. rewrite insert_insert_eq. by rewrite Hrc0, Hidx0. }
  split.
  - unfold s'. simpl. by rewrite length_insert.
  - unfold s'. simpl. by rewrite length_insert.
  - intros j a' Hj. rewrite Hfes, Hvs.
    rewrite (count_refs_insert a' (fe_table s) fd None (Some a) Hfd').
    rewrite (decide_False (P := None = Some a')) by done.
    unfold s' in Hj. simpl in Hj.
    destruct (decide (j = i)) as [->|Hne].
    + rewrite list_lookup_insert_eq in Hj by (by apply lookup_lt_Some in Hi).
      inversion Hj; subst a'. rewrite lookup_insert_eq. eexists. split; [done|]. simpl.
      rewrite decide_True by done. split; [done|]. lia.
    + rewrite list_lookup_insert_ne in Hj by done.
      destruct (Hslot j a' Hj) as (v1 & Hv1 & Hidx1 & Hrc1 & Hpos1).
      assert (a' ≠ a) by (intros ->; by rewrite Ha in Hv1).
      rewrite lookup_insert_ne by done. rewrite decide_False by congruence.
      exists v1. split; [done|]. split; [done|]. split; [lia|done].
  - intros a' v' Hv'. rewrite Hvs in Hv'. unfold s'. simpl.
    destruct (decide (a' = a)) as [->|Hne].
    + rewrite lookup_insert_eq in Hv'. inversion Hv'; subst v'. simpl.
      rewrite Nat2Z.id. split; [lia|].
      apply list_lookup_insert_eq. by apply lookup_lt_Some in Hi.
    + rewrite lookup_insert_ne in Hv' by done. destruct (Hvn a' v' Hv') as [H0 Hs].
      split; [done|]. rewrite list_lookup_insert_ne; [done|].
      intros Heq. rewrite <- Heq, Hi in Hs. done.
  - intros fd' a' Hfd''. rewrite Hfes in Hfd''. rewrite Hvs.
    destruct (decide (fd' = fd)) as [->|Hne].
    + rewrite list_lookup_insert_eq in Hfd''
        by (rewrite length_fe_table; by apply lookup_lt_Some in Hfd).
      inversion Hfd''; subst a'. rewrite lookup_insert_eq. eauto.
    + rewrite list_lookup_insert_ne in Hfd'' by done.
      destruct (Hdesc fd' a' Hfd'') as [v1 Hv1].
      assert (a' ≠ a) by (intros ->; by rewrite Ha in Hv1).
      rewrite lookup_insert_ne by done. eauto.
Qed.

Lemma addOpenFileEntry_tables idx m1 m2 s r s' :
  tables_inv s → 0 ≤ idx →
  addOpenFileEntry idx m1 m2 s = Ret (r, s') → tables_inv s'.
Proof.
  intros Hinv Hidx H. unfold addOpenFileEntry in H.
  destruct (first_null _ 0) as [fd|] eqn:Hfd; [|by inv_ret H].
  apply first_null_spec in Hfd as (k & -> & Hk). apply lookup_take_Some in Hk as [Hk _].
  replace (Z.to_nat (0 + Z.of_nat k)) with k in H by lia.
  destruct m1; simpl in H; [|by inv_ret H].
  apply bind_Ret_inv in H as (slot & Hslot & H). apply deref_Ret in Hslot.
  destruct slot as [a|].
  - simpl in H. apply bind_Ret_inv in H as (v & Hv & H). apply deref_Ret in Hv.
    apply bind_Ret_inv in H as (e & He & H). inversion H; subst; clear H.
    by eapply tables_inv_add_ref.
  - destruct m2; simpl in H; [|by inv_ret H].
    apply bind_Ret_inv in H as (x & Hx & H).
    apply bind_Ret_inv in Hx as (d & Hd & Hx). inversion Hx; subst x; clear Hx.
    apply bind_Ret_inv in H as (v & Hv & H). apply deref_Ret in Hv.
    simpl in Hv. rewrite lookup_insert_eq in Hv. inversion Hv; subst v; clear Hv.
    apply bind_Ret_inv in H as (e & He & H). inversion H; subst; clear H.
    apply (tables_inv_new_vnode s (Z.to_nat idx) (fresh (dom (vnodes s)))
             {| refCount := 0; fileEntryIdx := idx; diskFile := (mapping s, idx) |});
      try done.
    + apply not_elem_of_dom. apply is_fresh.
    + simpl. lia.
Qed.

Lemma open_scan_range k : ∀ d nm i e0 r,
  0 ≤ i → open_scan k d nm i e0 = Ret (inl r) → 0 ≤ r.
Proof.
  induction k as [|k IH]; intros d nm i e0 r Hi H; simpl in H; [done|].
  inv_ret H; try lia; (eapply IH; [|exact H]; lia).
Qed.

Lemma open_scan_range_empty k : ∀ d nm i e0 r,
  0 ≤ i → -1 ≤ e0 → open_scan k d nm i e0 = Ret (inr r) → -1 ≤ r.
Proof.
  induction k as [|k IH]; intros d nm i e0 r Hi He H; simpl in H.
  - by inversion H; subst.
  - inv_ret H; (eapply IH; [| |exact H]; [lia|try case_decide; lia]).
Qed.

Lemma sfs_open_tables nm m1 m2 s r s' :
  tables_inv s → sfs_open nm m1 m2 s = Ret (r, s') → tables_inv s'.
Proof.
  intros Hinv H. unfold sfs_open in H.
  destruct (decide _) in H; [by inv_ret H|].
  destruct (decide _) in H; [by inv_ret H|].
  apply bind_Ret_inv in H as (d & Hd & H).
  apply bind_Ret_inv in H as (sc & Hsc & H).
  destruct sc as [i|e0].
  - eapply addOpenFileEntry_tables; [done| |exact H]. eapply open_scan_range; [|exact Hsc]. lia.
  - destruct (decide (e0 = -1)); [by inv_ret H|].
    unfold createFile in H.
    apply bind_Ret_inv in H as (d' & Hd' & H).
    apply bind_Ret_inv in H as ([sb d1] & Hal & H).
    destruct (decide (sb = 0)).
    { inversion H; subst. eapply tables_inv_same; [|done]. done. }
    apply bind_Ret_inv in H as (u & Hu & H).
    apply bind_Ret_inv in H as (e & He & H).
    eapply addOpenFileEntry_tables; [| |exact H].
    + eapply tables_inv_same; [|done]. done.
    + assert (-1 ≤ e0) by (eapply open_scan_range_empty; [| |exact Hsc]; lia). lia.
Qed.

Lemma sfs_close_tables fd s s' :
  tables_inv s → sfs_close fd s = Ret s' → tables_inv s'.
Proof.
  intros Hinv H. unfold sfs_close in H.
  destruct (decide (fd < 0 ∨ fd > OPEN_FILE_LIMIT)) as [|Hfd]; [by inv_ret H|].
  apply bind_Ret_inv in H as (o & Ho & H). apply deref_Ret in Ho.
  destruct o as [t|]; [|by inv_ret H].
  apply bind_Ret_inv in H as (v & Hv & H). apply deref_Ret in Hv. simpl in Hv.
  destruct Hinv as [Hlf Hld Hslot Hvn Hdesc].
  pose proof (fe_table_lookup _ _ _ Ho) as Hfe.
  destruct (Hvn _ _ Hv) as [Hidx0 Hsl].
  destruct (Hslot _ _ Hsl) as (v1 & Hv1 & Hidx & Hrc & Hpos).
  rewrite Hv in Hv1. inversion Hv1; subst v1; clear Hv1.
  assert (Hrc32 : u32 (refCount v - 1) = refCount v - 1).
  { apply u32_small. pose proof (count_refs_le (fileEntry t) (fe_table s)).
    rewrite length_fe_table, Hld in H0. unfold OPEN_FILE_LIMIT in H0. lia. }
  assert (Hfes : ∀ s1, openFileDescTable s1 = <[Z.to_nat fd := None]> (openFileDescTable s) →
            fe_table s1 = <[Z.to_nat fd := None]> (fe_table s)).
  { intros s1 Hs1. unfold fe_table. by rewrite Hs1, list_fmap_insert. }
  assert (Hcnt : ∀ a, count_refs a (<[Z.to_nat fd := None]> (fe_table s)) =
                      count_refs a (fe_table s) - (if decide (a = fileEntry t) then 1 else 0)).
  { intros a. rewrite (count_refs_insert a _ _ _ None Hfe).
    rewrite (decide_False (P := None = Some a)) by done.
    destruct (decide (a = fileEntry t)) as [->|Hne].
    - rewrite decide_True by done. lia.
    - rewrite decide_False by congruence. lia. }
  simpl in H. rewrite Hrc32 in H.
  destruct (decide (refCount v - 1 > 0)) as [Hgt|Hle].
  - inversion H; subst s'; clear H. split.
    + done.
    + simpl. by rewrite length_insert.
    + intros j a Hj. erewrite Hfes by reflexivity; rewrite Hcnt. simpl in Hj |- *.
      destruct (decide (a = fileEntry t)) as [->|Hne].
      * rewrite lookup_insert_eq. eexists. split; [done|]. simpl.
        destruct (Hslot j _ Hj) as (v1 & Hv1 & Hidx1 & _). rewrite Hv in Hv1.
        inversion Hv1; subst v1. split; [done|]. lia.
      * rewrite lookup_insert_ne by done.
        destruct (Hslot j a Hj) as (v1 & Hv1 & Hidx1 & Hrc1 & Hpos1).
        exists v1. split; [done|]. split; [done|]. split; [lia|done].
    + intros a v' Hv'. simpl in Hv' |- *.
      destruct (decide (a = fileEntry t)) as [->|Hne].
      * rewrite lookup_insert_eq in Hv'. inversion Hv'; subst v'. simpl. by apply Hvn.
      * rewrite lookup_insert_ne in Hv' by done. by apply Hvn.
    + intros fd' a Hfd'. erewrite Hfes in Hfd' by reflexivity. simpl.
      destruct (decide (fd' = Z.to_nat fd)) as [->|Hne].
      * rewrite list_lookup_insert_eq in Hfd'
          by (rewrite length_fe_table; by apply lookup_lt_Some in Ho). done.
      * rewrite list_lookup_insert_ne in Hfd' by done.
        destruct (Hdesc fd' a Hfd') as [v1 Hv1].
        destruct (decide (a = fileEntry t)) as [->|Hne'].
        -- rewrite lookup_insert_eq. eauto.
        -- rewrite lookup_insert_ne by done. eauto.
  - apply bind_Ret_inv in H as (o & Ho' & H). inversion H; subst s'; clear H.
    assert (Hrc1 : refCount v = 1) by lia.
    split.
    + simpl. by rewrite length_insert.
    + simpl. by rewrite length_insert.
    + intros j a Hj. erewrite Hfes by reflexivity; rewrite Hcnt. simpl in Hj |- *.
      destruct (decide (j = Z.to_nat (fileEntryIdx v))) as [->|Hne].
      { rewrite list_lookup_insert_eq in Hj by (by apply lookup_lt_Some in Hsl). done. }
      rewrite list_lookup_insert_ne in Hj by done.
      destruct (Hslot j a Hj) as (v1 & Hv1 & Hidx1 & Hrc1' & Hpos1).
      assert (a ≠ fileEntry t).
      { intros ->. rewrite Hv in Hv1. inversion Hv1; subst v1. lia. }
      rewrite lookup_delete_ne by done. rewrite decide_False by done.
      exists v1. split; [done|]. split; [done|]. split; [lia|done].
    + intros a v' Hv'. simpl in Hv' |- *.
      destruct (decide (a = fileEntry t)) as [->|Hne].
      { by rewrite lookup_delete_eq in Hv'. }
      rewrite lookup_delete_ne in Hv' by done. destruct (Hvn a v' Hv') as [H0 Hs].
      split; [done|]. rewrite list_lookup_insert_ne; [done|].
      intros Heq. rewrite <- Heq, Hsl in Hs. by inversion Hs.
    + intros fd' a Hfd'. erewrite Hfes in Hfd' by reflexivity. simpl.
      destruct (decide (fd' = Z.to_nat fd)) as [->|Hne].
      * rewrite list_lookup_insert_eq in Hfd'
          by (rewrite length_fe_table; by apply lookup_lt_Some in Ho). done.
      * rewrite list_lookup_insert_ne in Hfd' by done.
        destruct (Hdesc fd' a Hfd') as [v1 Hv1].
        assert (a ≠ fileEntry t).
        { intros ->. pose proof (count_refs_pos _ _ _ Hfd') as Hp.
          pose proof (Hcnt (fileEntry t)) as Hc. rewrite decide_True in Hc by done.
          assert (0 < count_refs (fileEntry t) (<[Z.to_nat fd:=None]> (fe_table s))).
          { eapply (count_refs_pos _ _ fd'). by rewrite list_lookup_insert_ne. }
          lia. }
        rewrite lookup_delete_ne by done. eauto.
Qed.

Lemma step_tables pagesize c s r out s' :
  tables_inv s → step pagesize c s = Ret (r, out, s') → tables_inv s'.
Proof.
  intros Hinv H. destruct c; simpl in H.
  - inv_ret H. eapply tables_inv_same; [|done]. by eapply sfs_format_tables.
  - inv_ret H. eapply tables_inv_same; [|done]. by eapply sfs_mount_tables.
  - inv_ret H. eapply tables_inv_same; [|done]. by eapply sfs_unmount_tables.
  - inv_ret H. by eapply sfs_open_tables.
  - inv_ret H. by eapply sfs_close_tables.
  - eapply tables_inv_same; [|done]. by eapply sfs_read_tables.
  - inv_ret H. eapply tables_inv_same; [|done]. by eapply sfs_write_tables.
  - by inv_ret H.
  - by inv_ret H.
  - inv_ret H. eapply tables_inv_same; [|done]. by eapply sfs_remove_tables.
  - by inv_ret H.
  - by inv_ret H.
Qed.

Lemma run_tables pagesize cs : ∀ s rs s',
  tables_inv s → run pagesize cs s = Ret (rs, s') → tables_inv s'.
Proof.
  induction cs as [|c cs IH]; intros s rs s' Hinv H; simpl in H.
  - by inv_ret H.
  - apply bind_Ret_inv in H as ([[r out] s1] & Hstep & H).
    apply bind_Ret_inv in H as ([rs' s2] & Hrun & H). inversion H; subst.
    eapply IH; [|exact Hrun]. by eapply step_tables.
Qed.

(** C9: after any sequence of API calls from program start, slot [i] of
    the v-node table is occupied iff some descriptor references directory
    index [i], and its [refCount] is the number of those descriptors. *)
Theorem refcount_invariant pagesize hst cs rs s :
  run pagesize cs (init_state hst) = Ret (rs, s) → refcount_claim s.
Proof.
  intros H. apply tables_inv_claim.
  eapply run_tables; [|exact H]. apply tables_inv_init.
Qed.

(** Scenario S4: two descriptors on the same file. *)
Definition two_opens : list call :=
  [Format "d" 4096 IoOk; Open [x61] true true; Open [x61] true true].

Definition after_two_opens : state :=
  match run 4096 two_opens (init_state ∅) with
  | Ret (_, s) => s
  | _ => init_state ∅
  end.

Lemma refcount_invariant_witness : refcount_claim after_two_opens.
Proof.
  apply (refcount_invariant 4096 ∅ two_opens [(0, []); (0, []); (1, [])]).
  vm_compute. reflexivity.
Defined.

Example two_opens_refcount :
  match openFileTable after_two_opens !! 0%nat with
  | Some (Some a) => option_map refCount (vnodes after_two_opens !! a)
  | _ => None
  end = Some 2 ∧
  sfs_remove [x61] after_two_opens = Ret (- EBUSY, after_two_opens).
Proof. split; vm_compute; reflexivity. Qed.

(** ** Arithmetic of sizes *)

Ltac pow_norm :=
  change (2 ^ 64) with 18446744073709551616 in *;
  change (2 ^ 63) with 9223372036854775808 in *;
  change (2 ^ 32) with 4294967296 in *.

(** Linear arithmetic with division and remainder by constants. *)
Ltac dlia := pow_norm; Z.to_euclidean_division_equations; lia.

Lemma roundUp_eq x : 0 ≤ x < 2 ^ 63 →
  roundUp x BLOCK_DATA_SIZE = 500 * ((Z.max x 1 + 499) / 500).
Proof.
  intros Hx. unfold roundUp, BLOCK_DATA_SIZE. pow_norm.
  assert (Hm : (if decide (x = 0) then 1 else x) = Z.max x 1) by (case_decide; lia).
  rewrite Hm. replace (Z.max x 1 + (500 - 1)) with (Z.max x 1 + 499) by lia.
  rewrite (u64_small (Z.max x 1 + 499)) by (pow_norm; lia).
  apply u64_small. dlia.
Qed.

Lemma roundUp_bounds x : 0 ≤ x < 2 ^ 63 →
  Z.max x 1 ≤ roundUp x BLOCK_DATA_SIZE < Z.max x 1 + 500 ∧
  roundUp x BLOCK_DATA_SIZE mod 500 = 0.
Proof.
  intros Hx. rewrite roundUp_eq by done. split; [dlia|].
  rewrite Z.mul_comm. apply Z_mod_mult.
Qed.

Lemma roundUp_div x : 0 ≤ x < 2 ^ 63 →
  roundUp x BLOCK_DATA_SIZE / 500 = (Z.max x 1 + 499) / 500.
Proof.
  intros Hx. rewrite roundUp_eq by done. rewrite Z.mul_comm. apply Z.div_mul. lia.
Qed.

Lemma sizeMin_min a b : sizeMin a b = Z.min a b.
Proof. unfold sizeMin. case_decide; lia. Qed.

Lemma to_ssize_small x : 0 ≤ x < 2 ^ 63 → to_ssize x = x.
Proof. intros Hx. unfold to_ssize. by rewrite decide_True by (pow_norm; lia). Qed.

(** The block of a chain that holds position [pos] of a descriptor: the
    block of the byte before [pos] (block 0 for position 0). *)
Definition block_index (pos : Z) : nat := Z.to_nat ((pos - 1) / 500).

Lemma set_openFileDescTable_id s :
  set_openFileDescTable (openFileDescTable s) s = s.
Proof. by destruct s. Qed.

Lemma set_disk_id s d : diskBlocks s = Some d → set_disk d s = s.
Proof. destruct s. simpl. by intros ->. Qed.

Lemma accessFileBlock_Ret d x b :
  blocks d !! Z.to_nat x = Some b → 0 < x → type (h b) = SFS_BLOCK_TYPE_FILE →
  accessFileBlock d x = Ret (Some x).
Proof.
  intros Hb Hx Hty. unfold accessFileBlock.
  apply lookup_lt_Some in Hb as Hlt.
  rewrite accessBlock_Ret by lia. rewrite bind_Ret.
  rewrite (proj2 (load_Ret _ _ _) Hb), bind_Ret.
  rewrite assert_decide by done. done.
Qed.

Lemma accessFileBlock_null d : blocks d ≠ [] → accessFileBlock d 0 = Ret None.
Proof.
  intros Hne. unfold accessFileBlock, accessBlock.
  rewrite assert_decide; [done|]. destruct (blocks d); [done|]. simpl. lia.
Qed.

(** ** Transfers of length zero *)

(** A descriptor in use whose v-node points into the current mapping, at a
    position inside the file and on a block of the file. *)
Record fd_valid (s : state) (fd : Z) (t : sfs_mem_filedesc_t) : Prop := {
  fv_range : 0 ≤ fd < OPEN_FILE_LIMIT;
  fv_slot : openFileDescTable s !! Z.to_nat fd = Some (Some t);
  fv_file : ∃ v e d b,
      vnodes s !! fileEntry t = Some v ∧ diskBlocks s = Some d ∧
      diskFile_get s (diskFile v) = Ret e ∧
      0 ≤ size e < 2 ^ 32 ∧ 0 ≤ currPos t ≤ size e ∧
      0 < currBlock t ∧ blocks d !! Z.to_nat (currBlock t) = Some b ∧
      type (h b) = SFS_BLOCK_TYPE_FILE
}.

(** C10: on a valid open descriptor, [sfs_read(fd, buf, 0)] and
    [sfs_write(fd, buf, 0)] return 0, store nothing into the buffer, and
    leave the whole state - image, file size, descriptor position and
    block, free list - as it was. *)
Theorem zero_length_transfer s fd t :
  fd_valid s fd t →
  sfs_read fd 0 s = Ret (0, [], s) ∧ sfs_write fd [] s = Ret (0, s).
Proof.
  intros [Hfd Hslot (v & e & d & b & Hv & Hd & He & Hsz & Hpos & Hcb & Hb & Hty)].
  assert (Hid : set_openFileDescTable
                  (<[Z.to_nat fd := Some {| fileEntry := fileEntry t;
                       startBlock := startBlock t; currBlock := currBlock t;
                       currPos := currPos t |}]> (openFileDescTable s)) s = s).
  { rewrite list_insert_id; [apply set_openFileDescTable_id|]. rewrite Hslot. by destruct t. }
  assert (Hmin : ∀ a, sizeMin (u64 a) 0 = 0).
  { intros a. rewrite sizeMin_min. unfold u64.
    pose proof (Z.mod_pos_bound a (2 ^ 64) ltac:(done)). lia. }
  split.
  - unfold sfs_read. rewrite decide_False by (unfold OPEN_FILE_LIMIT in *; lia).
    rewrite Hslot. simpl. rewrite Hv. simpl. rewrite He. simpl.
    rewrite (assert_decide (currPos t ≤ size e)) by lia. simpl.
    unfold accessSuperBlock. rewrite Hd. simpl.
    rewrite (accessFileBlock_Ret _ _ _ Hb Hcb Hty). simpl.
    rewrite !Hmin. simpl. rewrite Z.add_0_r, (u64_small (currPos t)) by (pow_norm; lia).
    by rewrite Hid.
  - unfold sfs_write. rewrite decide_False by (unfold OPEN_FILE_LIMIT in *; lia).
    rewrite Hslot. simpl. rewrite Hv. simpl. rewrite He. simpl.
    rewrite (assert_decide (currPos t ≤ size e)) by lia. simpl.
    unfold accessSuperBlock. rewrite Hd. simpl.
    change (Z.of_nat 0 + currPos t) with (currPos t).
    change (Z.of_nat 0) with 0.
    rewrite (u64_small (currPos t)) by (pow_norm; lia).
    unfold write_grow. pose proof (roundUp_bounds (size e) ltac:(pow_norm; lia)) as [Hr _].
    rewrite decide_False by lia. simpl.
    rewrite (accessFileBlock_Ret _ _ _ Hb Hcb Hty). simpl.
    rewrite !Hmin. simpl. rewrite decide_False by lia. simpl.
    rewrite (set_disk_id _ _ Hd). by rewrite Hid.
Qed.

(** A volume with one file, open at descriptor 0. *)
Definition one_open : list call := [Format "d" 4096 IoOk; Open [x61] true true].

Definition after_open : state :=
  match run 4096 one_open (init_state ∅) with
  | Ret (_, s) => s
  | _ => init_state ∅
  end.

Definition desc0 : sfs_mem_filedesc_t :=
  {| fileEntry := 0; startBlock := 1; currBlock := 1; currPos := 0 |}.

(** Closed comparisons and equations, by evaluation. *)
Ltac by_eval :=
  vm_compute; repeat split;
  first [reflexivity | discriminate | (intros ?; discriminate)].

Lemma fd_valid_after_open : fd_valid after_open 0 desc0.
Proof.
  split.
  - by_eval.
  - by_eval.
  - eexists _, _, _, _.
    split; [by_eval|]. split; [by_eval|]. split; [by_eval|].
    split; [by_eval|]. split; [by_eval|]. split; [by_eval|].
    split; by_eval.
Defined.

Lemma zero_length_transfer_witness :
  sfs_read 0 0 after_open = Ret (0, [], after_open) ∧
  sfs_write 0 [] after_open = Ret (0, after_open).
Proof. apply (zero_length_transfer after_open 0 desc0). exact fd_valid_after_open. Defined.

(** ** Copying into and out of a chain *)

(** The data area of a block, and the bytes a chain holds. *)
Definition block_data (d : image) (x : Z) : list byte :=
  from_option data [] (blocks d !! Z.to_nat x).
Definition chain_data (d : image) (c : list Z) : list byte :=
  concat (block_data d <$> c).

(** Writing [buf] into a row of data areas, from offset [off] of the
    first one on. *)
Fixpoint write_blocks (dts : list (list byte)) (off : nat) (buf : list byte)
  : list (list byte) :=
  match dts with
  | [] => []
  | dt :: rest =>
      (take off dt ++ take (500 - off) buf
         ++ drop (off + length (take (500 - off) buf)) dt)
      :: write_blocks rest 0 (drop (500 - off) buf)
  end.

Lemma write_blocks_length dts : ∀ off buf,
  length (write_blocks dts off buf) = length dts.
Proof. induction dts as [|dt dts IH]; intros off buf; simpl; [done|]. by rewrite IH. Qed.

Lemma write_blocks_nil dts : ∀ off, write_blocks dts off [] = dts.
Proof.
  induction dts as [|dt dts IH]; intros off; simpl; [done|].
  rewrite take_nil, drop_nil, IH. simpl. rewrite Nat.add_0_r. by rewrite take_drop.
Qed.

Lemma write_blocks_sizes dts : ∀ off buf,
  Forall (λ dt, length dt = 500%nat) dts → (off ≤ 500)%nat →
  Forall (λ dt, length dt = 500%nat) (write_blocks dts off buf).
Proof.
  induction dts as [|dt dts IH]; intros off buf Hall Hoff; simpl; [constructor|].
  apply Forall_cons in Hall as [Hdt Hall]. constructor; [|apply IH; [done|lia]].
  rewrite !length_app, !length_take, length_drop, ?length_take. lia.
Qed.

Lemma write_blocks_concat dts : ∀ off buf,
  Forall (λ dt, length dt = 500%nat) dts → (off ≤ 500)%nat →
  (off + length buf ≤ 500 * length dts)%nat →
  concat (write_blocks dts off buf)
  = take off (concat dts) ++ buf ++ drop (off + length buf) (concat dts).
Proof.
  induction dts as [|dt dts IH]; intros off buf Hall Hoff Hlen; simpl in *.
  - assert (off = 0%nat) as -> by lia. destruct buf; [done|simpl in Hlen; lia].
  - apply Forall_cons in Hall as [Hdt Hall].
    rewrite take_app_le by lia.
    destruct (decide (length buf ≤ 500 - off)%nat) as [Hfit|Hmore].
    + rewrite (take_ge buf) by lia. rewrite (drop_ge buf) by lia.
      rewrite write_blocks_nil. rewrite drop_app_le by lia.
      by rewrite <- !app_assoc.
    + rewrite IH by (try done; try lia; rewrite length_drop; lia).
      rewrite length_take, length_drop.
      replace (off + length buf `min` (500 - off))%nat with 500%nat by lia.
      rewrite (drop_ge dt) by lia. simpl. rewrite app_nil_r.
      rewrite (drop_app_ge dt) by lia.
      replace (off + length buf - length dt)%nat with (0 + (length buf - (500 - off)))%nat
        by lia.
      rewrite <- !app_assoc. f_equal.
      rewrite (app_assoc (take (500 - off) buf)), take_drop. done.
Qed.

Lemma block_data_lookup d x b : blocks d !! Z.to_nat x = Some b → block_data d x = data b.
Proof. intros H. unfold block_data. by rewrite H. Qed.

Lemma set_data_id b : set_data (data b) b = b.
Proof. by destruct b. Qed.

Lemma store_id d x b : blocks d !! Z.to_nat x = Some b → store d x b = d.
Proof. intros H. unfold store. rewrite list_insert_id by done. by destruct d. Qed.

(** The blocks of [l] are FILE blocks with a full data area. *)
Definition file_blocks (d : image) (l : list Z) : Prop :=
  ∀ y, y ∈ l → ∃ b, blocks d !! Z.to_nat y = Some b ∧
                     type (h b) = SFS_BLOCK_TYPE_FILE ∧ length (data b) = 500%nat.

Lemma file_blocks_typed d l : file_blocks d l → typed d SFS_BLOCK_TYPE_FILE l.
Proof. intros H y Hy. destruct (H y Hy) as (b & ? & ? & ?). eauto. Qed.

Lemma file_blocks_sizes d l :
  file_blocks d l → Forall (λ dt, length dt = 500%nat) (block_data d <$> l).
Proof.
  intros H. apply Forall_fmap, Forall_forall. intros y Hy.
  destruct (H y Hy) as (b & Hb & _ & Hlen). simpl. by rewrite (block_data_lookup _ _ _ Hb).
Qed.

(** The block the copy loop stops in, counted from the block it starts
    in: [off] is the offset in that block, [len] the number of bytes. *)
Definition last_index (off len : Z) : nat :=
  if decide (len = 0) then O else Z.to_nat ((off + len - 1) / 500).

Lemma write_loop_unfold fuel d x bp ch tw buf fn :
  write_loop (S fuel) d (Some x) bp ch tw buf fn =
    '(d1, buf1, toWrite1) ←
      (if decide (ch > 0) then
         blk ← load d x;
         Ret (store d x (set_data (take (Z.to_nat bp) (data blk)
                                   ++ take (Z.to_nat ch) buf
                                   ++ drop (Z.to_nat (bp + ch)) (data blk)) blk),
              drop (Z.to_nat ch) buf, u64 (tw - ch))
       else Ret (d, buf, tw));
    if decide (toWrite1 = 0) then Ret (d1, Some x)
    else
      blk ← load d1 x;
      nextBlock ← accessFileBlock d1 (next_block (h blk));
      match nextBlock with
      | Some nb =>
          write_loop fuel d1 (Some nb) 0 (sizeMin BLOCK_DATA_SIZE toWrite1)
            toWrite1 buf1 fn
      | None =>
          _ ← assert (bool_decide (fn ≠ 0));
          nextBlock ← accessFileBlock d1 fn;
          match nextBlock with
          | None => Fault
          | Some nb =>
              blk' ← load d1 x;
              let d2 := store d1 x (set_next fn blk') in
              nblk ← load d2 nb;
              id ← idOfBlock (Some x);
              let d3 := store d2 nb (set_prev id nblk) in
              write_loop fuel d3 (Some nb) 0 (sizeMin BLOCK_DATA_SIZE toWrite1)
                toWrite1 buf1 0
          end
      end.
Proof. reflexivity. Qed.

(** The data area of the first block after one iteration. *)
Definition put_chunk (dt : list byte) (off : nat) (buf : list byte) : list byte :=
  take off dt ++ take (500 - off) buf ++ drop (off + length (take (500 - off) buf)) dt.

Lemma write_chunk d x b off buf :
  blocks d !! Z.to_nat x = Some b → length (data b) = 500%nat → 0 ≤ off ≤ 500 →
  Z.of_nat (length buf) < 2 ^ 63 →
  (if decide (Z.min (500 - off) (Z.of_nat (length buf)) > 0) then
     blk ← load d x;
     Ret (store d x (set_data (take (Z.to_nat (off mod 500)) (data blk)
                    ++ take (Z.to_nat (Z.min (500 - off) (Z.of_nat (length buf)))) buf
                    ++ drop (Z.to_nat (off mod 500 + Z.min (500 - off) (Z.of_nat (length buf))))
                         (data blk)) blk),
          drop (Z.to_nat (Z.min (500 - off) (Z.of_nat (length buf)))) buf,
          u64 (Z.of_nat (length buf) - Z.min (500 - off) (Z.of_nat (length buf))))
   else Ret (d, buf, Z.of_nat (length buf)))
  = Ret (store d x (set_data (put_chunk (data b) (Z.to_nat off) buf) b),
         drop (500 - Z.to_nat off) buf,
         Z.of_nat (length (drop (500 - Z.to_nat off) buf))).
Proof.
  intros Hb Hdt Hoff Hlen. unfold put_chunk. rewrite length_take, length_drop.
  destruct (decide _) as [Hch|Hch].
  - rewrite (proj2 (load_Ret _ _ _) Hb), bind_Ret.
    assert (off < 500) by lia. rewrite Z.mod_small by lia.
    rewrite u64_small by (pow_norm; lia).
    assert (Htake : take (Z.to_nat (Z.min (500 - off) (Z.of_nat (length buf)))) buf
                    = take (500 - Z.to_nat off) buf).
    { destruct (decide (Z.of_nat (length buf) ≤ 500 - off)).
      - rewrite !take_ge by lia. done.
      - f_equal. lia. }
    assert (Hdrop : drop (Z.to_nat (Z.min (500 - off) (Z.of_nat (length buf)))) buf
                    = drop (500 - Z.to_nat off) buf).
    { destruct (decide (Z.of_nat (length buf) ≤ 500 - off)).
      - rewrite !drop_ge by lia. done.
      - f_equal. lia. }
    rewrite Htake, Hdrop.
    replace (Z.to_nat (off + (500 - off) `min` Z.of_nat (length buf)))
      with (Z.to_nat off + (500 - Z.to_nat off) `min` length buf)%nat by lia.
    do 3 f_equal. lia.
  - assert (Hcase : off = 500 ∨ buf = []).
    { destruct buf; [by right|]. simpl in Hch. left. lia. }
    destruct Hcase as [-> | ->].
    + change (Z.to_nat 500) with 500%nat. replace (500 - 500)%nat with 0%nat by lia.
      rewrite take_0, drop_0, Nat.min_0_l, Nat.add_0_r. simpl.
      rewrite take_ge, drop_ge by lia. rewrite app_nil_r, Nat.sub_0_r.
      rewrite set_data_id. by rewrite store_id.
    + rewrite take_nil, drop_nil. simpl. rewrite Nat.min_0_r, Nat.add_0_r, take_drop.
      rewrite set_data_id. by rewrite store_id.
Qed.

Lemma block_data_store_ne d x y b :
  Z.to_nat x ≠ Z.to_nat y → block_data (store d x b) y = block_data d y.
Proof. intros Hne. unfold block_data. simpl. by rewrite list_lookup_insert_ne. Qed.

Lemma block_data_fmap_ext d d' (l : list Z) :
  (∀ y, y ∈ l → blocks d' !! Z.to_nat y = blocks d !! Z.to_nat y) →
  block_data d' <$> l = block_data d <$> l.
Proof.
  intros H. apply list_fmap_ext. intros i y Hy. unfold block_data.
  rewrite H; [done|]. by eapply list_elem_of_lookup_2.
Qed.

Lemma file_blocks_ext d d' l :
  (∀ y b, y ∈ l → blocks d !! Z.to_nat y = Some b →
     ∃ b', blocks d' !! Z.to_nat y = Some b' ∧ type (h b') = type (h b)
           ∧ length (data b') = length (data b)) →
  file_blocks d l → file_blocks d' l.
Proof.
  intros Hext Hfb y Hy. destruct (Hfb y Hy) as (b & Hb & Hty & Hlen).
  destruct (Hext y b Hy Hb) as (b' & Hb' & Hty' & Hlen'). exists b'.
  split; [done|]. split; congruence.
Qed.

Lemma last_index_first off len :
  0 ≤ off ≤ 500 → 0 ≤ len ≤ 500 - off → last_index off len = O.
Proof. intros Hoff Hlen. unfold last_index. case_decide; [done|]. dlia. Qed.

Lemma last_index_next off len :
  0 ≤ off ≤ 500 → 500 - off < len →
  last_index off len = S (last_index 0 (len - (500 - off))).
Proof.
  intros Hoff Hlen. unfold last_index. rewrite !decide_False by lia.
  replace (off + len - 1) with (1 * 500 + (0 + (len - (500 - off)) - 1)) by lia.
  rewrite Z.div_add_l by lia.
  assert (0 ≤ (0 + (len - (500 - off)) - 1) / 500) by dlia. lia.
Qed.

Lemma put_chunk_length dt off buf :
  length dt = 500%nat → (off ≤ 500)%nat → length (put_chunk dt off buf) = 500%nat.
Proof.
  intros Hdt Hoff. unfold put_chunk.
  rewrite !length_app, !length_take, length_drop, ?length_take. lia.
Qed.

(** The copy loop of [sfs_write] when the bytes fit into the blocks the
    file already has, from block [x] on. *)
Lemma write_loop_inplace rc : ∀ d x off buf fn fuel,
  seg d x (x :: rc) 0 → file_blocks d (x :: rc) →
  0 ≤ off ≤ 500 →
  Z.of_nat (length buf) ≤ (500 - off) + 500 * Z.of_nat (length rc) →
  Z.of_nat (length buf) < 2 ^ 63 →
  (last_index off (Z.of_nat (length buf)) < fuel)%nat →
  ∃ d' r,
    write_loop fuel d (Some x) (off mod 500)
      (Z.min (500 - off) (Z.of_nat (length buf))) (Z.of_nat (length buf)) buf fn
      = Ret (d', Some r) ∧
    (x :: rc) !! last_index off (Z.of_nat (length buf)) = Some r ∧
    block_data d' <$> (x :: rc)
      = write_blocks (block_data d <$> (x :: rc)) (Z.to_nat off) buf ∧
    super d' = super d ∧ length (blocks d') = length (blocks d) ∧
    (∀ i, (∀ y, y ∈ x :: rc → Z.to_nat y ≠ i) → blocks d' !! i = blocks d !! i) ∧
    (∀ i b, blocks d !! i = Some b →
       ∃ b', blocks d' !! i = Some b' ∧ h b' = h b ∧ length (data b') = length (data b)).
Proof.
  induction rc as [|y rc IH]; intros d x off buf fn fuel Hseg Hfb Hoff Hcap Hlen Hfuel.
  - destruct fuel as [|fuel]; [lia|]. rewrite write_loop_unfold.
    destruct (Hfb x ltac:(left)) as (b & Hb & Hty & Hdt).
    rewrite (write_chunk d x b off buf Hb Hdt Hoff Hlen), bind_Ret.
    simpl in Hcap. rewrite length_drop. rewrite decide_True by lia.
    eexists _, x. split; [done|]. split; [by rewrite last_index_first by lia|].
    split; [|split; [done|split; [by rewrite length_store|split]]].
    + change (write_blocks (block_data d <$> [x]) (Z.to_nat off) buf)
        with [put_chunk (block_data d x) (Z.to_nat off) buf].
      change (block_data ?d' <$> [x]) with [block_data d' x]. f_equal.
      unfold block_data at 1. simpl.
      rewrite list_lookup_insert_eq by (by apply lookup_lt_Some in Hb).
      simpl. by rewrite (block_data_lookup _ _ _ Hb).
    + intros i Hi. simpl. rewrite list_lookup_insert_ne; [done|]. apply Hi. by left.
    + intros i b0 Hb0. simpl. destruct (decide (i = Z.to_nat x)) as [->|Hne].
      * rewrite list_lookup_insert_eq by (by apply lookup_lt_Some in Hb).
        rewrite Hb in Hb0. inversion Hb0; subst b0. eexists. split; [done|].
        split; [done|]. simpl. rewrite put_chunk_length; [done|done|lia].
      * rewrite list_lookup_insert_ne by done. eauto.
  - pose proof (chain_NoDup _ _ _ Hseg) as Hnd. apply NoDup_cons in Hnd as [Hxl Hnd].
    pose proof (λ z, seg_pos _ _ _ _ z Hseg) as Hpos.
    destruct Hseg as (_ & Hx & b' & Hb' & Hseg).
    destruct (Hfb x ltac:(left)) as (b & Hb & Hty & Hdt).
    rewrite Hb in Hb'. inversion Hb'; subst b'; clear Hb'.
    pose proof Hseg as (Hy & Hy0 & by' & Hby & Hsegy).
    assert (Hxy : Z.to_nat x ≠ Z.to_nat y).
    { intros Heq. apply Hxl. apply to_nat_inj_pos in Heq; [subst; by left|done|done]. }
    set (d1 := store d x (set_data (put_chunk (data b) (Z.to_nat off) buf) b)).
    assert (Hsame : ∀ z, z ∈ y :: rc → blocks d1 !! Z.to_nat z = blocks d !! Z.to_nat z).
    { intros z Hz. unfold d1. simpl. rewrite list_lookup_insert_ne; [done|].
      intros Heq. apply Hxl. apply to_nat_inj_pos in Heq; [by subst|done|by apply Hpos; right]. }
    destruct fuel as [|fuel]; [lia|]. rewrite write_loop_unfold.
    rewrite (write_chunk d x b off buf Hb Hdt Hoff Hlen), bind_Ret. fold d1.
    rewrite length_drop.
    destruct (decide (Z.of_nat (length buf - (500 - Z.to_nat off)) = 0)) as [Hdone|Hmore].
    + eexists _, x. split; [done|]. split; [by rewrite last_index_first by lia|].
      split; [|split; [done|split; [by unfold d1; rewrite length_store|split]]].
      * rewrite fmap_cons, (fmap_cons _ x).
        change (write_blocks (block_data d x :: (block_data d <$> y :: rc)) (Z.to_nat off) buf)
          with (put_chunk (block_data d x) (Z.to_nat off) buf
                :: write_blocks (block_data d <$> y :: rc) 0 (drop (500 - Z.to_nat off) buf)).
        assert (drop (500 - Z.to_nat off) buf = []) as ->.
        { apply nil_length_inv. rewrite length_drop. lia. }
        rewrite write_blocks_nil. f_equal.
        -- unfold block_data at 1. unfold d1. simpl.
           rewrite list_lookup_insert_eq by (by apply lookup_lt_Some in Hb).
           simpl. by rewrite (block_data_lookup _ _ _ Hb).
        -- by apply block_data_fmap_ext.
      * intros i Hi. unfold d1. simpl. rewrite list_lookup_insert_ne; [done|].
        apply Hi. by left.
      * intros i b0 Hb0. unfold d1. simpl. destruct (decide (i = Z.to_nat x)) as [->|Hne].
        -- rewrite list_lookup_insert_eq by (by apply lookup_lt_Some in Hb).
           rewrite Hb in Hb0. inversion Hb0; subst b0. eexists. split; [done|].
           split; [done|]. simpl. rewrite put_chunk_length; [done|done|lia].
        -- rewrite list_lookup_insert_ne by done. eauto.
    + assert (Hld : load d1 x = Ret (set_data (put_chunk (data b) (Z.to_nat off) buf) b)).
      { unfold d1. apply load_store_eq. by apply lookup_lt_Some in Hb. }
      rewrite Hld, bind_Ret. simpl next_block. rewrite Hy.
      destruct (Hfb y ltac:(right; left)) as (by2 & Hby2 & Hyty & Hydt).
      rewrite (accessFileBlock_Ret d1 y by2); [|by rewrite Hsame by (by left)|done|done].
      rewrite bind_Ret.
      set (buf1 := drop (500 - Z.to_nat off) buf).
      assert (Hlen1 : Z.of_nat (length buf1) = Z.of_nat (length buf) - (500 - off)).
      { unfold buf1. rewrite length_drop. lia. }
      destruct (IH d1 y 0 buf1 fn fuel) as (d' & r & Hrun & Hr & Hdata & Hsup & Hlen' & Hout & Hhdr).
      { rewrite Hy in Hseg. eapply seg_same; [|exact Hseg]. done. }
      { eapply file_blocks_ext; [|intros z Hz; apply Hfb; by right].
        intros z bz Hz Hbz. exists bz. by rewrite Hsame. }
      { lia. }
      { simpl in Hcap. lia. }
      { lia. }
      { rewrite Hlen1. rewrite (last_index_next off) in Hfuel by lia. lia. }
      change (0 mod 500) with 0 in Hrun. rewrite Z.sub_0_r in Hrun.
      replace (Z.of_nat (length buf - (500 - Z.to_nat off))) with (Z.of_nat (length buf1))
        by (unfold buf1; by rewrite length_drop).
      rewrite sizeMin_min. unfold BLOCK_DATA_SIZE. rewrite Hrun.
      exists d', r. split; [done|]. split.
      { rewrite (last_index_next off) by lia. simpl. by rewrite <- Hlen1. }
      split; [|split; [by rewrite Hsup|split; [by rewrite Hlen'; unfold d1; rewrite length_store|split]]].
      * rewrite fmap_cons, (fmap_cons _ x).
        change (write_blocks (block_data d x :: (block_data d <$> y :: rc)) (Z.to_nat off) buf)
          with (put_chunk (block_data d x) (Z.to_nat off) buf
                :: write_blocks (block_data d <$> y :: rc) 0 buf1).
        f_equal.
        -- unfold block_data at 1. rewrite Hout.
           ++ unfold d1. simpl. rewrite list_lookup_insert_eq by (by apply lookup_lt_Some in Hb).
              simpl. by rewrite (block_data_lookup _ _ _ Hb).
           ++ intros z Hz Heq. apply Hxl.
              apply to_nat_inj_pos in Heq; [by subst|by apply Hpos; right|done].
        -- rewrite Hdata. change (Z.to_nat 0) with O. f_equal.
           by apply block_data_fmap_ext.
      * intros i Hi. rewrite Hout by (intros z Hz; apply Hi; by right).
        unfold d1. simpl. rewrite list_lookup_insert_ne; [done|]. apply Hi. by left.
      * intros i b0 Hb0. destruct (decide (i = Z.to_nat x)) as [->|Hne].
        -- destruct (Hhdr (Z.to_nat x) (set_data (put_chunk (data b) (Z.to_nat off) buf) b))
             as (b2 & Hb2 & Hh2 & Hl2).
           { unfold d1. simpl. apply list_lookup_insert_eq. by apply lookup_lt_Some in Hb. }
           rewrite Hb in Hb0. inversion Hb0; subst b0. exists b2. split; [done|].
           split; [done|]. rewrite Hl2. simpl. rewrite put_chunk_length; [done|done|lia].
        -- apply Hhdr. unfold d1. simpl. by rewrite list_lookup_insert_ne.
Qed.

Lemma seg_hdr d d' l id t :
  (∀ i b, blocks d !! i = Some b → ∃ b', blocks d' !! i = Some b' ∧ h b' = h b) →
  seg d id l t → seg d' id l t.
Proof.
  intros Hh. apply seg_ext. intros x Hx b Hb.
  destruct (Hh _ _ Hb) as (b' & Hb' & Heq). exists b'. by rewrite Heq.
Qed.

(** The copy loop of [sfs_write] when the bytes run past the last block
    [x :: rc] of the file: the new chain [fn :: nl] is attached there. *)
Lemma write_loop_grow rc : ∀ d x off buf fn nl fuel,
  seg d x (x :: rc) 0 → chain d fn (fn :: nl) →
  file_blocks d (x :: rc ++ fn :: nl) → NoDup (x :: rc ++ fn :: nl) →
  0 ≤ off ≤ 500 →
  (500 - off) + 500 * Z.of_nat (length rc) < Z.of_nat (length buf) →
  Z.of_nat (length buf) ≤ (500 - off) + 500 * Z.of_nat (length rc + S (length nl)) →
  Z.of_nat (length buf) < 2 ^ 63 →
  (last_index off (Z.of_nat (length buf)) < fuel)%nat →
  ∃ d' r,
    write_loop fuel d (Some x) (off mod 500)
      (Z.min (500 - off) (Z.of_nat (length buf))) (Z.of_nat (length buf)) buf fn
      = Ret (d', Some r) ∧
    (x :: rc ++ fn :: nl) !! last_index off (Z.of_nat (length buf)) = Some r ∧
    seg d' x (x :: rc ++ fn :: nl) 0 ∧
    block_data d' <$> (x :: rc ++ fn :: nl)
      = write_blocks (block_data d <$> (x :: rc ++ fn :: nl)) (Z.to_nat off) buf ∧
    super d' = super d ∧ length (blocks d') = length (blocks d) ∧
    (∀ i, (∀ y, y ∈ x :: rc ++ fn :: nl → Z.to_nat y ≠ i) → blocks d' !! i = blocks d !! i) ∧
    (∀ i b, blocks d !! i = Some b →
       ∃ b', blocks d' !! i = Some b' ∧ type (h b') = type (h b) ∧
             length (data b') = length (data b)).
Proof.
  induction rc as [|y rc IH];
    intros d x off buf fn nl fuel Hseg Hnew Hfb Hnd Hoff Hmore Hcap Hlen Hfuel.
  - change ([] ++ fn :: nl) with (fn :: nl) in *. simpl in Hmore, Hcap.
    apply NoDup_cons in Hnd as [Hxl Hnd].
    destruct Hseg as (_ & Hx & b' & Hb' & Hnext). simpl in Hnext.
    destruct (Hfb x ltac:(left)) as (b & Hb & Hty & Hdt).
    rewrite Hb in Hb'. inversion Hb'; subst b'; clear Hb'.
    pose proof (λ z, seg_pos _ _ _ _ z Hnew) as Hpos.
    assert (Hf0 : 0 < fn) by (apply Hpos; by left).
    assert (Hxf : Z.to_nat x ≠ Z.to_nat fn).
    { intros Heq. apply Hxl. apply to_nat_inj_pos in Heq; [subst; by left|done|done]. }
    destruct (Hfb fn ltac:(right; left)) as (bf & Hbf & Hfty & Hfdt).
    set (d1 := store d x (set_data (put_chunk (data b) (Z.to_nat off) buf) b)).
    destruct fuel as [|fuel]; [lia|]. rewrite write_loop_unfold.
    rewrite (write_chunk d x b off buf Hb Hdt Hoff Hlen), bind_Ret. fold d1.
    rewrite length_drop. rewrite decide_False by lia.
    assert (Hld : load d1 x = Ret (set_data (put_chunk (data b) (Z.to_nat off) buf) b)).
    { unfold d1. apply load_store_eq. by apply lookup_lt_Some in Hb. }
    rewrite Hld, bind_Ret. simpl next_block. rewrite Hnext.
    rewrite accessFileBlock_null, bind_Ret.
    2:{ unfold d1. simpl. intros Hnil. apply (f_equal length) in Hnil.
        rewrite length_insert in Hnil. apply lookup_lt_Some in Hb. simpl in Hnil. lia. }
    rewrite assert_decide by lia. rewrite bind_Ret.
    rewrite (accessFileBlock_Ret d1 fn bf);
      [|by unfold d1; simpl; rewrite list_lookup_insert_ne|done|done].
    rewrite !bind_Ret.
    set (bx := set_next fn (set_data (put_chunk (data b) (Z.to_nat off) buf) b)).
    assert (Hldf : load (store d1 x bx) fn = Ret bf).
    { rewrite load_store_ne by done. unfold d1. rewrite load_store_ne by done.
      by apply load_Ret. }
    cbv zeta. rewrite Hldf, bind_Ret. simpl idOfBlock. rewrite bind_Ret.
    set (d3 := store (store d1 x bx) fn (set_prev x bf)).
    set (buf1 := drop (500 - Z.to_nat off) buf).
    assert (Hlen1 : Z.of_nat (length buf1) = Z.of_nat (length buf) - (500 - off)).
    { unfold buf1. rewrite length_drop. lia. }
    assert (Hd3x : blocks d3 !! Z.to_nat x = Some bx).
    { unfold d3, d1. simpl. rewrite list_lookup_insert_ne by done.
      apply list_lookup_insert_eq. rewrite length_insert. by apply lookup_lt_Some in Hb. }
    assert (Hd3f : blocks d3 !! Z.to_nat fn = Some (set_prev x bf)).
    { unfold d3, d1. simpl. apply list_lookup_insert_eq. rewrite !length_insert.
      by apply lookup_lt_Some in Hbf. }
    assert (Hd3o : ∀ i, i ≠ Z.to_nat x → i ≠ Z.to_nat fn → blocks d3 !! i = blocks d !! i).
    { intros i H1 H2. unfold d3, d1. simpl. by rewrite !list_lookup_insert_ne. }
    assert (Hfnl : fn ∉ nl).
    { apply NoDup_cons in Hnd as [H _]. done. }
    assert (Hxnl : x ∉ nl) by (intros Hin; apply Hxl; by right).
    assert (Hnlx : ∀ z, z ∈ nl → Z.to_nat z ≠ Z.to_nat x ∧ Z.to_nat z ≠ Z.to_nat fn).
    { intros z Hz. assert (0 < z) by (apply Hpos; by right). split; intros Heq.
      - apply to_nat_inj_pos in Heq; [by subst|done|done].
      - apply to_nat_inj_pos in Heq; [by subst|done|done]. }
    destruct (write_loop_inplace nl d3 fn 0 buf1 0 fuel)
      as (d' & r & Hrun & Hr & Hdata & Hsup & Hlen' & Hout & Hhdr).
    { destruct Hnew as (_ & _ & bf' & Hbf' & Hnew). rewrite Hbf in Hbf'.
      inversion Hbf'; subst bf'. simpl. split; [done|]. split; [done|].
      eexists. split; [exact Hd3f|]. simpl.
      eapply seg_same; [|exact Hnew]. intros z Hz. destruct (Hnlx z Hz). by apply Hd3o. }
    { intros z Hz. apply elem_of_cons in Hz as [->|Hz].
      - eexists. split; [exact Hd3f|]. done.
      - destruct (Hfb z ltac:(right; right; done)) as (bz & Hbz & ?).
        exists bz. split; [|done]. destruct (Hnlx z Hz). by rewrite Hd3o. }
    { lia. }
    { lia. }
    { lia. }
    { rewrite Hlen1. rewrite (last_index_next off) in Hfuel by lia. lia. }
    change (0 mod 500) with 0 in Hrun. rewrite Z.sub_0_r in Hrun.
    replace (Z.of_nat (length buf - (500 - Z.to_nat off))) with (Z.of_nat (length buf1))
      by (unfold buf1; by rewrite length_drop).
    rewrite sizeMin_min. unfold BLOCK_DATA_SIZE. fold d3. rewrite Hrun.
    exists d', r. split; [done|]. split.
    { rewrite (last_index_next off) by lia. simpl. by rewrite <- Hlen1. }
    assert (Hd'x : blocks d' !! Z.to_nat x = Some bx).
    { rewrite Hout; [done|]. intros z Hz Heq. apply elem_of_cons in Hz as [->|Hz].
      - by apply Hxf.
      - by destruct (Hnlx z Hz). }
    split; [|split; [|split; [by rewrite Hsup|split;
          [by rewrite Hlen'; unfold d3, d1; rewrite !length_store|split]]]].
    + simpl. split; [done|]. split; [done|]. eexists. split; [exact Hd'x|]. simpl.
      apply (seg_hdr d3 d' (fn :: nl) fn 0); [|split; [done|split; [done|]]].
      * intros i b0 Hb0. destruct (Hhdr i b0 Hb0) as (b2 & ? & ? & ?). eauto.
      * destruct Hnew as (_ & _ & bf' & Hbf' & Hnew). rewrite Hbf in Hbf'.
        inversion Hbf'; subst bf'. eexists. split; [exact Hd3f|]. simpl.
        eapply seg_same; [|exact Hnew]. intros z Hz. destruct (Hnlx z Hz). by apply Hd3o.
    + rewrite fmap_cons, (fmap_cons _ x).
      change (write_blocks (block_data d x :: (block_data d <$> fn :: nl)) (Z.to_nat off) buf)
        with (put_chunk (block_data d x) (Z.to_nat off) buf
              :: write_blocks (block_data d <$> fn :: nl) 0 buf1).
      f_equal.
      * unfold block_data at 1. rewrite Hd'x. simpl. by rewrite (block_data_lookup _ _ _ Hb).
      * rewrite Hdata. change (Z.to_nat 0) with O. f_equal.
        rewrite !fmap_cons. f_equal.
        -- unfold block_data. by rewrite Hd3f, Hbf.
        -- apply block_data_fmap_ext. intros z Hz. destruct (Hnlx z Hz). by apply Hd3o.
    + intros i Hi. rewrite Hout by (intros z Hz; apply Hi; by right).
      apply Hd3o.
      * intros ->. apply (Hi x); [by left|done].
      * intros ->. apply (Hi fn); [by right; left|done].
    + intros i b0 Hb0.
      assert (∃ b3, blocks d3 !! i = Some b3 ∧ type (h b3) = type (h b0)
                    ∧ length (data b3) = length (data b0)) as (b3 & Hb3 & Ht3 & Hl3).
      { destruct (decide (i = Z.to_nat x)) as [->|Hnx].
        - rewrite Hb in Hb0. inversion Hb0; subst b0. exists bx. split; [done|].
          split; [done|]. simpl. rewrite put_chunk_length; [done|done|lia].
        - destruct (decide (i = Z.to_nat fn)) as [->|Hnf].
          + rewrite Hbf in Hb0. inversion Hb0; subst b0. eexists. split; [exact Hd3f|]. done.
          + exists b0. by rewrite Hd3o. }
      destruct (Hhdr i b3 Hb3) as (b4 & Hb4 & Hh4 & Hl4). exists b4.
      split; [done|]. split; congruence.
  - change ((y :: rc) ++ fn :: nl) with (y :: rc ++ fn :: nl) in *.
    pose proof Hnd as Hnd0. apply NoDup_cons in Hnd as [Hxl Hnd].
    assert (Hpos : ∀ z, z ∈ x :: y :: rc ++ fn :: nl → 0 < z).
    { intros z Hz. destruct (Hfb z Hz) as (bz & Hbz & _).
      change (x :: y :: rc ++ fn :: nl) with ((x :: y :: rc) ++ fn :: nl) in Hz.
      apply elem_of_app in Hz as [Hz|Hz].
      - exact (seg_pos _ _ _ _ _ Hseg Hz).
      - exact (seg_pos _ _ _ _ _ Hnew Hz). }
    destruct Hseg as (_ & Hx & b' & Hb' & Hseg).
    destruct (Hfb x ltac:(left)) as (b & Hb & Hty & Hdt).
    rewrite Hb in Hb'. inversion Hb'; subst b'; clear Hb'.
    pose proof Hseg as (Hy & Hy0 & by' & Hby & Hsegy).
    assert (Hxy : Z.to_nat x ≠ Z.to_nat y).
    { intros Heq. apply Hxl. apply to_nat_inj_pos in Heq; [subst; by left|done|done]. }
    set (d1 := store d x (set_data (put_chunk (data b) (Z.to_nat off) buf) b)).
    assert (Hsame : ∀ z, z ∈ y :: rc ++ fn :: nl →
                      blocks d1 !! Z.to_nat z = blocks d !! Z.to_nat z).
    { intros z Hz. unfold d1. simpl. rewrite list_lookup_insert_ne; [done|].
      intros Heq. apply Hxl.
      apply to_nat_inj_pos in Heq; [by subst|done|by apply Hpos; right]. }
    destruct fuel as [|fuel]; [lia|]. rewrite write_loop_unfold.
    rewrite (write_chunk d x b off buf Hb Hdt Hoff Hlen), bind_Ret. fold d1.
    rewrite length_drop. simpl in Hmore, Hcap. rewrite decide_False by lia.
    assert (Hld : load d1 x = Ret (set_data (put_chunk (data b) (Z.to_nat off) buf) b)).
    { unfold d1. apply load_store_eq. by apply lookup_lt_Some in Hb. }
    rewrite Hld, bind_Ret. simpl next_block. rewrite Hy.
    destruct (Hfb y ltac:(right; left)) as (by2 & Hby2 & Hyty & Hydt).
    rewrite (accessFileBlock_Ret d1 y by2); [|by rewrite Hsame by (by left)|done|done].
    rewrite bind_Ret.
    set (buf1 := drop (500 - Z.to_nat off) buf).
    assert (Hlen1 : Z.of_nat (length buf1) = Z.of_nat (length buf) - (500 - off)).
    { unfold buf1. rewrite length_drop. lia. }
    destruct (IH d1 y 0 buf1 fn nl fuel)
      as (d' & r & Hrun & Hr & Hseg' & Hdata & Hsup & Hlen' & Hout & Hhdr).
    { rewrite Hy in Hseg. eapply seg_same; [|exact Hseg].
      intros z Hz. apply Hsame. change (z ∈ (y :: rc) ++ fn :: nl).
      apply elem_of_app. by left. }
    { eapply seg_same; [|exact Hnew]. intros z Hz. apply Hsame.
      right. apply elem_of_app. by right. }
    { eapply file_blocks_ext; [|intros z Hz; apply Hfb; by right].
      intros z bz Hz Hbz. exists bz. by rewrite Hsame. }
    { done. }
    { lia. }
    { lia. }
    { lia. }
    { lia. }
    { rewrite Hlen1. rewrite (last_index_next off) in Hfuel by lia. lia. }
    change (0 mod 500) with 0 in Hrun. rewrite Z.sub_0_r in Hrun.
    replace (Z.of_nat (length buf - (500 - Z.to_nat off))) with (Z.of_nat (length buf1))
      by (unfold buf1; by rewrite length_drop).
    rewrite sizeMin_min. unfold BLOCK_DATA_SIZE. rewrite Hrun.
    exists d', r. split; [done|]. split.
    { rewrite (last_index_next off) by lia. simpl. by rewrite <- Hlen1. }
    assert (Hd'x : blocks d' !! Z.to_nat x
                   = Some (set_data (put_chunk (data b) (Z.to_nat off) buf) b)).
    { rewrite Hout.
      - unfold d1. simpl. apply list_lookup_insert_eq. by apply lookup_lt_Some in Hb.
      - intros z Hz Heq. apply Hxl.
        apply to_nat_inj_pos in Heq; [by subst|by apply Hpos; right|done]. }
    split; [|split; [|split; [by rewrite Hsup|split;
          [by rewrite Hlen'; unfold d1; rewrite length_store|split]]]].
    + simpl. split; [done|]. split; [done|]. eexists. split; [exact Hd'x|].
      simpl. by rewrite Hy.
    + rewrite fmap_cons, (fmap_cons _ x).
      change (write_blocks (block_data d x :: (block_data d <$> y :: rc ++ fn :: nl))
                (Z.to_nat off) buf)
        with (put_chunk (block_data d x) (Z.to_nat off) buf
              :: write_blocks (block_data d <$> y :: rc ++ fn :: nl) 0 buf1).
      f_equal.
      * unfold block_data at 1. rewrite Hd'x. simpl. by rewrite (block_data_lookup _ _ _ Hb).
      * rewrite Hdata. change (Z.to_nat 0) with O. f_equal.
        by apply block_data_fmap_ext.
    + intros i Hi. rewrite Hout by (intros z Hz; apply Hi; by right).
      unfold d1. simpl. rewrite list_lookup_insert_ne; [done|]. apply Hi. by left.
    + intros i b0 Hb0. destruct (decide (i = Z.to_nat x)) as [->|Hne].
      * rewrite Hb in Hb0. inversion Hb0; subst b0. eexists. split; [exact Hd'x|].
        split; [done|]. simpl. rewrite put_chunk_length; [done|done|lia].
      * apply Hhdr. unfold d1. simpl. by rewrite list_lookup_insert_ne.
Qed.

Lemma read_loop_unfold fuel d x bp ch tr buf :
  read_loop (S fuel) d (Some x) bp ch tr buf =
    '(buf1, toRead1) ←
      (if decide (ch > 0) then
         blk ← load d x;
         Ret (buf ++ take (Z.to_nat ch) (drop (Z.to_nat bp) (data blk)), u64 (tr - ch))
       else Ret (buf, tr));
    if decide (toRead1 = 0) then Ret (buf1, Some x)
    else
      blk ← load d x;
      nb ← accessFileBlock d (next_block (h blk));
      _ ← assert (bool_decide (nb ≠ None));
      read_loop fuel d nb 0 (sizeMin BLOCK_DATA_SIZE toRead1) toRead1 buf1.
Proof. reflexivity. Qed.

(** The copy loop of [sfs_read]: [len] bytes from offset [off] of block
    [x] on. *)
Lemma read_loop_spec rc : ∀ d x off len acc fuel,
  seg d x (x :: rc) 0 → file_blocks d (x :: rc) →
  0 ≤ off ≤ 500 → 0 ≤ len ≤ (500 - off) + 500 * Z.of_nat (length rc) →
  len < 2 ^ 63 → (last_index off len < fuel)%nat →
  ∃ r,
    read_loop fuel d (Some x) (off mod 500) (Z.min (500 - off) len) len acc
      = Ret (acc ++ take (Z.to_nat len)
                      (drop (Z.to_nat off) (chain_data d (x :: rc))), Some r) ∧
    (x :: rc) !! last_index off len = Some r.
Proof.
  induction rc as [|y rc IH]; intros d x off len acc fuel Hseg Hfb Hoff Hlen Hlt Hfuel.
  - destruct fuel as [|fuel]; [lia|]. rewrite read_loop_unfold.
    destruct (Hfb x ltac:(left)) as (b & Hb & Hty & Hdt).
    simpl in Hlen. unfold chain_data. simpl. rewrite app_nil_r.
    rewrite (block_data_lookup _ _ _ Hb).
    exists x. split; [|by rewrite last_index_first by lia].
    destruct (decide (Z.min (500 - off) len > 0)) as [Hch|Hch].
    + rewrite (proj2 (load_Ret _ _ _) Hb), !bind_Ret.
      rewrite Z.mod_small by lia. rewrite u64_small by (pow_norm; lia).
      rewrite decide_True by lia. do 4 f_equal. lia.
    + rewrite bind_Ret. rewrite decide_True by lia.
      assert (Hcase : off = 500 ∨ len = 0) by lia.
      destruct Hcase as [-> | ->].
      * rewrite drop_ge by lia. by rewrite take_nil, app_nil_r.
      * by rewrite take_0, app_nil_r.
  - pose proof (chain_NoDup _ _ _ Hseg) as Hnd. apply NoDup_cons in Hnd as [Hxl Hnd].
    pose proof Hseg as (_ & Hx & b' & Hb' & Hseg').
    destruct (Hfb x ltac:(left)) as (b & Hb & Hty & Hdt).
    rewrite Hb in Hb'. inversion Hb'; subst b'; clear Hb'.
    pose proof Hseg' as (Hy & Hy0 & by' & Hby & Hsegy).
    destruct fuel as [|fuel]; [lia|]. rewrite read_loop_unfold.
    unfold chain_data. rewrite fmap_cons. simpl concat.
    rewrite (block_data_lookup _ _ _ Hb). simpl in Hlen.
    assert (Hchunk :
      (if decide (Z.min (500 - off) len > 0) then
         blk ← load d x;
         Ret (acc ++ take (Z.to_nat (Z.min (500 - off) len))
                       (drop (Z.to_nat (off mod 500)) (data blk)),
              u64 (len - Z.min (500 - off) len))
       else Ret (acc, len))
      = Ret (acc ++ take (Z.to_nat (Z.min (500 - off) len)) (drop (Z.to_nat off) (data b)),
             len - Z.min (500 - off) len)).
    { destruct (decide _) as [Hch|Hch].
      - rewrite (proj2 (load_Ret _ _ _) Hb), !bind_Ret.
        rewrite Z.mod_small by lia. by rewrite u64_small by (pow_norm; lia).
      - assert (Hcase : off = 500 ∨ len = 0) by lia.
        destruct Hcase as [-> | ->].
        + rewrite drop_ge by lia. rewrite take_nil, app_nil_r. do 2 f_equal. lia.
        + replace (Z.min (500 - off) 0) with 0 by lia.
          rewrite take_0, app_nil_r. done. }
    rewrite Hchunk, bind_Ret.
    destruct (decide (len - Z.min (500 - off) len = 0)) as [Hdone|Hmore].
    + exists x. split; [|by rewrite last_index_first by lia].
      do 3 f_equal. rewrite drop_app_le by lia. rewrite take_app_le; [f_equal; lia|].
      rewrite length_drop. lia.
    + rewrite (proj2 (load_Ret _ _ _) Hb), bind_Ret. rewrite Hy.
      destruct (Hfb y ltac:(right; left)) as (by2 & Hby2 & Hyty & Hydt).
      rewrite (accessFileBlock_Ret d y by2) by done. rewrite bind_Ret.
      rewrite assert_decide by done. rewrite bind_Ret.
      replace (Z.min (500 - off) len) with (500 - off) by lia.
      destruct (IH d y 0 (len - (500 - off))
                  (acc ++ take (Z.to_nat (500 - off)) (drop (Z.to_nat off) (data b))) fuel)
        as (r & Hrun & Hr).
      { by rewrite Hy in Hseg'. }
      { intros z Hz. apply Hfb. by right. }
      { lia. }
      { lia. }
      { lia. }
      { rewrite (last_index_next off) in Hfuel by lia. lia. }
      change (0 mod 500) with 0 in Hrun. rewrite Z.sub_0_r in Hrun.
      rewrite sizeMin_min. unfold BLOCK_DATA_SIZE. rewrite Hrun.
      exists r. split.
      * do 2 f_equal. rewrite <- app_assoc. f_equal.
        change (Z.to_nat 0) with O. rewrite drop_0.
        rewrite drop_app_le by lia. rewrite take_app_ge by (rewrite length_drop; lia).
        rewrite length_drop. rewrite (take_ge (drop _ (data b))) by (rewrite length_drop; lia).
        f_equal. unfold chain_data. f_equal. lia.
      * rewrite (last_index_next off) by lia. done.
Qed.

(** ** Well-formed volumes *)

(** [fl] is the free list of the image and [cl !! i] the chain of the
    file in directory slot [i] (empty for an unused slot): every list is
    a chain of blocks of the right type, no block is on two lists, and
    each file has exactly the blocks its size needs. *)
Record wf_image (d : image) (fl : list Z) (cl : list (list Z)) : Prop := {
  wfi_files : length (files (super d)) = Z.to_nat DIR_ENTRIES_PER_BLOCK;
  wfi_chains : length cl = Z.to_nat DIR_ENTRIES_PER_BLOCK;
  wfi_free : chain d (freelist (super d)) fl;
  wfi_free_ty : typed d SFS_BLOCK_TYPE_FREE fl;
  wfi_file : ∀ i e c, files (super d) !! i = Some e → cl !! i = Some c →
      if decide (first_block e = 0) then c = []
      else chain d (first_block e) c ∧ typed d SFS_BLOCK_TYPE_FILE c ∧
           Z.of_nat (length c) * 500 = roundUp (size e) BLOCK_DATA_SIZE ∧
           0 ≤ size e ≤ 4294967000;
  wfi_disjoint : NoDup (fl ++ concat cl);
  wfi_data : ∀ i b, blocks d !! i = Some b → length (data b) = 500%nat
}.

(** The descriptor [t] is open on the file in slot [i] of the mounted
    image: its v-node points at that slot of the current mapping, and its
    position lies in the file, on its current block. *)
Definition desc_ok (s : state) (d : image) (cl : list (list Z))
    (t : sfs_mem_filedesc_t) (i : nat) : Prop :=
  ∃ v e c, vnodes s !! fileEntry t = Some v ∧
    diskFile v = (mapping s, Z.of_nat i) ∧
    files (super d) !! i = Some e ∧ first_block e ≠ 0 ∧ cl !! i = Some c ∧
    0 ≤ currPos t ≤ size e ∧ c !! block_index (currPos t) = Some (currBlock t).

(** Writing [buf] over [old] from position [pos] on. *)
Definition overwrite (pos : nat) (buf old : list byte) : list byte :=
  take pos old ++ buf ++ drop (pos + length buf) old.

Lemma concat_insert_perm {A} (cl : list (list A)) : ∀ i c a,
  cl !! i = Some c → concat (<[i := c ++ a]> cl) ≡ₚ a ++ concat cl.
Proof.
  induction cl as [|c0 cl IH]; intros i c a Hi; [done|].
  destruct i as [|i]; simpl in *.
  - inversion Hi; subst. rewrite (app_assoc a). apply Permutation_app_tail.
    apply Permutation_app_comm.
  - rewrite (IH i c a Hi). apply Permutation_app_swap_app.
Qed.

Lemma elem_of_concat_lookup {A} (cl : list (list A)) i c x :
  cl !! i = Some c → x ∈ c → x ∈ concat cl.
Proof.
  revert i. induction cl as [|c0 cl IH]; intros i Hi Hx; [done|]. simpl.
  apply elem_of_app. destruct i as [|i]; simpl in Hi.
  - inversion Hi; subst. by left.
  - right. by eapply IH.
Qed.

Lemma concat_lookup_disjoint {A} (cl : list (list A)) i j c1 c2 x :
  NoDup (concat cl) → i ≠ j → cl !! i = Some c1 → cl !! j = Some c2 →
  x ∈ c1 → x ∈ c2 → False.
Proof.
  revert i j. induction cl as [|c0 cl IH]; intros i j Hnd Hij Hi Hj H1 H2; [done|].
  simpl in Hnd. apply NoDup_app in Hnd as (Hnd0 & Hdis & Hnd).
  destruct i as [|i], j as [|j]; simpl in *; try done.
  - inversion Hi; subst. apply (Hdis x H1). by eapply elem_of_concat_lookup.
  - inversion Hj; subst. apply (Hdis x H2). by eapply elem_of_concat_lookup.
  - eapply (IH i j); eauto.
Qed.

Lemma wf_file_blocks d fl cl i e c :
  wf_image d fl cl → files (super d) !! i = Some e → cl !! i = Some c →
  first_block e ≠ 0 →
  chain d (first_block e) c ∧ file_blocks d c ∧ NoDup c ∧
  Z.of_nat (length c) * 500 = roundUp (size e) BLOCK_DATA_SIZE ∧ 0 ≤ size e ≤ 4294967000.
Proof.
  intros Hwf He Hc Hlive. pose proof (wfi_file _ _ _ Hwf i e c He Hc) as H.
  rewrite decide_False in H by done. destruct H as (Hch & Hty & Hlen & Hsz).
  split; [done|]. split; [|split; [by eapply chain_NoDup|done]].
  intros y Hy. destruct (Hty y Hy) as (b & Hb & Htyb). exists b.
  split; [done|]. split; [done|]. by eapply wfi_data.
Qed.

Lemma wf_chain_free_disjoint d fl cl i c x :
  wf_image d fl cl → cl !! i = Some c → x ∈ c → x ∉ fl.
Proof.
  intros Hwf Hc Hx Hfl. pose proof (wfi_disjoint _ _ _ Hwf) as Hnd.
  apply NoDup_app in Hnd as (_ & Hdis & _). apply (Hdis x Hfl).
  by eapply elem_of_concat_lookup.
Qed.

Lemma wf_chains_disjoint d fl cl i j c1 c2 x :
  wf_image d fl cl → i ≠ j → cl !! i = Some c1 → cl !! j = Some c2 →
  x ∈ c1 → x ∉ c2.
Proof.
  intros Hwf Hij H1 H2 Hx1 Hx2. pose proof (wfi_disjoint _ _ _ Hwf) as Hnd.
  apply NoDup_app in Hnd as (_ & _ & Hnd). by eapply (concat_lookup_disjoint cl i j).
Qed.

Lemma chain_data_ext d d' (l : list Z) :
  (∀ y, y ∈ l → blocks d' !! Z.to_nat y = blocks d !! Z.to_nat y) →
  chain_data d' l = chain_data d l.
Proof. intros H. unfold chain_data. by rewrite (block_data_fmap_ext d d' l). Qed.

Lemma chain_data_app d l1 l2 : chain_data d (l1 ++ l2) = chain_data d l1 ++ chain_data d l2.
Proof. unfold chain_data. by rewrite fmap_app, concat_app. Qed.

Lemma chain_data_length d l :
  file_blocks d l → length (chain_data d l) = (500 * length l)%nat.
Proof.
  intros Hfb. unfold chain_data. induction l as [|x l IH]; [done|].
  rewrite fmap_cons. simpl. rewrite length_app.
  destruct (Hfb x ltac:(left)) as (b & Hb & _ & Hlen).
  rewrite (block_data_lookup _ _ _ Hb), Hlen, IH; [lia|].
  intros y Hy. apply Hfb. by right.
Qed.

Lemma deref_Some {A} (a : A) : deref (Some a) = Ret a.
Proof. reflexivity. Qed.

Lemma diskFile_get_ok s d v i e :
  diskBlocks s = Some d → diskFile v = (mapping s, Z.of_nat i) →
  files (super d) !! i = Some e → diskFile_get s (diskFile v) = Ret e.
Proof.
  intros Hd Hdf He. unfold diskFile_get. rewrite Hd, Hdf. simpl.
  rewrite decide_True by done. by rewrite Nat2Z.id, He.
Qed.

Lemma diskFile_set_size_ok s d v i e sz :
  diskBlocks s = Some d → diskFile v = (mapping s, Z.of_nat i) →
  files (super d) !! i = Some e →
  diskFile_set_size s (diskFile v) sz =
    Ret (set_disk (set_files (<[i := {| first_block := first_block e; size := sz;
                                        name := name e |}]> (files (super d))) d) s).
Proof.
  intros Hd Hdf He. unfold diskFile_set_size. rewrite Hd, Hdf. simpl.
  rewrite decide_True by done. by rewrite Nat2Z.id, He.
Qed.

(** Number of blocks a write ending at [endPos] adds to a file that has
    room for [alloc] bytes. *)
Definition new_blocks (alloc endPos : Z) : nat :=
  if decide (endPos > alloc) then
    Z.to_nat ((roundUp endPos BLOCK_DATA_SIZE - alloc) / 500)
  else O.

Lemma write_grow_fits alloc endPos d :
  endPos ≤ alloc → write_grow alloc endPos d = Ret (inr (0, d)).
Proof. intros H. unfold write_grow. by rewrite decide_False by lia. Qed.

Lemma write_grow_too_big alloc endPos d :
  endPos > alloc → roundUp endPos BLOCK_DATA_SIZE > SFS_MAX_FILE_SIZE →
  write_grow alloc endPos d = Ret (inl (- EFBIG, d)).
Proof. intros H1 H2. unfold write_grow. by rewrite !decide_True by lia. Qed.

Lemma write_grow_alloc alloc endPos d :
  0 ≤ alloc → alloc mod 500 = 0 → 0 ≤ endPos < 2 ^ 63 →
  endPos > alloc → ¬ roundUp endPos BLOCK_DATA_SIZE > SFS_MAX_FILE_SIZE →
  (1 ≤ new_blocks alloc endPos)%nat ∧
  Z.of_nat (new_blocks alloc endPos) < 2 ^ 32 ∧
  write_grow alloc endPos d =
    '(firstNewId, d1) ← allocateBlocks (Z.of_nat (new_blocks alloc endPos))
                          SFS_BLOCK_TYPE_FILE d;
    if decide (firstNewId = 0) then Ret (inl (- ENOSPC, d1)) else Ret (inr (firstNewId, d1)).
Proof.
  intros Ha Ham He Hgt Hmax. unfold new_blocks. rewrite decide_True by done.
  pose proof (roundUp_bounds endPos He) as [Hr Hrm].
  unfold SFS_MAX_FILE_SIZE, UINT32_MAX in Hmax.
  set (new := roundUp endPos BLOCK_DATA_SIZE) in *.
  assert (Hq : 1 ≤ (new - alloc) / 500 < 2 ^ 32) by dlia.
  split; [lia|]. split; [lia|].
  unfold write_grow. rewrite decide_True by done. fold new.
  rewrite decide_False by (unfold SFS_MAX_FILE_SIZE, UINT32_MAX; lia).
  rewrite (u64_small (new - alloc)) by (pow_norm; lia).
  unfold BLOCK_DATA_SIZE. rewrite (u32_small ((new - alloc) / 500)) by lia.
  rewrite assert_decide by lia. rewrite bind_Ret. by rewrite Z2Nat.id by lia.
Qed.

Lemma file_blocks_app d l1 l2 : file_blocks d (l1 ++ l2) ↔ file_blocks d l1 ∧ file_blocks d l2.
Proof.
  unfold file_blocks. split.
  - intros H. split; intros x Hx; apply H; apply elem_of_app; eauto.
  - intros [H1 H2] x Hx. apply elem_of_app in Hx as [Hx|Hx]; eauto.
Qed.

(** The copy loop of [sfs_write] on a file with chain [c], started in its
    block number [j] at offset [off], with the new blocks [nl] (if any)
    waiting to be attached. *)
Lemma write_image_spec d first c nl fn x j off buf fuel :
  chain d first c → chain d fn nl → NoDup (c ++ nl) → file_blocks d (c ++ nl) →
  c !! j = Some x → 0 ≤ off ≤ 500 →
  500 * Z.of_nat j + off + Z.of_nat (length buf) ≤ 500 * Z.of_nat (length c + length nl) →
  (nl ≠ [] → 500 * Z.of_nat (length c) < 500 * Z.of_nat j + off + Z.of_nat (length buf)) →
  Z.of_nat (length buf) < 2 ^ 63 →
  (last_index off (Z.of_nat (length buf)) < fuel)%nat →
  ∃ d' r,
    write_loop fuel d (Some x) (off mod 500)
      (Z.min (500 - off) (Z.of_nat (length buf))) (Z.of_nat (length buf)) buf fn
      = Ret (d', Some r) ∧
    (c ++ nl) !! (j + last_index off (Z.of_nat (length buf)))%nat = Some r ∧
    chain d' first (c ++ nl) ∧
    chain_data d' (c ++ nl)
      = overwrite (500 * j + Z.to_nat off) buf (chain_data d (c ++ nl)) ∧
    super d' = super d ∧ length (blocks d') = length (blocks d) ∧
    (∀ i, (∀ y, y ∈ c ++ nl → Z.to_nat y ≠ i) → blocks d' !! i = blocks d !! i) ∧
    (∀ i b, blocks d !! i = Some b →
       ∃ b', blocks d' !! i = Some b' ∧ type (h b') = type (h b) ∧
             length (data b') = length (data b)).
Proof.
  intros Hch Hnew Hnd Hfb Hj Hoff Hcap Hgrow Hlen Hfuel.
  pose proof (take_drop_middle c j x Hj) as Hsplit.
  assert (Hprelen : length (take j c) = j).
  { rewrite length_take. apply lookup_lt_Some in Hj. lia. }
  remember (take j c) as pre eqn:Hpre0. remember (drop (S j) c) as rc eqn:Hrc0.
  clear Hpre0 Hrc0.
  assert (Hclen : length c = (j + S (length rc))%nat).
  { rewrite <- Hsplit, length_app. simpl. lia. }
  pose proof Hch as Hch0. unfold chain in Hch0. rewrite <- Hsplit in Hch0.
  apply seg_app in Hch0 as (m & Hpre & Hrest). pose proof Hrest as (-> & _).
  assert (HL : c ++ nl = pre ++ (x :: rc ++ nl)).
  { rewrite <- Hsplit. by rewrite <- app_assoc. }
  rewrite HL in Hnd, Hfb. apply NoDup_app in Hnd as (Hndpre & Hdis & HndL).
  apply file_blocks_app in Hfb as [Hfbpre HfbL].
  assert (Hposall : ∀ y, y ∈ pre ++ (x :: rc ++ nl) → 0 < y).
  { intros y Hy. apply elem_of_app in Hy as [Hy|Hy]; [by eapply seg_pos|].
    change (x :: rc ++ nl) with ((x :: rc) ++ nl) in Hy.
    apply elem_of_app in Hy as [Hy|Hy]; [by eapply (seg_pos _ _ _ _ _ Hrest)|].
    by eapply (seg_pos _ _ _ _ _ Hnew). }
  assert (Hcore : ∃ d' r,
    write_loop fuel d (Some x) (off mod 500)
      (Z.min (500 - off) (Z.of_nat (length buf))) (Z.of_nat (length buf)) buf fn
      = Ret (d', Some r) ∧
    (x :: rc ++ nl) !! last_index off (Z.of_nat (length buf)) = Some r ∧
    seg d' x (x :: rc ++ nl) 0 ∧
    block_data d' <$> (x :: rc ++ nl)
      = write_blocks (block_data d <$> (x :: rc ++ nl)) (Z.to_nat off) buf ∧
    super d' = super d ∧ length (blocks d') = length (blocks d) ∧
    (∀ i, (∀ y, y ∈ x :: rc ++ nl → Z.to_nat y ≠ i) → blocks d' !! i = blocks d !! i) ∧
    (∀ i b, blocks d !! i = Some b →
       ∃ b', blocks d' !! i = Some b' ∧ type (h b') = type (h b) ∧
             length (data b') = length (data b))).
  { destruct nl as [|f nl'].
    - rewrite app_nil_r in *. simpl in Hcap.
      destruct (write_loop_inplace rc d x off buf fn fuel)
        as (d' & r & Hrun & Hr & Hdata & Hsup & Hlen' & Hout & Hhdr); try done; [lia|].
      exists d', r. split; [done|]. split; [done|]. split.
      { eapply seg_hdr; [|exact Hrest]. intros i b Hb.
        destruct (Hhdr i b Hb) as (b' & ? & ? & ?). eauto. }
      split; [done|]. split; [done|]. split; [done|]. split; [done|].
      intros i b Hb. destruct (Hhdr i b Hb) as (b' & ? & Hh & ?). exists b'.
      split; [done|]. split; [by rewrite Hh|done].
    - pose proof Hnew as (-> & _).
      apply (write_loop_grow rc d x off buf f nl' fuel); try done.
      + specialize (Hgrow ltac:(done)). lia.
      + simpl in Hcap. rewrite Hclen in Hcap. lia. }
  destruct Hcore as (d' & r & Hrun & Hr & Hseg' & Hdata & Hsup & Hlen' & Hout & Hhdr).
  assert (Hpresame : ∀ y, y ∈ pre → blocks d' !! Z.to_nat y = blocks d !! Z.to_nat y).
  { intros y Hy. apply Hout. intros z Hz Heq. apply (Hdis y Hy).
    apply to_nat_inj_pos in Heq; [by subst| |].
    - apply Hposall. apply elem_of_app. by right.
    - apply Hposall. apply elem_of_app. by left. }
  exists d', r. split; [done|]. rewrite HL. split.
  { rewrite lookup_app_r by lia. rewrite <- Hr. f_equal. lia. }
  split.
  { unfold chain. apply seg_app. exists x. split; [|done].
    eapply seg_same; [|exact Hpre]. done. }
  split.
  { rewrite !chain_data_app. rewrite (chain_data_ext d d' pre) by done.
    unfold chain_data at 2. rewrite Hdata.
    rewrite write_blocks_concat.
    - unfold overwrite. fold (chain_data d (x :: rc ++ nl)).
      assert (Hlpre : length (chain_data d pre) = (500 * j)%nat).
      { rewrite chain_data_length by done. lia. }
      rewrite take_app_ge by lia. rewrite drop_app_ge by lia.
      rewrite Hlpre. rewrite <- !app_assoc. do 2 f_equal.
      + f_equal. lia.
      + do 2 f_equal. lia.
    - by apply file_blocks_sizes.
    - lia.
    - rewrite length_fmap. simpl. rewrite length_app. rewrite Hclen in Hcap. lia. }
  split; [done|]. split; [done|]. split; [|done].
  intros i Hi. apply Hout. intros y Hy. apply Hi. apply elem_of_app. by right.
Qed.

Lemma write_grow_no_space d fl cl alloc endPos :
  wf_image d fl cl → 0 ≤ alloc → alloc mod 500 = 0 → 0 ≤ endPos < 2 ^ 63 →
  endPos > alloc → ¬ roundUp endPos BLOCK_DATA_SIZE > SFS_MAX_FILE_SIZE →
  (length fl < new_blocks alloc endPos)%nat →
  write_grow alloc endPos d = Ret (inl (- ENOSPC, d)).
Proof.
  intros Hwf Ha Ham He Hgt Hmax Hshort.
  destruct (write_grow_alloc alloc endPos d Ha Ham He Hgt Hmax) as (Hn1 & Hn32 & ->).
  rewrite (allocateBlocks_failure d fl); [done|apply Hwf|apply Hwf|lia|right; lia].
Qed.

(** The image after the growth step of a write that succeeds. *)
Lemma write_grow_spec d fl cl alloc endPos :
  wf_image d fl cl → 0 ≤ alloc → alloc mod 500 = 0 → 0 ≤ endPos < 2 ^ 63 →
  (endPos > alloc → ¬ roundUp endPos BLOCK_DATA_SIZE > SFS_MAX_FILE_SIZE) →
  (new_blocks alloc endPos ≤ length fl)%nat →
  ∃ d1 fn, write_grow alloc endPos d = Ret (inr (fn, d1)) ∧
    chain d1 fn (take (new_blocks alloc endPos) fl) ∧
    typed d1 SFS_BLOCK_TYPE_FILE (take (new_blocks alloc endPos) fl) ∧
    chain d1 (freelist (super d1)) (drop (new_blocks alloc endPos) fl) ∧
    typed d1 SFS_BLOCK_TYPE_FREE (drop (new_blocks alloc endPos) fl) ∧
    length (blocks d1) = length (blocks d) ∧
    files (super d1) = files (super d) ∧
    magic (super d1) = magic (super d) ∧
    n_blocks (super d1) = n_blocks (super d) ∧
    next_rootdir (super d1) = next_rootdir (super d) ∧
    (∀ i, (∀ x, x ∈ fl → Z.to_nat x ≠ i) → blocks d1 !! i = blocks d !! i) ∧
    (∀ i b, blocks d !! i = Some b → ∃ b', blocks d1 !! i = Some b' ∧ data b' = data b).
Proof.
  intros Hwf Ha Ham He Hmax Hn.
  destruct (decide (endPos > alloc)) as [Hgt|Hle].
  - destruct (write_grow_alloc alloc endPos d Ha Ham He Hgt (Hmax Hgt)) as (Hn1 & Hn32 & ->).
    destruct (allocateBlocks_success d fl (Z.of_nat (new_blocks alloc endPos))
                SFS_BLOCK_TYPE_FILE) as (d1 & Hrun & H1 & H2 & H3 & H4 & _ & H6); 
      [apply Hwf|apply Hwf|lia|].
    rewrite Nat2Z.id in *. rewrite Hrun, bind_Ret.
    assert (Hf0 : 0 < freelist (super d)).
    { destruct fl as [|x fl']; [simpl in Hn; lia|].
      destruct (wfi_free _ _ _ Hwf) as (-> & ? & _). done. }
    rewrite decide_False by lia. eauto 20.
  - rewrite write_grow_fits by lia. unfold new_blocks. rewrite decide_False by done.
    exists d, 0. rewrite take_0, drop_0. split; [done|]. split; [done|].
    split; [by intros x Hx; apply elem_of_nil in Hx|].
    split; [apply Hwf|]. split; [apply Hwf|]. repeat (split; [done|]). eauto.
Qed.

(** ** The image a write leaves *)

Lemma to_nat_ne_pos (l : list Z) x y :
  (∀ z, z ∈ l → 0 < z) → 0 < x → y ∈ l → x ∉ l → Z.to_nat y ≠ Z.to_nat x.
Proof. intros Hpos Hx Hy Hn Heq. apply Hn. pose proof (Hpos y Hy). by replace x with y by lia. Qed.

Lemma in_take {A} n (l : list A) x : x ∈ take n l → x ∈ l.
Proof. intros H. rewrite <- (take_drop n l). apply elem_of_app. by left. Qed.

Lemma in_drop {A} n (l : list A) x : x ∈ drop n l → x ∈ l.
Proof. intros H. rewrite <- (take_drop n l). apply elem_of_app. by right. Qed.

Lemma wf_after_write d fl cl i e c n d1 d2 d' sz :
  wf_image d fl cl → files (super d) !! i = Some e → first_block e ≠ 0 →
  cl !! i = Some c → (n ≤ length fl)%nat →
  typed d1 SFS_BLOCK_TYPE_FILE (take n fl) →
  chain d1 (freelist (super d1)) (drop n fl) →
  typed d1 SFS_BLOCK_TYPE_FREE (drop n fl) →
  length (blocks d1) = length (blocks d) →
  (∀ k, (∀ x, x ∈ fl → Z.to_nat x ≠ k) → blocks d1 !! k = blocks d !! k) →
  (∀ k b, blocks d !! k = Some b → ∃ b', blocks d1 !! k = Some b' ∧ data b' = data b) →
  chain d2 (first_block e) (c ++ take n fl) →
  (∀ k, (∀ y, y ∈ c ++ take n fl → Z.to_nat y ≠ k) → blocks d2 !! k = blocks d1 !! k) →
  (∀ k b, blocks d1 !! k = Some b →
     ∃ b', blocks d2 !! k = Some b' ∧ type (h b') = type (h b) ∧
           length (data b') = length (data b)) →
  length (blocks d2) = length (blocks d1) →
  blocks d' = blocks d2 → freelist (super d') = freelist (super d1) →
  files (super d') = <[i := {| first_block := first_block e; size := sz; name := name e |}]>
                       (files (super d)) →
  Z.of_nat (length c + n) * 500 = roundUp sz BLOCK_DATA_SIZE → 0 ≤ sz ≤ 4294967000 →
  wf_image d' (drop n fl) (<[i := c ++ take n fl]> cl).
Proof.
  intros Hwf He Hlive Hc Hn Hty1 Hfree1 Hfty1 Hlen1 Hout1 Hdata1 Hch2 Hout2 Hpres2
    Hlen2 Hbl Hfl' Hfiles Hsz1 Hsz2.
  destruct (wf_file_blocks _ _ _ _ _ _ Hwf He Hc Hlive) as (Hch & Hfb & Hndc & Hclen & Hesz).
  pose proof (wfi_disjoint _ _ _ Hwf) as Hnd.
  pose proof Hnd as Hnd0. apply NoDup_app in Hnd0 as (Hndfl & Hdis & Hndcl).
  pose proof (λ y, seg_pos _ _ _ _ y (wfi_free _ _ _ Hwf)) as Hposfl.
  pose proof (λ y, seg_pos _ _ _ _ y Hch) as Hposc.
  assert (Hcfl : ∀ y, y ∈ c → y ∉ fl).
  { intros y Hy. by eapply wf_chain_free_disjoint. }
  assert (Hposn : ∀ y, y ∈ c ++ take n fl → 0 < y).
  { intros y Hy. apply elem_of_app in Hy as [Hy|Hy]; [by apply Hposc|].
    apply Hposfl. by eapply in_take. }
  assert (Htd : ∀ y, y ∈ take n fl → y ∉ drop n fl).
  { intros y Hy Hy'. rewrite <- (take_drop n fl) in Hndfl.
    apply NoDup_app in Hndfl as (_ & Hd & _). by apply (Hd y). }
  (* a block that is neither free nor in the file is as it was *)
  assert (Hsame : ∀ x, 0 < x → x ∉ fl → x ∉ c →
            blocks d' !! Z.to_nat x = blocks d !! Z.to_nat x).
  { intros x Hx Hxfl Hxc. rewrite Hbl, Hout2, Hout1; [done| |].
    - intros y Hy. by apply (to_nat_ne_pos fl).
    - intros y Hy. apply (to_nat_ne_pos (c ++ take n fl)); [done|done|done|].
      intros Hin. apply elem_of_app in Hin as [Hin|Hin]; [done|].
      apply Hxfl. by eapply in_take. }
  split.
  - rewrite Hfiles, length_insert. apply Hwf.
  - rewrite length_insert. apply Hwf.
  - unfold chain. rewrite Hfl'. eapply seg_same; [|exact Hfree1].
    intros x Hx. rewrite Hbl. apply Hout2. intros y Hy.
    apply (to_nat_ne_pos (c ++ take n fl)); [done| |done|].
    + apply Hposfl. by eapply in_drop.
    + intros Hin. apply elem_of_app in Hin as [Hin|Hin].
      * apply (Hcfl x Hin). by eapply in_drop.
      * by apply (Htd x).
  - eapply typed_same; [|exact Hfty1].
    intros x Hx. rewrite Hbl. apply Hout2. intros y Hy.
    apply (to_nat_ne_pos (c ++ take n fl)); [done| |done|].
    + apply Hposfl. by eapply in_drop.
    + intros Hin. apply elem_of_app in Hin as [Hin|Hin].
      * apply (Hcfl x Hin). by eapply in_drop.
      * by apply (Htd x).
  - intros k ek ck Hek Hck. destruct (decide (k = i)) as [->|Hki].
    + rewrite Hfiles in Hek. rewrite list_lookup_insert_eq in Hek
        by (by apply lookup_lt_Some in He).
      rewrite list_lookup_insert_eq in Hck by (by apply lookup_lt_Some in Hc).
      inversion Hek; inversion Hck; subst. simpl. rewrite decide_False by done.
      split; [|split; [|split; [|done]]].
      3:{ rewrite <- Hsz1, length_app, length_take. f_equal. lia. }
      { eapply seg_same; [|exact Hch2]. intros x _. by rewrite Hbl. }
      { intros y Hy.
        assert (∃ b1, blocks d1 !! Z.to_nat y = Some b1 ∧ type (h b1) = SFS_BLOCK_TYPE_FILE)
          as (b1 & Hb1 & Hty).
        { apply elem_of_app in Hy as [Hy|Hy]; [|by apply Hty1].
          destruct (Hfb y Hy) as (b & Hb & Hty & _). exists b. split; [|done].
          rewrite Hout1; [done|]. intros z Hz. apply (to_nat_ne_pos fl); auto. }
        destruct (Hpres2 _ _ Hb1) as (b2 & Hb2 & Hty2 & _).
        exists b2. rewrite Hbl. split; [done|]. congruence. }
    + rewrite Hfiles, list_lookup_insert_ne in Hek by done.
      rewrite list_lookup_insert_ne in Hck by done.
      pose proof (wfi_file _ _ _ Hwf k ek ck Hek Hck) as Hk.
      destruct (decide (first_block ek = 0)) as [|Hlk]; [done|].
      destruct Hk as (Hchk & Htyk & Hrest).
      assert (Hs : ∀ x, x ∈ ck → blocks d' !! Z.to_nat x = blocks d !! Z.to_nat x).
      { intros x Hx. apply Hsame.
        - by eapply (seg_pos _ _ _ _ _ Hchk).
        - by eapply wf_chain_free_disjoint.
        - by eapply (wf_chains_disjoint d fl cl k i). }
      split; [by eapply seg_same|]. split; [by eapply typed_same|done].
  - rewrite (concat_insert_perm cl i c (take n fl) Hc).
    rewrite app_assoc, (Permutation_app_comm (drop n fl)), take_drop. done.
  - intros k b Hb. rewrite Hbl in Hb.
    assert (is_Some (blocks d !! k)) as [b0 Hb0].
    { apply lookup_lt_is_Some. apply lookup_lt_Some in Hb. lia. }
    destruct (Hdata1 _ _ Hb0) as (b1 & Hb1 & Hd1).
    destruct (Hpres2 _ _ Hb1) as (b2 & Hb2 & _ & Hl2).
    rewrite Hb in Hb2. inversion Hb2; subst.
    rewrite Hl2, Hd1. by eapply wfi_data.
Qed.

(** ** Back links of list heads *)

(** Every block of [d] is in [d'] with the same back link. *)
Definition keeps_prev (d d' : image) : Prop :=
  ∀ k b, blocks d !! k = Some b →
    ∃ b', blocks d' !! k = Some b' ∧ prev_block (h b') = prev_block (h b).

(** The head of the free list has no predecessor. *)
Definition free_head_ok (d : image) : Prop :=
  ∀ b, freelist (super d) ≠ 0 →
    blocks d !! Z.to_nat (freelist (super d)) = Some b → prev_block (h b) = 0.

Lemma keeps_prev_refl d : keeps_prev d d.
Proof. intros k b Hb. eauto. Qed.

Lemma keeps_prev_trans d1 d2 d3 : keeps_prev d1 d2 → keeps_prev d2 d3 → keeps_prev d1 d3.
Proof.
  intros H1 H2 k b Hb. destruct (H1 k b Hb) as (b2 & Hb2 & He2).
  destruct (H2 k b2 Hb2) as (b3 & Hb3 & He3). exists b3. split; [done|]. congruence.
Qed.

Lemma keeps_prev_store d x b0 b1 :
  blocks d !! Z.to_nat x = Some b0 → prev_block (h b1) = prev_block (h b0) →
  keeps_prev d (store d x b1).
Proof.
  intros H0 Hp k b Hb. simpl. destruct (decide (k = Z.to_nat x)) as [->|Hne].
  - rewrite list_lookup_insert_eq by (by apply lookup_lt_Some in H0).
    exists b1. split; [done|]. congruence.
  - rewrite list_lookup_insert_ne by done. eauto.
Qed.

Lemma accessBlock_inv d id p : accessBlock d id = Ret p → p = ptr id.
Proof.
  unfold accessBlock. intros H. apply bind_Ret_inv in H as (u & _ & H). by inversion H.
Qed.

Lemma accessFreeBlock_inv d id x : accessFreeBlock d id = Ret (Some x) → x = id ∧ id ≠ 0.
Proof.
  unfold accessFreeBlock. intros H. apply bind_Ret_inv in H as (p & Hp & H).
  apply accessBlock_inv in Hp. subst p. unfold ptr in H.
  destruct (decide (id = 0)); [done|]. inv_ret H. done.
Qed.

Lemma accessFileBlock_inv d id x : accessFileBlock d id = Ret (Some x) → x = id ∧ id ≠ 0.
Proof.
  unfold accessFileBlock. intros H. apply bind_Ret_inv in H as (p & Hp & H).
  apply accessBlock_inv in Hp. subst p. unfold ptr in H.
  destruct (decide (id = 0)); [done|]. inv_ret H. done.
Qed.

Lemma alloc_retag_prev fuel : ∀ d b ty d',
  alloc_retag fuel d b ty = Ret d' → super d' = super d ∧ keeps_prev d d'.
Proof.
  induction fuel as [|fuel IH]; intros d b ty d' H.
  - destruct b; simpl in H; [done|]. inversion H; subst. split; [done|apply keeps_prev_refl].
  - destruct b as [id|]; simpl in H; [|inversion H; subst; split; [done|apply keeps_prev_refl]].
    apply bind_Ret_inv in H as (d1 & H1 & H). unfold setBlockType in H1.
    apply bind_Ret_inv in H1 as (b0 & Hb0 & H1). apply load_Ret in Hb0.
    inversion H1; subst d1; clear H1.
    apply bind_Ret_inv in H as (blk & _ & H). apply bind_Ret_inv in H as (nb & _ & H).
    destruct (IH _ _ _ _ H) as [Hs Hk]. split; [by rewrite Hs|].
    eapply keeps_prev_trans; [|exact Hk]. by eapply keeps_prev_store.
Qed.

(** [allocateBlocks] leaves back links as they are or clears them, and a
    successful one leaves a free list whose head has none. *)
Lemma allocateBlocks_prev n ty d r d' :
  allocateBlocks n ty d = Ret (r, d') →
  (∀ k b, blocks d !! k = Some b → prev_block (h b) = 0 →
     ∃ b', blocks d' !! k = Some b' ∧ prev_block (h b') = 0) ∧
  (r ≠ 0 → free_head_ok d').
Proof.
  unfold allocateBlocks. intros H.
  destruct (decide (freelist (super d) = 0 ∨ n = 0)).
  { inversion H; subst. split; [eauto|intros Hr; by destruct Hr]. }
  apply bind_Ret_inv in H as (fb & Hfb & H). destruct fb as [first|]; [|done].
  apply bind_Ret_inv in H as (w & Hw & H).
  destruct w as [last|]; [|inversion H; subst; split; [eauto|intros Hr; by destruct Hr]].
  apply bind_Ret_inv in H as (lb & Hlb & H). apply load_Ret in Hlb.
  apply bind_Ret_inv in H as (d1 & Hd1 & H).
  apply bind_Ret_inv in H as (d3 & Hd3 & H). inversion H; subst r d'; clear H.
  destruct (alloc_retag_prev _ _ _ _ _ Hd3) as [Hs3 Hk3]. simpl in Hs3.
  assert (Hz1 : ∀ k b, blocks d !! k = Some b → prev_block (h b) = 0 →
            ∃ b', blocks d1 !! k = Some b' ∧ prev_block (h b') = 0).
  { destruct (decide (next_block (h lb) ≠ 0)); [|inversion Hd1; subst; eauto].
    apply bind_Ret_inv in Hd1 as (nfo & Hnf & Hd1). destruct nfo as [nf|]; [|done].
    apply bind_Ret_inv in Hd1 as (nfb & Hnfb & Hd1). apply load_Ret in Hnfb.
    apply bind_Ret_inv in Hd1 as (lb' & Hlb' & Hd1). apply load_Ret in Hlb'.
    inversion Hd1; subst d1; clear Hd1. intros k b Hb Hz.
    destruct (keeps_prev_store (store d nf (set_prev 0 nfb)) last lb' (set_next 0 lb') Hlb'
                eq_refl k) with (b := if decide (k = Z.to_nat nf) then set_prev 0 nfb else b)
      as (b' & Hb' & Hp').
    { simpl. destruct (decide (k = Z.to_nat nf)) as [->|Hne].
      - apply list_lookup_insert_eq. by apply lookup_lt_Some in Hnfb.
      - by rewrite list_lookup_insert_ne. }
    exists b'. split; [done|]. rewrite Hp'. by case_decide. }
  split.
  - intros k b Hb Hz. destruct (Hz1 k b Hb Hz) as (b1 & Hb1 & Hp1).
    destruct (Hk3 k b1 Hb1) as (b3 & Hb3 & Hp3). exists b3. split; [done|]. congruence.
  - intros _ b Hne Hb. rewrite Hs3 in Hne, Hb. simpl in Hne, Hb.
    rewrite decide_True in Hd1 by done.
    apply bind_Ret_inv in Hd1 as (nfo & Hnf & Hd1). destruct nfo as [nf|]; [|done].
    apply accessFreeBlock_inv in Hnf as [-> _].
    apply bind_Ret_inv in Hd1 as (nfb & Hnfb & Hd1). apply load_Ret in Hnfb.
    apply bind_Ret_inv in Hd1 as (lb' & Hlb' & Hd1). apply load_Ret in Hlb'.
    inversion Hd1; subst d1; clear Hd1.
    assert (∃ b1, blocks (store (store d (next_block (h lb)) (set_prev 0 nfb)) last
                            (set_next 0 lb')) !! Z.to_nat (next_block (h lb)) = Some b1 ∧
                  prev_block (h b1) = 0) as (b1 & Hb1 & Hp1).
    { destruct (keeps_prev_store (store d (next_block (h lb)) (set_prev 0 nfb)) last lb'
                  (set_next 0 lb') Hlb' eq_refl (Z.to_nat (next_block (h lb)))
                  (set_prev 0 nfb)) as (b1 & Hb1 & Hp1).
      - simpl. apply list_lookup_insert_eq. by apply lookup_lt_Some in Hnfb.
      - exists b1. split; [done|]. by rewrite Hp1. }
    destruct (Hk3 _ b1 Hb1) as (b3 & Hb3 & Hp3). rewrite Hb in Hb3.
    inversion Hb3; subst. congruence.
Qed.

Lemma write_grow_head alloc endPos d fn d1 :
  write_grow alloc endPos d = Ret (inr (fn, d1)) → free_head_ok d → free_head_ok d1.
Proof.
  unfold write_grow. intros H Hok.
  destruct (decide (endPos > alloc)); [|by inversion H; subst].
  cbv zeta in H.
  destruct (decide (roundUp endPos BLOCK_DATA_SIZE > SFS_MAX_FILE_SIZE)); [done|].
  apply bind_Ret_inv in H as (u & _ & H). apply bind_Ret_inv in H as ([r d2] & Hal & H).
  destruct (decide (r = 0)); [done|]. inversion H; subst.
  by apply (allocateBlocks_prev _ _ _ _ _ Hal).
Qed.

(** The copy loop of [sfs_write] changes the back link of the first new
    block only. *)
Lemma write_loop_prev fuel : ∀ d db bp cs tw buf fn d' r,
  write_loop fuel d db bp cs tw buf fn = Ret (d', r) →
  ∀ k b, blocks d !! k = Some b → fn = 0 ∨ k ≠ Z.to_nat fn →
    ∃ b', blocks d' !! k = Some b' ∧ prev_block (h b') = prev_block (h b).
Proof.
  induction fuel as [|fuel IH]; intros d db bp cs tw buf fn d' r H k b Hb Hk; [done|].
  simpl in H. apply bind_Ret_inv in H as ([[d1 buf1] tw1] & H1 & H).
  assert (K1 : keeps_prev d d1).
  { destruct (decide (cs > 0)); [|inversion H1; subst; apply keeps_prev_refl].
    destruct db as [b0|]; [|done].
    apply bind_Ret_inv in H1 as (blk & Hblk & H1). apply load_Ret in Hblk.
    inversion H1; subst. by eapply keeps_prev_store. }
  destruct (K1 k b Hb) as (b1 & Hb1 & Hp1). rewrite <- Hp1.
  destruct (decide (tw1 = 0)); [inversion H; subst; eauto|].
  destruct db as [b0|]; [|done].
  apply bind_Ret_inv in H as (blk & Hblk & H). apply load_Ret in Hblk.
  apply bind_Ret_inv in H as (nxt & Hnxt & H).
  destruct nxt as [nb|]; [by eapply IH|].
  apply bind_Ret_inv in H as (u & Hfn & H). apply assert_Ret_inv in Hfn.
  apply bind_Ret_inv in H as (nxt & Hnew & H). destruct nxt as [nb|]; [|done].
  apply accessFileBlock_inv in Hnew as [-> _].
  apply bind_Ret_inv in H as (blk' & Hblk' & H). apply load_Ret in Hblk'.
  apply bind_Ret_inv in H as (nblk & Hnblk & H). apply load_Ret in Hnblk.
  destruct Hk as [|Hk]; [done|].
  destruct (keeps_prev_store d1 b0 blk' (set_next fn blk') Hblk' eq_refl k b1 Hb1)
    as (b2 & Hb2 & Hp2).
  rewrite <- Hp2. eapply IH; [exact H| |by left].
  simpl. rewrite list_lookup_insert_ne by done. exact Hb2.
Qed.

Lemma chain_head d x l : chain d x l → (x = 0 ∧ l = []) ∨ (0 < x ∧ x ∈ l).
Proof.
  destruct l as [|y l]; [by left|]. intros (-> & Hy & _). right. split; [done|by left].
Qed.

(** ** [sfs_write] on a well-formed volume *)

(** The position [pos] of a descriptor lies at offset [off] of block number
    [block_index pos] of the chain. *)
Lemma pos_split pos : 0 ≤ pos < 2 ^ 63 →
  ∃ off, 0 ≤ off ≤ 500 ∧ pos = 500 * Z.of_nat (block_index pos) + off ∧
    pos mod BLOCK_DATA_SIZE = off mod 500 ∧
    u64 (roundUp pos BLOCK_DATA_SIZE - pos) = 500 - off ∧
    ∀ len, 0 ≤ len →
      block_index (pos + len) = (block_index pos + last_index off len)%nat ∧
      (last_index off len < Z.to_nat (len / BLOCK_DATA_SIZE + 2))%nat.
Proof.
  intros Hpos. exists (pos - 500 * Z.of_nat (block_index pos)).
  unfold block_index, BLOCK_DATA_SIZE.
  destruct (decide (pos = 0)) as [->|Hne].
  { change (Z.to_nat ((0 - 1) / 500)) with O. simpl Z.of_nat.
    split; [lia|]. split; [lia|]. split; [done|]. split; [done|].
    intros len Hlen. unfold last_index. case_decide.
    - subst. split; [done|]. vm_compute. lia.
    - replace (0 - 500 * 0 + len - 1) with (len - 1) by lia.
      replace (0 + len - 1) with (len - 1) by lia. split; [done|].
      apply Z2Nat.inj_lt; dlia. }
  rewrite Z2Nat.id by dlia.
  split; [dlia|]. split; [lia|]. split; [dlia|]. split.
  { rewrite roundUp_eq by done. rewrite u64_small; dlia. }
  intros len Hlen. unfold last_index. case_decide.
  - subst. rewrite Z.add_0_r, Nat.add_0_r. split; [done|]. vm_compute. lia.
  - assert (Heq : (pos + len - 1) / 500
                  = (pos - 1) / 500 + (pos - 500 * ((pos - 1) / 500) + len - 1) / 500) by dlia.
    rewrite Heq. split; [apply Z2Nat.inj_add; dlia|]. apply Z2Nat.inj_lt; dlia.
Qed.

Lemma take_overwrite (pos : nat) (buf a b : list byte) (sz : nat) :
  (pos ≤ sz)%nat → (sz ≤ length a)%nat →
  take (Nat.max sz (pos + length buf)) (overwrite pos buf (a ++ b))
  = overwrite pos buf (take sz a).
Proof.
  intros Hp Hs. unfold overwrite.
  rewrite (take_app_le a b pos) by lia.
  rewrite (take_take a pos sz), Nat.min_l by lia.
  assert (Hl : length (take pos a) = pos) by (rewrite length_take; lia).
  rewrite (take_app_ge (take pos a)) by lia. f_equal. rewrite Hl.
  rewrite (take_app_ge buf) by lia. f_equal.
  destruct (decide (sz ≤ pos + length buf)%nat) as [Hle|Hgt].
  - rewrite Nat.max_r by lia. replace (pos + length buf - pos - length buf)%nat with O by lia.
    rewrite take_0. symmetry. apply drop_ge. rewrite length_take. lia.
  - rewrite Nat.max_l by lia. rewrite take_drop_commute.
    replace (pos + length buf + (sz - pos - length buf))%nat with sz by lia.
    by rewrite take_app_le by lia.
Qed.

Lemma chain_data_same d d' l :
  length (blocks d') = length (blocks d) →
  (∀ k b, blocks d !! k = Some b → ∃ b', blocks d' !! k = Some b' ∧ data b' = data b) →
  chain_data d' l = chain_data d l.
Proof.
  intros Hlen Hdata. unfold chain_data. f_equal. apply list_fmap_ext. intros _ x _.
  unfold block_data. destruct (blocks d !! Z.to_nat x) as [b|] eqn:E.
  - destruct (Hdata _ _ E) as (b' & -> & Hb'). done.
  - apply lookup_ge_None in E. rewrite <- Hlen in E. apply lookup_ge_None in E.
    by rewrite E.
Qed.

(** What [sfs_write] does on a descriptor open on the file in slot [i] of
    a well-formed volume: which of the three outcomes it is depends only
    on the end position and on the length of the free list. *)
Lemma sfs_write_spec s d fl cl fd t i v e c buf :
  diskBlocks s = Some d → wf_image d fl cl →
  0 ≤ fd < OPEN_FILE_LIMIT → openFileDescTable s !! Z.to_nat fd = Some (Some t) →
  vnodes s !! fileEntry t = Some v → diskFile v = (mapping s, Z.of_nat i) →
  files (super d) !! i = Some e → first_block e ≠ 0 → cl !! i = Some c →
  0 ≤ currPos t ≤ size e → c !! block_index (currPos t) = Some (currBlock t) →
  Z.of_nat (length buf) < 2 ^ 62 →
  let len := Z.of_nat (length buf) in
  let endPos := currPos t + len in
  let n := new_blocks (roundUp (size e) BLOCK_DATA_SIZE) endPos in
  if decide (roundUp endPos BLOCK_DATA_SIZE > SFS_MAX_FILE_SIZE) then
    sfs_write fd buf s = Ret (- EFBIG, s)
  else if decide (length fl < n)%nat then
    sfs_write fd buf s = Ret (- ENOSPC, s)
  else
    ∃ d' r,
      sfs_write fd buf s
        = Ret (len, set_openFileDescTable
                      (<[Z.to_nat fd := Some {| fileEntry := fileEntry t;
                                                startBlock := startBlock t;
                                                currBlock := r; currPos := endPos |}]>
                         (openFileDescTable s)) (set_disk d' s)) ∧
      (c ++ take n fl) !! block_index endPos = Some r ∧
      wf_image d' (drop n fl) (<[i := c ++ take n fl]> cl) ∧
      files (super d') = <[i := {| first_block := first_block e;
                                   size := Z.max (size e) endPos; name := name e |}]>
                           (files (super d)) ∧
      chain_data d' (c ++ take n fl)
        = overwrite (Z.to_nat (currPos t)) buf (chain_data d (c ++ take n fl)) ∧
      (∀ j c2, j ≠ i → cl !! j = Some c2 → chain_data d' c2 = chain_data d c2) ∧
      magic (super d') = magic (super d) ∧ n_blocks (super d') = n_blocks (super d) ∧
      next_rootdir (super d') = next_rootdir (super d) ∧
      length (blocks d') = length (blocks d) ∧
      (∀ k b, blocks d !! k = Some b → prev_block (h b) = 0 →
         (∀ y, y ∈ fl → Z.to_nat y ≠ k) →
         ∃ b', blocks d' !! k = Some b' ∧ prev_block (h b') = 0) ∧
      (free_head_ok d → free_head_ok d').
Proof.
  intros Hd Hwf Hfd Hslot Hv Hdf He Hlive Hc Hpos Hcur Hlen len endPos n.
  destruct (wf_file_blocks _ _ _ _ _ _ Hwf He Hc Hlive) as (Hch & Hfb & Hndc & Hclen & Hesz).
  assert (Hp63 : 0 ≤ currPos t < 2 ^ 63) by (pow_norm; lia).
  assert (He63 : 0 ≤ endPos < 2 ^ 63) by (unfold endPos, len; pow_norm; lia).
  assert (Hs63 : 0 ≤ size e < 2 ^ 63) by (pow_norm; lia).
  pose proof (roundUp_bounds _ Hs63) as [Hal Halm].
  pose proof (roundUp_bounds _ He63) as [Hnal Hnalm].
  set (alloc := roundUp (size e) BLOCK_DATA_SIZE) in *.
  (* the common prefix of the three cases *)
  assert (Hpre : sfs_write fd buf s =
     g ← write_grow alloc endPos d;
     match g with
     | inl (err, d1) => Ret (err, set_disk d1 s)
     | inr (firstNewId, d1) =>
         diskBlock ← accessFileBlock d1 (currBlock t);
         '(d2, last) ← write_loop (Z.to_nat (len / BLOCK_DATA_SIZE + 2)) d1 diskBlock
              (currPos t mod BLOCK_DATA_SIZE)
              (sizeMin (u64 (roundUp (currPos t) BLOCK_DATA_SIZE - currPos t)) len)
              len buf firstNewId;
         id ← idOfBlock last;
         let tFile' := {| fileEntry := fileEntry t; startBlock := startBlock t;
                          currBlock := id; currPos := endPos |} in
         let s1 := set_openFileDescTable
                     (<[Z.to_nat fd := Some tFile']> (openFileDescTable s))
                     (set_disk d2 s) in
         s2 ← (if decide (endPos > size e) then
                 _ ← assert (bool_decide (endPos < SFS_MAX_FILE_SIZE));
                 diskFile_set_size s1 (diskFile v) (u32 endPos)
               else Ret s1);
         Ret (to_ssize len, s2)
     end).
  { unfold sfs_write. rewrite decide_False by (unfold OPEN_FILE_LIMIT in *; lia).
    rewrite Hslot, deref_Some, bind_Ret. rewrite Hv, deref_Some, bind_Ret.
    rewrite (diskFile_get_ok s d v i e Hd Hdf He), bind_Ret.
    rewrite (assert_decide (currPos t ≤ size e)) by lia. rewrite bind_Ret.
    unfold accessSuperBlock. rewrite Hd, bind_Ret.
    fold len. replace (u64 (len + currPos t)) with endPos; [done|].
    rewrite u64_small; [unfold endPos; lia|]. pow_norm. unfold endPos in He63. lia. }
  rewrite Hpre. clear Hpre.
  destruct (decide (roundUp endPos BLOCK_DATA_SIZE > SFS_MAX_FILE_SIZE)) as [Hbig|Hfit].
  { rewrite write_grow_too_big; [by rewrite bind_Ret, (set_disk_id s d Hd)| |done].
    unfold SFS_MAX_FILE_SIZE, UINT32_MAX in Hbig. dlia. }
  assert (Hnn : 0 ≤ alloc) by lia.
  destruct (decide (length fl < n)%nat) as [Hshort|Hroom].
  { assert (endPos > alloc).
    { destruct (decide (endPos > alloc)); [done|]. unfold n, new_blocks in Hshort.
      rewrite decide_False in Hshort by done. lia. }
    rewrite (write_grow_no_space d fl cl); try done.
    by rewrite bind_Ret, (set_disk_id s d Hd). }
  destruct (write_grow_spec d fl cl alloc endPos Hwf Hnn Halm He63 (λ _, Hfit) ltac:(lia))
    as (d1 & fn & Hgr & Hnew & Hnewty & Hfree1 & Hfty1 & Hlen1 & Hfiles1 & Hmag1 & Hnb1 & Hrd1
        & Hout1 & Hdata1).
  fold n in Hnew, Hnewty, Hfree1, Hfty1. rewrite Hgr, bind_Ret.
  pose proof (wfi_disjoint _ _ _ Hwf) as Hnd.
  pose proof Hnd as Hnd0. apply NoDup_app in Hnd0 as (Hndfl & Hdis & Hndcl).
  pose proof (λ y, seg_pos _ _ _ _ y (wfi_free _ _ _ Hwf)) as Hposfl.
  pose proof (λ y, seg_pos _ _ _ _ y Hch) as Hposc.
  assert (Hcfl : ∀ y, y ∈ c → y ∉ fl).
  { intros y Hy. by eapply wf_chain_free_disjoint. }
  assert (Hc1 : ∀ y, y ∈ c → blocks d1 !! Z.to_nat y = blocks d !! Z.to_nat y).
  { intros y Hy. apply Hout1. intros z Hz. apply (to_nat_ne_pos fl); auto. }
  assert (Hch1 : chain d1 (first_block e) c) by (by eapply seg_same).
  assert (Hfb1 : file_blocks d1 (c ++ take n fl)).
  { apply file_blocks_app. split.
    - intros y Hy. rewrite (Hc1 y Hy). by apply Hfb.
    - intros y Hy. destruct (Hnewty y Hy) as (b1 & Hb1 & Hty1). exists b1.
      split; [done|]. split; [done|].
      pose proof Hb1 as Hlt. apply lookup_lt_Some in Hlt. rewrite Hlen1 in Hlt.
      apply lookup_lt_is_Some in Hlt as [b0 Hb0].
      destruct (Hdata1 _ _ Hb0) as (b1' & Hb1' & Hdt). rewrite Hb1 in Hb1'.
      inversion Hb1'; subst. rewrite Hdt. by eapply wfi_data. }
  assert (Hnd1 : NoDup (c ++ take n fl)).
  { apply NoDup_app. split; [done|]. split.
    - intros y Hy Hy'. apply (Hcfl y Hy). by eapply in_take.
    - rewrite <- (take_drop n fl) in Hndfl. by apply NoDup_app in Hndfl as (? & _). }
  destruct (pos_split (currPos t) Hp63) as (off & Hoff & Hsplit & Hmod & Hru & Hidx).
  destruct (Hidx len ltac:(lia)) as [Hend Hfuel].
  set (j := block_index (currPos t)) in *.
  assert (Hx : currBlock t ∈ c) by (by eapply list_elem_of_lookup_2).
  destruct (Hfb1 (currBlock t)) as (bx & Hbx & Htyx & _); [apply elem_of_app; by left|].
  rewrite (accessFileBlock_Ret d1 _ bx Hbx (Hposc _ Hx) Htyx), bind_Ret.
  rewrite Hmod, sizeMin_min, Hru.
  assert (Hcap : Z.of_nat (length c + n) * 500 = roundUp (Z.max (size e) endPos) BLOCK_DATA_SIZE).
  { unfold n, new_blocks. destruct (decide (endPos > alloc)) as [Hgt|Hle].
    - rewrite Z.max_r by lia. rewrite Nat2Z.inj_add, Z2Nat.id by dlia. dlia.
    - rewrite Nat.add_0_r. rewrite Hclen. fold alloc.
      destruct (decide (endPos ≤ size e)); [by rewrite Z.max_l by lia|].
      rewrite Z.max_r by lia. unfold alloc. rewrite !roundUp_eq by done. dlia. }
  assert (Hroom1 : 500 * Z.of_nat j + off + Z.of_nat (length buf)
                   ≤ 500 * Z.of_nat (length c + length (take n fl))).
  { rewrite length_take, Nat.min_l by lia. fold len.
    pose proof (roundUp_bounds (Z.max (size e) endPos) ltac:(pow_norm; lia)) as [Hb _].
    unfold endPos in *. lia. }
  assert (Hused : take n fl ≠ [] →
            500 * Z.of_nat (length c) < 500 * Z.of_nat j + off + Z.of_nat (length buf)).
  { intros Hne. fold len. rewrite <- Hsplit.
    destruct (decide (endPos > alloc)) as [Hgt|Hle]; [unfold endPos in Hgt; lia|].
    exfalso. apply Hne. unfold n, new_blocks. by rewrite decide_False by done. }
  destruct (write_image_spec d1 (first_block e) c (take n fl) fn (currBlock t) j off buf
              (Z.to_nat (len / BLOCK_DATA_SIZE + 2)) Hch1 Hnew Hnd1 Hfb1 Hcur Hoff Hroom1 Hused
              ltac:(pow_norm; lia) Hfuel)
    as (d2 & r & Hloop & Hr & Hch2 & Hdata2 & Hsup2 & Hlen2 & Hout2 & Hpres2).
  fold len in Hloop. rewrite Hloop, bind_Ret. simpl idOfBlock. rewrite bind_Ret.
  rewrite to_ssize_small by (unfold len; pow_norm; lia).
  set (e' := {| first_block := first_block e; size := Z.max (size e) endPos;
                name := name e |}).
  assert (Hfiles2 : files (super d2) = files (super d)) by (by rewrite Hsup2).
  assert (He32 : 0 ≤ Z.max (size e) endPos ≤ 4294967000).
  { unfold SFS_MAX_FILE_SIZE, UINT32_MAX in Hfit. split; [lia|].
    apply Z.max_lub; [lia|]. dlia. }
  assert (∃ d', (if decide (endPos > size e) is left _
      then
       assert (bool_decide (endPos < SFS_MAX_FILE_SIZE))
       ≫= λ _ : (), diskFile_set_size (set_openFileDescTable
         (<[Z.to_nat fd:=Some {| fileEntry := fileEntry t; startBlock := startBlock t;
                                 currBlock := r; currPos := endPos |}]>
            (openFileDescTable s)) (set_disk d2 s)) (diskFile v) (u32 endPos)
      else Ret (set_openFileDescTable
         (<[Z.to_nat fd:=Some {| fileEntry := fileEntry t; startBlock := startBlock t;
                                 currBlock := r; currPos := endPos |}]>
            (openFileDescTable s)) (set_disk d2 s)))
     = Ret (set_openFileDescTable
         (<[Z.to_nat fd:=Some {| fileEntry := fileEntry t; startBlock := startBlock t;
                                 currBlock := r; currPos := endPos |}]>
            (openFileDescTable s)) (set_disk d' s)) ∧
     blocks d' = blocks d2 ∧ files (super d') = <[i := e']> (files (super d)) ∧
     freelist (super d') = freelist (super d2) ∧ magic (super d') = magic (super d2) ∧
     n_blocks (super d') = n_blocks (super d2) ∧
     next_rootdir (super d') = next_rootdir (super d2)) as (d' & Hfin & Hbl & Hfs & Hfl' & Hm' & Hn' & Hr').
  { destruct (decide (endPos > size e)) as [Hgrow|Hnogrow].
    - exists (set_files (<[i := e']> (files (super d))) d2).
      rewrite assert_decide by (unfold SFS_MAX_FILE_SIZE, UINT32_MAX; lia).
      rewrite bind_Ret.
      erewrite (diskFile_set_size_ok _ d2 v i e); [| reflexivity | exact Hdf | by rewrite Hfiles2].
      rewrite u32_small by (pow_norm; lia). rewrite Hfiles2.
      unfold e'. rewrite Z.max_r by lia. done.
    - exists d2. split; [done|]. split; [done|]. split; [|done].
      rewrite Hfiles2. symmetry. apply list_insert_id. rewrite He. unfold e'.
      rewrite Z.max_l by lia. by destruct e. }
  exists d', r. cbv zeta. rewrite Hfin, bind_Ret.
  split; [done|]. split; [unfold endPos; by rewrite Hend|].
  assert (Hwf' : wf_image d' (drop n fl) (<[i:=c ++ take n fl]> cl)).
  { eapply (wf_after_write d fl cl i e c n d1 d2 d'); try done.
    - lia.
    - by rewrite Hfl', Hsup2. }
  split; [done|]. split; [done|]. split.
  { rewrite (chain_data_ext d2 d') by (by rewrite Hbl). rewrite Hdata2.
    rewrite (chain_data_same d d1) by done. f_equal. lia. }
  split.
  { intros k c2 Hki Hc2.
    assert (is_Some (files (super d) !! k)) as [e2 He2].
    { apply lookup_lt_is_Some. rewrite (wfi_files _ _ _ Hwf), <- (wfi_chains _ _ _ Hwf).
      by apply lookup_lt_Some in Hc2. }
    pose proof (wfi_file _ _ _ Hwf k e2 c2 He2 Hc2) as Hk.
    destruct (decide (first_block e2 = 0)) as [|Hlk]; [by subst|].
    destruct Hk as (Hchk & _).
    rewrite <- (chain_data_same d d1 c2) by done.
    apply chain_data_ext. intros y Hy. rewrite Hbl. apply Hout2. intros z Hz.
    apply (to_nat_ne_pos (c ++ take n fl)); [| |done|].
    - intros w Hw. apply elem_of_app in Hw as [Hw|Hw]; [by apply Hposc|].
      apply Hposfl. by eapply in_take.
    - by eapply (seg_pos _ _ _ _ _ Hchk).
    - intros Hin. apply elem_of_app in Hin as [Hin|Hin].
      + by eapply (wf_chains_disjoint d fl cl k i).
      + eapply (wf_chain_free_disjoint d fl cl k c2 y); [done|done|done|]. by eapply in_take. }
  rewrite Hm', Hn', Hr', Hsup2, Hbl, Hlen2. repeat (split; [done|]).
  assert (Hfn : fn = 0 ∨ (0 < fn ∧ fn ∈ fl)).
  { destruct (chain_head _ _ _ Hnew) as [[? _]|[? ?]]; [by left|right].
    split; [done|]. by eapply in_take. }
  split.
  - intros k b Hb Hz Hout. rewrite <- (Hout1 k Hout) in Hb.
    destruct (write_loop_prev _ _ _ _ _ _ _ _ _ _ Hloop k b Hb) as (b2 & Hb2 & Hp2).
    { destruct Hfn as [?|[_ Hin]]; [by left|right]. intros ->. by apply (Hout fn). }
    exists b2. split; [done|]. congruence.
  - intros Hok b Hne Hb. pose proof (write_grow_head _ _ _ _ _ Hgr Hok) as Hok1.
    rewrite Hfl', Hsup2 in Hne, Hb. rewrite Hbl in Hb.
    assert (is_Some (blocks d1 !! Z.to_nat (freelist (super d1)))) as [b1 Hb1].
    { apply lookup_lt_is_Some. apply lookup_lt_Some in Hb. lia. }
    destruct (write_loop_prev _ _ _ _ _ _ _ _ _ _ Hloop _ b1 Hb1) as (b2 & Hb2 & Hp2).
    { destruct Hfn as [?|[Hfpos Hin]]; [by left|right].
      destruct (chain_head _ _ _ Hfree1) as [[? _]|[Hnpos Hnin]]; [done|].
      intros Heq. assert (freelist (super d1) = fn) as Hsame by lia.
      rewrite <- (take_drop n fl) in Hndfl. apply NoDup_app in Hndfl as (_ & Hdisj & _).
      apply (Hdisj fn); [|by rewrite <- Hsame].
      destruct (chain_head _ _ _ Hnew) as [[? _]|[_ ?]]; [lia|done]. }
    rewrite Hb in Hb2. inversion Hb2; subst b2. rewrite Hp2. by apply Hok1.
Qed.

(** ** All-or-nothing writes *)

(** The contents of a file: the first [size] bytes its chain holds. *)
Definition file_bytes (d : image) (e : sfs_dir_entry_t) (c : list Z) : list byte :=
  take (Z.to_nat (size e)) (chain_data d c).

(** A checker for [wf_image]. *)
Definition wf_fileb (d : image) (ec : sfs_dir_entry_t * list Z) : bool :=
  if decide (first_block ec.1 = 0) then bool_decide (ec.2 = [])
  else chainb d (first_block ec.1) ec.2 && typedb d SFS_BLOCK_TYPE_FILE ec.2 &&
       bool_decide (Z.of_nat (length ec.2) * 500 = roundUp (size ec.1) BLOCK_DATA_SIZE) &&
       bool_decide (0 ≤ size ec.1 ≤ 4294967000).

Definition wf_imageb (d : image) (fl : list Z) (cl : list (list Z)) : bool :=
  bool_decide (length (files (super d)) = Z.to_nat DIR_ENTRIES_PER_BLOCK) &&
  bool_decide (length cl = Z.to_nat DIR_ENTRIES_PER_BLOCK) &&
  chainb d (freelist (super d)) fl && typedb d SFS_BLOCK_TYPE_FREE fl &&
  forallb (wf_fileb d) (zip (files (super d)) cl) &&
  bool_decide (NoDup (fl ++ concat cl)) &&
  forallb (λ b, bool_decide (length (data b) = 500%nat)) (blocks d).

Lemma wf_imageb_wf d fl cl : wf_imageb d fl cl = true → wf_image d fl cl.
Proof.
  unfold wf_imageb. intros H.
  apply andb_prop in H as [H Hdata]. apply andb_prop in H as [H Hnd].
  apply andb_prop in H as [H Hfiles]. apply andb_prop in H as [H Hfty].
  apply andb_prop in H as [H Hfree]. apply andb_prop in H as [Hlf Hlc].
  apply bool_decide_eq_true in Hnd, Hlf, Hlc.
  rewrite forallb_forall in Hfiles. rewrite forallb_forall in Hdata.
  split; try done.
  - by apply chainb_chain.
  - by apply typedb_typed.
  - intros i e c He Hc.
    assert (Hin : In (e, c) (zip (files (super d)) cl)).
    { apply list_elem_of_In. apply (list_elem_of_lookup_2 _ i).
      rewrite lookup_zip_with, He. simpl. by rewrite Hc. }
    specialize (Hfiles _ Hin). unfold wf_fileb in Hfiles. simpl in Hfiles.
    destruct (decide (first_block e = 0)); [by apply bool_decide_eq_true in Hfiles|].
    apply andb_prop in Hfiles as [Hf Hsz]. apply andb_prop in Hf as [Hf Hlen].
    apply andb_prop in Hf as [Hch Hty]. apply bool_decide_eq_true in Hsz, Hlen.
    split; [by apply chainb_chain|]. split; [by apply typedb_typed|done].
  - intros i b Hb. eapply bool_decide_eq_true_1. apply Hdata. apply list_elem_of_In.
    by eapply list_elem_of_lookup_2.
Qed.

(** C5: on a descriptor open on a file of a well-formed volume, at
    position [pos], [sfs_write(fd, buf, len)] does one of three things.
    It returns [len]: then the file holds [buf] from offset [pos] on and
    its other bytes as before, the position is [pos + len], the size is
    the larger of the old size and [pos + len], and the other files are
    as they were.  Or the rounded-up end position exceeds the maximal
    file size and it returns [-EFBIG]; or the free list is shorter than
    the growth needs and it returns [-ENOSPC]: in both cases the whole
    state - image, sizes, descriptors - is unchanged. *)
Theorem sfs_write_all_or_nothing s d fl cl fd t i buf :
  diskBlocks s = Some d → wf_image d fl cl → 0 ≤ fd < OPEN_FILE_LIMIT →
  openFileDescTable s !! Z.to_nat fd = Some (Some t) → desc_ok s d cl t i →
  Z.of_nat (length buf) < 2 ^ 62 →
  let pos := currPos t in
  let len := Z.of_nat (length buf) in
  ∃ e c, files (super d) !! i = Some e ∧ cl !! i = Some c ∧
    let grow := new_blocks (roundUp (size e) BLOCK_DATA_SIZE) (pos + len) in
    ((roundUp (pos + len) BLOCK_DATA_SIZE ≤ SFS_MAX_FILE_SIZE ∧ (grow ≤ length fl)%nat ∧
      ∃ s' d' fl' cl' t' e' c',
        sfs_write fd buf s = Ret (len, s') ∧
        diskBlocks s' = Some d' ∧ wf_image d' fl' cl' ∧
        openFileDescTable s' = <[Z.to_nat fd := Some t']> (openFileDescTable s) ∧
        desc_ok s' d' cl' t' i ∧ currPos t' = pos + len ∧
        files (super d') !! i = Some e' ∧ cl' !! i = Some c' ∧
        name e' = name e ∧ first_block e' = first_block e ∧
        size e' = Z.max (size e) (pos + len) ∧
        file_bytes d' e' c' = overwrite (Z.to_nat pos) buf (file_bytes d e c) ∧
        (∀ j e2 c2, j ≠ i → files (super d) !! j = Some e2 → cl !! j = Some c2 →
           files (super d') !! j = Some e2 ∧ cl' !! j = Some c2 ∧
           file_bytes d' e2 c2 = file_bytes d e2 c2))
     ∨ (roundUp (pos + len) BLOCK_DATA_SIZE > SFS_MAX_FILE_SIZE ∧
        sfs_write fd buf s = Ret (- EFBIG, s))
     ∨ (roundUp (pos + len) BLOCK_DATA_SIZE ≤ SFS_MAX_FILE_SIZE ∧ (length fl < grow)%nat ∧
        sfs_write fd buf s = Ret (- ENOSPC, s))).
Proof.
  intros Hd Hwf Hfd Hslot (v & e & c & Hv & Hdf & He & Hlive & Hc & Hpos & Hcur) Hlen pos len.
  exists e, c. split; [done|]. split; [done|]. intros grow.
  pose proof (sfs_write_spec s d fl cl fd t i v e c buf Hd Hwf Hfd Hslot Hv Hdf He Hlive Hc
                Hpos Hcur Hlen) as H.
  cbv zeta in H. fold pos len grow in H.
  destruct (decide (roundUp (pos + len) BLOCK_DATA_SIZE > SFS_MAX_FILE_SIZE)) as [Hbig|Hfit].
  { right. left. done. }
  destruct (decide (length fl < grow)%nat) as [Hshort|Hroom].
  { right. right. split; [lia|done]. }
  left. split; [lia|]. split; [lia|].
  destruct H as (d' & r & Hw & Hr & Hwf' & Hfiles & Hdata & Hothers & _).
  destruct (wf_file_blocks _ _ _ _ _ _ Hwf He Hc Hlive) as (Hch & Hfb & Hndc & Hclen & Hesz).
  eexists _, d', (drop grow fl), (<[i := c ++ take grow fl]> cl), _, _, (c ++ take grow fl).
  split; [exact Hw|]. split; [done|]. split; [done|]. split; [done|].
  assert (Hi : (i < length (files (super d)))%nat) by (by apply lookup_lt_Some in He).
  assert (Hic : (i < length cl)%nat) by (by apply lookup_lt_Some in Hc).
  assert (He' : files (super d') !! i = Some {| first_block := first_block e;
              size := Z.max (size e) (pos + len); name := name e |}).
  { rewrite Hfiles. by apply list_lookup_insert_eq. }
  assert (Hc' : <[i := c ++ take grow fl]> cl !! i = Some (c ++ take grow fl)).
  { by apply list_lookup_insert_eq. }
  split.
  { exists v. eexists _, _. split; [exact Hv|]. split; [exact Hdf|].
    split; [exact He'|]. split; [done|]. split; [exact Hc'|]. simpl.
    split; [lia|done]. }
  split; [done|]. split; [exact He'|]. split; [exact Hc'|].
  split; [done|]. split; [done|]. split; [done|]. split.
  { unfold file_bytes. simpl. rewrite Hdata, chain_data_app.
    assert (Hla : length (chain_data d c) = (500 * length c)%nat) by (by apply chain_data_length).
    pose proof (roundUp_bounds (size e) ltac:(pow_norm; lia)) as [Hb _].
    replace (Z.to_nat (Z.max (size e) (pos + len)))
      with (Nat.max (Z.to_nat (size e)) (Z.to_nat pos + length buf)) by (unfold len; lia).
    apply take_overwrite; [lia|]. rewrite Hla. lia. }
  intros j e2 c2 Hji He2 Hc2.
  split; [by rewrite Hfiles, list_lookup_insert_ne|].
  split; [by rewrite list_lookup_insert_ne|].
  unfold file_bytes. by rewrite (Hothers j c2).
Qed.

(** A 4 KiB volume with one empty file open. *)
Definition image_open : image := default (zero_image 0) (diskBlocks after_open).

Lemma wf_image_open : wf_image image_open [2; 3; 4; 5; 6; 7] ([1] :: replicate 14 []).
Proof. apply wf_imageb_wf. vm_compute. reflexivity. Defined.

Lemma desc_ok_after_open :
  desc_ok after_open image_open ([1] :: replicate 14 []) desc0 0.
Proof.
  eexists _, _, _. split; [by_eval|]. split; [by_eval|]. split; [by_eval|].
  split; [by_eval|]. split; [by_eval|]. split; by_eval.
Defined.

Lemma sfs_write_all_or_nothing_witness :
  let s := after_open in
  let d := image_open in
  let fl := [2; 3; 4; 5; 6; 7] in
  let cl := [1] :: replicate 14 [] in
  let buf := replicate 600 x61 in
  let pos := currPos desc0 in
  let len := Z.of_nat (length buf) in
  ∃ e c, files (super d) !! 0%nat = Some e ∧ cl !! 0%nat = Some c ∧
    let grow := new_blocks (roundUp (size e) BLOCK_DATA_SIZE) (pos + len) in
    ((roundUp (pos + len) BLOCK_DATA_SIZE ≤ SFS_MAX_FILE_SIZE ∧ (grow ≤ length fl)%nat ∧
      ∃ s' d' fl' cl' t' e' c',
        sfs_write 0 buf s = Ret (len, s') ∧
        diskBlocks s' = Some d' ∧ wf_image d' fl' cl' ∧
        openFileDescTable s' = <[Z.to_nat 0 := Some t']> (openFileDescTable s) ∧
        desc_ok s' d' cl' t' 0 ∧ currPos t' = pos + len ∧
        files (super d') !! 0%nat = Some e' ∧ cl' !! 0%nat = Some c' ∧
        name e' = name e ∧ first_block e' = first_block e ∧
        size e' = Z.max (size e) (pos + len) ∧
        file_bytes d' e' c' = overwrite (Z.to_nat pos) buf (file_bytes d e c) ∧
        (∀ j e2 c2, j ≠ 0%nat → files (super d) !! j = Some e2 → cl !! j = Some c2 →
           files (super d') !! j = Some e2 ∧ cl' !! j = Some c2 ∧
           file_bytes d' e2 c2 = file_bytes d e2 c2))
     ∨ (roundUp (pos + len) BLOCK_DATA_SIZE > SFS_MAX_FILE_SIZE ∧
        sfs_write 0 buf s = Ret (- EFBIG, s))
     ∨ (roundUp (pos + len) BLOCK_DATA_SIZE ≤ SFS_MAX_FILE_SIZE ∧ (length fl < grow)%nat ∧
        sfs_write 0 buf s = Ret (- ENOSPC, s))).
Proof.
  apply (sfs_write_all_or_nothing after_open image_open [2; 3; 4; 5; 6; 7]
           ([1] :: replicate 14 []) 0 desc0 0 (replicate 600 x61)).
  - reflexivity.
  - exact wf_image_open.
  - unfold OPEN_FILE_LIMIT. lia.
  - reflexivity.
  - exact desc_ok_after_open.
  - vm_compute. reflexivity.
Defined.

(** The same write, evaluated: 600 bytes into the empty file take a second
    block from the free list. *)
Example write_600_bytes :
  ∃ s', sfs_write 0 (replicate 600 x61) after_open = Ret (600, s') ∧
        option_map (λ d, (freelist (super d), size <$> files (super d) !! 0%nat,
                          next_block ∘ h <$> blocks d !! 1%nat)) (diskBlocks s')
        = Some (3, Some 600, Some 2).
Proof. eexists. split; vm_compute; reflexivity. Qed.

(** ** Round trip *)

(** What the calls made so far say about the files: the volume mounted,
    the contents written to each file of each volume (no bytes for a file
    never written, removed, or lost with its volume), and for each
    descriptor the file it was opened on and its position.  It is
    computed from the calls and their return values alone. *)
Record history := {
  g_cur : option string;
  g_files : string → list byte → list byte;
  g_fds : Z → option (string * list byte * Z)
}.

Definition history_init : history :=
  {| g_cur := None; g_files := λ _ _, []; g_fds := λ _, None |}.

Definition upd_file (f : string → list byte → list byte) (p : string) (nm x : list byte)
  : string → list byte → list byte :=
  λ p' nm', if decide (p' = p ∧ nm' = nm) then x else f p' nm'.

Definition clear_volume (f : string → list byte → list byte) (p : string)
  : string → list byte → list byte :=
  λ p' nm', if decide (p' = p) then [] else f p' nm'.

Definition upd_fd (t : Z → option (string * list byte * Z)) (fd : Z)
    (x : option (string * list byte * Z)) : Z → option (string * list byte * Z) :=
  λ fd', if decide (fd' = fd) then x else t fd'.

(** The history after call [c] returned [r]. *)
Definition record (c : call) (r : Z) (g : history) : history :=
  match c with
  | Format p _ _ =>
      if decide (r = 0) then
        {| g_cur := Some p; g_files := clear_volume (g_files g) p; g_fds := g_fds g |}
      else g
  | Mount p _ =>
      if decide (r = 0) then
        {| g_cur := Some p; g_files := g_files g; g_fds := g_fds g |}
      else g
  | Unmount => {| g_cur := None; g_files := g_files g; g_fds := g_fds g |}
  | Open nm _ _ =>
      match g_cur g with
      | Some p =>
          if decide (0 ≤ r) then
            {| g_cur := g_cur g; g_files := g_files g;
               g_fds := upd_fd (g_fds g) r (Some (p, cstr nm, 0)) |}
          else g
      | None => g
      end
  | Close fd => {| g_cur := g_cur g; g_files := g_files g; g_fds := upd_fd (g_fds g) fd None |}
  | Read fd _ =>
      match g_fds g fd with
      | Some (p, nm, pos) =>
          if decide (0 ≤ r) then
            {| g_cur := g_cur g; g_files := g_files g;
               g_fds := upd_fd (g_fds g) fd (Some (p, nm, pos + r)) |}
          else g
      | None => g
      end
  | Write fd buf =>
      match g_fds g fd with
      | Some (p, nm, pos) =>
          if decide (0 ≤ r) then
            {| g_cur := g_cur g;
               g_files := upd_file (g_files g) p nm
                            (overwrite (Z.to_nat pos) buf (g_files g p nm));
               g_fds := upd_fd (g_fds g) fd (Some (p, nm, pos + Z.of_nat (length buf))) |}
          else g
      | None => g
      end
  | Remove nm =>
      match g_cur g with
      | Some p =>
          if decide (r = 0) then
            {| g_cur := g_cur g; g_files := upd_file (g_files g) p (cstr nm) [];
               g_fds := g_fds g |}
          else g
      | None => g
      end
  | _ => g
  end.

(** A read that succeeds returns the bytes written last at the offsets it
    covers: the contents of the file from the position of the descriptor
    on, as many as asked for or as there are. *)
Definition read_ok (c : call) (r : Z) (out : list byte) (g : history) : Prop :=
  match c with
  | Read fd len =>
      0 ≤ r →
      ∃ p nm pos, g_fds g fd = Some (p, nm, pos) ∧
        out = take (Z.to_nat len) (drop (Z.to_nat pos) (g_files g p nm)) ∧
        r = Z.of_nat (length out)
  | _ => True
  end.

Fixpoint reads_ok (cs : list call) (rs : list (Z * list byte)) (g : history) : Prop :=
  match cs, rs with
  | c :: cs', (r, out) :: rs' => read_ok c r out g ∧ reads_ok cs' rs' (record c r g)
  | _, _ => True
  end.

(** Arguments in the range of their C types. *)
Definition call_ok (c : call) : Prop :=
  match c with
  | Format _ n _ => 0 ≤ n < 2 ^ 64
  | Read _ len => 0 ≤ len < 2 ^ 64
  | Write _ buf => Z.of_nat (length buf) < 2 ^ 62
  | List cookie _ => 0 ≤ cookie < 2 ^ 64
  | _ => True
  end.

(** *** The invariant *)

(** Slot [i] of the directory holds the entry [e] of a file. *)
Definition live (d : image) (i : nat) (e : sfs_dir_entry_t) : Prop :=
  files (super d) !! i = Some e ∧ first_block e ≠ 0.

(** The image [d], with free list [fl] and chains [cl], holds the files
    [f]: it is well formed, list heads have no predecessor, no two files
    have the same name, and each file has the contents [f] gives to its
    name; [f] has bytes only for files of the image. *)
Record vol_rel (d : image) (fl : list Z) (cl : list (list Z))
    (f : list byte → list byte) : Prop := {
  vr_wf : wf_image d fl cl;
  vr_free_head : ∀ b, freelist (super d) ≠ 0 →
      blocks d !! Z.to_nat (freelist (super d)) = Some b → prev_block (h b) = 0;
  vr_file_head : ∀ i e b, live d i e →
      blocks d !! Z.to_nat (first_block e) = Some b → prev_block (h b) = 0;
  vr_names : ∀ i j e1 e2, live d i e1 → live d j e2 →
      cstr (name e1) = cstr (name e2) → i = j;
  vr_data : ∀ i e c, live d i e → cl !! i = Some c → file_bytes d e c = f (cstr (name e));
  vr_exists : ∀ nm, f nm ≠ [] → ∃ i e, live d i e ∧ cstr (name e) = nm
}.

(** The v-node [v] points into the current mapping. *)
Definition current (s : state) (v : sfs_mem_file_t) : Prop := (diskFile v).1 = mapping s.

(** The descriptor [t] in slot [fd], whose v-node [v] is current, is at a
    position of the file in the directory slot of [v], on the block of
    that position, and the history has the same file and position for
    [fd]. *)
Definition desc_rel (s : state) (g : history) (d : image) (cl : list (list Z))
    (fd : nat) (t : sfs_mem_filedesc_t) (v : sfs_mem_file_t) : Prop :=
  ∃ e c, files (super d) !! Z.to_nat (fileEntryIdx v) = Some e ∧
    cl !! Z.to_nat (fileEntryIdx v) = Some c ∧
    0 ≤ currPos t ≤ size e ∧ c !! block_index (currPos t) = Some (currBlock t) ∧
    g_fds g (Z.of_nat fd) = Some (mapped_path s, cstr (name e), currPos t).

(** The engine in state [s] and the history [g] agree. *)
Record sim (s : state) (g : history) : Prop := {
  sim_tables : tables_inv s;
  sim_cur : g_cur g = match diskBlocks s with
                    | Some _ => Some (mapped_path s)
                    | None => None
                    end;
  sim_vnode : ∀ a v, vnodes s !! a = Some v →
      ((diskFile v).1 ≤ mapping s)%nat ∧ (diskFile v).2 = fileEntryIdx v;
  sim_disk : ∀ d, diskBlocks s = Some d → ∃ fl cl,
      vol_rel d fl cl (g_files g (mapped_path s)) ∧
      (∀ a v, vnodes s !! a = Some v → current s v →
         ∃ e, live d (Z.to_nat (fileEntryIdx v)) e) ∧
      (∀ fd t v, openFileDescTable s !! fd = Some (Some t) →
         vnodes s !! fileEntry t = Some v → current s v → desc_rel s g d cl fd t v);
  sim_host : ∀ p im, host s !! p = Some im →
      (diskBlocks s ≠ None ∧ p = mapped_path s) ∨
      magic (super im) ≠ SFS_DISK_MAGIC ∨
      ∃ fl cl, vol_rel im fl cl (g_files g p)
}.

Lemma sim_init : sim (init_state ∅) history_init.
Proof.
  split.
  - apply tables_inv_init.
  - done.
  - intros a v H. change (vnodes (init_state ∅)) with (∅ : gmap nat sfs_mem_file_t) in H.
    by rewrite lookup_empty in H.
  - done.
  - intros p im H. change (host (init_state ∅)) with (∅ : gmap string image) in H.
    by rewrite lookup_empty in H.
Qed.

(** Error codes are not 0. *)
Ltac nonzero := first [done | lia | (vm_compute; discriminate) | (vm_compute; intros ?; discriminate)].

(** A call that failed and left the state alone. *)
Ltac failed := simpl; try rewrite decide_False by nonzero; done.

Lemma sim_mount pagesize p io s g r s' :
  sim s g → sfs_mount pagesize p io s = Ret (r, s') → sim s' (record (Mount p io) r g).
Proof.
  intros Hsim H. pose proof (sfs_mount_tables _ _ _ _ _ _ H) as Hst.
  pose proof (tables_inv_same _ _ Hst (sim_tables _ _ Hsim)) as Htab.
  unfold sfs_mount in H.
  destruct (decide (diskBlocks s ≠ None)) as [|Hnone].
  { inversion H; subst. failed. }
  assert (Hd : diskBlocks s = None) by (by destruct (diskBlocks s); [destruct Hnone|]).
  assert (Hok : ∀ im, host s !! p = Some im → magic (super im) = SFS_DISK_MAGIC →
            sim (set_mapping im p s) (record (Mount p io) 0 g)).
  { intros im Him Hmagic. simpl. split; simpl.
    - eapply tables_inv_same; [|exact (sim_tables _ _ Hsim)]. done.
    - done.
    - intros a v Hv. destruct (sim_vnode _ _ Hsim a v Hv). split; [lia|done].
    - intros d Hdd. inversion Hdd; subst d.
      destruct (sim_host _ _ Hsim p im Him) as [[? _]|[?|(fl & cl & Hvol)]]; [done|done|].
      exists fl, cl. split; [done|]. split.
      + intros a v Hv Hc. unfold current in Hc. simpl in Hc.
        destruct (sim_vnode _ _ Hsim a v Hv). lia.
      + intros fd t v _ Hv Hc. unfold current in Hc. simpl in Hc.
        destruct (sim_vnode _ _ Hsim _ v Hv). lia.
    - intros p' im' Hp'.
      destruct (sim_host _ _ Hsim p' im' Hp') as [[? _]|[?|?]]; [done|by right; left|].
      by right; right. }
  destruct (host s !! p) as [im|] eqn:Him.
  - inv_ret H; try failed;
      apply Hok; try done;
      match goal with Hn : ¬ (_ ∨ _ ≠ _) |- _ =>
        destruct (decide (magic (super im) = SFS_DISK_MAGIC)); [done|exfalso; apply Hn; by right]
      end.
  - inv_ret H; failed.
Qed.

Lemma sim_unmount s g r s' :
  sim s g → sfs_unmount s = Ret (r, s') → sim s' (record Unmount r g).
Proof.
  intros Hsim H. pose proof (sfs_unmount_tables _ _ _ H) as Hst.
  pose proof (tables_inv_same _ _ Hst (sim_tables _ _ Hsim)) as Htab.
  unfold sfs_unmount in H. destruct (diskBlocks s) as [d|] eqn:Hd.
  - inversion H; subst; clear H. split; simpl.
    + done.
    + done.
    + apply (sim_vnode _ _ Hsim).
    + done.
    + intros p im Hp. right. destruct (decide (p = mapped_path s)) as [->|Hne].
      * rewrite lookup_insert_eq in Hp. inversion Hp; subst im.
        destruct (sim_disk _ _ Hsim d Hd) as (fl & cl & Hvol & _). right. eauto.
      * rewrite lookup_insert_ne in Hp by done.
        destruct (sim_host _ _ Hsim p im Hp) as [[_ ?]|[?|?]]; [done|by left|by right].
  - inversion H; subst; clear H. split; simpl; try apply Hsim. by rewrite Hd.
Qed.

(** *** A freshly formatted volume *)

(** The block ids [k], [k + 1], ..., [m] of them. *)
Definition ids (k m : nat) : list Z := Z.of_nat <$> seq k m.

Lemma chain_ids d n : ∀ m k,
  (1 ≤ k)%nat → (k + m = n)%nat →
  (∀ j, (k ≤ j < n)%nat → ∃ b, blocks d !! j = Some b ∧
        next_block (h b) = if decide (Z.of_nat j + 1 = Z.of_nat n) then 0 else Z.of_nat j + 1) →
  seg d (if decide (m = O) then 0 else Z.of_nat k) (ids k m) 0.
Proof.
  induction m as [|m IH]; intros k Hk Hn Hb; [done|].
  rewrite decide_False by done. unfold ids. simpl. split; [done|]. split; [lia|].
  destruct (Hb k ltac:(lia)) as (b & Hbk & Hnext). exists b.
  rewrite Nat2Z.id. split; [done|]. rewrite Hnext.
  specialize (IH (S k) ltac:(lia) ltac:(lia)).
  destruct (decide (m = O)) as [->|Hm].
  - rewrite decide_True by lia. apply IH. intros j Hj. lia.
  - rewrite decide_False by lia. replace (Z.of_nat k + 1) with (Z.of_nat (S k)) by lia.
    apply IH. intros j Hj. apply Hb. lia.
Qed.

Lemma vol_rel_ext d fl cl f f' :
  (∀ nm, f nm = f' nm) → vol_rel d fl cl f → vol_rel d fl cl f'.
Proof.
  intros Heq [Hwf Hfh Hh Hnames Hdata Hex]. split; try done.
  - intros i e c He Hc. rewrite <- Heq. by eapply Hdata.
  - intros nm Hnm. apply Hex. by rewrite Heq.
Qed.

(** The image [sfs_format] leaves is a volume without files. *)
Lemma formatted_vol d nb :
  (2 ≤ nb)%nat → length (blocks d) = nb →
  files (super d) = replicate (Z.to_nat DIR_ENTRIES_PER_BLOCK) zero_dir_entry →
  freelist (super d) = 1 →
  blocks d !! O = Some zero_block →
  (∀ j, 1 ≤ j < Z.of_nat nb →
     blocks d !! Z.to_nat j = Some (formatted_block (Z.of_nat nb) j zero_block)) →
  vol_rel d (ids 1 (nb - 1)) (replicate (Z.to_nat DIR_ENTRIES_PER_BLOCK) []) (λ _, []).
Proof.
  intros Hnb Hlen Hfiles Hfl H0 Hblocks.
  assert (Hdead : ∀ i e, ¬ live d i e).
  { intros i e [He Hlive]. rewrite Hfiles in He. apply lookup_replicate in He as [-> _]. done. }
  assert (Hin : ∀ x, x ∈ ids 1 (nb - 1) → 1 ≤ x < Z.of_nat nb).
  { intros x Hx. unfold ids in Hx. apply list_elem_of_fmap in Hx as (j & -> & Hj).
    apply elem_of_seq in Hj. lia. }
  split.
  - split.
    + by rewrite Hfiles, length_replicate.
    + by rewrite length_replicate.
    + unfold chain. rewrite Hfl.
      pose proof (chain_ids d nb (nb - 1) 1 ltac:(lia) ltac:(lia)) as Hc.
      rewrite decide_False in Hc by lia. apply Hc. intros j Hj.
      exists (formatted_block (Z.of_nat nb) (Z.of_nat j) zero_block).
      split; [rewrite <- (Nat2Z.id j) at 1; apply Hblocks; lia|]. done.
    + intros x Hx. eexists. split; [apply Hblocks; by apply Hin|]. done.
    + intros i e c He Hc. rewrite Hfiles in He. apply lookup_replicate in He as [-> _].
      apply lookup_replicate in Hc as [-> _]. done.
    + change (concat (replicate (Z.to_nat DIR_ENTRIES_PER_BLOCK) (@nil Z))) with (@nil Z).
      rewrite app_nil_r. unfold ids. apply NoDup_fmap_2; [|apply NoDup_seq].
      intros x y. lia.
    + intros i b Hb. destruct i as [|i].
      * rewrite H0 in Hb. by inversion Hb.
      * assert (Hi : 1 ≤ Z.of_nat (S i) < Z.of_nat nb).
        { apply lookup_lt_Some in Hb. lia. }
        rewrite <- (Nat2Z.id (S i)), (Hblocks _ Hi) in Hb. by inversion Hb.
  - intros b _ Hb. rewrite Hfl, (Hblocks 1 ltac:(lia)) in Hb. by inversion Hb.
  - intros i e b Hl. by destruct (Hdead i e).
  - intros i j e1 e2 Hl. by destruct (Hdead i e1).
  - intros i e c Hl. by destruct (Hdead i e).
  - done.
Qed.

Lemma sim_format pagesize p n io s g r s' :
  sim s g → 512 < pagesize → 0 ≤ n < 2 ^ 64 →
  sfs_format pagesize p n io s = Ret (r, s') → sim s' (record (Format p n io) r g).
Proof.
  intros Hsim Hpage Hsize H. pose proof (sfs_format_tables _ _ _ _ _ _ _ H) as Hst.
  pose proof (tables_inv_same _ _ Hst (sim_tables _ _ Hsim)) as Htab.
  unfold sfs_format in H.
  apply bind_Ret_inv in H as (u1 & _ & H). apply bind_Ret_inv in H as (u2 & Hpg & H).
  apply assert_Ret_inv in Hpg.
  repeat (match type of H with (if decide ?P then _ else _) = _ => destruct (decide P) end);
    try (inversion H; subst; failed).
  assert (Hd : diskBlocks s = None).
  { destruct (diskBlocks s); [|done].
    match goal with Hn : ¬ (_ ≠ None) |- _ => by destruct Hn end. }
  set (nb := n / SFS_BLOCK_SIZE) in *.
  assert (Hn2 : 2 ≤ nb).
  { unfold nb, SFS_BLOCK_SIZE in *.
    assert (Hp : pagesize = 512 * (pagesize / 512))
      by (rewrite (Z.div_mod pagesize 512) at 1 by lia; lia).
    assert (Hdv : n = pagesize * (n / pagesize))
      by (rewrite (Z.div_mod n pagesize) at 1 by lia; lia).
    assert (0 ≤ n / pagesize) by (apply Z.div_pos; lia).
    assert (1 ≤ n / pagesize) by lia.
    assert (1024 ≤ pagesize) by lia.
    assert (1024 ≤ n) by nia. dlia. }
  (* a failed format leaves at most a file that cannot be mounted *)
  assert (Hbad : ∀ k, sim (set_host (<[p := zero_image k]> (host s)) s) g).
  { intros k. split; simpl;
      [by eapply tables_inv_same; [|exact (sim_tables _ _ Hsim)] | exact (sim_cur _ _ Hsim) | exact (sim_vnode _ _ Hsim)
      | exact (sim_disk _ _ Hsim) | ].
    intros p' im Hp'. destruct (decide (p' = p)) as [->|Hne].
    - rewrite lookup_insert_eq in Hp'. inversion Hp'; subst im. right. left. by_eval.
    - rewrite lookup_insert_ne in Hp' by done. by apply (sim_host _ _ Hsim). }
  (* a successful one a mounted volume without files *)
  assert (Hgood : ∀ d2,
    format_loop (Z.to_nat nb)
      {| super := {| magic := SFS_DISK_MAGIC; n_blocks := u32 nb; freelist := 1;
                     next_rootdir := next_rootdir (super (zero_image (Z.to_nat nb)));
                     files := files (super (zero_image (Z.to_nat nb))) |};
         blocks := blocks (zero_image (Z.to_nat nb)) |} 1 nb = Ret d2 →
    nb ≤ UINT32_MAX →
    sim (set_disk d2 (set_mapping (zero_image (Z.to_nat nb)) p
           (set_host (<[p := zero_image (Z.to_nat nb)]> (host s)) s)))
        (record (Format p n io) 0 g)).
  { intros d2 Hloop Hmax.
    match type of Hloop with format_loop _ ?d1 _ _ = _ =>
      destruct (format_loop_spec (Z.to_nat nb) d1 1 nb) as (d' & Hrun & Hsup & Hlen & Hin & Hout)
    end; [lia | done | simpl; rewrite length_replicate; lia | lia |].
    rewrite Hrun in Hloop. inversion Hloop; subst d'; clear Hloop.
    simpl in Hlen. rewrite length_replicate in Hlen.
    assert (Hvol : vol_rel d2 (ids 1 (Z.to_nat nb - 1))
                     (replicate (Z.to_nat DIR_ENTRIES_PER_BLOCK) []) (λ _, [])).
    { apply formatted_vol; try done.
      - lia.
      - by rewrite Hsup.
      - by rewrite Hsup.
      - change O with (Z.to_nat 0). rewrite (Hout 0 ltac:(lia)). simpl.
        apply lookup_replicate. split; [done|lia].
      - intros j Hj. rewrite Z2Nat.id in * by lia.
        destruct (Hin j ltac:(lia)) as (b0 & Hb0 & Hbj). simpl in Hb0.
        apply lookup_replicate in Hb0 as [-> _]. done. }
    simpl. split; simpl.
    - eapply tables_inv_same; [|exact (sim_tables _ _ Hsim)]. done.
    - done.
    - intros a v Hv. destruct (sim_vnode _ _ Hsim a v Hv). split; [lia|done].
    - intros d Hdd. inversion Hdd; subst d. eexists _, _. split.
      + eapply vol_rel_ext; [|exact Hvol]. intros nm. unfold clear_volume.
        by rewrite decide_True.
      + split.
        * intros a v Hv Hc. unfold current in Hc. simpl in Hc.
          destruct (sim_vnode _ _ Hsim a v Hv). lia.
        * intros fd t v _ Hv Hc. unfold current in Hc. simpl in Hc.
          destruct (sim_vnode _ _ Hsim _ v Hv). lia.
    - intros p' im Hp'. destruct (decide (p' = p)) as [->|Hne]; [by left|].
      rewrite lookup_insert_ne in Hp' by done.
      destruct (sim_host _ _ Hsim p' im Hp') as [[? _]|[?|(fl & cl & Hv)]];
        [done|by right; left|].
      right. right. exists fl, cl. eapply vol_rel_ext; [|exact Hv].
      intros nm. unfold clear_volume. by rewrite decide_False. }
  destruct io; try (inversion H; subst; first [failed | simpl; apply Hbad]).
  all: apply bind_Ret_inv in H as (u3 & Hn & H); apply assert_Ret_inv in Hn.
  all: apply bind_Ret_inv in H as (d2 & Hloop & H); inversion H; subst; clear H.
  all: by apply Hgood.
Qed.

(** *** Reading *)

(** [sfs_read] on a descriptor open on the file in slot [i] of a
    well-formed volume returns the bytes of the file from the position
    on. *)
Lemma sfs_read_spec s d fl cl fd t i v e c len :
  diskBlocks s = Some d → wf_image d fl cl →
  0 ≤ fd ≤ OPEN_FILE_LIMIT → openFileDescTable s !! Z.to_nat fd = Some (Some t) →
  vnodes s !! fileEntry t = Some v → diskFile v = (mapping s, Z.of_nat i) →
  files (super d) !! i = Some e → first_block e ≠ 0 → cl !! i = Some c →
  0 ≤ currPos t ≤ size e → c !! block_index (currPos t) = Some (currBlock t) →
  0 ≤ len →
  let out := take (Z.to_nat len) (drop (Z.to_nat (currPos t)) (file_bytes d e c)) in
  ∃ r,
    sfs_read fd len s
      = Ret (Z.of_nat (length out), out,
             set_openFileDescTable
               (<[Z.to_nat fd := Some {| fileEntry := fileEntry t; startBlock := startBlock t;
                                         currBlock := r;
                                         currPos := currPos t + Z.of_nat (length out) |}]>
                  (openFileDescTable s)) s) ∧
    c !! block_index (currPos t + Z.of_nat (length out)) = Some r ∧
    currPos t + Z.of_nat (length out) ≤ size e.
Proof.
  intros Hd Hwf Hfd Hslot Hv Hdf He Hlive Hc Hpos Hcur Hlen out.
  destruct (wf_file_blocks _ _ _ _ _ _ Hwf He Hc Hlive) as (Hch & Hfb & Hndc & Hclen & Hesz).
  assert (Hp63 : 0 ≤ currPos t < 2 ^ 63) by (pow_norm; lia).
  pose proof (roundUp_bounds (size e) ltac:(pow_norm; lia)) as [Hal _].
  destruct (pos_split (currPos t) Hp63) as (off & Hoff & Hsplit & Hmod & Hru & Hidx).
  set (m := Z.min (size e - currPos t) len).
  destruct (Hidx m ltac:(lia)) as [Hend Hfuel].
  set (j := block_index (currPos t)) in *.
  (* the chain from the current block on *)
  pose proof (take_drop_middle c j (currBlock t) Hcur) as Hmid.
  assert (Hprelen : length (take j c) = j).
  { rewrite length_take. apply lookup_lt_Some in Hcur. lia. }
  remember (take j c) as pre eqn:Hpre0. remember (drop (S j) c) as rc eqn:Hrc0.
  clear Hpre0 Hrc0.
  assert (Hcl : length c = (j + S (length rc))%nat).
  { rewrite <- Hmid, length_app. simpl. lia. }
  pose proof Hch as Hch0. unfold chain in Hch0. rewrite <- Hmid in Hch0.
  apply seg_app in Hch0 as (x0 & Hsegpre & Hseg). pose proof Hseg as (-> & _).
  rewrite <- Hmid in Hfb. apply file_blocks_app in Hfb as [Hfbpre Hfbrc].
  destruct (read_loop_spec rc d (currBlock t) off m [] (Z.to_nat (m / BLOCK_DATA_SIZE + 2))
              Hseg Hfbrc Hoff) as (r & Hloop & Hr); [lia|pow_norm; lia|done|].
  (* what was read *)
  assert (Hout : out = take (Z.to_nat m)
                         (drop (Z.to_nat off) (chain_data d (currBlock t :: rc)))).
  { unfold out, file_bytes. rewrite <- Hmid, chain_data_app.
    replace (Z.to_nat (size e))
      with (Z.to_nat (currPos t) + (Z.to_nat (size e) - Z.to_nat (currPos t)))%nat by lia.
    rewrite <- take_drop_commute, take_take.
    rewrite drop_app_ge; rewrite (chain_data_length d pre Hfbpre); [|lia].
    f_equal; [unfold m; lia|]. f_equal. lia. }
  assert (Houtlen : Z.of_nat (length out) = m).
  { rewrite Hout, length_take, length_drop, (chain_data_length _ _ Hfbrc). simpl length. lia. }
  exists r. split; [|split].
  - unfold sfs_read. rewrite decide_False by lia.
    rewrite Hslot, deref_Some, bind_Ret. rewrite Hv, deref_Some, bind_Ret.
    rewrite (diskFile_get_ok s d v i e Hd Hdf He), bind_Ret.
    rewrite (assert_decide (currPos t ≤ size e)) by lia. rewrite bind_Ret.
    rewrite (u64_small (size e - currPos t)) by (pow_norm; lia).
    rewrite sizeMin_min. fold m.
    unfold accessSuperBlock. rewrite Hd, bind_Ret.
    destruct (Hfbrc (currBlock t)) as (bx & Hbx & Htyx & _); [by left|].
    pose proof Hseg as (_ & Hxpos & _).
    rewrite (accessFileBlock_Ret d _ bx Hbx Hxpos Htyx), bind_Ret.
    rewrite Hmod, sizeMin_min, Hru, Hloop, bind_Ret. simpl idOfBlock. rewrite bind_Ret.
    rewrite to_ssize_small by (pow_norm; lia).
    rewrite u64_small by (pow_norm; lia). rewrite app_nil_l, <- Hout, Houtlen. done.
  - rewrite Houtlen, Hend, <- Hmid. rewrite lookup_app_r by lia.
    by replace (j + last_index off m - length pre)%nat with (last_index off m) by lia.
  - lia.
Qed.

(** The invariant after a change of the image and of the descriptors. *)
Lemma sim_change s g d d' fl' cl' tbl' g' :
  sim s g → diskBlocks s = Some d →
  tables_inv (set_openFileDescTable tbl' (set_disk d' s)) →
  g_cur g' = g_cur g →
  (∀ p nm, p ≠ mapped_path s → g_files g' p nm = g_files g p nm) →
  vol_rel d' fl' cl' (g_files g' (mapped_path s)) →
  (∀ a v, vnodes s !! a = Some v → current s v →
     ∃ e, live d' (Z.to_nat (fileEntryIdx v)) e) →
  (∀ fd t v, tbl' !! fd = Some (Some t) → vnodes s !! fileEntry t = Some v → current s v →
     desc_rel s g' d' cl' fd t v) →
  sim (set_openFileDescTable tbl' (set_disk d' s)) g'.
Proof.
  intros Hsim Hd Htab Hcur Hother Hvol Hlive Hdesc. split; simpl.
  - done.
  - rewrite Hcur, (sim_cur _ _ Hsim), Hd. done.
  - apply (sim_vnode _ _ Hsim).
  - intros d0 Hd0. inversion Hd0; subst d0. exists fl', cl'. done.
  - intros p im Hp. destruct (decide (p = mapped_path s)) as [->|Hne]; [by left|].
    destruct (sim_host _ _ Hsim p im Hp) as [[_ ?]|[?|(fl & cl & Hv)]];
      [done|by right; left|].
    right. right. exists fl, cl. eapply vol_rel_ext; [|exact Hv].
    intros nm. symmetry. by apply Hother.
Qed.

(** The slot of a v-node of the current mapping. *)
Lemma current_diskFile s g a v :
  sim s g → vnodes s !! a = Some v → current s v →
  diskFile v = (mapping s, Z.of_nat (Z.to_nat (fileEntryIdx v))).
Proof.
  intros Hsim Hv Hc. destruct (sim_vnode _ _ Hsim a v Hv) as [_ H2].
  destruct (ti_vnode _ (sim_tables _ _ Hsim) a v Hv) as [H0 _].
  unfold current in Hc. destruct (diskFile v) as [gen k]. simpl in *. subst.
  f_equal. lia.
Qed.

(** What a descriptor in use says when its file can be reached. *)
Lemma desc_facts s g d fd t v e :
  sim s g → diskBlocks s = Some d →
  openFileDescTable s !! fd = Some (Some t) → vnodes s !! fileEntry t = Some v →
  diskFile_get s (diskFile v) = Ret e →
  ∃ fl cl c, let i := Z.to_nat (fileEntryIdx v) in
    vol_rel d fl cl (g_files g (mapped_path s)) ∧
    (∀ a v, vnodes s !! a = Some v → current s v →
       ∃ e, live d (Z.to_nat (fileEntryIdx v)) e) ∧
    (∀ fd t v, openFileDescTable s !! fd = Some (Some t) →
       vnodes s !! fileEntry t = Some v → current s v → desc_rel s g d cl fd t v) ∧
    current s v ∧ diskFile v = (mapping s, Z.of_nat i) ∧
    live d i e ∧ cl !! i = Some c ∧
    0 ≤ currPos t ≤ size e ∧ c !! block_index (currPos t) = Some (currBlock t) ∧
    g_fds g (Z.of_nat fd) = Some (mapped_path s, cstr (name e), currPos t).
Proof.
  intros Hsim Hd Hslot Hv He. unfold diskFile_get in He. rewrite Hd in He.
  destruct (decide ((diskFile v).1 = mapping s)) as [Hcur|]; [|done].
  apply deref_Ret in He.
  pose proof (current_diskFile _ _ _ _ Hsim Hv Hcur) as Hdf.
  rewrite Hdf in He. simpl in He. rewrite Nat2Z.id in He.
  destruct (sim_disk _ _ Hsim d Hd) as (fl & cl & Hvol & Hlive & Hdesc).
  destruct (Hdesc fd t v Hslot Hv Hcur) as (e' & c & He' & Hc & Hpos & Hblk & Hg).
  rewrite He in He'. inversion He'; subst e'.
  destruct (Hlive _ v Hv Hcur) as (e'' & He'' & Hl). rewrite He in He''.
  inversion He''; subst e''.
  exists fl, cl, c. cbv zeta. by repeat (split; [done|]).
Qed.

Lemma sim_read fd len s g r out s' :
  sim s g → 0 ≤ len →
  sfs_read fd len s = Ret (r, out, s') →
  read_ok (Read fd len) r out g ∧ sim s' (record (Read fd len) r g).
Proof.
  intros Hsim Hlen H. pose proof H as H0.
  pose proof (tables_inv_same _ _ (sfs_read_tables _ _ _ _ _ _ H) (sim_tables _ _ Hsim)) as Htab.
  assert (Hfail : r < 0 → s' = s → read_ok (Read fd len) r out g ∧ sim s' (record (Read fd len) r g)).
  { intros Hr ->. split; [simpl; lia|]. simpl.
    destruct (g_fds g fd) as [[[p nm] pos]|]; [|done]. by rewrite decide_False by lia. }
  unfold sfs_read in H.
  destruct (decide (fd < 0 ∨ fd > OPEN_FILE_LIMIT)) as [|Hfd].
  { inversion H; subst. by apply Hfail. }
  apply bind_Ret_inv in H as (o & Ho & H). apply deref_Ret in Ho.
  destruct o as [t|]; [|inversion H; subst; by apply Hfail].
  apply bind_Ret_inv in H as (v & Hv & H). apply deref_Ret in Hv.
  apply bind_Ret_inv in H as (e & He & H). clear H.
  assert (∃ d, diskBlocks s = Some d) as [d Hd].
  { unfold diskFile_get in He. destruct (diskBlocks s); [eauto|done]. }
  destruct (desc_facts s g d _ t v e Hsim Hd Ho Hv He)
    as (fl & cl & c & Hvol & Hlive & Hdesc & Hcur & Hdf & [Hfe Hl] & Hc & Hpos & Hblk & Hg).
  rewrite Z2Nat.id in Hg by lia.
  destruct (sfs_read_spec s d fl cl fd t _ v e c len Hd (vr_wf _ _ _ _ Hvol) ltac:(lia) Ho Hv
              Hdf Hfe Hl Hc Hpos Hblk Hlen) as (rb & Hrun & Hrb & Hle).
  rewrite Hrun in H0. inversion H0; subst; clear H0.
  rewrite (vr_data _ _ _ _ Hvol _ e c (conj Hfe Hl) Hc) in *.
  set (out := take (Z.to_nat len)
                (drop (Z.to_nat (currPos t)) (g_files g (mapped_path s) (cstr (name e))))) in *.
  split.
  { simpl. intros _. exists (mapped_path s), (cstr (name e)), (currPos t). done. }
  simpl. rewrite Hg. rewrite decide_True by lia.
  assert (Hs : ∀ tbl, set_openFileDescTable tbl s
                      = set_openFileDescTable tbl (set_disk d s)).
  { intros tbl. by rewrite set_disk_id. }
  rewrite Hs in Htab |- *.
  eapply (sim_change s g d d fl cl); try done.
  intros fd' t' v' Hslot' Hv' Hcur'.
  destruct (decide (fd' = Z.to_nat fd)) as [->|Hne].
  - rewrite list_lookup_insert_eq in Hslot' by (by apply lookup_lt_Some in Ho).
    inversion Hslot'; subst t'; clear Hslot'. simpl in *.
    rewrite Hv in Hv'. inversion Hv'; subst v'.
    exists e, c. simpl. split; [done|]. split; [done|]. split; [lia|]. split; [done|].
    unfold upd_fd. rewrite decide_True by lia. done.
  - rewrite list_lookup_insert_ne in Hslot' by done.
    destruct (Hdesc fd' t' v' Hslot' Hv' Hcur') as (e' & c' & ? & ? & ? & ? & Hg').
    exists e', c'. repeat (split; [done|]). simpl. unfold upd_fd.
    rewrite decide_False by lia. done.
Qed.

(** *** Writing *)

(** The directory after the size of the file in slot [i] has changed. *)
Lemma live_resized d d' i e sz :
  files (super d) !! i = Some e →
  files (super d') = <[i := {| first_block := first_block e; size := sz; name := name e |}]>
                       (files (super d)) →
  (∀ k e', live d' k e' →
     ∃ eo, live d k eo ∧ name e' = name eo ∧ first_block e' = first_block eo ∧
           (k ≠ i → e' = eo) ∧ (k = i → eo = e ∧ size e' = sz)) ∧
  (∀ k eo, live d k eo →
     ∃ e', live d' k e' ∧ name e' = name eo ∧ first_block e' = first_block eo ∧
           (k ≠ i → e' = eo) ∧ (k = i → eo = e ∧ size e' = sz)).
Proof.
  intros He Hfiles. assert (Hi : (i < length (files (super d)))%nat) by (by apply lookup_lt_Some in He).
  split.
  - intros k e' [Hk Hl]. rewrite Hfiles in Hk. destruct (decide (k = i)) as [->|Hne].
    + rewrite list_lookup_insert_eq in Hk by done. inversion Hk; subst e'. simpl in *.
      exists e. by repeat split.
    + rewrite list_lookup_insert_ne in Hk by done. exists e'. by repeat split.
  - intros k eo [Hk Hl]. destruct (decide (k = i)) as [->|Hne].
    + rewrite He in Hk. inversion Hk; subst eo. eexists. split; [split|].
      * rewrite Hfiles. by apply list_lookup_insert_eq.
      * done.
      * by repeat split.
    + exists eo. split; [split; [|done]|by repeat split].
      rewrite Hfiles. by rewrite list_lookup_insert_ne.
Qed.

Lemma vol_rel_write d fl cl f i e c d' n buf pos :
  vol_rel d fl cl f → live d i e → cl !! i = Some c → 0 ≤ pos ≤ size e →
  wf_image d' (drop n fl) (<[i := c ++ take n fl]> cl) →
  files (super d') = <[i := {| first_block := first_block e;
                               size := Z.max (size e) (pos + Z.of_nat (length buf));
                               name := name e |}]> (files (super d)) →
  chain_data d' (c ++ take n fl)
    = overwrite (Z.to_nat pos) buf (chain_data d (c ++ take n fl)) →
  (∀ j c2, j ≠ i → cl !! j = Some c2 → chain_data d' c2 = chain_data d c2) →
  (∀ k b, blocks d !! k = Some b → prev_block (h b) = 0 →
     (∀ y, y ∈ fl → Z.to_nat y ≠ k) →
     ∃ b', blocks d' !! k = Some b' ∧ prev_block (h b') = 0) →
  free_head_ok d' →
  vol_rel d' (drop n fl) (<[i := c ++ take n fl]> cl)
    (λ nm, if decide (nm = cstr (name e)) then overwrite (Z.to_nat pos) buf (f nm) else f nm).
Proof.
  intros Hvol [He Hlive] Hc Hpos Hwf' Hfiles Hdata Hothers Hprev Hfree.
  pose proof (vr_wf _ _ _ _ Hvol) as Hwf.
  destruct (live_resized d d' i e _ He Hfiles) as [Hnew Hold].
  destruct (wf_file_blocks _ _ _ _ _ _ Hwf He Hc Hlive) as (Hch & Hfb & Hndc & Hclen & Hesz).
  assert (Hic : (i < length cl)%nat) by (by apply lookup_lt_Some in Hc).
  split.
  - done.
  - exact Hfree.
  - intros k e' b Hl Hb. destruct (Hnew k e' Hl) as (eo & [Hko Hlo] & _ & Hfb' & _).
    rewrite Hfb' in Hb.
    assert (is_Some (cl !! k)) as [ck Hck].
    { apply lookup_lt_is_Some. rewrite (wfi_chains _ _ _ Hwf), <- (wfi_files _ _ _ Hwf).
      by apply lookup_lt_Some in Hko. }
    destruct (wf_file_blocks _ _ _ _ _ _ Hwf Hko Hck Hlo) as (Hchk & _).
    destruct (chain_head _ _ _ Hchk) as [[? _]|[Hpos0 Hin]]; [done|].
    destruct (seg_lookup _ _ _ _ _ Hchk Hin) as [b0 Hb0].
    destruct (Hprev _ b0 Hb0) as (b' & Hb' & Hp').
    + by eapply (vr_file_head _ _ _ _ Hvol k eo).
    + intros y Hy. apply (to_nat_ne_pos fl); [|done|done|].
      * intros z Hz. by eapply (seg_pos _ _ _ _ _ (wfi_free _ _ _ Hwf)).
      * by eapply wf_chain_free_disjoint.
    + rewrite Hb in Hb'. by inversion Hb'; subst.
  - intros k1 k2 e1 e2 Hl1 Hl2 Hnm.
    destruct (Hnew k1 e1 Hl1) as (eo1 & Hlo1 & Hn1 & _).
    destruct (Hnew k2 e2 Hl2) as (eo2 & Hlo2 & Hn2 & _).
    apply (vr_names _ _ _ _ Hvol k1 k2 eo1 eo2 Hlo1 Hlo2). congruence.
  - intros k e' c' Hl Hc'. destruct (Hnew k e' Hl) as (eo & Hlo & Hn & _ & Hne & Heq).
    destruct (decide (k = i)) as [->|Hki].
    + destruct (Heq eq_refl) as [-> Hsz]. rewrite Hn, decide_True by done.
      rewrite list_lookup_insert_eq in Hc' by done. inversion Hc'; subst c'.
      rewrite <- (vr_data _ _ _ _ Hvol i e c (conj He Hlive) Hc).
      unfold file_bytes. rewrite Hsz, Hdata, chain_data_app.
      assert (Hla : length (chain_data d c) = (500 * length c)%nat) by (by apply chain_data_length).
      pose proof (roundUp_bounds (size e) ltac:(pow_norm; lia)) as [Hb _].
      replace (Z.to_nat (Z.max (size e) (pos + Z.of_nat (length buf))))
        with (Nat.max (Z.to_nat (size e)) (Z.to_nat pos + length buf)) by lia.
      apply take_overwrite; [lia|]. rewrite Hla. lia.
    + rewrite (Hne Hki) in *. rewrite list_lookup_insert_ne in Hc' by done.
      rewrite decide_False.
      * rewrite <- (vr_data _ _ _ _ Hvol k eo c' Hlo Hc'). unfold file_bytes.
        by rewrite (Hothers k c').
      * intros Hnm. apply Hki. by apply (vr_names _ _ _ _ Hvol k i eo e Hlo (conj He Hlive)).
  - intros nm Hnm. destruct (decide (nm = cstr (name e))) as [->|Hne].
    + destruct (Hold i e (conj He Hlive)) as (e' & Hl' & Hn' & _). exists i, e'.
      split; [done|]. by rewrite Hn'.
    + destruct (vr_exists _ _ _ _ Hvol nm Hnm) as (k & eo & Hlo & Hno).
      destruct (Hold k eo Hlo) as (e' & Hl' & Hn' & _). exists k, e'.
      split; [done|]. by rewrite Hn'.
Qed.

Lemma sim_write fd buf s g r s' :
  sim s g → Z.of_nat (length buf) < 2 ^ 62 →
  sfs_write fd buf s = Ret (r, s') → sim s' (record (Write fd buf) r g).
Proof.
  intros Hsim Hlen H. pose proof H as H0.
  pose proof (tables_inv_same _ _ (sfs_write_tables _ _ _ _ _ H) (sim_tables _ _ Hsim)) as Htab.
  assert (Hfail : r < 0 → s' = s → sim s' (record (Write fd buf) r g)).
  { intros Hr ->. simpl.
    destruct (g_fds g fd) as [[[p nm] pos]|]; [|done]. by rewrite decide_False by lia. }
  unfold sfs_write in H.
  destruct (decide (fd < 0 ∨ fd > OPEN_FILE_LIMIT)) as [|Hfd].
  { inversion H; subst. by apply Hfail. }
  apply bind_Ret_inv in H as (o & Ho & H). apply deref_Ret in Ho.
  destruct o as [t|]; [|inversion H; subst; by apply Hfail].
  apply bind_Ret_inv in H as (v & Hv & H). apply deref_Ret in Hv.
  apply bind_Ret_inv in H as (e & He & H). clear H.
  assert (∃ d, diskBlocks s = Some d) as [d Hd].
  { unfold diskFile_get in He. destruct (diskBlocks s); [eauto|done]. }
  destruct (desc_facts s g d _ t v e Hsim Hd Ho Hv He)
    as (fl & cl & c & Hvol & Hlive & Hdesc & Hcur & Hdf & [Hfe Hl] & Hc & Hpos & Hblk & Hg).
  rewrite Z2Nat.id in Hg by lia.
  assert (Hfd32 : 0 ≤ fd < OPEN_FILE_LIMIT).
  { apply lookup_lt_Some in Ho. rewrite (ti_len_descs _ (sim_tables _ _ Hsim)) in Ho. lia. }
  pose proof (sfs_write_spec s d fl cl fd t _ v e c buf Hd (vr_wf _ _ _ _ Hvol) Hfd32 Ho Hv
                Hdf Hfe Hl Hc Hpos Hblk Hlen) as Hspec.
  cbv zeta in Hspec.
  destruct (decide _) as [Hbig|Hfit] in Hspec.
  { rewrite Hspec in H0. inversion H0; subst. by apply Hfail. }
  destruct (decide _) as [Hshort|Hroom] in Hspec.
  { rewrite Hspec in H0. inversion H0; subst. by apply Hfail. }
  destruct Hspec as (d' & rb & Hrun & Hrb & Hwf' & Hfiles & Hdata & Hothers & _ & _ & _ & _
                     & Hprev & Hfree).
  rewrite Hrun in H0. inversion H0; subst; clear H0.
  set (i := Z.to_nat (fileEntryIdx v)) in *.
  set (nn := new_blocks (roundUp (size e) BLOCK_DATA_SIZE)
              (currPos t + Z.of_nat (length buf))) in *.
  simpl. rewrite Hg. rewrite decide_True by lia.
  destruct (live_resized d d' i e _ Hfe Hfiles) as [Hnew Hold].
  eapply (sim_change s g d d' (drop nn fl) (<[i := c ++ take nn fl]> cl)); try done.
  - intros p nm Hp. simpl. unfold upd_file. rewrite decide_False; [done|]. by intros [? _].
  - eapply vol_rel_ext; [|eapply (vol_rel_write d fl cl _ i e c d' nn buf (currPos t)); try done].
    + intros nm. simpl. unfold upd_file. destruct (decide (nm = cstr (name e))) as [->|Hne].
      * by rewrite decide_True.
      * rewrite decide_False; [done|]. by intros [_ ?].
    + apply Hfree. exact (vr_free_head _ _ _ _ Hvol).
  - intros a v' Hv' Hcur'. destruct (Hlive a v' Hv' Hcur') as (eo & Hlo).
    destruct (Hold _ eo Hlo) as (e' & Hl' & _). eauto.
  - intros fd' t' v' Hslot' Hv' Hcur'.
    destruct (decide (fd' = Z.to_nat fd)) as [->|Hne].
    + rewrite list_lookup_insert_eq in Hslot' by (by apply lookup_lt_Some in Ho).
      inversion Hslot'; subst t'; clear Hslot'. simpl in *.
      rewrite Hv in Hv'. inversion Hv'; subst v'. fold i.
      eexists _, (c ++ take nn fl). split; [rewrite Hfiles; apply list_lookup_insert_eq|].
      { by apply lookup_lt_Some in Hfe. }
      split; [apply list_lookup_insert_eq; by apply lookup_lt_Some in Hc|]. simpl.
      split; [lia|]. split; [done|]. unfold upd_fd. rewrite decide_True by lia. done.
    + rewrite list_lookup_insert_ne in Hslot' by done.
      destruct (Hdesc fd' t' v' Hslot' Hv' Hcur') as (e1 & c1 & He1 & Hc1 & Hpos1 & Hblk1 & Hg1).
      destruct (Hlive _ v' Hv' Hcur') as (e1' & He1' & Hl1). rewrite He1 in He1'.
      inversion He1'; subst e1'.
      destruct (Hold _ e1 (conj He1 Hl1)) as (e2 & [He2 Hl2] & Hn2 & _ & Hne2 & Heq2).
      assert (Hfds : g_fds g (Z.of_nat fd') =
                Some (mapped_path s, cstr (name e2), currPos t')) by (by rewrite Hn2).
      destruct (decide (Z.to_nat (fileEntryIdx v') = i)) as [Hi|Hi].
      * destruct (Heq2 Hi) as [-> Hsz]. rewrite Hi in *. rewrite Hc in Hc1.
        inversion Hc1; subst c1. unfold desc_rel. rewrite Hi.
        exists e2, (c ++ take nn fl). split; [done|].
        split; [apply list_lookup_insert_eq; by apply lookup_lt_Some in Hc|].
        split; [lia|]. split; [by apply lookup_app_l_Some|].
        simpl. unfold upd_fd. rewrite decide_False by lia. done.
      * rewrite (Hne2 Hi) in *. exists e1, c1. split; [done|].
        split; [by rewrite list_lookup_insert_ne|].
        split; [done|]. split; [done|].
        simpl. unfold upd_fd. rewrite decide_False by lia. done.
Qed.

(** *** Closing *)

Lemma sim_close fd s g s' :
  sim s g → sfs_close fd s = Ret s' → sim s' (record (Close fd) 0 g).
Proof.
  intros Hsim H. pose proof (sfs_close_tables _ _ _ (sim_tables _ _ Hsim) H) as Htab.
  (* nothing to close *)
  assert (Hnone : (∀ t, openFileDescTable s !! Z.to_nat fd = Some (Some t) → fd < 0) →
            sim s (record (Close fd) 0 g)).
  { intros Hno. split; simpl; try apply Hsim.
    intros d Hd. destruct (sim_disk _ _ Hsim d Hd) as (fl & cl & Hvol & Hlive & Hdesc).
    exists fl, cl. split; [done|]. split; [done|].
    intros fd' t' v' Hslot' Hv' Hcur'.
    destruct (Hdesc fd' t' v' Hslot' Hv' Hcur') as (e1 & c1 & ? & ? & ? & ? & Hg1).
    exists e1, c1. repeat (split; [done|]). simpl. unfold upd_fd.
    rewrite decide_False; [done|]. intros <-. rewrite Nat2Z.id in Hno.
    specialize (Hno _ Hslot'). lia. }
  unfold sfs_close in H.
  destruct (decide (fd < 0 ∨ fd > OPEN_FILE_LIMIT)) as [Hout|Hfd].
  { inversion H; subst. apply Hnone. intros t Ht. apply lookup_lt_Some in Ht.
    rewrite (ti_len_descs _ (sim_tables _ _ Hsim)) in Ht. unfold OPEN_FILE_LIMIT in *. lia. }
  apply bind_Ret_inv in H as (o & Ho & H). apply deref_Ret in Ho.
  destruct o as [t|]; [|inversion H; subst; apply Hnone; intros t Ht; congruence].
  apply bind_Ret_inv in H as (v & Hv & H). apply deref_Ret in Hv. simpl in Hv.
  (* the descriptors that stay *)
  assert (Hdescs : ∀ d cl,
    (∀ fd' t' v', openFileDescTable s !! fd' = Some (Some t') →
       vnodes s !! fileEntry t' = Some v' → current s v' → desc_rel s g d cl fd' t' v') →
    ∀ fd' t' v', <[Z.to_nat fd := None]> (openFileDescTable s) !! fd' = Some (Some t') →
       vnodes s !! fileEntry t' = Some v' → current s v' →
       desc_rel s (record (Close fd) 0 g) d cl fd' t' v').
  { intros d cl Hdesc fd' t' v' Hslot' Hv' Hcur'.
    destruct (decide (fd' = Z.to_nat fd)) as [->|Hne].
    { rewrite list_lookup_insert_eq in Hslot' by (by apply lookup_lt_Some in Ho). done. }
    rewrite list_lookup_insert_ne in Hslot' by done.
    destruct (Hdesc fd' t' v' Hslot' Hv' Hcur') as (e1 & c1 & ? & ? & ? & ? & Hg1).
    exists e1, c1. repeat (split; [done|]). simpl. unfold upd_fd.
    rewrite decide_False by lia. done. }
  destruct (decide _) as [Hrc|Hrc] in H.
  - (* the v-node stays *)
    inversion H; subst; clear H. split; simpl.
    + done.
    + apply (sim_cur _ _ Hsim).
    + intros a v' Hv'. destruct (decide (a = fileEntry t)) as [->|Hne].
      * rewrite lookup_insert_eq in Hv'. inversion Hv'; subst v'. simpl.
        apply (sim_vnode _ _ Hsim _ v Hv).
      * rewrite lookup_insert_ne in Hv' by done. by apply (sim_vnode _ _ Hsim a).
    + intros d Hd. destruct (sim_disk _ _ Hsim d Hd) as (fl & cl & Hvol & Hlive & Hdesc).
      exists fl, cl. split; [done|]. split.
      * intros a v' Hv' Hcur'. destruct (decide (a = fileEntry t)) as [->|Hne].
        -- rewrite lookup_insert_eq in Hv'. inversion Hv'; subst v'. simpl.
           by apply (Hlive _ v Hv).
        -- rewrite lookup_insert_ne in Hv' by done. by apply (Hlive a).
      * intros fd' t' v' Hslot' Hv' Hcur'.
        destruct (decide (fileEntry t' = fileEntry t)) as [Heq|Hne].
        -- rewrite Heq, lookup_insert_eq in Hv'. inversion Hv'; subst v'.
           rewrite <- Heq in Hv.
           by apply (Hdescs d cl Hdesc fd' t' v Hslot' Hv).
        -- rewrite lookup_insert_ne in Hv' by done.
           by apply (Hdescs d cl Hdesc fd' t' v' Hslot' Hv').
    + apply (sim_host _ _ Hsim).
  - (* the v-node goes *)
    apply bind_Ret_inv in H as (x & _ & H). inversion H; subst; clear H.
    split; simpl.
    + done.
    + apply (sim_cur _ _ Hsim).
    + intros a v' Hv'. apply lookup_delete_Some in Hv' as [_ Hv'].
      by apply (sim_vnode _ _ Hsim a).
    + intros d Hd. destruct (sim_disk _ _ Hsim d Hd) as (fl & cl & Hvol & Hlive & Hdesc).
      exists fl, cl. split; [done|]. split.
      * intros a v' Hv' Hcur'. apply lookup_delete_Some in Hv' as [_ Hv'].
        by apply (Hlive a).
      * intros fd' t' v' Hslot' Hv' Hcur'. apply lookup_delete_Some in Hv' as [_ Hv'].
        by apply (Hdescs d cl Hdesc fd' t' v' Hslot' Hv').
    + apply (sim_host _ _ Hsim).
Qed.

(** *** Names *)

Lemma strcmp_eq_spec a : ∀ b c,
  strcmp_eq a b = Ret c → c = bool_decide (cstr a = cstr b).
Proof.
  induction a as [|x a IH]; intros b c H; [done|]. simpl in H.
  destruct b as [|y b]; simpl in H.
  - destruct (decide (x = x00)) as [->|Hx]; inversion H; subst.
    + done.
    + symmetry. apply bool_decide_eq_false_2. simpl. by rewrite decide_False.
  - destruct (decide (x = y)) as [->|Hxy].
    + simpl. destruct (decide (y = x00)) as [->|Hy].
      * inversion H; subst. by rewrite bool_decide_eq_true_2.
      * rewrite (IH _ _ H). apply bool_decide_ext. split; [by intros ->|].
        intros Heq. by inversion Heq.
    + inversion H; subst. symmetry. apply bool_decide_eq_false_2. simpl.
      destruct (decide (x = x00)), (decide (y = x00)); try congruence.
Qed.

Lemma cstr_padded (nm : list byte) k : cstr (cstr nm ++ replicate k x00) = cstr nm.
Proof.
  induction nm as [|x nm IH]; simpl.
  - by destruct k.
  - destruct (decide (x = x00)) as [->|Hx]; simpl.
    + by destruct k.
    + rewrite decide_False by done. by rewrite IH.
Qed.

(** *** Removing *)

Lemma free_walk_prev fuel : ∀ d b d' last,
  free_walk fuel d b = Ret (d', last) → super d' = super d ∧ keeps_prev d d'.
Proof.
  induction fuel as [|fuel IH]; intros d b d' last H; [done|]. simpl in H.
  apply bind_Ret_inv in H as (blk & Hblk & H). apply load_Ret in Hblk.
  apply bind_Ret_inv in H as (u & _ & H).
  apply bind_Ret_inv in H as (d1 & Hd1 & H). unfold setBlockType in Hd1.
  apply bind_Ret_inv in Hd1 as (b0 & Hb0 & Hd1). apply load_Ret in Hb0.
  inversion Hd1; subst d1; clear Hd1.
  assert (K : keeps_prev d (store d b (set_type SFS_BLOCK_TYPE_FREE b0)))
    by (by eapply keeps_prev_store).
  destruct (decide (next_block (h blk) = 0)); [by inversion H; subst|].
  apply bind_Ret_inv in H as (p & _ & H). destruct p as [nb|]; [|done].
  destruct (IH _ _ _ _ H) as [Hs Hk]. split; [by rewrite Hs|].
  by eapply keeps_prev_trans.
Qed.

(** Freeing a chain whose head has no predecessor keeps all back links. *)
Lemma freeBlocks_prev first d d' :
  freeBlocks first d = Ret d' →
  (∀ b, blocks d !! Z.to_nat first = Some b → prev_block (h b) = 0) →
  keeps_prev d d'.
Proof.
  unfold freeBlocks. intros H Hhead.
  apply bind_Ret_inv in H as (p & Hp & H). apply accessBlock_inv in Hp. subst p.
  unfold ptr in H. destruct (decide (first = 0)); [done|].
  apply bind_Ret_inv in H as (blk & Hblk & H). apply load_Ret in Hblk.
  rewrite decide_False in H by (rewrite (Hhead _ Hblk); intros Hx; by apply Hx).
  rewrite bind_Ret in H.
  apply bind_Ret_inv in H as ([d2 last] & Hw & H).
  apply bind_Ret_inv in H as (lb & Hlb & H). apply load_Ret in Hlb.
  inversion H; subst d'; clear H.
  destruct (free_walk_prev _ _ _ _ _ Hw) as [_ Hk].
  eapply keeps_prev_trans; [exact Hk|].
  intros k b Hb. by apply (keeps_prev_store d2 last lb (set_next (freelist (super d2)) lb)).
Qed.

(** What a call of [sfs_remove] that returned has done. *)
Lemma remove_scan_inv k : ∀ s d nm i r s',
  remove_scan k s d nm (Z.of_nat i) = Ret (r, s') →
  (r < 0 ∧ s' = s) ∨
  (r = 0 ∧ ∃ j e d2, live d j e ∧ cstr (name e) = cstr nm ∧
     openFileTable s !! j = Some None ∧
     freeBlocks (first_block e)
       (set_files (<[j := {| first_block := 0; size := size e; name := name e |}]>
                     (files (super d))) d) = Ret d2 ∧
     s' = set_disk d2 s).
Proof.
  induction k as [|k IH]; intros s d nm i r s' H; simpl in H.
  { inversion H; subst. left. split; [by_eval|done]. }
  apply bind_Ret_inv in H as (e & He & H). apply deref_Ret in He. rewrite Nat2Z.id in He.
  replace (Z.of_nat i + 1) with (Z.of_nat (S i)) in H by lia.
  destruct (decide (first_block e ≠ 0)) as [Hl|]; [|by eapply IH].
  apply bind_Ret_inv in H as (c & Hc & H). apply strcmp_eq_spec in Hc. subst c.
  destruct (bool_decide (cstr (name e) = cstr nm)) eqn:Hnm; [|by eapply IH].
  apply bool_decide_eq_true in Hnm.
  apply bind_Ret_inv in H as (o & Ho & H). apply deref_Ret in Ho. rewrite Nat2Z.id in Ho.
  destruct o as [a|]; [inversion H; subst; left; split; [by_eval|done]|].
  apply bind_Ret_inv in H as (d2 & Hd2 & H). inversion H; subst; clear H.
  right. split; [done|]. exists i, e, d2. rewrite Nat2Z.id in Hd2. by repeat split.
Qed.

Lemma vol_rel_remove d fl cl f j e c d2 :
  vol_rel d fl cl f → live d j e → cl !! j = Some c →
  freeBlocks (first_block e)
    (set_files (<[j := {| first_block := 0; size := size e; name := name e |}]>
                  (files (super d))) d) = Ret d2 →
  vol_rel d2 (c ++ fl) (<[j := []]> cl)
    (λ nm, if decide (nm = cstr (name e)) then [] else f nm).
Proof.
  intros Hvol [He Hlive] Hc Hfree.
  pose proof (vr_wf _ _ _ _ Hvol) as Hwf.
  destruct (wf_file_blocks _ _ _ _ _ _ Hwf He Hc Hlive) as (Hch & Hfb & Hndc & Hclen & Hesz).
  pose proof (roundUp_bounds (size e) ltac:(pow_norm; lia)) as [Hb _].
  set (d1 := set_files (<[j := {| first_block := 0; size := size e; name := name e |}]>
                          (files (super d))) d) in *.
  assert (Hj : (j < length (files (super d)))%nat) by (by apply lookup_lt_Some in He).
  assert (Hjc : (j < length cl)%nat) by (by apply lookup_lt_Some in Hc).
  pose proof (freeBlocks_prev _ _ _ Hfree) as Hkeep.
  destruct (freeBlocks_spec d1 (first_block e) c fl) as
    (d2' & Hrun & Hhead & Hchain & Hty & Hlen & Hfiles & _ & _ & _ & Hout & Hdata).
  { by eapply seg_same; [|exact Hch]. }
  { intros ->. simpl in Hclen. lia. }
  { intros y Hy b Hby. destruct (Hfb y Hy) as (b' & Hb' & Htyb & _).
    simpl in Hby. rewrite Hb' in Hby. inversion Hby; subst. rewrite Htyb. by_eval. }
  { intros b Hbb. by eapply (vr_file_head _ _ _ _ Hvol j e). }
  { by eapply seg_same; [|exact (wfi_free _ _ _ Hwf)]. }
  { intros y Hy. by eapply wf_chain_free_disjoint. }
  rewrite Hrun in Hfree. inversion Hfree; subst d2'; clear Hfree Hrun.
  specialize (Hkeep (λ b Hbb, vr_file_head _ _ _ _ Hvol j e b (conj He Hlive) Hbb)).
  simpl in Hfiles, Hlen, Hout, Hdata.
  (* the files that stay *)
  assert (Hlive2 : ∀ k e', live d2 k e' → k ≠ j ∧ live d k e').
  { intros k e' [Hk Hl]. rewrite Hfiles in Hk. destruct (decide (k = j)) as [->|Hne].
    - rewrite list_lookup_insert_eq in Hk by done. inversion Hk; subst. done.
    - rewrite list_lookup_insert_ne in Hk by done. done. }
  assert (Hlive1 : ∀ k e', live d k e' → k ≠ j → live d2 k e').
  { intros k e' [Hk Hl] Hne. split; [|done]. by rewrite Hfiles, list_lookup_insert_ne. }
  assert (Hposc : ∀ y, y ∈ c → 0 < y) by (intros y; by eapply (seg_pos _ _ _ _ _ Hch)).
  assert (Hsame : ∀ k ek ck x, k ≠ j → live d k ek → cl !! k = Some ck → x ∈ ck →
            blocks d2 !! Z.to_nat x = blocks d !! Z.to_nat x).
  { intros k ek ck x Hne [Hek Hlk] Hck Hx. apply Hout. intros y Hy.
    destruct (wf_file_blocks _ _ _ _ _ _ Hwf Hek Hck Hlk) as (Hchk & _).
    apply (to_nat_ne_pos c); [done| |done|].
    - by eapply (seg_pos _ _ _ _ _ Hchk).
    - by eapply (wf_chains_disjoint d fl cl k j). }
  split.
  - split.
    + rewrite Hfiles, length_insert. apply Hwf.
    + rewrite length_insert. apply Hwf.
    + unfold chain. by rewrite Hhead.
    + intros y Hy. apply elem_of_app in Hy as [Hy|Hy]; [by apply Hty|].
      destruct (wfi_free_ty _ _ _ Hwf y Hy) as (b & Hby & Htyb). exists b. split; [|done].
      rewrite Hout; [done|]. intros z Hz. apply (to_nat_ne_pos c); [done| |done|].
      * by eapply (seg_pos _ _ _ _ _ (wfi_free _ _ _ Hwf)).
      * intros Hin. by eapply (wf_chain_free_disjoint d fl cl j c y).
    + intros k ek ck Hek Hck. rewrite Hfiles in Hek. destruct (decide (k = j)) as [->|Hne].
      * rewrite list_lookup_insert_eq in Hek by done.
        rewrite list_lookup_insert_eq in Hck by done. by inversion Hek; inversion Hck; subst.
      * rewrite list_lookup_insert_ne in Hek by done.
        rewrite list_lookup_insert_ne in Hck by done.
        pose proof (wfi_file _ _ _ Hwf k ek ck Hek Hck) as Hk.
        destruct (decide (first_block ek = 0)) as [|Hlk]; [done|].
        destruct Hk as (Hchk & Htyk & Hrest).
        split; [eapply seg_same; [|exact Hchk]|split; [eapply typed_same; [|exact Htyk]|done]];
          intros x Hx; by eapply (Hsame k ek ck).
    + assert (Hperm : concat cl ≡ₚ c ++ concat (<[j := []]> cl)).
      { rewrite <- (concat_insert_perm (<[j := []]> cl) j [] c).
        - rewrite list_insert_insert_eq. simpl. by rewrite list_insert_id.
        - by apply list_lookup_insert_eq. }
      rewrite <- app_assoc, (Permutation_app_comm fl), app_assoc, <- Hperm.
      rewrite Permutation_app_comm. apply Hwf.
    + intros k b Hkb.
      assert (is_Some (blocks d !! k)) as [b0 Hb0].
      { apply lookup_lt_is_Some. apply lookup_lt_Some in Hkb. lia. }
      destruct (Hdata _ _ Hb0) as (b' & Hb' & Hdt). rewrite Hkb in Hb'.
      inversion Hb'; subst. rewrite Hdt. by eapply wfi_data.
  - intros b Hne Hbb. rewrite Hhead in Hbb.
    destruct (chain_head _ _ _ Hch) as [[? _]|[_ Hin]]; [done|].
    destruct (seg_lookup _ _ _ _ _ Hch Hin) as [b0 Hb0].
    destruct (Hkeep _ b0 Hb0) as (b' & Hb' & Hp'). rewrite Hbb in Hb'. inversion Hb'; subst.
    rewrite Hp'. by eapply (vr_file_head _ _ _ _ Hvol j e).
  - intros k ek b Hl Hbb. destruct (Hlive2 k ek Hl) as [Hne Hlk].
    assert (is_Some (blocks d !! Z.to_nat (first_block ek))) as [b0 Hb0].
    { apply lookup_lt_is_Some. apply lookup_lt_Some in Hbb. lia. }
    destruct (Hkeep _ b0 Hb0) as (b' & Hb' & Hp'). rewrite Hbb in Hb'. inversion Hb'; subst.
    rewrite Hp'. by eapply (vr_file_head _ _ _ _ Hvol k ek).
  - intros k1 k2 e1 e2 Hl1 Hl2. destruct (Hlive2 k1 e1 Hl1) as [_ ?].
    destruct (Hlive2 k2 e2 Hl2) as [_ ?]. by apply (vr_names _ _ _ _ Hvol).
  - intros k ek ck Hl Hck. destruct (Hlive2 k ek Hl) as [Hne Hlk].
    rewrite list_lookup_insert_ne in Hck by done. rewrite decide_False.
    + rewrite <- (vr_data _ _ _ _ Hvol k ek ck Hlk Hck). unfold file_bytes.
      by rewrite (chain_data_same d d2).
    + intros Hnm. apply Hne. by apply (vr_names _ _ _ _ Hvol k j ek e Hlk (conj He Hlive)).
  - intros nm Hnm. destruct (decide (nm = cstr (name e))) as [->|Hne]; [done|].
    destruct (vr_exists _ _ _ _ Hvol nm Hnm) as (k & ek & Hlk & Hnk).
    exists k, ek. split; [|done]. apply Hlive1; [done|]. intros ->.
    destruct Hlk as [Hek _]. rewrite He in Hek. inversion Hek; subst. done.
Qed.

Lemma freeBlocks_files first d d' :
  freeBlocks first d = Ret d' → files (super d') = files (super d).
Proof.
  unfold freeBlocks. intros H.
  apply bind_Ret_inv in H as (p & _ & H). destruct p as [b|]; [|done].
  apply bind_Ret_inv in H as (blk & _ & H).
  apply bind_Ret_inv in H as (d1 & Hd1 & H).
  assert (Hs1 : super d1 = super d).
  { destruct (decide (prev_block (h blk) ≠ 0)); [|by inversion Hd1].
    apply bind_Ret_inv in Hd1 as (pp & _ & Hd1). destruct pp as [pid|]; [|done].
    apply bind_Ret_inv in Hd1 as (pb & _ & Hd1).
    apply bind_Ret_inv in Hd1 as (blk' & _ & Hd1). by inversion Hd1. }
  apply bind_Ret_inv in H as ([d2 last] & Hw & H).
  apply bind_Ret_inv in H as (lb & _ & H). inversion H; subst d'; clear H.
  destruct (free_walk_prev _ _ _ _ _ Hw) as [Hs2 _]. simpl. by rewrite Hs2, Hs1.
Qed.

Lemma sim_remove nm s g r s' :
  sim s g → sfs_remove nm s = Ret (r, s') → sim s' (record (Remove nm) r g).
Proof.
  intros Hsim H.
  pose proof (tables_inv_same _ _ (sfs_remove_tables _ _ _ _ H) (sim_tables _ _ Hsim)) as Htab.
  assert (Hfail : r < 0 → s' = s → sim s' (record (Remove nm) r g)).
  { intros Hr ->. simpl. destruct (g_cur g); [|done]. by rewrite decide_False by lia. }
  unfold sfs_remove in H.
  destruct (decide (strlen nm + 1 > SFS_FILE_NAME_SIZE_LIMIT)).
  { inversion H; subst. apply Hfail; [by_eval|done]. }
  destruct (decide (getSFSStatus s < 0)).
  { inversion H; subst. apply Hfail; [by_eval|done]. }
  apply bind_Ret_inv in H as (d & Hd & H). unfold accessSuperBlock in Hd.
  destruct (diskBlocks s) as [d0|] eqn:Hdisk; [|done]. inversion Hd; subst d0; clear Hd.
  change 0 with (Z.of_nat 0) in H.
  apply remove_scan_inv in H
    as [[Hr ->]|(-> & j & e & d2 & Hl & Hnm & Hslot & Hfree & ->)]; [by apply Hfail|].
  destruct (sim_disk _ _ Hsim d Hdisk) as (fl & cl & Hvol & Hlive & Hdesc).
  pose proof (vr_wf _ _ _ _ Hvol) as Hwf.
  assert (is_Some (cl !! j)) as [c Hc].
  { apply lookup_lt_is_Some. rewrite (wfi_chains _ _ _ Hwf), <- (wfi_files _ _ _ Hwf).
    destruct Hl as [Hl _]. by apply lookup_lt_Some in Hl. }
  (* no v-node of the mapping is on the slot *)
  assert (Hidx : ∀ a v, vnodes s !! a = Some v → Z.to_nat (fileEntryIdx v) ≠ j).
  { intros a v Hv Heq. destruct (ti_vnode _ (sim_tables _ _ Hsim) a v Hv) as [_ Hs].
    rewrite Heq, Hslot in Hs. done. }
  simpl. rewrite (sim_cur _ _ Hsim), Hdisk.
  assert (Hs : set_disk d2 s = set_openFileDescTable (openFileDescTable s) (set_disk d2 s))
    by done.
  rewrite Hs in Htab |- *.
  eapply (sim_change s g d d2 (c ++ fl) (<[j := []]> cl)); try done.
  - simpl. by rewrite (sim_cur _ _ Hsim), Hdisk.
  - intros p nm' Hp. simpl. unfold upd_file. rewrite decide_False; [done|]. by intros [? _].
  - eapply vol_rel_ext; [|by eapply (vol_rel_remove d fl cl _ j e c d2)].
    intros nm'. simpl. unfold upd_file. rewrite Hnm.
    destruct (decide (nm' = cstr nm)) as [->|Hne].
    + by rewrite decide_True.
    + rewrite decide_False; [done|]. by intros [_ ?].
  - intros a v Hv Hcur. destruct (Hlive a v Hv Hcur) as (e1 & He1 & Hl1).
    exists e1. split; [|done]. apply freeBlocks_files in Hfree. rewrite Hfree. simpl.
    rewrite list_lookup_insert_ne; [done|]. intros Heq. by apply (Hidx a v Hv).
  - intros fd t v Hslot' Hv Hcur.
    destruct (Hdesc fd t v Hslot' Hv Hcur) as (e1 & c1 & He1 & Hc1 & Hpos1 & Hblk1 & Hg1).
    exists e1, c1. apply freeBlocks_files in Hfree. rewrite Hfree. simpl.
    pose proof (Hidx _ v Hv) as Hne.
    split; [by rewrite list_lookup_insert_ne|]. split; [by rewrite list_lookup_insert_ne|].
    done.
Qed.

(** *** Opening *)

(** What the directory scan of [sfs_open] found. *)
Lemma open_scan_inv k : ∀ d nm i e0 r,
  open_scan k d nm (Z.of_nat i) e0 = Ret r →
  match r with
  | inl j => ∃ jn e, j = Z.of_nat jn ∧ live d jn e ∧ cstr (name e) = cstr nm
  | inr e1 =>
      (∀ jn e, (i ≤ jn < i + k)%nat → live d jn e → cstr (name e) ≠ cstr nm) ∧
      (e1 = e0 ∨ ∃ jn e, e1 = Z.of_nat jn ∧ files (super d) !! jn = Some e ∧ first_block e = 0)
  end.
Proof.
  induction k as [|k IH]; intros d nm i e0 r H; simpl in H.
  { inversion H; subst. split; [intros; lia|by left]. }
  apply bind_Ret_inv in H as (e & He & H). apply deref_Ret in He. rewrite Nat2Z.id in He.
  replace (Z.of_nat i + 1) with (Z.of_nat (S i)) in H by lia.
  destruct (decide (first_block e ≠ 0)) as [Hl|Hdead].
  - apply bind_Ret_inv in H as (c & Hc & H). apply strcmp_eq_spec in Hc. subst c.
    destruct (bool_decide (cstr (name e) = cstr nm)) eqn:Hnm.
    + apply bool_decide_eq_true in Hnm. inversion H; subst. by exists i, e.
    + apply bool_decide_eq_false in Hnm. specialize (IH _ _ _ _ _ H).
      destruct r as [j|e1]; [done|]. destruct IH as [Hno Hslot]. split; [|done].
      intros jn e' Hjn Hl'. destruct (decide (jn = i)) as [->|Hne].
      * destruct Hl' as [He' _]. rewrite He in He'. by inversion He'; subst.
      * apply (Hno jn); [lia|done].
  - specialize (IH _ _ _ _ _ H). destruct r as [j|e1]; [done|].
    destruct IH as [Hno Hslot]. split.
    + intros jn e' Hjn Hl'. destruct (decide (jn = i)) as [->|Hne].
      * destruct Hl' as [He' Hl']. rewrite He in He'. inversion He'; subst. by destruct Hdead.
      * apply (Hno jn); [lia|done].
    + destruct Hslot as [->|?]; [|by right]. case_decide; [|by left].
      right. exists i, e. split; [done|]. split; [done|].
      destruct (decide (first_block e = 0)); [done|]. by destruct Hdead.
Qed.

Lemma allocateBlocks_zero n ty d d' : allocateBlocks n ty d = Ret (0, d') → d' = d.
Proof.
  unfold allocateBlocks. intros H.
  destruct (decide (freelist (super d) = 0 ∨ n = 0)) as [|Hne]; [by inversion H|].
  apply bind_Ret_inv in H as (fb & _ & H). destruct fb as [first|]; [|done].
  apply bind_Ret_inv in H as (w & _ & H). destruct w as [last|]; [|by inversion H].
  apply bind_Ret_inv in H as (lb & _ & H). apply bind_Ret_inv in H as (d1 & _ & H).
  apply bind_Ret_inv in H as (d3 & _ & H). inversion H. destruct Hne. by left.
Qed.

(** A new, empty file in the unused slot [j], on the first free block. *)
Lemma vol_rel_create d fl cl f j e0 nm x d1 k :
  vol_rel d fl cl f → files (super d) !! j = Some e0 → first_block e0 = 0 →
  (∀ jn e, live d jn e → cstr (name e) ≠ cstr nm) →
  allocateBlocks 1 SFS_BLOCK_TYPE_FILE d = Ret (x, d1) → x ≠ 0 →
  vol_rel (set_files (<[j := {| first_block := x; size := 0;
                                name := cstr nm ++ replicate k x00 |}]> (files (super d1))) d1)
    (drop 1 fl) (<[j := [x]]> cl) f.
Proof.
  intros Hvol He0 Hdead Hnew Hal Hx.
  pose proof (vr_wf _ _ _ _ Hvol) as Hwf.
  destruct (allocateBlocks_prev _ _ _ _ _ Hal) as [Hzero Hfh]. specialize (Hfh Hx).
  destruct fl as [|y fl'].
  { rewrite (allocateBlocks_failure d []) in Hal;
      [by inversion Hal|apply Hwf|apply Hwf|lia|right; simpl; lia]. }
  destruct (allocateBlocks_success d (y :: fl') 1 SFS_BLOCK_TYPE_FILE)
    as (d1' & Hrun & Hch1 & Hty1 & Hfree1 & Hfty1 & _ & Hlen1 & Hfiles1 & _ & _ & _ & Hout1
        & Hdata1); [apply Hwf|apply Hwf|simpl; lia|].
  rewrite Hrun in Hal. inversion Hal; subst x d1'; clear Hal Hrun.
  change (take (Z.to_nat 1) (y :: fl')) with [y] in *.
  change (drop (Z.to_nat 1) (y :: fl')) with fl' in *. change (drop 1 (y :: fl')) with fl'.
  pose proof (wfi_free _ _ _ Hwf) as Hfree. pose proof Hfree as (Hy & Hypos & _).
  rewrite Hy in *.
  set (sfe := {| first_block := y; size := 0; name := cstr nm ++ replicate k x00 |}).
  set (d2 := set_files (<[j := sfe]> (files (super d1))) d1).
  assert (Hj : (j < length (files (super d)))%nat) by (by apply lookup_lt_Some in He0).
  assert (Hcj : cl !! j = Some []).
  { assert (is_Some (cl !! j)) as [c Hc].
    { apply lookup_lt_is_Some. rewrite (wfi_chains _ _ _ Hwf), <- (wfi_files _ _ _ Hwf). done. }
    pose proof (wfi_file _ _ _ Hwf j e0 c He0 Hc) as H. rewrite decide_True in H by done.
    by subst. }
  assert (Hjc : (j < length cl)%nat) by (by apply lookup_lt_Some in Hcj).
  assert (Hlive2 : ∀ i e, live d2 i e → (i = j ∧ e = sfe) ∨ (i ≠ j ∧ live d i e)).
  { intros i e [Hi Hl]. simpl in Hi. rewrite Hfiles1 in Hi.
    destruct (decide (i = j)) as [->|Hne].
    - rewrite list_lookup_insert_eq in Hi by done. inversion Hi. by left.
    - rewrite list_lookup_insert_ne in Hi by done. by right. }
  assert (Hlive1 : ∀ i e, live d i e → live d2 i e).
  { intros i e [Hi Hl]. split; [|done]. simpl. rewrite Hfiles1.
    rewrite list_lookup_insert_ne; [done|]. intros ->. rewrite He0 in Hi.
    inversion Hi; subst. done. }
  assert (Hsame : ∀ i ei ci z, live d i ei → cl !! i = Some ci → z ∈ ci →
            blocks d1 !! Z.to_nat z = blocks d !! Z.to_nat z).
  { intros i ei ci z [Hei Hli] Hci Hz. apply Hout1. intros w Hw.
    destruct (wf_file_blocks _ _ _ _ _ _ Hwf Hei Hci Hli) as (Hchi & _).
    apply (to_nat_ne_pos (y :: fl')); [|by eapply (seg_pos _ _ _ _ _ Hchi)|done|].
    - intros u Hu. by eapply (seg_pos _ _ _ _ _ Hfree).
    - by eapply wf_chain_free_disjoint. }
  split.
  - split.
    + simpl. rewrite Hfiles1, length_insert. apply Hwf.
    + rewrite length_insert. apply Hwf.
    + by eapply seg_same; [|exact Hfree1].
    + by eapply typed_same; [|exact Hfty1].
    + intros i ei ci Hei Hci. simpl in Hei. rewrite Hfiles1 in Hei.
      destruct (decide (i = j)) as [->|Hne].
      * rewrite list_lookup_insert_eq in Hei by done.
        rewrite list_lookup_insert_eq in Hci by done. inversion Hei; inversion Hci; subst.
        simpl. rewrite decide_False by done.
        split; [by eapply seg_same; [|exact Hch1]|].
        split; [by eapply typed_same; [|exact Hty1]|]. by_eval.
      * rewrite list_lookup_insert_ne in Hei by done.
        rewrite list_lookup_insert_ne in Hci by done.
        pose proof (wfi_file _ _ _ Hwf i ei ci Hei Hci) as Hi.
        destruct (decide (first_block ei = 0)) as [|Hli]; [done|].
        destruct Hi as (Hchi & Htyi & Hrest).
        split; [eapply seg_same; [|exact Hchi]|split; [eapply typed_same; [|exact Htyi]|done]];
          intros z Hz; by eapply (Hsame i ei ci).
    + rewrite (concat_insert_perm cl j [] [y] Hcj).
      rewrite app_assoc, (Permutation_app_comm fl' [y]). apply Hwf.
    + intros i b Hib. simpl in Hib.
      assert (is_Some (blocks d !! i)) as [b0 Hb0].
      { apply lookup_lt_is_Some. apply lookup_lt_Some in Hib. lia. }
      destruct (Hdata1 _ _ Hb0) as (b' & Hb' & Hdt). rewrite Hib in Hb'.
      inversion Hb'; subst. rewrite Hdt. by eapply wfi_data.
  - exact Hfh.
  - intros i ei b Hl Hb. simpl in Hb.
    assert (∃ b0, blocks d !! Z.to_nat (first_block ei) = Some b0 ∧ prev_block (h b0) = 0)
      as (b0 & Hb0 & Hp0).
    { assert (is_Some (blocks d !! Z.to_nat (first_block ei))) as [b0 Hb0].
      { apply lookup_lt_is_Some. apply lookup_lt_Some in Hb. lia. }
      exists b0. split; [done|].
      destruct (Hlive2 i ei Hl) as [[-> ->]|[Hne Hlo]].
      - simpl in *. by apply (vr_free_head _ _ _ _ Hvol); rewrite ?Hy.
      - by eapply (vr_file_head _ _ _ _ Hvol i ei). }
    destruct (Hzero _ b0 Hb0 Hp0) as (b' & Hb' & Hp'). rewrite Hb in Hb'.
    by inversion Hb'; subst.
  - intros i1 i2 e1 e2 Hl1 Hl2 Hnm.
    destruct (Hlive2 i1 e1 Hl1) as [[-> ->]|[Hne1 Hlo1]],
             (Hlive2 i2 e2 Hl2) as [[-> ->]|[Hne2 Hlo2]]; try done.
    + simpl in Hnm. rewrite cstr_padded in Hnm. by destruct (Hnew i2 e2 Hlo2).
    + simpl in Hnm. rewrite cstr_padded in Hnm. by destruct (Hnew i1 e1 Hlo1).
    + by apply (vr_names _ _ _ _ Hvol i1 i2 e1 e2).
  - intros i ei ci Hl Hci. destruct (Hlive2 i ei Hl) as [[-> ->]|[Hne Hlo]].
    + unfold file_bytes. simpl. rewrite cstr_padded.
      destruct (decide (f (cstr nm) = [])) as [->|Hnn]; [done|].
      destruct (vr_exists _ _ _ _ Hvol _ Hnn) as (i & ei & Hli & Hni).
      by destruct (Hnew i ei Hli).
    + rewrite list_lookup_insert_ne in Hci by done.
      rewrite <- (vr_data _ _ _ _ Hvol i ei ci Hlo Hci). unfold file_bytes.
      by rewrite (chain_data_same d d2).
  - intros nm' Hnm'. destruct (vr_exists _ _ _ _ Hvol _ Hnm') as (i & ei & Hli & Hni).
    exists i, ei. split; [by apply Hlive1|done].
Qed.

(** One more descriptor, in slot [k], on the file in directory slot [j];
    [vn'] has the v-nodes there were, with the same slots, and maybe a new
    one for slot [j]. *)
Lemma sim_add_desc s g d vn' oft' k t0 a v0 j e nm m1 m2 :
  sim s g → diskBlocks s = Some d → live d j e → cstr (name e) = cstr nm →
  tables_inv {| diskBlocks := diskBlocks s; mapping := mapping s;
                mapped_path := mapped_path s; vnodes := vn'; openFileTable := oft';
                openFileDescTable := <[k := Some t0]> (openFileDescTable s);
                host := host s |} →
  openFileDescTable s !! k = Some None →
  (∀ a' v', vn' !! a' = Some v' →
     (∃ v, vnodes s !! a' = Some v ∧ diskFile v' = diskFile v ∧
           fileEntryIdx v' = fileEntryIdx v) ∨
     (vnodes s !! a' = None ∧ diskFile v' = (mapping s, Z.of_nat j) ∧
      fileEntryIdx v' = Z.of_nat j)) →
  vn' !! a = Some v0 → fileEntryIdx v0 = Z.of_nat j →
  t0 = {| fileEntry := a; startBlock := first_block e; currBlock := first_block e;
          currPos := 0 |} →
  sim {| diskBlocks := diskBlocks s; mapping := mapping s;
         mapped_path := mapped_path s; vnodes := vn'; openFileTable := oft';
         openFileDescTable := <[k := Some t0]> (openFileDescTable s);
         host := host s |}
      (record (Open nm m1 m2) (Z.of_nat k) g).
Proof.
  intros Hsim Hd [He Hl] Hnm Htab Hk Hvn Ha Hidx ->.
  destruct (sim_disk _ _ Hsim d Hd) as (fl & cl & Hvol & Hlive & Hdesc).
  pose proof (vr_wf _ _ _ _ Hvol) as Hwf.
  assert (Hcur : g_cur g = Some (mapped_path s)) by (by rewrite (sim_cur _ _ Hsim), Hd).
  simpl record. rewrite Hcur. rewrite decide_True by lia.
  split; simpl.
  - done.
  - by rewrite Hd.
  - intros a' v' Hv'. destruct (Hvn a' v' Hv') as [(v & Hv & Hdf & Hi)|(_ & Hdf & Hi)].
    + rewrite Hdf, Hi. by apply (sim_vnode _ _ Hsim a').
    + rewrite Hdf, Hi. simpl. split; [lia|done].
  - intros d0 Hd0. rewrite Hd in Hd0. inversion Hd0; subst d0. exists fl, cl.
    split; [done|]. split.
    + intros a' v' Hv' Hc'. destruct (Hvn a' v' Hv') as [(v & Hv & Hdf & Hi)|(_ & Hdf & Hi)].
      * rewrite Hi. apply (Hlive a' v Hv). unfold current in *. by rewrite <- Hdf.
      * rewrite Hi, Nat2Z.id. by exists e.
    + intros fd' t' v' Hslot' Hv' Hc'.
      destruct (decide (fd' = k)) as [->|Hne].
      * rewrite list_lookup_insert_eq in Hslot' by (by apply lookup_lt_Some in Hk).
        inversion Hslot'; subst t'; clear Hslot'. simpl in Hv'. rewrite Ha in Hv'.
        inversion Hv'; subst v'. unfold desc_rel. rewrite Hidx, Nat2Z.id.
        assert (is_Some (cl !! j)) as [c Hc].
        { apply lookup_lt_is_Some. rewrite (wfi_chains _ _ _ Hwf), <- (wfi_files _ _ _ Hwf).
          by apply lookup_lt_Some in He. }
        destruct (wf_file_blocks _ _ _ _ _ _ Hwf He Hc Hl) as (Hch & _ & _ & Hclen & Hesz).
        exists e, c. split; [done|]. split; [done|]. simpl. split; [lia|]. split.
        { change (block_index 0) with O. destruct c as [|x c]; [|by destruct Hch as (-> & _)].
          pose proof (roundUp_bounds (size e) ltac:(pow_norm; lia)) as [Hb _].
          simpl in Hclen. lia. }
        unfold upd_fd. rewrite decide_True by done. by rewrite Hnm.
      * rewrite list_lookup_insert_ne in Hslot' by done.
        destruct (Hvn _ v' Hv') as [(v & Hv & Hdf & Hi)|(Hno & _)].
        -- destruct (Hdesc fd' t' v Hslot' Hv) as (e1 & c1 & ? & ? & ? & ? & Hg1).
           { unfold current in *. by rewrite <- Hdf. }
           unfold desc_rel. rewrite Hi. exists e1, c1. repeat (split; [done|]).
           simpl. unfold upd_fd. rewrite decide_False by lia. done.
        -- destruct (ti_desc _ (sim_tables _ _ Hsim) fd' (fileEntry t')) as [v Hv].
           { by apply fe_table_lookup. }
           congruence.
  - apply (sim_host _ _ Hsim).
Qed.

Lemma sim_addOpenFileEntry s g d j e nm m1 m2 r s' :
  sim s g → diskBlocks s = Some d → live d j e → cstr (name e) = cstr nm →
  addOpenFileEntry (Z.of_nat j) m1 m2 s = Ret (r, s') →
  sim s' (record (Open nm m1 m2) r g).
Proof.
  intros Hsim Hd Hlive Hnm H.
  pose proof (addOpenFileEntry_tables _ _ _ _ _ _ (sim_tables _ _ Hsim) (Nat2Z.is_nonneg j) H) as Htab.
  assert (Hfail : r < 0 → s' = s → sim s' (record (Open nm m1 m2) r g)).
  { intros Hr ->. simpl. destruct (g_cur g); [|done]. by rewrite decide_False by lia. }
  unfold addOpenFileEntry in H.
  destruct (first_null _ 0) as [fd|] eqn:Hfd; [|inversion H; subst; apply Hfail; [by_eval|done]].
  apply first_null_spec in Hfd as (k & -> & Hk). apply lookup_take_Some in Hk as [Hk _].
  replace (Z.to_nat (0 + Z.of_nat k)) with k in * by lia.
  destruct m1; simpl in H; [|inversion H; subst; apply Hfail; [by_eval|done]].
  apply bind_Ret_inv in H as (slot & Hslot & H). apply deref_Ret in Hslot.
  rewrite Nat2Z.id in Hslot. destruct slot as [a|].
  - simpl in H. apply bind_Ret_inv in H as (v & Hv & H). apply deref_Ret in Hv.
    apply bind_Ret_inv in H as (e' & He' & H). inversion H; subst r s'; clear H.
    destruct (ti_slot _ (sim_tables _ _ Hsim) j a Hslot) as (v1 & Hv1 & Hidx & _).
    rewrite Hv in Hv1. inversion Hv1; subst v1; clear Hv1.
    destruct (sim_vnode _ _ Hsim a v Hv) as [_ Hdf2].
    unfold diskFile_get in He'. simpl in He'. rewrite Hd in He'.
    destruct (decide ((diskFile v).1 = mapping s)) as [Hcur|]; [|done].
    apply deref_Ret in He'. rewrite Hdf2, Hidx, Nat2Z.id in He'.
    destruct Hlive as [He Hl]. rewrite He in He'. inversion He'; subst e'; clear He'.
    eapply (sim_add_desc s g d
              (<[a := {| refCount := u32 (refCount v + 1); fileEntryIdx := fileEntryIdx v;
                         diskFile := diskFile v |}]> (vnodes s)) (openFileTable s) k
              {| fileEntry := a; startBlock := first_block e; currBlock := first_block e;
                 currPos := 0 |} a
              {| refCount := u32 (refCount v + 1); fileEntryIdx := fileEntryIdx v;
                 diskFile := diskFile v |} j e nm true m2); try done.
    + intros a' v' Hv'. simpl in Hv'. left. destruct (decide (a' = a)) as [->|Hne].
      * rewrite lookup_insert_eq in Hv'. inversion Hv'; subst v'. by exists v.
      * rewrite lookup_insert_ne in Hv' by done. by exists v'.
    + simpl. apply lookup_insert_eq.
  - destruct m2; simpl in H; [|inversion H; subst; apply Hfail; [by_eval|done]].
    apply bind_Ret_inv in H as (x & Hx & H).
    apply bind_Ret_inv in Hx as (d0 & _ & Hx). inversion Hx; subst x; clear Hx.
    apply bind_Ret_inv in H as (v & Hv & H). apply deref_Ret in Hv.
    simpl in Hv. rewrite lookup_insert_eq in Hv. inversion Hv; subst v; clear Hv.
    apply bind_Ret_inv in H as (e' & He' & H). inversion H; subst r s'; clear H.
    unfold diskFile_get in He'. simpl in He'. rewrite Hd in He'.
    rewrite decide_True in He' by done. apply deref_Ret in He'. rewrite Nat2Z.id in He'.
    destruct Hlive as [He Hl]. rewrite He in He'. inversion He'; subst e'; clear He'.
    simpl in *. rewrite insert_insert_eq in *. rewrite Nat2Z.id in *.
    eapply (sim_add_desc s g d
              (<[fresh (dom (vnodes s)) :=
                   {| refCount := u32 (0 + 1); fileEntryIdx := Z.of_nat j;
                      diskFile := (mapping s, Z.of_nat j) |}]> (vnodes s))
              (<[j := Some (fresh (dom (vnodes s)))]> (openFileTable s)) k
              {| fileEntry := fresh (dom (vnodes s)); startBlock := first_block e;
                 currBlock := first_block e; currPos := 0 |} (fresh (dom (vnodes s)))
              {| refCount := u32 (0 + 1); fileEntryIdx := Z.of_nat j;
                 diskFile := (mapping s, Z.of_nat j) |} j e nm true true); try done.
    + intros a' v' Hv'. simpl in Hv'. destruct (decide (a' = fresh (dom (vnodes s)))) as [->|Hne].
      * rewrite lookup_insert_eq in Hv'. inversion Hv'; subst v'. right.
        split; [|done]. apply not_elem_of_dom. apply is_fresh.
      * rewrite lookup_insert_ne in Hv' by done. left. by exists v'.
    + apply lookup_insert_eq.
Qed.

Lemma allocateBlocks_files n ty d r d' :
  allocateBlocks n ty d = Ret (r, d') → files (super d') = files (super d).
Proof.
  unfold allocateBlocks. intros H.
  destruct (decide (freelist (super d) = 0 ∨ n = 0)); [by inversion H|].
  apply bind_Ret_inv in H as (fb & _ & H). destruct fb as [first|]; [|done].
  apply bind_Ret_inv in H as (w & _ & H). destruct w as [last|]; [|by inversion H].
  apply bind_Ret_inv in H as (lb & _ & H). apply bind_Ret_inv in H as (d1 & Hd1 & H).
  apply bind_Ret_inv in H as (d3 & Hd3 & H). inversion H; subst r d'; clear H.
  destruct (alloc_retag_prev _ _ _ _ _ Hd3) as [Hs3 _]. rewrite Hs3. simpl.
  destruct (decide (next_block (h lb) ≠ 0)); [|by inversion Hd1].
  apply bind_Ret_inv in Hd1 as (nfo & _ & Hd1). destruct nfo as [nf|]; [|done].
  apply bind_Ret_inv in Hd1 as (nfb & _ & Hd1). apply bind_Ret_inv in Hd1 as (lb' & _ & Hd1).
  by inversion Hd1.
Qed.

Lemma sim_open nm m1 m2 s g r s' :
  sim s g → sfs_open nm m1 m2 s = Ret (r, s') → sim s' (record (Open nm m1 m2) r g).
Proof.
  intros Hsim H.
  assert (Hfail : r < 0 → s' = s → sim s' (record (Open nm m1 m2) r g)).
  { intros Hr ->. simpl. destruct (g_cur g); [|done]. by rewrite decide_False by lia. }
  unfold sfs_open in H.
  destruct (decide _) in H; [inversion H; subst; apply Hfail; [by_eval|done]|].
  destruct (decide (getSFSStatus s < 0)); [inversion H; subst; apply Hfail; [by_eval|done]|].
  apply bind_Ret_inv in H as (d & Hd & H). unfold accessSuperBlock in Hd.
  destruct (diskBlocks s) as [d0|] eqn:Hdisk; [|done]. inversion Hd; subst d0; clear Hd.
  apply bind_Ret_inv in H as (sc & Hsc & H).
  change 0 with (Z.of_nat 0) in Hsc. apply open_scan_inv in Hsc.
  destruct sc as [j|e0].
  { destruct Hsc as (jn & e & -> & Hl & Hnm). by eapply sim_addOpenFileEntry. }
  destruct Hsc as [Hno Hslot].
  destruct (decide (e0 = -1)); [inversion H; subst; apply Hfail; [by_eval|done]|].
  destruct Hslot as [?|(jn & e0' & -> & He0 & Hdead)]; [done|].
  unfold createFile in H. unfold accessSuperBlock in H. rewrite Hdisk, bind_Ret in H.
  apply bind_Ret_inv in H as ([x d1] & Hal & H).
  destruct (decide (x = 0)) as [->|Hx].
  { apply allocateBlocks_zero in Hal. subst d1. inversion H; subst.
    apply Hfail; [by_eval|]. by apply set_disk_id. }
  apply bind_Ret_inv in H as (u & _ & H). apply bind_Ret_inv in H as (ex & _ & H).
  rewrite Nat2Z.id in H.
  destruct (sim_disk _ _ Hsim d Hdisk) as (fl & cl & Hvol & Hlive & Hdesc).
  pose proof (vr_wf _ _ _ _ Hvol) as Hwf.
  assert (Hnone : ∀ i e, live d i e → cstr (name e) ≠ cstr nm).
  { intros i e Hl. apply (Hno i); [|done]. destruct Hl as [Hl _]. apply lookup_lt_Some in Hl.
    rewrite (wfi_files _ _ _ Hwf) in Hl.
    change (Z.to_nat DIR_ENTRIES_PER_BLOCK) with 15%nat in Hl.
    change (Z.to_nat FILE_COUNT_LIMIT) with 15%nat. lia. }
  pose proof (allocateBlocks_files _ _ _ _ _ Hal) as Hfiles1.
  set (sfe := {| first_block := x; size := 0;
                 name := cstr nm ++ replicate (Z.to_nat (SFS_FILE_NAME_SIZE_LIMIT - strlen nm))
                                       x00 |}) in *.
  set (d2 := set_files (<[jn := sfe]> (files (super d1))) d1) in *.
  pose proof (vol_rel_create d fl cl _ jn e0' nm x d1
                (Z.to_nat (SFS_FILE_NAME_SIZE_LIMIT - strlen nm)) Hvol He0 Hdead Hnone Hal Hx)
    as Hvol2.
  fold sfe d2 in Hvol2.
  assert (Hsim2 : sim (set_disk d2 s) g).
  { change (set_disk d2 s) with (set_openFileDescTable (openFileDescTable s) (set_disk d2 s)).
    eapply (sim_change s g d d2 _ _ (openFileDescTable s) g); try done.
    - eapply tables_inv_same; [|exact (sim_tables _ _ Hsim)]. done.
    - intros a v Hv Hcur. destruct (Hlive a v Hv Hcur) as (e1 & He1 & Hl1).
      exists e1. split; [|done]. simpl. rewrite Hfiles1, list_lookup_insert_ne; [done|].
      intros Heq. rewrite Heq, He1 in He0. inversion He0; subst. done.
    - intros fd t v Hslot Hv Hcur.
      destruct (Hdesc fd t v Hslot Hv Hcur) as (e1 & c1 & He1 & Hc1 & Hrest).
      destruct (Hlive _ v Hv Hcur) as (e1' & He1' & Hl1). rewrite He1 in He1'.
      inversion He1'; subst e1'.
      assert (Hne : jn ≠ Z.to_nat (fileEntryIdx v)).
      { intros Heq. rewrite Heq, He1 in He0. inversion He0; subst. done. }
      exists e1, c1. split; [simpl; by rewrite Hfiles1, list_lookup_insert_ne|].
      split; [by rewrite list_lookup_insert_ne|]. done. }
  eapply (sim_addOpenFileEntry (set_disk d2 s) g d2 jn sfe nm); try done.
  - split; [|done]. simpl. rewrite Hfiles1. apply list_lookup_insert_eq.
    by apply lookup_lt_Some in He0.
  - apply cstr_padded.
Qed.

(** *** Sequences of calls *)

Lemma sim_step pagesize c s g r out s' :
  sim s g → 512 < pagesize → call_ok c →
  step pagesize c s = Ret (r, out, s') →
  read_ok c r out g ∧ sim s' (record c r g).
Proof.
  intros Hsim Hpage Hok H. destruct c; simpl in H, Hok.
  - apply bind_Ret_inv in H as ([r0 s0] & H0 & H). inversion H; subst.
    split; [done|]. by eapply sim_format.
  - apply bind_Ret_inv in H as ([r0 s0] & H0 & H). inversion H; subst.
    split; [done|]. by eapply sim_mount.
  - apply bind_Ret_inv in H as ([r0 s0] & H0 & H). inversion H; subst.
    split; [done|]. by eapply sim_unmount.
  - apply bind_Ret_inv in H as ([r0 s0] & H0 & H). inversion H; subst.
    split; [done|]. by eapply sim_open.
  - apply bind_Ret_inv in H as (s0 & H0 & H). inversion H; subst.
    split; [done|]. by eapply sim_close.
  - eapply sim_read; [exact Hsim|lia|exact H].
  - apply bind_Ret_inv in H as ([r0 s0] & H0 & H). inversion H; subst.
    split; [done|]. by eapply sim_write.
  - inversion H; subst. done.
  - inversion H; subst. done.
  - apply bind_Ret_inv in H as ([r0 s0] & H0 & H). inversion H; subst.
    split; [done|]. by eapply sim_remove.
  - inversion H; subst. done.
  - apply bind_Ret_inv in H as ([[r0 ck] o] & H0 & H). inversion H; subst. done.
Qed.

Lemma sim_run pagesize cs : ∀ s g rs s',
  sim s g → 512 < pagesize → Forall call_ok cs →
  run pagesize cs s = Ret (rs, s') → reads_ok cs rs g.
Proof.
  induction cs as [|c cs IH]; intros s g rs s' Hsim Hpage Hok H; [done|].
  simpl in H. apply bind_Ret_inv in H as ([[r out] s1] & Hstep & H).
  apply bind_Ret_inv in H as ([rs' s2] & Hrun & H). inversion H; subst; clear H.
  apply Forall_cons in Hok as [Hc Hcs].
  destruct (sim_step _ _ _ _ _ _ _ Hsim Hpage Hc Hstep) as [Hread Hsim1].
  simpl. split; [done|]. by eapply IH.
Qed.

(** *** The iteration bounds of the model *)

(** The loops of the model carry an iteration bound.  On the states the
    calls can reach the bounds are never exhausted: a call returns, or it
    stops where the C code stops (a failed assertion, an invalid
    access). *)
Lemma bind_Timeout {A B} (m : outcome A) (f : A → outcome B) :
  m ≫= f = Timeout → m = Timeout ∨ ∃ a, m = Ret a ∧ f a = Timeout.
Proof. destruct m; simpl; eauto; discriminate. Qed.

Ltac tmo_step H :=
  match type of H with
  | Ret _ = Timeout => discriminate H
  | Abort = Timeout => discriminate H
  | Fault = Timeout => discriminate H
  | deref ?o = Timeout => destruct o; discriminate H
  | assert ?b = Timeout => destruct b; discriminate H
  | load _ _ = Timeout => unfold load in H
  | idOfBlock ?o = Timeout => destruct o; discriminate H
  | (_ ≫= _) = Timeout =>
      let x := fresh "x" in let Hx := fresh "Hx" in
      apply bind_Timeout in H as [H|(x & Hx & H)]; cbv beta in H
  | (if decide ?P then _ else _) = Timeout => destruct (decide P)
  | (if negb ?b then _ else _) = Timeout => destruct b; simpl in H
  | (if ?b then _ else _) = Timeout => destruct b eqn:?
  | (match ?o with _ => _ end) = Timeout => destruct o eqn:?
  end.
Ltac tmo H := repeat tmo_step H.

Lemma accessBlock_bounded d id : accessBlock d id ≠ Timeout.
Proof. unfold accessBlock. intros H. tmo H. Qed.

Lemma accessFileBlock_bounded d id : accessFileBlock d id ≠ Timeout.
Proof.
  unfold accessFileBlock. intros H. tmo H; by eapply accessBlock_bounded.
Qed.

Lemma accessSuperBlock_bounded s : accessSuperBlock s ≠ Timeout.
Proof. unfold accessSuperBlock. intros H. tmo H. Qed.

Lemma diskFile_get_bounded s p : diskFile_get s p ≠ Timeout.
Proof. unfold diskFile_get. intros H. tmo H. Qed.

Lemma strcmp_eq_bounded a : ∀ b, strcmp_eq a b ≠ Timeout.
Proof.
  induction a as [|x a IH]; intros b H; simpl in H; [done|].
  tmo H. by eapply IH.
Qed.

Lemma open_scan_bounded k : ∀ d nm i e0, open_scan k d nm i e0 ≠ Timeout.
Proof.
  induction k as [|k IH]; intros d nm i e0 H; simpl in H; [done|].
  tmo H; first [by eapply strcmp_eq_bounded | by eapply IH].
Qed.

Lemma addOpenFileEntry_bounded i m1 m2 s : addOpenFileEntry i m1 m2 s ≠ Timeout.
Proof.
  unfold addOpenFileEntry. intros H.
  tmo H; first [by eapply accessSuperBlock_bounded | by eapply diskFile_get_bounded].
Qed.

Lemma sfs_close_bounded fd s : sfs_close fd s ≠ Timeout.
Proof. unfold sfs_close. intros H. tmo H. Qed.

Lemma sfs_mount_bounded pagesize p io s : sfs_mount pagesize p io s ≠ Timeout.
Proof. unfold sfs_mount. intros H. tmo H. Qed.

Lemma sfs_unmount_bounded s : sfs_unmount s ≠ Timeout.
Proof. unfold sfs_unmount. intros H. tmo H. Qed.

(** On a well-formed image [allocateBlocks] returns. *)
Lemma allocateBlocks_returns d fl n ty :
  chain d (freelist (super d)) fl → typed d SFS_BLOCK_TYPE_FREE fl → 0 ≤ n →
  ∃ r d', allocateBlocks n ty d = Ret (r, d').
Proof.
  intros Hc Ht Hn. destruct (decide (n = 0 ∨ Z.of_nat (length fl) < n)) as [Hf|Hs].
  - rewrite (allocateBlocks_failure d fl) by done. eauto.
  - destruct (allocateBlocks_success d fl n ty Hc Ht) as (d' & -> & _); [lia|eauto].
Qed.

Lemma sfs_open_bounded nm m1 m2 s g : sim s g → sfs_open nm m1 m2 s ≠ Timeout.
Proof.
  intros Hsim H. unfold sfs_open in H.
  destruct (decide _) in H; [done|]. destruct (decide (getSFSStatus s < 0)); [done|].
  apply bind_Timeout in H as [H|(d & Hd & H)]; [by eapply accessSuperBlock_bounded|].
  unfold accessSuperBlock in Hd. destruct (diskBlocks s) as [d0|] eqn:Hdisk; [|done].
  inversion Hd; subst d0; clear Hd.
  apply bind_Timeout in H as [H|(sc & Hsc & H)]; [by eapply open_scan_bounded|].
  destruct sc as [j|e0]; [by eapply addOpenFileEntry_bounded|].
  destruct (decide (e0 = -1)); [done|].
  unfold createFile, accessSuperBlock in H. rewrite Hdisk, bind_Ret in H.
  destruct (sim_disk _ _ Hsim d Hdisk) as (fl & cl & Hvol & _).
  destruct (allocateBlocks_returns d fl 1 SFS_BLOCK_TYPE_FILE) as (x & d1 & Hal);
    [apply (vr_wf _ _ _ _ Hvol)|apply (vr_wf _ _ _ _ Hvol)|lia|].
  rewrite Hal, bind_Ret in H. destruct (decide (x = 0)); [done|].
  apply bind_Timeout in H as [H|(u & _ & H)]; [tmo H|].
  apply bind_Timeout in H as [H|(ex & _ & H)]; [tmo H|].
  by eapply addOpenFileEntry_bounded.
Qed.

Lemma sfs_read_bounded fd len s g : sim s g → 0 ≤ len → sfs_read fd len s ≠ Timeout.
Proof.
  intros Hsim Hlen H. pose proof H as H0. unfold sfs_read in H.
  destruct (decide (fd < 0 ∨ fd > OPEN_FILE_LIMIT)) as [|Hfd]; [done|].
  apply bind_Timeout in H as [H|(o & Ho & H)]; [tmo H|]. apply deref_Ret in Ho.
  destruct o as [t|]; [|done].
  apply bind_Timeout in H as [H|(v & Hv & H)]; [tmo H|]. apply deref_Ret in Hv.
  apply bind_Timeout in H as [H|(e & He & H)]; [by eapply diskFile_get_bounded|]. clear H.
  assert (∃ d, diskBlocks s = Some d) as [d Hd].
  { unfold diskFile_get in He. destruct (diskBlocks s); [eauto|done]. }
  destruct (desc_facts s g d _ t v e Hsim Hd Ho Hv He)
    as (fl & cl & c & Hvol & Hlive & Hdesc & Hcur & Hdf & [Hfe Hl] & Hc & Hpos & Hblk & Hg).
  destruct (sfs_read_spec s d fl cl fd t _ v e c len Hd (vr_wf _ _ _ _ Hvol) ltac:(lia) Ho Hv
              Hdf Hfe Hl Hc Hpos Hblk Hlen) as (rb & Hrun & _).
  by rewrite Hrun in H0.
Qed.

Lemma sfs_write_bounded fd buf s g :
  sim s g → Z.of_nat (length buf) < 2 ^ 62 → sfs_write fd buf s ≠ Timeout.
Proof.
  intros Hsim Hlen H. pose proof H as H0. unfold sfs_write in H.
  destruct (decide (fd < 0 ∨ fd > OPEN_FILE_LIMIT)) as [|Hfd]; [done|].
  apply bind_Timeout in H as [H|(o & Ho & H)]; [tmo H|]. apply deref_Ret in Ho.
  destruct o as [t|]; [|done].
  apply bind_Timeout in H as [H|(v & Hv & H)]; [tmo H|]. apply deref_Ret in Hv.
  apply bind_Timeout in H as [H|(e & He & H)]; [by eapply diskFile_get_bounded|]. clear H.
  assert (∃ d, diskBlocks s = Some d) as [d Hd].
  { unfold diskFile_get in He. destruct (diskBlocks s); [eauto|done]. }
  destruct (desc_facts s g d _ t v e Hsim Hd Ho Hv He)
    as (fl & cl & c & Hvol & Hlive & Hdesc & Hcur & Hdf & [Hfe Hl] & Hc & Hpos & Hblk & Hg).
  assert (Hfd32 : 0 ≤ fd < OPEN_FILE_LIMIT).
  { apply lookup_lt_Some in Ho. rewrite (ti_len_descs _ (sim_tables _ _ Hsim)) in Ho. lia. }
  pose proof (sfs_write_spec s d fl cl fd t _ v e c buf Hd (vr_wf _ _ _ _ Hvol) Hfd32 Ho Hv
                Hdf Hfe Hl Hc Hpos Hblk Hlen) as Hspec.
  cbv zeta in Hspec.
  destruct (decide _) in Hspec; [by rewrite Hspec in H0|].
  destruct (decide _) in Hspec; [by rewrite Hspec in H0|].
  destruct Hspec as (d' & rb & Hrun & _). by rewrite Hrun in H0.
Qed.

(** Freeing the chain of a file returns. *)
Lemma freeBlocks_live d fl cl f j e :
  vol_rel d fl cl f → live d j e →
  ∃ d2, freeBlocks (first_block e)
          (set_files (<[j := {| first_block := 0; size := size e; name := name e |}]>
                        (files (super d))) d) = Ret d2.
Proof.
  intros Hvol [He Hlive]. pose proof (vr_wf _ _ _ _ Hvol) as Hwf.
  assert (is_Some (cl !! j)) as [c Hc].
  { apply lookup_lt_is_Some. rewrite (wfi_chains _ _ _ Hwf), <- (wfi_files _ _ _ Hwf).
    by apply lookup_lt_Some in He. }
  destruct (wf_file_blocks _ _ _ _ _ _ Hwf He Hc Hlive) as (Hch & Hfb & Hndc & Hclen & Hesz).
  pose proof (roundUp_bounds (size e) ltac:(pow_norm; lia)) as [Hb _].
  edestruct (freeBlocks_spec
               (set_files (<[j := {| first_block := 0; size := size e; name := name e |}]>
                             (files (super d))) d) (first_block e) c fl)
    as (d2 & Hrun & _); [| | | | | |eauto].
  - by eapply seg_same; [|exact Hch].
  - intros ->. simpl in Hclen. lia.
  - intros y Hy b Hby. destruct (Hfb y Hy) as (b' & Hb' & Htyb & _).
    simpl in Hby. rewrite Hb' in Hby. inversion Hby; subst. rewrite Htyb. by_eval.
  - intros b Hbb. by eapply (vr_file_head _ _ _ _ Hvol j e).
  - by eapply seg_same; [|exact (wfi_free _ _ _ Hwf)].
  - intros y Hy. by eapply wf_chain_free_disjoint.
Qed.

Lemma remove_scan_bounded d fl cl f s nm k : ∀ i,
  vol_rel d fl cl f → remove_scan k s d nm i ≠ Timeout.
Proof.
  induction k as [|k IH]; intros i Hvol H; simpl in H; [done|].
  apply bind_Timeout in H as [H|(e & He & H)]; [tmo H|]. apply deref_Ret in He.
  destruct (decide (first_block e ≠ 0)) as [Hl|]; [|by eapply IH].
  apply bind_Timeout in H as [H|(c & _ & H)]; [by eapply strcmp_eq_bounded|].
  destruct c; [|by eapply IH].
  apply bind_Timeout in H as [H|(o & _ & H)]; [tmo H|]. destruct o; [done|].
  destruct (freeBlocks_live d fl cl f (Z.to_nat i) e Hvol (conj He Hl)) as (d2 & Hfree).
  by rewrite Hfree in H.
Qed.

Lemma sfs_remove_bounded nm s g : sim s g → sfs_remove nm s ≠ Timeout.
Proof.
  intros Hsim H. unfold sfs_remove in H.
  destruct (decide _) in H; [done|]. destruct (decide (getSFSStatus s < 0)); [done|].
  apply bind_Timeout in H as [H|(d & Hd & H)]; [by eapply accessSuperBlock_bounded|].
  unfold accessSuperBlock in Hd. destruct (diskBlocks s) as [d0|] eqn:Hdisk; [|done].
  inversion Hd; subst d0; clear Hd.
  destruct (sim_disk _ _ Hsim d Hdisk) as (fl & cl & Hvol & _).
  by eapply remove_scan_bounded.
Qed.

Lemma list_scan_bounded fuel : ∀ d ck slot sp,
  0 ≤ slot → Z.max 0 (FILE_COUNT_LIMIT - slot) < Z.of_nat fuel →
  list_scan fuel d ck slot sp ≠ Timeout.
Proof.
  unfold FILE_COUNT_LIMIT, DIR_ENTRIES_PER_BLOCK.
  induction fuel as [|fuel IH]; intros d ck slot sp H0 Hf H; [lia|].
  simpl in H. unfold FILE_COUNT_LIMIT, DIR_ENTRIES_PER_BLOCK in H.
  destruct (decide (slot < 15)); [|done].
  apply bind_Timeout in H as [H|(e & _ & H)]; [tmo H|].
  destruct (decide (first_block e ≠ 0)).
  - unfold strlen_disk in H. tmo H.
  - rewrite u64_small in H by (pow_norm; lia). eapply IH; [| |exact H]; lia.
Qed.

Lemma sfs_list_bounded ck sp s : 0 ≤ ck → sfs_list ck sp s ≠ Timeout.
Proof.
  intros Hck H. unfold sfs_list in H.
  destruct (decide (sp = 0)); [done|]. destruct (decide (getSFSStatus s < 0)); [done|].
  apply bind_Timeout in H as [H|(d & _ & H)]; [by eapply accessSuperBlock_bounded|].
  eapply list_scan_bounded; [| |exact H]; unfold FILE_COUNT_LIMIT, DIR_ENTRIES_PER_BLOCK;
    simpl; lia.
Qed.

Lemma sfs_format_bounded pagesize p n io s :
  512 < pagesize → 0 ≤ n → sfs_format pagesize p n io s ≠ Timeout.
Proof.
  intros Hpage Hsize H. unfold sfs_format in H.
  apply bind_Timeout in H as [H|(u1 & _ & H)]; [tmo H|].
  apply bind_Timeout in H as [H|(u2 & Hpg & H)]; [tmo H|]. apply assert_Ret_inv in Hpg.
  repeat (match type of H with (if decide ?P then _ else _) = _ => destruct (decide P) end);
    try done.
  set (nb := n / SFS_BLOCK_SIZE) in *.
  assert (Hn2 : 2 ≤ nb).
  { unfold nb, SFS_BLOCK_SIZE in *.
    assert (Hp : pagesize = 512 * (pagesize / 512))
      by (rewrite (Z.div_mod pagesize 512) at 1 by lia; lia).
    assert (Hdv : n = pagesize * (n / pagesize))
      by (rewrite (Z.div_mod n pagesize) at 1 by lia; lia).
    assert (0 ≤ n / pagesize) by (apply Z.div_pos; lia).
    assert (1 ≤ n / pagesize) by lia.
    assert (1024 ≤ pagesize) by lia.
    assert (1024 ≤ n) by nia. dlia. }
  destruct io; try done.
  all: apply bind_Timeout in H as [H|(u3 & Hn & H)]; [tmo H|]; apply assert_Ret_inv in Hn.
  all: match type of H with (format_loop _ ?d1 _ _ ≫= _) = _ =>
    destruct (format_loop_spec (Z.to_nat nb) d1 1 nb) as (d' & Hrun & _)
  end; [lia | done | simpl; rewrite length_replicate; lia | lia |].
  all: by rewrite Hrun in H.
Qed.

Lemma step_bounded pagesize c s g :
  sim s g → 512 < pagesize → call_ok c → step pagesize c s ≠ Timeout.
Proof.
  intros Hsim Hpage Hok H. destruct c; simpl in H, Hok.
  - apply bind_Timeout in H as [H|([r0 s0] & _ & H)]; [|done].
    eapply sfs_format_bounded; [done| |exact H]. lia.
  - apply bind_Timeout in H as [H|([r0 s0] & _ & H)]; [|done]. by eapply sfs_mount_bounded.
  - apply bind_Timeout in H as [H|([r0 s0] & _ & H)]; [|done]. by eapply sfs_unmount_bounded.
  - apply bind_Timeout in H as [H|([r0 s0] & _ & H)]; [|done]. by eapply sfs_open_bounded.
  - apply bind_Timeout in H as [H|(s0 & _ & H)]; [|done]. by eapply sfs_close_bounded.
  - eapply sfs_read_bounded; [exact Hsim| |exact H]. lia.
  - apply bind_Timeout in H as [H|([r0 s0] & _ & H)]; [|done]. by eapply sfs_write_bounded.
  - done.
  - done.
  - apply bind_Timeout in H as [H|([r0 s0] & _ & H)]; [|done]. by eapply sfs_remove_bounded.
  - done.
  - apply bind_Timeout in H as [H|([[r0 ck] o] & _ & H)]; [|done].
    eapply sfs_list_bounded; [|exact H]. lia.
Qed.

(** No sequence of calls exhausts an iteration bound of the model. *)
Lemma run_bounded pagesize cs : ∀ s g,
  sim s g → 512 < pagesize → Forall call_ok cs → run pagesize cs s ≠ Timeout.
Proof.
  induction cs as [|c cs IH]; intros s g Hsim Hpage Hok H; [done|].
  apply Forall_cons in Hok as [Hc Hcs]. simpl in H.
  apply bind_Timeout in H as [H|([[r out] s1] & Hstep & H)]; [by eapply step_bounded|].
  destruct (sim_step _ _ _ _ _ _ _ Hsim Hpage Hc Hstep) as [_ Hsim1].
  apply bind_Timeout in H as [H|([rs' s2] & _ & H)]; [|done]. by eapply IH.
Qed.

(** *** Calls that have to succeed *)

(** A read on a descriptor that the history has open returns the bytes
    written last at the offsets it covers, as many as asked for or as
    there are: it does not fail.  A write on such a descriptor returns
    the length of its buffer, unless the end of the write, rounded up to
    whole blocks, is above the greatest file size (-EFBIG) or the write
    has to enlarge the file and the volume has not the blocks for it
    (-ENOSPC). *)
Definition call_served (c : call) (r : Z) (out : list byte) (g : history) : Prop :=
  match c with
  | Read fd len =>
      ∀ p nm pos, g_fds g fd = Some (p, nm, pos) →
        out = take (Z.to_nat len) (drop (Z.to_nat pos) (g_files g p nm)) ∧
        r = Z.of_nat (length out)
  | Write fd buf =>
      ∀ p nm pos, g_fds g fd = Some (p, nm, pos) →
        let len := Z.of_nat (length buf) in
        r = len ∨
        (r = - EFBIG ∧ roundUp (pos + len) BLOCK_DATA_SIZE > SFS_MAX_FILE_SIZE) ∨
        (r = - ENOSPC ∧
         pos + len > roundUp (Z.of_nat (length (g_files g p nm))) BLOCK_DATA_SIZE)
  | _ => True
  end.

Fixpoint served (cs : list call) (rs : list (Z * list byte)) (g : history) : Prop :=
  match cs, rs with
  | c :: cs', (r, out) :: rs' => call_served c r out g ∧ served cs' rs' (record c r g)
  | _, _ => True
  end.

(** Every descriptor the history has open is in use in the engine. *)
Definition known (s : state) (g : history) : Prop :=
  ∀ fd x, g_fds g fd = Some x →
    0 ≤ fd ∧ ∃ t, openFileDescTable s !! Z.to_nat fd = Some (Some t).

Lemma known_init : known (init_state ∅) history_init.
Proof. intros fd x H. done. Qed.

Lemma same_tables_in_use s s' k t :
  same_tables s s' → openFileDescTable s !! k = Some (Some t) →
  ∃ t', openFileDescTable s' !! k = Some (Some t').
Proof.
  intros (_ & _ & Hfe & _) Ht. apply fe_table_lookup in Ht. rewrite <- Hfe in Ht.
  unfold fe_table in Ht. rewrite list_lookup_fmap in Ht.
  destruct (openFileDescTable s' !! k) as [[t'|]|]; try done. eauto.
Qed.

Lemma known_same s s' g g' :
  same_tables s s' → g_fds g' = g_fds g → known s g → known s' g'.
Proof.
  intros Hst Hg Hk fd x Hfd. rewrite Hg in Hfd. destruct (Hk fd x Hfd) as (Hpos & t & Ht).
  split; [done|]. by eapply same_tables_in_use.
Qed.

(** What [addOpenFileEntry] does to the descriptor table. *)
Lemma addOpenFileEntry_descs idx m1 m2 s r s' :
  addOpenFileEntry idx m1 m2 s = Ret (r, s') →
  (r < 0 ∧ s' = s) ∨
  (0 ≤ r ∧ openFileDescTable s !! Z.to_nat r = Some None ∧
   ∃ t, openFileDescTable s' = <[Z.to_nat r := Some t]> (openFileDescTable s)).
Proof.
  unfold addOpenFileEntry. intros H.
  destruct (first_null _ 0) as [fd|] eqn:Hfd; [|inversion H; subst; left; by_eval].
  apply first_null_spec in Hfd as (k & -> & Hk).
  apply lookup_take_Some in Hk as [Hk Hk32].
  destruct m1; simpl in H; [|inversion H; subst; left; by_eval].
  apply bind_Ret_inv in H as (slot & _ & H).
  apply bind_Ret_inv in H as (o & Ho & H).
  destruct o as [[a s1]|]; [|inversion H; subst; left; by_eval].
  assert (Htbl : openFileDescTable s1 = openFileDescTable s).
  { destruct slot; [by inversion Ho|]. destruct m2; simpl in Ho; [|done].
    apply bind_Ret_inv in Ho as (u & _ & Ho). by inversion Ho. }
  apply bind_Ret_inv in H as (v & _ & H). apply bind_Ret_inv in H as (e & _ & H).
  inversion H; subst; clear H. right. simpl.
  replace (Z.to_nat (0 + Z.of_nat k)) with k by lia. rewrite Htbl.
  split; [lia|]. split; [done|]. eauto.
Qed.

Lemma sfs_open_descs nm m1 m2 s r s' :
  sfs_open nm m1 m2 s = Ret (r, s') →
  (r < 0 ∧ openFileDescTable s' = openFileDescTable s) ∨
  (0 ≤ r ∧ openFileDescTable s !! Z.to_nat r = Some None ∧
   ∃ t, openFileDescTable s' = <[Z.to_nat r := Some t]> (openFileDescTable s)).
Proof.
  intros H. unfold sfs_open in H.
  destruct (decide _) in H; [inversion H; subst; left; by_eval|].
  destruct (decide (getSFSStatus s < 0)); [inversion H; subst; left; by_eval|].
  apply bind_Ret_inv in H as (d & Hd & H).
  apply bind_Ret_inv in H as (sc & Hsc & H).
  destruct sc as [j|e0].
  { apply addOpenFileEntry_descs in H as [[? ->]|?]; [by left|by right]. }
  destruct (decide (e0 = -1)); [inversion H; subst; left; by_eval|].
  unfold createFile in H.
  apply bind_Ret_inv in H as (d0 & _ & H).
  apply bind_Ret_inv in H as ([x d1] & Hal & H).
  destruct (decide (x = 0)); [inversion H; subst; left; by_eval|].
  apply bind_Ret_inv in H as (u & _ & H). apply bind_Ret_inv in H as (ex & _ & H).
  apply addOpenFileEntry_descs in H as [[? ->]|?]; [by left|by right].
Qed.

Lemma sfs_close_descs fd s s' :
  sfs_close fd s = Ret s' →
  ∀ k, k ≠ Z.to_nat fd ∨ fd < 0 → openFileDescTable s' !! k = openFileDescTable s !! k.
Proof.
  unfold sfs_close. intros H k Hk.
  destruct (decide (fd < 0 ∨ fd > OPEN_FILE_LIMIT)) as [|Hfd]; [by inversion H; subst|].
  destruct Hk as [Hk|?]; [|lia].
  apply bind_Ret_inv in H as (o & Ho & H).
  destruct o as [t|]; [|by inversion H; subst].
  apply bind_Ret_inv in H as (v & Hv & H).
  destruct (decide _) in H.
  - inversion H; subst. simpl. by rewrite list_lookup_insert_ne.
  - apply bind_Ret_inv in H as (o' & _ & H). inversion H; subst. simpl.
    by rewrite list_lookup_insert_ne.
Qed.

(** The descriptors of the history stay in use. *)
Lemma known_step pagesize c s g r out s' :
  sim s g → known s g → step pagesize c s = Ret (r, out, s') → known s' (record c r g).
Proof.
  intros Hsim Hk H. destruct c; simpl in H.
  - apply bind_Ret_inv in H as ([r0 s0] & H0 & H). inversion H; subst.
    eapply known_same; [by eapply sfs_format_tables| |done].
    simpl. by destruct (decide _).
  - apply bind_Ret_inv in H as ([r0 s0] & H0 & H). inversion H; subst.
    eapply known_same; [by eapply sfs_mount_tables| |done].
    simpl. by destruct (decide _).
  - apply bind_Ret_inv in H as ([r0 s0] & H0 & H). inversion H; subst.
    eapply known_same; [by eapply sfs_unmount_tables| |done]. done.
  - apply bind_Ret_inv in H as ([r0 s0] & H0 & H). inversion H; subst.
    apply sfs_open_descs in H0 as [[Hr Htbl]|(Hr & Hfree & t & Htbl)].
    + intros fd x Hfd. rewrite Htbl. apply (Hk fd x). simpl in Hfd.
      destruct (g_cur g); [|done]. by rewrite decide_False in Hfd by lia.
    + intros fd x Hfd. rewrite Htbl. simpl in Hfd.
      assert (Hold : g_fds g fd = Some x →
                0 ≤ fd ∧ ∃ t0, <[Z.to_nat r := Some t]> (openFileDescTable s) !! Z.to_nat fd
                               = Some (Some t0)).
      { intros Hg. destruct (Hk fd x Hg) as (Hpos & t0 & Ht0). split; [done|].
        exists t0. rewrite list_lookup_insert_ne; [done|]. intros Heq.
        rewrite Heq in Hfree. congruence. }
      destruct (g_cur g); [|by apply Hold]. rewrite decide_True in Hfd by done.
      simpl in Hfd. unfold upd_fd in Hfd.
      destruct (decide (fd = r)) as [->|Hne]; [|by apply Hold].
      split; [done|]. exists t. apply list_lookup_insert_eq. by apply lookup_lt_Some in Hfree.
  - apply bind_Ret_inv in H as (s0 & H0 & H). inversion H; subst.
    intros fd' x Hfd'. simpl in Hfd'. unfold upd_fd in Hfd'.
    destruct (decide (fd' = fd)) as [->|Hne]; [done|].
    destruct (Hk fd' x Hfd') as (Hpos & t & Ht). split; [done|]. exists t.
    rewrite (sfs_close_descs _ _ _ H0); [done|].
    destruct (decide (fd < 0)); [by right|left; lia].
  - intros fd' x Hfd'.
    assert (Hg : g_fds g fd' = Some x ∨ (fd' = fd ∧ is_Some (g_fds g fd))).
    { simpl in Hfd'. destruct (g_fds g fd) as [[[p nm] pos]|] eqn:E; [|by left].
      destruct (decide (0 ≤ r)); [|by left]. simpl in Hfd'. unfold upd_fd in Hfd'.
      destruct (decide (fd' = fd)) as [->|]; [right; eauto|by left]. }
    assert (∃ y, g_fds g fd' = Some y) as [y Hy].
    { destruct Hg as [?|[-> [y Hy]]]; eauto. }
    destruct (Hk fd' y Hy) as (Hpos & t & Ht). split; [done|].
    eapply same_tables_in_use; [by eapply sfs_read_tables|done].
  - apply bind_Ret_inv in H as ([r0 s0] & H0 & H). inversion H; subst.
    intros fd' x Hfd'.
    assert (Hg : g_fds g fd' = Some x ∨ (fd' = fd ∧ is_Some (g_fds g fd))).
    { simpl in Hfd'. destruct (g_fds g fd) as [[[p nm] pos]|] eqn:E; [|by left].
      destruct (decide (0 ≤ r)); [|by left]. simpl in Hfd'. unfold upd_fd in Hfd'.
      destruct (decide (fd' = fd)) as [->|]; [right; eauto|by left]. }
    assert (∃ y, g_fds g fd' = Some y) as [y Hy].
    { destruct Hg as [?|[-> [y Hy]]]; eauto. }
    destruct (Hk fd' y Hy) as (Hpos & t & Ht). split; [done|].
    eapply same_tables_in_use; [by eapply sfs_write_tables|done].
  - by inversion H; subst.
  - by inversion H; subst.
  - apply bind_Ret_inv in H as ([r0 s0] & H0 & H). inversion H; subst.
    eapply known_same; [by eapply sfs_remove_tables| |done].
    simpl. destruct (g_cur g); [|done]. by destruct (decide _).
  - by inversion H; subst.
  - apply bind_Ret_inv in H as ([[r0 ck] o] & H0 & H). by inversion H; subst.
Qed.

Lemma file_bytes_length d fl cl i e c :
  wf_image d fl cl → files (super d) !! i = Some e → cl !! i = Some c →
  first_block e ≠ 0 → length (file_bytes d e c) = Z.to_nat (size e).
Proof.
  intros Hwf He Hc Hfirst.
  destruct (wf_file_blocks _ _ _ _ _ _ Hwf He Hc Hfirst) as (_ & Hfb & _ & Hlen & Hsz).
  unfold file_bytes. rewrite length_take, (chain_data_length _ _ Hfb).
  pose proof (roundUp_bounds (size e) ltac:(pow_norm; lia)) as [Hb _]. lia.
Qed.

(** A call on a descriptor of the history is served. *)
Lemma served_step pagesize c s g r out s' :
  sim s g → known s g → call_ok c →
  step pagesize c s = Ret (r, out, s') → call_served c r out g.
Proof.
  intros Hsim Hk Hok H. destruct c; try done; simpl in H, Hok.
  - (* read *)
    intros p nm pos Hg. destruct (Hk fd _ Hg) as (Hpos & t & Ho).
    pose proof H as H0. unfold sfs_read in H.
    assert (Hfd32 : fd < OPEN_FILE_LIMIT).
    { apply lookup_lt_Some in Ho. rewrite (ti_len_descs _ (sim_tables _ _ Hsim)) in Ho. lia. }
    rewrite decide_False in H by lia. rewrite Ho in H. simpl in H.
    apply bind_Ret_inv in H as (v & Hv & H). apply deref_Ret in Hv.
    apply bind_Ret_inv in H as (e & He & H). clear H.
    assert (∃ d, diskBlocks s = Some d) as [d Hd].
    { unfold diskFile_get in He. destruct (diskBlocks s); [eauto|done]. }
    destruct (desc_facts s g d _ t v e Hsim Hd Ho Hv He)
      as (fl & cl & c & Hvol & _ & _ & Hcur & Hdf & [Hfe Hl] & Hc & Hp & Hblk & Hg').
    rewrite Z2Nat.id in Hg' by lia. rewrite Hg in Hg'. inversion Hg'; subst p nm pos.
    destruct (sfs_read_spec s d fl cl fd t _ v e c len Hd (vr_wf _ _ _ _ Hvol) ltac:(lia) Ho Hv
                Hdf Hfe Hl Hc Hp Hblk ltac:(lia)) as (rb & Hrun & _).
    rewrite Hrun in H0. inversion H0; subst; clear H0.
    rewrite (vr_data _ _ _ _ Hvol _ e c (conj Hfe Hl) Hc). done.
  - (* write *)
    apply bind_Ret_inv in H as ([r0 s0] & H & Heq). inversion Heq; subst; clear Heq.
    intros p nm pos Hg. destruct (Hk fd _ Hg) as (Hpos & t & Ho).
    pose proof H as H0. unfold sfs_write in H.
    assert (Hfd32 : fd < OPEN_FILE_LIMIT).
    { apply lookup_lt_Some in Ho. rewrite (ti_len_descs _ (sim_tables _ _ Hsim)) in Ho. lia. }
    rewrite decide_False in H by lia. rewrite Ho in H. simpl in H.
    apply bind_Ret_inv in H as (v & Hv & H). apply deref_Ret in Hv.
    apply bind_Ret_inv in H as (e & He & H). clear H.
    assert (∃ d, diskBlocks s = Some d) as [d Hd].
    { unfold diskFile_get in He. destruct (diskBlocks s); [eauto|done]. }
    destruct (desc_facts s g d _ t v e Hsim Hd Ho Hv He)
      as (fl & cl & c & Hvol & _ & _ & Hcur & Hdf & [Hfe Hl] & Hc & Hp & Hblk & Hg').
    rewrite Z2Nat.id in Hg' by lia. rewrite Hg in Hg'. inversion Hg'; subst p nm pos.
    pose proof (sfs_write_spec s d fl cl fd t _ v e c buf Hd (vr_wf _ _ _ _ Hvol)
                  ltac:(lia) Ho Hv Hdf Hfe Hl Hc Hp Hblk Hok) as Hspec.
    cbv zeta in Hspec |- *.
    destruct (decide _) as [Hbig|Hfit] in Hspec.
    { rewrite Hspec in H0. inversion H0; subst. right. left. done. }
    destruct (decide _) as [Hshort|Hroom] in Hspec.
    { rewrite Hspec in H0. inversion H0; subst. right. right. split; [done|].
      rewrite <- (vr_data _ _ _ _ Hvol _ e c (conj Hfe Hl) Hc).
      rewrite (file_bytes_length _ _ _ _ _ _ (vr_wf _ _ _ _ Hvol) Hfe Hc Hl).
      pose proof (wf_file_blocks _ _ _ _ _ _ (vr_wf _ _ _ _ Hvol) Hfe Hc Hl)
        as (_ & _ & _ & _ & Hsz).
      rewrite Z2Nat.id by lia. unfold new_blocks in Hshort.
      destruct (decide _) in Hshort; [lia|simpl in Hshort; lia]. }
    destruct Hspec as (d' & rb & Hrun & _).
    rewrite Hrun in H0. inversion H0; subst. by left.
Qed.

Lemma served_run pagesize cs : ∀ s g rs s',
  sim s g → known s g → 512 < pagesize → Forall call_ok cs →
  run pagesize cs s = Ret (rs, s') → served cs rs g.
Proof.
  induction cs as [|c cs IH]; intros s g rs s' Hsim Hk Hpage Hok H; [done|].
  simpl in H. apply bind_Ret_inv in H as ([[r out] s1] & Hstep & H).
  apply bind_Ret_inv in H as ([rs' s2] & Hrun & H). inversion H; subst; clear H.
  apply Forall_cons in Hok as [Hc Hcs].
  destruct (sim_step _ _ _ _ _ _ _ Hsim Hpage Hc Hstep) as [_ Hsim1].
  simpl. split; [by eapply served_step|].
  eapply IH; [exact Hsim1| |done|done|exact Hrun]. by eapply known_step.
Qed.

(** C6: round trip.  Start the program on a host without volumes, with
    pages of more than 512 bytes, and make any sequence of calls.  The
    iteration bounds of the model are not reached; and if the calls all
    return, then every [sfs_read] that succeeds returns exactly the bytes
    that the writes made so far have put, last, at the offsets it covers
    in the file of its descriptor - whatever calls came between: closing,
    unmounting and mounting again, opening again, writes to other files -
    as long as the file was not removed and its volume not formatted
    anew, which empty it.  The calls do succeed: every [sfs_read] on a
    descriptor that an [sfs_open] returned and no [sfs_close] closed
    returns those bytes, and every [sfs_write] on such a descriptor
    returns the length of its buffer and is read back from then on,
    unless the file would pass the greatest file size or the volume has
    not the blocks to enlarge it. *)
Theorem round_trip pagesize cs :
  512 < pagesize → Forall call_ok cs →
  run pagesize cs (init_state ∅) ≠ Timeout ∧
  ∀ rs s, run pagesize cs (init_state ∅) = Ret (rs, s) →
    reads_ok cs rs history_init ∧ served cs rs history_init.
Proof.
  intros Hpage Hok. split.
  - eapply run_bounded; [apply sim_init|done|done].
  - intros rs s H. split.
    + eapply sim_run; [apply sim_init|done|done|exact H].
    + eapply served_run; [apply sim_init|apply known_init|done|done|exact H].
Qed.

(** Scenario: write, close, unmount, mount, open again, read. *)
Definition round_trip_calls : list call :=
  [Format "d" 4096 IoOk; Open [x61] true true; Write 0 (replicate 600 x62); Close 0;
   Unmount; Mount "d" IoOk; Open [x61] true true; Read 0 1000].

Definition round_trip_state : state :=
  match run 4096 round_trip_calls (init_state ∅) with
  | Ret (_, s) => s
  | _ => init_state ∅
  end.

(** In the scenario every call succeeds: the write returns 600, the mount
    0, and the read after the mount the 600 bytes written before it. *)
Lemma round_trip_witness :
  let rs := [(0, []); (0, []); (600, []); (0, []); (0, []); (0, []); (0, []);
             (600, replicate 600 x62)] in
  run 4096 round_trip_calls (init_state ∅) = Ret (rs, round_trip_state) ∧
  reads_ok round_trip_calls rs history_init ∧
  served round_trip_calls rs history_init.
Proof.
  intros rs.
  assert (Hrun : run 4096 round_trip_calls (init_state ∅) = Ret (rs, round_trip_state))
    by (vm_compute; reflexivity).
  split; [exact Hrun|].
  refine (proj2 (round_trip 4096 round_trip_calls _ _) rs round_trip_state Hrun).
  - lia.
  - repeat (apply Forall_cons; split;
      [first [exact I | vm_compute; first [reflexivity | split; [discriminate|reflexivity]]]|]).
    constructor.
Defined.
